(* ===== verification/_CoqProject ===== *)
-Q . S2P
Prelude.v
Text.v
Tokens.v
Protocol.v
Output.v
Args.v
Disk.v
Recorder.v
Entry.v
Wire.v
Order.v
Bounds.v
Scan.v
Capacity.v
Writes.v
Schedule.v
History.v
Excerpt.v
Store.v
Readers.v
DiskState.v
Claims.v
Edits.v
Sound.v
Enqueue.v
Lines.v
Reverse.v
Log.v
Pages.v
Append.v
Recovery.v
Completion.v
Frame.v
Faults.v
Resume.v
Life.v
Trace.v
Spec.v
Returns.v
Queue.v
Waits.v
Shared.v
Wakes.v
Concurrent.v
Worker.v
Listener.v
Replies.v
Metrics.v
Client.v
Supervisor.v
Supervise.v
Socket.v
Credentials.v
Startup.v
Process.v
TestSupport.v
Session.v
Commands.v
Told.v
Drain.v
Drive.v
Codec.v
Json.v
WireCodec.v
Samples.v
LifeSamples.v
DriveSamples.v
ToldSamples.v
ConcurrentSamples.v
Witnesses.v
SuperviseSamples.v
DrainSamples.v
