(* ===== verification/Prelude.v ===== *)
(** * Comenq: a verified model of the comment queue

    Comenq posts GitHub comments at a limited rate.  A client ([comenq]) talks over a
    Unix socket to a daemon ([comenqd]), which keeps a durable queue of comments and
    posts the head of it when the cooldown allows.  This library models the two
    programs in Rocq, definition by definition, and proves what makes them correct.

    ** The parts and how they interact

    The client parses its arguments, connects to the first socket that answers, sends
    one JSON request and prints the reply; [hist] follows page cursors and [await]
    follows a stream of frames.  The listener turns requests into
    operations of the shared queue; the shared queue serialises store work under a
    lock, caches one projection of the schedule for waiters and publishes a version
    after every mutation; the store keeps one file per entry, two time markers, an
    append-only history log, a completion record and deletion markers.  The worker
    claims the due head, posts it with the next token, and completes or releases it.
    The supervisor starts the listener and the worker and restarts them.

    ** Which file models which part

    - [Prelude], [Text]: machine integers with their saturation, lists measured in
      [Z], decimal and hexadecimal text, UTF-8, trimming.
    - [Protocol], [Wire]: [src/src/lib.rs], [src/src/protocol.rs]; messages and
      limits.  [serde_json] is the class [WireJson] with the laws [WireJsonOk].
    - [Disk]: the queue directory, I/O faults and crashes, the monad [M] of the store,
      and the Hoare-style predicates [runs] (every fault schedule) and [succeeds]
      (no faults).
    - [Entry], [Order], [Bounds], [Capacity], [Scan], [Writes]: [store.rs] and
      [store/bounds.rs]; identifiers, ordering, bounded scans, size accounting,
      atomic replacement.  [serde_json] on stored records is the class [SerdeJson]
      with the laws [SerdeJsonOk].
    - [Schedule], [Store]: [store/scheduling.rs], [store/completion.rs],
      [store/await_deletions.rs], [store/await_lookup.rs] and the rest of [store.rs].
    - [History], [Excerpt], [Lines], [Reverse], [Log], [Pages], [Append]:
      [store/history.rs], [store/history/recent.rs], [store/history/record.rs];
      records and their bounded error texts, appends, pages, the reverse scan.
    - [Readers], [DiskState], [Claims], [Edits], [Enqueue], [Recovery], [Completion]:
      the behaviour of each store operation without faults and the invariant of the
      directory; [Sound], [Faults], [Resume]: the same under faults and crashes;
      [Frame]: what a completion leaves of the log.
    - [Trace]: executions of the store as a step relation.  [Life]: the directory
      through failing calls, dying processes and restarts, with clients and a worker.
      [Spec]: the abstract queue that the store refines.  [Returns]: every operation
      of the store answers.
    - [Queue], [Shared], [Concurrent]: [queue.rs], [queue/store_access.rs],
      [queue/history.rs], [queue/await_lookup.rs], its refinement to the store, and
      calls that run at the same time.
    - [Tokens], [Waits], [Worker], [Wakes], [Drain]: [worker.rs], [worker/tokens.rs]; the
      waits and the request to GitHub on the monotonic clock, the loop, its
      notifications, whole runs.
    - [Recorder]: [metrics.rs], [metrics/duration.rs]; the samples that are recorded.
    - [Listener], [Replies], [Metrics], [Told]: [listener/protocol.rs],
      [listener/connection.rs], [listener/await_handler.rs]; requests, replies,
      the streams of waiters.
    - [Socket]: [listener.rs].
    - [Supervisor], [Supervise]: [supervisor.rs]; the restart loop over the outcomes
      of the task, and the same loop poll by poll with its waits, the two supervised
      tasks and the signals; the second refines the first.
    - [Credentials], [Startup], [Process]: [config.rs], [config/], [daemon.rs] and
      [main.rs]; the layers of the configuration, tokens, the start of the daemon, the
      process and its exit status.
    - [TestSupport]: [test-support/]; environment guards, the workflow checks, the
      waits and the configuration the tests are written with.
    - [Output], [Args], [Client], [Session], [Commands], [Drive]:
      [comenq/src/output.rs], [comenq/src/lib.rs], [comenq-transport/src/lib.rs],
      [comenq/src/client.rs], [comenq/src/client/await_stream.rs],
      [comenq/src/main.rs]; the last three run the client against the listener.
    - [Codec], [Json], [WireCodec]: concrete codecs with the layout of [serde_json],
      which satisfy the laws; [Samples], [LifeSamples], [DriveSamples],
      [ToldSamples], [ConcurrentSamples], [Witnesses], [SuperviseSamples],
      [DrainSamples]: concrete stores, messages and runs to which the theorems with
      hypotheses are applied.

    A store operation is a function [world -> outcome * world]; a world is the disk, a
    schedule of faults (one per system call: succeed, fail, or die, possibly after
    part of a write) and a supply of UUIDs.  A queue operation adds the cache, the
    version, the clock and the worker's permit.  What other tasks do between two lock
    acquisitions is an arbitrary sequence of calls ([Shared.ran]); a system of calls
    that interleave their phases is [Concurrent.sys_step].  A task that waits is
    a function of its polls: the time that passed, what other tasks did, whether
    shutdown was signalled ([Waits.poll]).  Wall-clock time is [u64] seconds, instants
    are nanoseconds of the monotonic clock, durations of the supervisor are
    milliseconds.  The state of [Life] is the disk, the clock, whether the process and
    its worker run and what the worker holds; each of its steps is one operation of
    the store with a schedule of faults.

    ** What the theorems show

    - Posts happen once: completing a post survives failures, crashes, restarts and
      concurrent edits ([completion_exactly_once], [append_once_adds_one_record],
      [replacement_is_atomic], [restart_finishes_the_post]).
    - Whatever fails: through any sequence of client requests, worker steps, failing
      calls, crashes and restarts the directory can be recovered, queued comments stay
      queued, attempts are committed and postings are spaced
      ([crashes_are_recoverable], [nothing_is_lost], [attempts_are_committed],
      [postings_are_spaced]).
    - The store is an abstract queue, and the commands of the client drive it
      ([store_refines_the_abstract_queue], [commands_drive_the_queue],
      [schedule_is_earliest]).
    - The worker keeps the cooldown between posts and after failures, and sleeps
      through no change ([worker_spaces_postings], [failed_posts_are_paced],
      [changes_wake_the_worker]); while GitHub accepts, it posts the whole queue in
      order with the tokens in rotation ([worker_empties_the_queue]).
    - Waiters sleep through no change either, are told their wait and then the post,
      whatever else happens to the queue, and see what [list] shows ([waiters_are_woken], [posts_are_announced], [await_agrees_with_list]).
    - Updates of queued entries always fit, admissions are checked, error texts are cut
      ([updates_always_fit], [put_appends], [put_refusal_changes_nothing],
      [stored_errors_are_bounded]).
    - Each call of the shared queue is its own operation of the store, concurrent callers
      see one abstract queue and are never stuck, and waiters are answered for one state
      that their lookup visited
      ([shared_queue_refines_store], [concurrent_calls_see_one_queue],
      [await_lookup_is_atomic]).
    - Every operation does what it promises on every branch ([claim_takes_the_due_head],
      [release_returns_the_claim], [del_removes_one_entry], [bump_moves_to_the_head],
      [bust_moves_to_the_tail], [recovery_releases_claims],
      [open_clears_stale_markers], [waiters_see_the_post]).
    - The history is paged without loss and looked up backwards exactly
      ([pages_return_every_record], [pages_ignore_later_appends],
      [recent_page_is_the_tail], [lookup_finds_the_newest_completion]).
    - Replies and streams are bounded and well formed, samples carry exact labels, and
      the client prints what the daemon holds ([history_reply_loses_nothing],
      [await_streams_are_well_formed], [labels_are_exact], [list_prints_the_queue],
      [hist_prints_the_log], [await_ends_with_the_answer], [rendered_lines_are_safe]).
    - The daemon starts with usable credentials, a private socket and a clean queue,
      restarts a failed task after its delay, keeps the queue sound while its tasks use
      it, and stops on a signal
      ([resolved_pool_is_usable], [socket_is_never_exposed], [daemon_starts_clean],
      [restarts_are_paced], [restarts_wait_their_delay], [signals_stop_the_daemon],
      [daemon_runs_until_told]).
    - The guards of the tests restore what they found and the workflow check demands
      pinned actions ([guards_restore], [workflow_is_pinned]).
    - Rendered lines hold no control characters and no line or paragraph separators;
      other characters, such as bidirectional overrides, are printed as they are.
    - Five theorems record where the code falls short: [scans_disagree_at_the_limit],
      [bump_saturates], [refused_reads_hide_claims], [other_values_are_lost] and
      [long_delay_becomes_zero], the last two in the test support.

    ** Fuel and bounds

    Loops over the history are bounded by the bytes they read ([line_fuel],
    [pages_return_every_record] and [hist_prints_the_log] need one page per byte at
    most); the search for a free identifier takes its number of salts as an argument
    and [put_appends] names the one it uses; a wait, a worker run and an accept loop
    are driven by the list of their events.  Running out of fuel is the outcome
    [Diverged], and the theorems about results exclude it.

    ** Not modelled

    The set-up of logging ([logging.rs]), the text of log messages that no theorem
    needs, and the recorder behind the metrics; the argument grammar ([clap]) and the
    parsing of the configuration file and the environment ([ortho-config], [figment]),
    whose results are arguments; the HTTP client ([octocrab]), whose answer is an argument of a turn;
    SHA-256, UUIDs, the timers of [tokio], the backoff of [backon] and the order of
    directory listings, which are classes with their documented laws; the random
    source of the flutter; the test hooks of the worker, the fixtures that start HTTP
    servers and [octocrab] clients, and the vendored crate.

    A crash is the death of the process: the effect of every call that returned stays,
    so the calls that flush files and directories change nothing, and the loss of power
    is not modelled.  A frame or a reply whose write fails is not sent at all, where the
    code may have sent a part of it.  The queue directory exists: [create_dir_all] may
    fail and does nothing else.  [UnixListener::bind] is one call, which creates the
    socket or fails.  The delays of the supervisor are whole milliseconds.  The branch of
    [handle_client_inner] that serves [await] is part of [handle_client_with_control].
    The samples of metrics are returned beside the results, and not kept in the queue.
    A posting of [Worker] carries, for the theorems only, whether the attempt left its
    time in the store.

    Completing a post assumes that nothing unreadable was put under the entry's file
    name from outside.  A failed post whose entry is deleted or replaced before its claim
    is released leaves no time on the disk: [worker_spaces_postings] excepts it, and
    [failed_posts_are_paced] holds of it too.
    In [Concurrent] a reader, which changes nothing but the cache, is one step, and the
    identifier of a failure record is drawn with its store work. *)

From Stdlib Require Export ZArith Lia Ascii.
From stdpp Require Export base tactics numbers list gmap strings sorting.

Open Scope Z_scope.
#[export] Set Default Goal Selector "!".

(** * Machine integers

    The daemon computes on [u64] timestamps and sizes and on the [i64]
    ordering key, always with the saturating operations of the standard
    library.  They are kept as [Z] with the clamping written out. *)

Definition U64_MAX : Z := 18446744073709551615.
Definition I64_MIN : Z := -9223372036854775808.
Definition I64_MAX : Z := 9223372036854775807.

(** [u64::saturating_add] and [u64::saturating_sub]. *)
Definition sat_add (a b : Z) : Z := Z.min (a + b) U64_MAX.
Definition sat_sub (a b : Z) : Z := Z.max (a - b) 0.

(** [i64::saturating_add] and [i64::saturating_sub]. *)
Definition i64_sat_add (a b : Z) : Z := Z.max I64_MIN (Z.min (a + b) I64_MAX).
Definition i64_sat_sub (a b : Z) : Z := Z.max I64_MIN (Z.min (a - b) I64_MAX).

(** [u64::wrapping_mul]. *)
Definition wrapping_mul (a b : Z) : Z := (a * b) mod 2 ^ 64.

Definition is_u64 (z : Z) : Prop := 0 <= z <= U64_MAX.
Definition is_i64 (z : Z) : Prop := I64_MIN <= z <= I64_MAX.

#[global] Instance is_u64_dec z : Decision (is_u64 z).
Proof. unfold is_u64. apply _. Defined.
#[global] Instance is_i64_dec z : Decision (is_i64 z).
Proof. unfold is_i64. apply _. Defined.

(** [machine] closes linear goals about machine integers. *)
Ltac machine :=
  unfold sat_add, sat_sub, i64_sat_add, i64_sat_sub, is_u64, is_i64,
    U64_MAX, I64_MIN, I64_MAX in *; lia.

Create HintDb machine.
Create Rewrite HintDb zlen.

Lemma sat_add_u64 a b : is_u64 a -> is_u64 b -> is_u64 (sat_add a b).
Proof. machine. Qed.
Lemma sat_sub_u64 a b : is_u64 a -> is_u64 b -> is_u64 (sat_sub a b).
Proof. machine. Qed.
Lemma i64_sat_add_i64 a b : is_i64 (i64_sat_add a b).
Proof. machine. Qed.
Lemma i64_sat_sub_i64 a b : is_i64 (i64_sat_sub a b).
Proof. machine. Qed.
Lemma max_u64 a b : is_u64 a -> is_u64 b -> is_u64 (Z.max a b).
Proof. machine. Qed.
Lemma sat_add_mono a b c : a <= b -> sat_add a c <= sat_add b c.
Proof. machine. Qed.
#[export] Hint Resolve sat_add_u64 sat_sub_u64 i64_sat_add_i64 i64_sat_sub_i64
  max_u64 : machine.

(** * Bytes and byte strings

    A Rust [String] is kept as its UTF-8 bytes in a Rocq [string]; the content
    of a file is a list of bytes. *)

Abbreviation bytes := (list ascii).

Definition zlen {A} (l : list A) : Z := Z.of_nat (length l).
Definition zstrlen (s : string) : Z := Z.of_nat (String.length s).

Definition bytes_of (s : string) : bytes := String.list_ascii_of_string s.
Definition string_of (b : bytes) : string := String.string_of_list_ascii b.

Lemma zlen_nonneg {A} (l : list A) : 0 <= zlen l.
Proof. unfold zlen; lia. Qed.
Lemma zlen_app {A} (l k : list A) : zlen (l ++ k) = zlen l + zlen k.
Proof. unfold zlen; rewrite length_app; lia. Qed.
Lemma zlen_nil {A} : zlen (@nil A) = 0.
Proof. reflexivity. Qed.
Lemma zlen_cons {A} (x : A) l : zlen (x :: l) = 1 + zlen l.
Proof. unfold zlen; simpl; lia. Qed.
#[export] Hint Rewrite @zlen_app @zlen_nil @zlen_cons : zlen.
#[export] Hint Resolve zlen_nonneg : machine.

Lemma bytes_of_length s : length (bytes_of s) = String.length s.
Proof. induction s as [|c s IH]; [done|]. cbn. f_equal. exact IH. Qed.
Lemma string_of_bytes_of s : string_of (bytes_of s) = s.
Proof. apply String.string_of_list_ascii_of_string. Qed.
Lemma bytes_of_string_of b : bytes_of (string_of b) = b.
Proof. apply String.list_ascii_of_string_of_list_ascii. Qed.
Lemma bytes_of_app s t : bytes_of (s +:+ t) = bytes_of s ++ bytes_of t.
Proof.
  induction s as [|c s IH]; [done|].
  change (c :: bytes_of (s +:+ t) = c :: bytes_of s ++ bytes_of t). by rewrite IH.
Qed.

(** The first [n] elements, and the rest, with a machine-integer count. *)
Fixpoint ztake {A} (n : Z) (l : list A) : list A :=
  match l with
  | [] => []
  | x :: r => if n <=? 0 then [] else x :: ztake (n - 1) r
  end.
Fixpoint zdrop {A} (n : Z) (l : list A) : list A :=
  match l with
  | [] => []
  | x :: r => if n <=? 0 then l else zdrop (n - 1) r
  end.

Lemma ztake_take {A} n (l : list A) : ztake n l = take (Z.to_nat n) l.
Proof.
  revert n. induction l as [|x l IH]; intros n; simpl; [by rewrite take_nil|].
  destruct (Z.leb_spec n 0); [by rewrite Z2Nat.nonpos|].
  replace (Z.to_nat n) with (S (Z.to_nat (n - 1))) by lia. simpl. by rewrite IH.
Qed.
Lemma zdrop_drop {A} n (l : list A) : zdrop n l = drop (Z.to_nat n) l.
Proof.
  revert n. induction l as [|x l IH]; intros n; simpl; [by rewrite drop_nil|].
  destruct (Z.leb_spec n 0); [by rewrite Z2Nat.nonpos|].
  replace (Z.to_nat n) with (S (Z.to_nat (n - 1))) by lia. simpl. by rewrite IH.
Qed.
Lemma ztake_all {A} n (l : list A) : zlen l <= n -> ztake n l = l.
Proof. intros Hn. rewrite ztake_take. apply take_ge. unfold zlen in Hn. lia. Qed.

(** Sums of sizes. *)
Definition zsum (l : list Z) : Z := foldr Z.add 0 l.

Lemma zsum_app l k : zsum (l ++ k) = zsum l + zsum k.
Proof. induction l; simpl; lia. Qed.
#[global] Instance zsum_proper : Proper ((≡ₚ) ==> (=)) zsum.
Proof. induction 1; simpl; lia. Qed.
Lemma zsum_nonneg l : Forall (fun z => 0 <= z) l -> 0 <= zsum l.
Proof. induction 1; simpl; lia. Qed.
Lemma zsum_bound n l : Forall (fun z => z <= n) l -> zsum l <= n * zlen l.
Proof. induction 1; rewrite ?zlen_cons; simpl; [unfold zlen; simpl|]; lia. Qed.
#[global] Instance zlen_proper {A} : Proper ((≡ₚ) ==> (=)) (@zlen A).
Proof. intros l k Hlk. unfold zlen. by rewrite Hlk. Qed.

(** Filters that agree on a list, and filters that keep all of it. *)
Lemma filter_agree {A} (P Q : A -> Prop) `{!forall x, Decision (P x)} `{!forall x, Decision (Q x)} (l : list A) :
  (forall x, x ∈ l -> P x <-> Q x) -> filter P l = filter Q l.
Proof.
  induction l as [|x l IH]; intros Hl; [done|]. rewrite !filter_cons.
  rewrite IH by (intros y Hy; by apply Hl; right).
  rewrite (decide_ext (P x) (Q x)) by (apply Hl; left). done.
Qed.
Lemma filter_keeps {A} (P : A -> Prop) `{!forall x, Decision (P x)} (l : list A) :
  (forall x, x ∈ l -> P x) -> filter P l = l.
Proof.
  induction l as [|x l IH]; intros Hl; [done|]. rewrite filter_cons, decide_True by (apply Hl; left).
  rewrite IH by (intros y Hy; by apply Hl; right). done.
Qed.

Lemma omap_shorter {A B} (f : A -> option B) (l : list A) : (length (omap f l) <= length l)%nat.
Proof. induction l as [|x l IH]; cbn; [lia|]. destruct (f x); cbn; lia. Qed.

(** * Results

    [Result<T, E>] as a sum: the error on the left, as [sum E T]. *)

Abbreviation result E A := (sum E A).
Abbreviation Err := inl.
Abbreviation Ok := inr.
