(* ===== verification/Text.v ===== *)
(** Text primitives of the Rust standard library that the daemon and the client
    use: decimal and hexadecimal rendering, [str::parse::<u64>], UTF-8
    validation, [str::trim] and the ASCII byte classes. *)

From S2P Require Import Prelude.

(** * Bytes *)

Definition code (c : ascii) : Z := Z.of_N (N_of_ascii c).
Definition byte_of (z : Z) : ascii := ascii_of_N (Z.to_N z).

Lemma code_range c : 0 <= code c < 256.
Proof.
  unfold code. pose proof (N_ascii_bounded c). lia.
Qed.
Lemma byte_of_code c : byte_of (code c) = c.
Proof. unfold byte_of, code. rewrite N2Z.id. apply ascii_N_embedding. Qed.
Lemma code_byte_of z : 0 <= z < 256 -> code (byte_of z) = z.
Proof. intros. unfold byte_of, code. rewrite N_ascii_embedding; lia. Qed.
Lemma code_inj a b : code a = code b -> a = b.
Proof. intros H. rewrite <- (byte_of_code a), <- (byte_of_code b). by f_equal. Qed.

Definition NEWLINE : ascii := byte_of 10.

(** [u8::is_ascii_whitespace]: space, tab, line feed, form feed, return. *)
Definition is_ascii_whitespace (c : ascii) : bool :=
  let x := code c in
  (x =? 32) || (x =? 9) || (x =? 10) || (x =? 12) || (x =? 13).

(** [u8::is_ascii_digit], [u8::is_ascii_hexdigit], [u8::is_ascii_alphanumeric]. *)
Definition is_ascii_digit (c : ascii) : bool := (48 <=? code c) && (code c <=? 57).
Definition is_ascii_hexdigit (c : ascii) : bool :=
  is_ascii_digit c || ((65 <=? code c) && (code c <=? 70))
  || ((97 <=? code c) && (code c <=? 102)).
Definition is_ascii_alphanumeric (c : ascii) : bool :=
  is_ascii_digit c || ((65 <=? code c) && (code c <=? 90))
  || ((97 <=? code c) && (code c <=? 122)).
(** [u8::to_ascii_lowercase]. *)
Definition to_ascii_lowercase (c : ascii) : ascii :=
  if (65 <=? code c) && (code c <=? 90) then byte_of (code c + 32) else c.

(** * Decimal rendering: [u64::to_string] and [i64::to_string] *)

Definition digit (z : Z) : ascii := byte_of (48 + z).

Fixpoint dec_digits (fuel : nat) (n : Z) (acc : bytes) : bytes :=
  match fuel with
  | O => acc
  | S fuel =>
      let acc := digit (n mod 10) :: acc in
      if n <? 10 then acc else dec_digits fuel (n / 10) acc
  end.

(** Twenty digits are enough for every [u64] ([dec_digits_value]). *)
Definition u64_to_bytes (n : Z) : bytes := dec_digits 20 n [].
Definition u64_to_string (n : Z) : string := string_of (u64_to_bytes n).
Definition i64_to_bytes (n : Z) : bytes :=
  if n <? 0 then byte_of 45 :: u64_to_bytes (- n) else u64_to_bytes n.
Definition i64_to_string (n : Z) : string := string_of (i64_to_bytes n).

(** * [str::parse::<u64>] on the characters of a string *)

Inductive IntErrorKind := IntEmpty | InvalidDigit | PosOverflow.

Definition to_digit (c : Z) : option Z :=
  if (48 <=? c) && (c <=? 57) then Some (c - 48) else None.

Fixpoint parse_digits (acc : Z) (cs : list Z) : result IntErrorKind Z :=
  match cs with
  | [] => Ok acc
  | c :: cs =>
      match to_digit c with
      | None => Err InvalidDigit
      | Some d =>
          if acc * 10 + d <=? U64_MAX then parse_digits (acc * 10 + d) cs
          else Err PosOverflow
      end
  end.

Definition parse_u64 (cs : list Z) : result IntErrorKind Z :=
  match cs with
  | [] => Err IntEmpty
  | [c] => match to_digit c with Some d => Ok d | None => Err InvalidDigit end
  | c :: rest => if c =? 43 then parse_digits 0 rest else parse_digits 0 cs
  end.

(** * UTF-8 *)

Definition cont (c : ascii) : bool := (128 <=? code c) && (code c <=? 191).
Definition between (lo hi : Z) (c : ascii) : bool := (lo <=? code c) && (code c <=? hi).

(** Strict decoding, as [String::from_utf8] accepts it: no overlong form, no
    surrogate, nothing above U+10FFFF. *)
Fixpoint utf8_decode (b : bytes) : option (list Z) :=
  match b with
  | [] => Some []
  | b0 :: r0 =>
      let x0 := code b0 in
      if x0 <? 128 then cons x0 <$> utf8_decode r0
      else if (194 <=? x0) && (x0 <=? 223) then
        match r0 with
        | b1 :: r1 =>
            if cont b1 then cons ((x0 - 192) * 64 + (code b1 - 128)) <$> utf8_decode r1
            else None
        | _ => None
        end
      else if (224 <=? x0) && (x0 <=? 239) then
        match r0 with
        | b1 :: b2 :: r2 =>
            let lo := if x0 =? 224 then 160 else 128 in
            let hi := if x0 =? 237 then 159 else 191 in
            if between lo hi b1 && cont b2 then
              cons ((x0 - 224) * 4096 + (code b1 - 128) * 64 + (code b2 - 128))
                <$> utf8_decode r2
            else None
        | _ => None
        end
      else if (240 <=? x0) && (x0 <=? 244) then
        match r0 with
        | b1 :: b2 :: b3 :: r3 =>
            let lo := if x0 =? 240 then 144 else 128 in
            let hi := if x0 =? 244 then 143 else 191 in
            if between lo hi b1 && cont b2 && cont b3 then
              cons ((x0 - 240) * 262144 + (code b1 - 128) * 4096
                    + (code b2 - 128) * 64 + (code b3 - 128)) <$> utf8_decode r3
            else None
        | _ => None
        end
      else None
  end.

(** [char::is_whitespace]: the Unicode White_Space property. *)
Definition is_whitespace (c : Z) : bool :=
  ((9 <=? c) && (c <=? 13)) || (c =? 32) || (c =? 133) || (c =? 160) || (c =? 5760)
  || ((8192 <=? c) && (c <=? 8202)) || (c =? 8232) || (c =? 8233) || (c =? 8239)
  || (c =? 8287) || (c =? 12288).

Fixpoint trim_start (cs : list Z) : list Z :=
  match cs with
  | c :: rest => if is_whitespace c then trim_start rest else cs
  | [] => []
  end.
(** [str::trim]. *)
Definition trim (cs : list Z) : list Z := rev (trim_start (rev (trim_start cs))).

(** * Hexadecimal rendering: [format!("{:016x}")] *)

Definition hex_digit (z : Z) : ascii := if z <? 10 then byte_of (48 + z) else byte_of (87 + z).

(** [n] hexadecimal digits of [z], most significant first. *)
Fixpoint hex_digits (n : nat) (z : Z) : bytes :=
  match n with
  | O => []
  | S n => hex_digits n (z / 16) ++ [hex_digit (z mod 16)]
  end.

(** * Little-endian bytes: [u64::to_le_bytes] *)

Fixpoint le_bytes (n : nat) (z : Z) : bytes :=
  match n with
  | O => []
  | S n => byte_of (z mod 256) :: le_bytes n (z / 256)
  end.
Definition to_le_bytes (z : Z) : bytes := le_bytes 8 z.

(** * Properties *)

Lemma digit_code z : 0 <= z < 10 -> code (digit z) = 48 + z.
Proof. intros. unfold digit. apply code_byte_of. lia. Qed.

Lemma dec_digits_acc fuel n acc : dec_digits fuel n acc = dec_digits fuel n [] ++ acc.
Proof.
  revert n acc. induction fuel as [|fuel IH]; intros n acc; simpl; [done|].
  destruct (n <? 10); [done|].
  rewrite IH, (IH _ [_]). by rewrite <- app_assoc.
Qed.

Lemma dec_digits_length fuel n acc :
  (length (dec_digits fuel n acc) <= fuel + length acc)%nat.
Proof.
  revert n acc. induction fuel as [|fuel IH]; intros n acc; simpl; [lia|].
  destruct (n <? 10); simpl; [lia|]. specialize (IH (n / 10) (digit (n mod 10) :: acc)).
  simpl in IH. lia.
Qed.

Lemma dec_digits_nonempty fuel n acc : (0 < fuel)%nat -> dec_digits fuel n acc <> [].
Proof.
  destruct fuel as [|fuel]; [lia|]. intros _. simpl. destruct (n <? 10); [done|].
  rewrite dec_digits_acc. destruct (dec_digits fuel _ _); done.
Qed.

(** Every byte of a rendered number is an ASCII digit. *)
Lemma dec_digits_digits fuel n acc :
  Forall (fun c => is_ascii_digit c = true) acc ->
  Forall (fun c => is_ascii_digit c = true) (dec_digits fuel n acc).
Proof.
  revert n acc. induction fuel as [|fuel IH]; intros n acc Hacc; simpl; [done|].
  assert (Hd : is_ascii_digit (digit (n mod 10)) = true).
  { unfold is_ascii_digit. rewrite digit_code by (apply Z.mod_pos_bound; lia).
    pose proof (Z.mod_pos_bound n 10). lia. }
  destruct (n <? 10); [by constructor|].
  apply IH. by constructor.
Qed.

(** Reading the digits of [n] back on top of an accumulator. *)
Lemma parse_digits_app acc l k z :
  parse_digits acc l = Ok z -> parse_digits acc (l ++ k) = parse_digits z k.
Proof.
  revert acc. induction l as [|c l IH]; intros acc; simpl; [by intros [= ->]|].
  destruct (to_digit c); [|done]. destruct (_ <=? _); [|done]. apply IH.
Qed.

Lemma dec_digits_value fuel n :
  0 <= n < 10 ^ Z.of_nat fuel -> n <= U64_MAX ->
  parse_digits 0 (code <$> dec_digits fuel n []) = Ok n.
Proof.
  revert n. induction fuel as [|fuel IH]; intros n Hn Hmax.
  { simpl in *. f_equal. lia. }
  assert (Hm := Z.mod_pos_bound n 10 ltac:(lia)).
  assert (Htd : to_digit (code (digit (n mod 10))) = Some (n mod 10)).
  { unfold to_digit. rewrite digit_code by lia.
    destruct (_ && _) eqn:E; [f_equal; lia | lia]. }
  assert (Hdm := Z.div_mod n 10 ltac:(lia)).
  simpl dec_digits. destruct (Z.ltb_spec n 10) as [Hlt|Hge].
  - change (parse_digits 0 [code (digit (n mod 10))] = Ok n).
    simpl. rewrite Htd. rewrite Z.mod_small in * by lia.
    destruct (_ <=? _) eqn:E; [done | apply Z.leb_gt in E; lia].
  - rewrite dec_digits_acc, fmap_app.
    rewrite (parse_digits_app _ _ _ (n / 10)).
    + simpl. rewrite Htd. destruct (_ <=? _) eqn:E; [f_equal; lia|].
      apply Z.leb_gt in E; lia.
    + apply IH; [|apply Z.le_trans with n; [apply Z.div_le_upper_bound|]; lia].
      split; [apply Z.div_pos; lia|].
      apply Z.div_lt_upper_bound; [lia|].
      rewrite Nat2Z.inj_succ, Z.pow_succ_r in Hn by lia. lia.
Qed.

(** [n.to_string().parse()] gives [n] back, for every [u64]. *)
Lemma parse_u64_to_bytes n :
  is_u64 n -> parse_u64 (code <$> u64_to_bytes n) = Ok n.
Proof.
  intros Hn. unfold is_u64 in Hn.
  assert (Hv : parse_digits 0 (code <$> u64_to_bytes n) = Ok n)
    by (apply dec_digits_value; [unfold U64_MAX in *; simpl Z.of_nat|]; lia).
  assert (Hd : Forall (fun c => is_ascii_digit c = true) (u64_to_bytes n))
    by (apply dec_digits_digits; constructor).
  destruct (u64_to_bytes n) as [|c [|c' l]] eqn:E; simpl.
  - by apply (dec_digits_nonempty 20 n []) in E; [|lia].
  - simpl in Hv. destruct (to_digit (code c)); [|done]. by destruct (_ <=? _).
  - apply Forall_cons_1 in Hd as [Hc _]. unfold is_ascii_digit in Hc.
    destruct (Z.eqb_spec (code c) 43); [lia|]. exact Hv.
Qed.

Lemma utf8_decode_ascii b :
  Forall (fun c => code c < 128) b -> utf8_decode b = Some (code <$> b).
Proof.
  induction 1 as [|c b Hc _ IH]; simpl; [done|].
  destruct (Z.ltb_spec (code c) 128); [|lia]. by rewrite IH.
Qed.

Lemma trim_start_id cs : Forall (fun c => is_whitespace c = false) cs -> trim_start cs = cs.
Proof. destruct 1 as [|c cs Hc _]; simpl; [done|]. by rewrite Hc. Qed.

(** Trimming leaves a text without whitespace alone. *)
Lemma trim_id cs : Forall (fun c => is_whitespace c = false) cs -> trim cs = cs.
Proof.
  intros H. unfold trim. rewrite (trim_start_id cs) by done.
  rewrite trim_start_id; [apply rev_involutive|]. by apply Forall_rev.
Qed.

Lemma ascii_digit_char c :
  is_ascii_digit c = true -> code c < 128 /\ is_whitespace (code c) = false.
Proof. unfold is_ascii_digit, is_whitespace. intros. lia. Qed.

(** The marker text written for [n] reads back as [n]:
    [text.trim().parse()] after [n.to_string()]. *)
Lemma marker_round_trip n :
  is_u64 n ->
  exists cs, utf8_decode (u64_to_bytes n) = Some cs /\ parse_u64 (trim cs) = Ok n.
Proof.
  intros Hn.
  assert (Hd : Forall (fun c => is_ascii_digit c = true) (u64_to_bytes n))
    by (apply dec_digits_digits; constructor).
  exists (code <$> u64_to_bytes n). split.
  - apply utf8_decode_ascii. eapply Forall_impl; [exact Hd|].
    intros c Hc. by destruct (ascii_digit_char c Hc).
  - rewrite trim_id; [by apply parse_u64_to_bytes|].
    apply Forall_fmap. eapply Forall_impl; [exact Hd|].
    intros c Hc. by destruct (ascii_digit_char c Hc).
Qed.

(** Widths that the queue's byte accounting relies on. *)
Lemma u64_to_bytes_length n : 1 <= zlen (u64_to_bytes n) <= 20.
Proof.
  unfold zlen, u64_to_bytes. pose proof (dec_digits_length 20 n []).
  pose proof (dec_digits_nonempty 20 n [] ltac:(lia)).
  destruct (dec_digits 20 n []); simpl in *; [done|lia].
Qed.

Lemma dec_digits_short fuel k n :
  (k <= fuel)%nat -> 0 <= n < 10 ^ Z.of_nat k -> (0 < k)%nat ->
  (length (dec_digits fuel n []) <= k)%nat.
Proof.
  revert k n. induction fuel as [|fuel IH]; intros k n Hk Hn Hpos; simpl; [lia|].
  destruct (Z.ltb_spec n 10); simpl; [lia|].
  destruct k as [|[|k]]; [lia | simpl in Hn; lia |].
  rewrite dec_digits_acc, length_app. simpl.
  specialize (IH (S k) (n / 10) ltac:(lia)).
  enough (0 <= n / 10 < 10 ^ Z.of_nat (S k)) by (specialize (IH H0 ltac:(lia)); lia).
  split; [apply Z.div_pos; lia|]. apply Z.div_lt_upper_bound; [lia|].
  rewrite Nat2Z.inj_succ, Z.pow_succ_r in Hn by lia. lia.
Qed.

(** Twenty characters hold every [i64]: nineteen digits and a sign. *)
Lemma i64_to_bytes_length n : is_i64 n -> 1 <= zlen (i64_to_bytes n) <= 20.
Proof.
  intros Hn. unfold i64_to_bytes, is_i64, I64_MIN, I64_MAX in *.
  destruct (Z.ltb_spec n 0); [|apply u64_to_bytes_length].
  rewrite zlen_cons. pose proof (u64_to_bytes_length (- n)).
  enough (zlen (u64_to_bytes (- n)) <= 19) by lia.
  unfold zlen, u64_to_bytes.
  pose proof (dec_digits_short 20 19 (- n) ltac:(lia)) as H1.
  simpl Z.of_nat in H1. specialize (H1 ltac:(lia) ltac:(lia)). lia.
Qed.

Lemma hex_digits_length n z : length (hex_digits n z) = n.
Proof. revert z. induction n; intros z; simpl; [done|]. rewrite length_app, IHn. simpl. lia. Qed.

Lemma hex_digit_hex z : 0 <= z < 16 -> is_ascii_hexdigit (hex_digit z) = true.
Proof.
  intros. unfold hex_digit, is_ascii_hexdigit, is_ascii_digit.
  destruct (z <? 10) eqn:E; rewrite code_byte_of; lia.
Qed.

Lemma hex_digits_hex n z : Forall (fun c => is_ascii_hexdigit c = true) (hex_digits n z).
Proof.
  revert z. induction n; intros z; simpl; [constructor|].
  apply Forall_app; split; [apply IHn|]. repeat constructor.
  apply hex_digit_hex. apply Z.mod_pos_bound. lia.
Qed.
