(* ===== verification/Tokens.v ===== *)
(** Token rotation ([worker/tokens.rs]): the pool of authenticated clients and
    the choice of the next one from the hash the history recorded last. *)

From S2P Require Import Prelude Text.

(** The SHA-256 digest of the [sha2] crate is a parameter: 32 bytes. *)
Class Sha256 := { digest : bytes -> bytes }.
Class Sha256Ok `{Sha256} : Prop := { digest_length b : length (digest b) = 32%nat }.

(** Hex-encoded hash of a token value: [write!(hex, "{byte:02x}")] per byte. *)
Definition token_hash `{Sha256} (token : string) : string :=
  string_of (fold_left (fun hex byte => hex ++ hex_digits 2 (code byte)) (digest (bytes_of token)) []).

(** A GitHub client with its token's name and hash; the client itself is the
    [octocrab] crate's. *)
Module TokenClient.
Record t := mk { name : string; hash : string }.
Definition new `{Sha256} (name token : string) : t := mk name (token_hash token).
End TokenClient.

(** [position]: the index of the first hash that matches. *)
Fixpoint position (wanted : string) (hashes : list string) : option Z :=
  match hashes with
  | [] => None
  | h :: hashes =>
      if decide (h = wanted) then Some 0
      else match position wanted hashes with Some i => Some (1 + i) | None => None end
  end.

(** Index of the next token after the one represented by [last_hash]. *)
Definition next_token_index (token_hashes : list string) (last_hash : option string) : Z :=
  let pool_size := zlen token_hashes in
  if pool_size =? 0 then 0
  else match last_hash with
       | None => 0
       | Some hash =>
           match position hash token_hashes with
           | Some index => (index + 1) mod pool_size
           | None => 0
           end
       end.

(** [clients.get(index)]. *)
Definition get {A} (l : list A) (index : Z) : option A :=
  if index <? 0 then None else l !! Z.to_nat index.

(** * Rotation *)

Lemma position_spec wanted hashes i :
  NoDup hashes -> position wanted hashes = Some i <-> 0 <= i /\ hashes !! Z.to_nat i = Some wanted.
Proof.
  intros Hnd. revert i. induction Hnd as [|h hashes Hh Hnd IH]; intros i; cbn [position].
  { split; [done|]. by intros [_ ?]. }
  case_decide as Heq.
  - subst h. split.
    + intros [= <-]. done.
    + intros [Hi Hl]. destruct (Z.eq_dec i 0) as [->|Hne]; [done|]. exfalso. apply Hh.
      replace (Z.to_nat i) with (S (Z.to_nat (i - 1))) in Hl by lia. cbn in Hl.
      by eapply list_elem_of_lookup_2.
  - destruct (position wanted hashes) as [j|] eqn:Hj.
    + pose proof (proj1 (IH j) eq_refl) as [Hj0 Hjl]. split.
      * intros [= <-]. split; [lia|]. by replace (Z.to_nat (1 + j)) with (S (Z.to_nat j)) by lia.
      * intros [Hi Hl]. destruct (Z.eq_dec i 0) as [->|Hne]; [by injection Hl as ->|].
        replace (Z.to_nat i) with (S (Z.to_nat (i - 1))) in Hl by lia. cbn in Hl.
        assert (Some j = Some (i - 1)) as [= ->] by (apply IH; split; [lia|done]). f_equal. lia.
    + split; [done|]. intros [Hi Hl]. destruct (Z.eq_dec i 0) as [->|Hne]; [by injection Hl as ->|].
      replace (Z.to_nat i) with (S (Z.to_nat (i - 1))) in Hl by lia. cbn in Hl.
      assert (None = Some (i - 1)) by (apply IH; split; [lia|done]). done.
Qed.

Lemma next_token_index_range hashes last :
  hashes <> [] -> 0 <= next_token_index hashes last < zlen hashes.
Proof.
  intros Hne. assert (Hpos : 0 < zlen hashes) by (destruct hashes; [done|rewrite zlen_cons; pose proof (zlen_nonneg hashes); lia]).
  unfold next_token_index. destruct (Z.eqb_spec (zlen hashes) 0); [lia|].
  destruct last as [h|]; [|lia]. destruct (position h hashes); [|lia].
  apply Z.mod_pos_bound. lia.
Qed.

Lemma get_range {A} (l : list A) i : 0 <= i < zlen l -> is_Some (get l i).
Proof.
  intros Hi. unfold get, zlen in *. destruct (Z.ltb_spec i 0); [lia|].
  apply lookup_lt_is_Some. lia.
Qed.

(** The hashes of [n] consecutive attempts after [last]. *)
Fixpoint picks (n : nat) (hashes : list string) (last : option string) : list string :=
  match n with
  | O => []
  | S n =>
      match get hashes (next_token_index hashes last) with
      | Some hash => hash :: picks n hashes (Some hash)
      | None => []
      end
  end.

(** Starting at index [i], the picks are the pool from [i] on, cyclically. *)
Lemma picks_from hashes : NoDup hashes -> hashes <> [] -> forall n i last,
  0 <= i < zlen hashes -> next_token_index hashes last = i ->
  picks n hashes last
  = (fun k => default "" (get hashes ((i + Z.of_nat k) mod zlen hashes))) <$> seq 0 n.
Proof.
  intros Hnd Hne. induction n as [|n IH]; intros i last Hi Hidx; [done|]. cbn [picks].
  rewrite Hidx. destruct (get_range hashes i Hi) as [h Hh]. rewrite Hh.
  cbn [seq]. rewrite fmap_cons, Z.add_0_r, Z.mod_small, Hh by lia. f_equal.
  assert (Hnext : next_token_index hashes (Some h) = (i + 1) mod zlen hashes).
  { unfold next_token_index. destruct (Z.eqb_spec (zlen hashes) 0); [lia|].
    rewrite (proj2 (position_spec h hashes i Hnd)); [done|]. split; [lia|].
    unfold get in Hh. by destruct (Z.ltb_spec i 0); [lia|]. }
  rewrite (IH ((i + 1) mod zlen hashes) (Some h)) by (done || apply Z.mod_pos_bound; lia).
  rewrite <- (fmap_S_seq 0 n), <- list_fmap_compose. apply list_fmap_ext. intros k x _. simpl.
  rewrite Zplus_mod_idemp_l. do 3 f_equal. lia.
Qed.

(** A whole cycle from [i] is the pool from [i] on, then the pool before [i]. *)
Lemma cycle_rotation (l : list string) (i : nat) :
  (i < length l)%nat ->
  (fun k => default "" (get l ((Z.of_nat i + Z.of_nat k) mod zlen l))) <$> seq 0 (length l)
  = drop i l ++ take i l.
Proof.
  intros Hi. apply list_eq. intros k.
  rewrite list_lookup_fmap. destruct (decide (k < length l)%nat) as [Hk|Hk].
  2:{ rewrite (lookup_ge_None_2 (seq 0 _)) by (rewrite length_seq; lia). cbn.
      rewrite lookup_ge_None_2; [done|]. rewrite length_app, length_drop, length_take. lia. }
  rewrite lookup_seq_lt by done. cbn. unfold get, zlen.
  rewrite <- Nat2Z.inj_add, <- Nat2Z.inj_mod, Nat2Z.id.
  destruct (Z.ltb_spec (Z.of_nat ((i + k) mod length l)) 0); [lia|].
  destruct (decide (k < length l - i)%nat) as [Hlt|Hge].
  - rewrite Nat.mod_small by lia. rewrite lookup_app_l by (rewrite length_drop; lia).
    rewrite lookup_drop. destruct (lookup_lt_is_Some_2 l (i + k) ltac:(lia)) as [x Hx]. by rewrite Hx.
  - assert (Hmod : ((i + k) mod length l = i + k - length l)%nat).
    { replace (i + k)%nat with (i + k - length l + 1 * length l)%nat by lia.
      rewrite Nat.Div0.mod_add. rewrite Nat.mod_small; lia. }
    rewrite Hmod, lookup_app_r by (rewrite length_drop; lia).
    rewrite length_drop, lookup_take_lt by lia.
    replace (k - (length l - i))%nat with (i + k - length l)%nat by lia.
    destruct (lookup_lt_is_Some_2 l (i + k - length l) ltac:(lia)) as [x Hx]. by rewrite Hx.
Qed.

(** * Result *)

(** C38: with distinct tokens, as many consecutive attempts as there are tokens
    use every token exactly once, whatever the history recorded last; the token
    used last is used again only after all the others. *)
Theorem rotation_uses_every_token hashes last :
  NoDup hashes -> hashes <> [] ->
  picks (length hashes) hashes last ≡ₚ hashes
  /\ forall h, last = Some h -> h ∈ hashes ->
     exists others, picks (length hashes) hashes last = others ++ [h].
Proof.
  intros Hnd Hne. pose proof (next_token_index_range hashes last Hne) as Hr.
  set (i := Z.to_nat (next_token_index hashes last)).
  assert (Hi : (i < length hashes)%nat) by (unfold zlen in Hr; lia).
  assert (Hp : picks (length hashes) hashes last = drop i hashes ++ take i hashes).
  { rewrite (picks_from hashes Hnd Hne _ (Z.of_nat i) last) by (unfold zlen in *; lia).
    by apply cycle_rotation. }
  rewrite Hp. split.
  { rewrite (Permutation_app_comm _ _). by rewrite take_drop. }
  intros h -> Hin. apply list_elem_of_lookup in Hin as [j Hj].
  assert (Hpos : position h hashes = Some (Z.of_nat j))
    by (apply position_spec; [done|]; rewrite Nat2Z.id; split; [lia|done]).
  assert (Hjl : (j < length hashes)%nat) by by eapply lookup_lt_Some.
  assert (Hij : i = ((j + 1) mod length hashes)%nat).
  { unfold i, next_token_index. rewrite Hpos. unfold zlen.
    destruct (Z.eqb_spec (Z.of_nat (length hashes)) 0); [lia|].
    replace (Z.of_nat j + 1) with (Z.of_nat (j + 1)) by lia.
    by rewrite <- Nat2Z.inj_mod, Nat2Z.id. }
  destruct (decide (j + 1 < length hashes)%nat) as [Hlt|Hge].
  - rewrite Nat.mod_small in Hij by lia. exists (drop i hashes ++ take j hashes).
    rewrite Hij at 2. rewrite Nat.add_1_r, (take_S_r _ _ h) by done. by rewrite app_assoc.
  - assert (Hi0 : i = 0%nat).
    { rewrite Hij. replace (j + 1)%nat with (length hashes) by lia. apply Nat.Div0.mod_same. }
    rewrite Hi0, drop_0, take_0, app_nil_r. exists (take j hashes).
    rewrite <- (take_S_r hashes j h Hj). rewrite take_ge by lia. done.
Qed.
