(* ===== verification/Protocol.v ===== *)
(** Wire types shared by the client and the daemon ([src/lib.rs] and
    [src/protocol.rs]): the comment request, the tagged [Request], [Response]
    and [AwaitEvent] enums, and the protocol limits. *)

From S2P Require Import Prelude.

(** * Limits *)

Definition MAX_RESPONSE_BYTES : Z := 2 * 1024 * 1024.
Definition MAX_REQUEST_BYTES : Z := 1024 * 1024.
Definition MAX_PENDING_ENTRIES : Z := 1024.
Definition MAX_AWAIT_FRAME_BYTES : Z := 64 * 1024.
Definition AWAIT_HEARTBEAT_SECS : Z := 15.
Definition AWAIT_IDLE_TIMEOUT_SECS : Z := 45.

(** * Payloads *)

Module CommentRequest.
Record t := mk {
  owner : string;
  repo : string;
  pr_number : Z;
  body : string;
}.
#[global] Instance t_eq_dec : EqDecision t.
Proof. solve_decision. Defined.
End CommentRequest.

Module HistoryCursor.
Record t := mk { offset : Z; end_offset : Z }.
#[global] Instance t_eq_dec : EqDecision t.
Proof. solve_decision. Defined.
End HistoryCursor.

Module PendingEntry.
Record t := mk {
  id : string;
  eta_seconds : Z;
  owner : string;
  repo : string;
  pr_number : Z;
  body : string;
}.
#[global] Instance t_eq_dec : EqDecision t.
Proof. solve_decision. Defined.
End PendingEntry.

Module HistoryEntry.
Record t := mk {
  id : string;
  posted_at : Z;
  success : bool;
  error : option string;
  token_hash : string;
  owner : string;
  repo : string;
  pr_number : Z;
  body : string;
}.
#[global] Instance t_eq_dec : EqDecision t.
Proof. solve_decision. Defined.
End HistoryEntry.

(** * Messages *)

Module AwaitEvent.
Inductive t :=
| Waiting (eta_seconds : Z)
| Posted (comment_url : string)
| Error (message : string).
#[global] Instance t_eq_dec : EqDecision t.
Proof. solve_decision. Defined.
End AwaitEvent.

Module Request.
Inductive t :=
| Put (request : CommentRequest.t) (immediate : bool)
| List
| Bump (id : string)
| Bust (id : string)
| Del (id : string)
| Await (id : string)
| Hist (limit : option Z) (cursor : option HistoryCursor.t).
#[global] Instance t_eq_dec : EqDecision t.
Proof. solve_decision. Defined.
End Request.

Module Response.
Inductive t :=
| Ok (entry : option PendingEntry.t) (entries : option (list PendingEntry.t))
     (history : option (list HistoryEntry.t)) (next_cursor : option HistoryCursor.t)
| Error (message : string).
#[global] Instance t_eq_dec : EqDecision t.
Proof. solve_decision. Defined.

(** The constructors of [impl Response]. *)
Definition ok : t := Ok None None None None.
Definition entry (e : PendingEntry.t) : t := Ok (Some e) None None None.
Definition entries (es : list PendingEntry.t) : t := Ok None (Some es) None None.
Definition history (h : list HistoryEntry.t) (next_cursor : option HistoryCursor.t) : t :=
  Ok None None (Some h) next_cursor.
Definition error (message : string) : t := Error message.
End Response.
