(* ===== verification/Output.v ===== *)
(** Human-readable rendering of daemon replies ([comenq/src/output.rs]): compact
    durations, the countdown cadence, one-line summaries and terminal-safe
    fields.  Text is a list of characters (Unicode scalar values). *)

From S2P Require Import Prelude Text Protocol.

(** * Characters *)

Abbreviation text := (list Z).

(** The characters of a [String], which holds valid UTF-8. *)
Definition chars (s : string) : text := default [] (utf8_decode (bytes_of s)).

(** [char::is_control]: the general category Cc. *)
Definition is_control (c : Z) : bool := ((0 <=? c) && (c <=? 31)) || ((127 <=? c) && (c <=? 159)).

(** A character that could end a line or start a control sequence. *)
Definition is_unsafe (c : Z) : bool := is_control c || (c =? 8232) || (c =? 8233).

(** Lowercase hexadecimal without leading zeros; six digits hold every character. *)
Fixpoint hex_min (fuel : nat) (n : Z) (acc : text) : text :=
  match fuel with
  | O => acc
  | S fuel =>
      let acc := code (hex_digit (n mod 16)) :: acc in
      if n <? 16 then acc else hex_min fuel (n / 16) acc
  end.

(** [char::escape_default]. *)
Definition escape_default (c : Z) : text :=
  if c =? 9 then chars "\t"
  else if c =? 13 then chars "\r"
  else if c =? 10 then chars "\n"
  else if (c =? 34) || (c =? 39) || (c =? 92) then [92; c]
  else if (32 <=? c) && (c <=? 126) then [c]
  else chars "\u{" ++ hex_min 6 c [] ++ chars "}".

(** * Numbers and padding *)

Definition show_u64 (n : Z) : text := code <$> u64_to_bytes n.

(** [{:>width}], [{:<width}] and [{:02}]: padding counts characters. *)
Definition pad_left (width : Z) (fill : Z) (s : text) : text :=
  repeat fill (Z.to_nat (width - zlen s)) ++ s.
Definition pad_right (width : Z) (s : text) : text :=
  s ++ repeat 32 (Z.to_nat (width - zlen s)).
Definition show_02 (n : Z) : text := pad_left 2 48 (show_u64 n).

(** * Durations *)

Definition SUMMARY_LIMIT : Z := 60.
Definition MINUTE : Z := 60.
Definition HOUR : Z := 60 * MINUTE.

Inductive EtaUnit := Now | Seconds | Minutes | Hours.

Definition classify_eta (seconds : Z) : EtaUnit :=
  if seconds =? 0 then Now
  else if seconds <? MINUTE then Seconds
  else if seconds <? HOUR then Minutes
  else Hours.

Definition format_eta (seconds : Z) : text :=
  match classify_eta seconds with
  | Now => chars "now"
  | Seconds => show_u64 seconds ++ chars "s"
  | Minutes =>
      let minutes := seconds / MINUTE in
      let rest := seconds mod MINUTE in
      show_u64 minutes ++ chars "m " ++ show_02 rest ++ chars "s"
  | Hours =>
      let hours := seconds / HOUR in
      let minutes := (seconds mod HOUR) / MINUTE in
      show_u64 hours ++ chars "h " ++ show_02 minutes ++ chars "m"
  end.

(** Countdown cadence: one minute once the wait is due, never past the due time. *)
Definition report_interval (seconds : Z) : Z :=
  if seconds =? 0 then 60
  else
    let cadence :=
      if seconds <=? 60 then 10
      else if seconds <=? 600 then 30
      else if seconds <=? 3600 then 120
      else if seconds <=? 21600 then 600
      else 1800 in
    Z.min cadence (Z.max seconds 1).

Definition format_age (seconds : Z) : text :=
  if seconds =? 0 then chars "just now" else format_eta seconds ++ chars " ago".

(** * Untrusted fields *)

(** Escape reply fields that could otherwise alter terminal output. *)
Definition terminal_safe (value : text) : text :=
  fold_left (fun safe c => safe ++ (if is_unsafe c then escape_default c else [c])) value [].

(** Collapse a body to a single line of at most 60 characters. *)
Definition one_line_summary (body : text) : text :=
  let flat := (fun c => if is_unsafe c then 32 else c) <$> body in
  if zlen flat <=? SUMMARY_LIMIT then flat
  else ztake (SUMMARY_LIMIT - 1) flat ++ chars "…".

Definition render_remaining (seconds : Z) : text :=
  terminal_safe (if seconds =? 0 then chars "due now"
                 else format_eta seconds ++ chars " remaining").

(** * Lines *)

(** [owner/repo#number]. *)
Definition render_target (owner repo : string) (pr_number : Z) : text :=
  terminal_safe (chars owner) ++ chars "/" ++ terminal_safe (chars repo)
  ++ chars "#" ++ show_u64 pr_number.

Definition render_history (entry : HistoryEntry.t) (now : Z) : text :=
  let age := format_age (sat_sub now (HistoryEntry.posted_at entry)) in
  let status := if HistoryEntry.success entry then chars "ok" else chars "FAIL" in
  let token_hash := ztake 8 (chars (HistoryEntry.token_hash entry)) in
  let token_hash :=
    if decide (token_hash = []) then chars "--------" else terminal_safe token_hash in
  let line :=
    terminal_safe (chars (HistoryEntry.id entry)) ++ chars "  "
    ++ pad_left 11 32 age ++ chars "  " ++ pad_right 4 status ++ chars "  " ++ token_hash
    ++ chars "  "
    ++ render_target (HistoryEntry.owner entry) (HistoryEntry.repo entry)
         (HistoryEntry.pr_number entry)
    ++ chars "  " ++ one_line_summary (chars (HistoryEntry.body entry)) in
  match HistoryEntry.error entry with
  | Some error => line ++ chars " — " ++ one_line_summary (chars error)
  | None => line
  end.

Definition render_put (entry : PendingEntry.t) : text :=
  chars "Queued " ++ terminal_safe (chars (PendingEntry.id entry)) ++ chars " for "
  ++ render_target (PendingEntry.owner entry) (PendingEntry.repo entry)
       (PendingEntry.pr_number entry)
  ++ chars " — posts in ~" ++ format_eta (PendingEntry.eta_seconds entry).

Definition render_entry (entry : PendingEntry.t) : text :=
  terminal_safe (chars (PendingEntry.id entry)) ++ chars "  "
  ++ pad_left 7 32 (format_eta (PendingEntry.eta_seconds entry)) ++ chars "  "
  ++ render_target (PendingEntry.owner entry) (PendingEntry.repo entry)
       (PendingEntry.pr_number entry)
  ++ chars "  " ++ one_line_summary (chars (PendingEntry.body entry)).

(** * Properties *)

(** Text that stays on one line and holds no control character. *)
Definition printable (s : text) : Prop := Forall (fun c => is_unsafe c = false) s.

Create HintDb printable.

Lemma printable_app s t : printable s -> printable t -> printable (s ++ t).
Proof. apply Forall_app_2. Qed.
Lemma printable_repeat c n : is_unsafe c = false -> printable (repeat c n).
Proof. intros Hc. induction n; constructor; done. Qed.
Lemma printable_digit c : is_ascii_digit c = true -> is_unsafe (code c) = false.
Proof. unfold is_ascii_digit, is_unsafe, is_control. lia. Qed.
Lemma printable_u64 n : printable (show_u64 n).
Proof.
  unfold printable, show_u64. apply Forall_fmap.
  eapply Forall_impl; [apply dec_digits_digits; constructor|]. exact printable_digit.
Qed.
Lemma printable_pad_left w c s : is_unsafe c = false -> printable s -> printable (pad_left w c s).
Proof. intros Hc Hs. apply printable_app; [by apply printable_repeat|done]. Qed.
Lemma printable_pad_right w s : printable s -> printable (pad_right w s).
Proof. intros Hs. apply printable_app; [done|by apply printable_repeat]. Qed.
#[export] Hint Resolve printable_app printable_u64 printable_pad_right : printable.
#[export] Hint Extern 1 (printable (pad_left _ _ _)) =>
  apply printable_pad_left; [reflexivity|] : printable.
#[export] Hint Extern 2 (printable (chars _)) =>
  vm_compute; repeat (constructor; [reflexivity|]); constructor : printable.

Lemma printable_eta seconds : printable (format_eta seconds).
Proof.
  unfold format_eta, show_02. destruct (classify_eta seconds); auto 6 with printable.
Qed.
#[export] Hint Resolve printable_eta : printable.
Lemma printable_age seconds : printable (format_age seconds).
Proof. unfold format_age. destruct (seconds =? 0); auto with printable. Qed.

Lemma hex_min_printable fuel n acc : printable acc -> printable (hex_min fuel n acc).
Proof.
  revert n acc. induction fuel as [|fuel IH]; intros n acc Hacc; simpl; [done|].
  assert (Hd : printable (code (hex_digit (n mod 16)) :: acc)).
  { constructor; [|done]. pose proof (Z.mod_pos_bound n 16 ltac:(lia)) as Hm.
    unfold hex_digit. destruct (n mod 16 <? 10) eqn:E; rewrite code_byte_of by lia;
      unfold is_unsafe, is_control; lia. }
  destruct (n <? 16); [done|by apply IH].
Qed.

Lemma escape_default_printable c : is_unsafe c = true -> printable (escape_default c).
Proof.
  intros Hc. unfold escape_default.
  destruct (c =? 9); [auto with printable|]. destruct (c =? 13); [auto with printable|].
  destruct (c =? 10); [auto with printable|].
  destruct ((c =? 34) || (c =? 39) || (c =? 92)) eqn:E.
  { exfalso. unfold is_unsafe, is_control in Hc. lia. }
  destruct ((32 <=? c) && (c <=? 126)) eqn:E2.
  { exfalso. unfold is_unsafe, is_control in Hc. lia. }
  apply printable_app; [|apply printable_app]; auto with printable.
  apply hex_min_printable. constructor.
Qed.

Lemma terminal_safe_concat value :
  terminal_safe value = concat ((fun c => if is_unsafe c then escape_default c else [c]) <$> value).
Proof.
  enough (Hacc : forall acc,
    fold_left (fun safe c => safe ++ (if is_unsafe c then escape_default c else [c])) value acc
    = acc ++ concat ((fun c => if is_unsafe c then escape_default c else [c]) <$> value))
    by apply (Hacc []).
  induction value as [|c value IH]; intros acc; simpl; [by rewrite app_nil_r|].
  by rewrite IH, <- app_assoc.
Qed.

Lemma terminal_safe_printable value : printable (terminal_safe value).
Proof.
  rewrite terminal_safe_concat. induction value as [|c value IH]; [constructor|].
  rewrite fmap_cons. cbn [concat]. apply printable_app; [|done].
  destruct (is_unsafe c) eqn:E; [by apply escape_default_printable|by repeat constructor].
Qed.

(** Safe text is shown as it is. *)
Lemma terminal_safe_id value : printable value -> terminal_safe value = value.
Proof.
  rewrite terminal_safe_concat. induction 1 as [|c value Hc _ IH]; [done|].
  rewrite fmap_cons. cbn [concat]. by rewrite Hc, IH.
Qed.

Lemma one_line_summary_printable body : printable (one_line_summary body).
Proof.
  unfold one_line_summary.
  assert (Hf : printable ((fun c => if is_unsafe c then 32 else c) <$> body)).
  { apply Forall_fmap, Forall_true. intros c. simpl. by destruct (is_unsafe c) eqn:E. }
  destruct (_ <=? _); [done|]. apply printable_app; [|auto with printable].
  rewrite ztake_take. by apply Forall_take.
Qed.
#[export] Hint Resolve printable_age terminal_safe_printable one_line_summary_printable : printable.

Lemma render_target_printable owner repo n : printable (render_target owner repo n).
Proof. unfold render_target. auto 8 with printable. Qed.
#[export] Hint Resolve render_target_printable : printable.

(** * Results *)


(** A summary has at most sixty characters, and text that is already one
    safe line of that length is shown unchanged. *)
Theorem summary_is_bounded body :
  zlen (one_line_summary body) <= SUMMARY_LIMIT
  /\ (printable body -> zlen body <= SUMMARY_LIMIT -> one_line_summary body = body).
Proof.
  unfold one_line_summary.
  assert (Hlen : zlen ((fun c => if is_unsafe c then 32 else c) <$> body) = zlen body)
    by (unfold zlen; by rewrite length_fmap).
  rewrite Hlen. split.
  - destruct (Z.leb_spec (zlen body) SUMMARY_LIMIT) as [Hle|Hgt]; [by rewrite Hlen|].
    rewrite zlen_app, ztake_take. change (zlen (chars "…")) with 1.
    unfold zlen. rewrite length_take. unfold SUMMARY_LIMIT in *. lia.
  - intros Hp Hle. destruct (Z.leb_spec (zlen body) SUMMARY_LIMIT); [|lia].
    clear -Hp. induction Hp as [|c body Hc _ IH]; [done|]. rewrite fmap_cons, IH. by rewrite Hc.
Qed.

(** The remaining times a countdown prints when no further ETA arrives. *)
Fixpoint countdown (fuel : nat) (seconds : Z) : list Z :=
  match fuel with
  | O => []
  | S fuel =>
      if seconds =? 0 then [0]
      else seconds :: countdown fuel (sat_sub seconds (report_interval seconds))
  end.

Lemma report_interval_range seconds : 0 < seconds -> 1 <= report_interval seconds <= seconds.
Proof.
  intros Hs. unfold report_interval. destruct (Z.eqb_spec seconds 0); [lia|].
  repeat destruct (_ <=? _); lia.
Qed.

(** A countdown that gets no further ETA prints strictly decreasing times,
    never skips past the due time and ends with "due now". *)
Theorem countdown_ends_due seconds :
  0 <= seconds ->
  last (countdown (S (Z.to_nat seconds)) seconds) = Some 0
  /\ StronglySorted (fun a b => b < a) (countdown (S (Z.to_nat seconds)) seconds).
Proof.
  intros Hs.
  assert (Hgen : forall fuel s, 0 <= s -> (Z.to_nat s < fuel)%nat ->
    last (countdown fuel s) = Some 0 /\ StronglySorted (fun a b => b < a) (countdown fuel s)
    /\ Forall (fun a => a <= s) (countdown fuel s)).
  { clear. induction fuel as [|fuel IH]; intros s Hs Hf; [lia|]. cbn [countdown].
    destruct (Z.eqb_spec s 0) as [->|Hne]; [by repeat constructor|].
    pose proof (report_interval_range s ltac:(lia)) as Hr.
    destruct (IH (sat_sub s (report_interval s))) as (Hl & Hso & Hle);
      [unfold sat_sub; lia|unfold sat_sub; lia|].
    split_and!.
    - destruct (countdown fuel _) eqn:E; [done|]. done.
    - constructor; [done|]. eapply Forall_impl; [exact Hle|]. unfold sat_sub. simpl. lia.
    - constructor; [lia|]. eapply Forall_impl; [exact Hle|]. unfold sat_sub. simpl. lia. }
  destruct (Hgen (S (Z.to_nat seconds)) seconds Hs) as (Hl & Hso & _); [lia|]. done.
Qed.
