(* ===== verification/Args.v ===== *)
(** Client arguments ([comenq/src/lib.rs]) and the socket paths both programs
    derive from the environment ([comenq-transport/src/lib.rs]). *)

From S2P Require Import Prelude Text Protocol Output.

(** * Encoding characters *)

(** The UTF-8 form of a character, as [String] stores it. *)
Definition encode_char (c : Z) : bytes :=
  if c <? 128 then [byte_of c]
  else if c <? 2048 then [byte_of (192 + c / 64); byte_of (128 + c mod 64)]
  else if c <? 65536 then
    [byte_of (224 + c / 4096); byte_of (128 + (c / 64) mod 64); byte_of (128 + c mod 64)]
  else
    [byte_of (240 + c / 262144); byte_of (128 + (c / 4096) mod 64);
     byte_of (128 + (c / 64) mod 64); byte_of (128 + c mod 64)].
Definition to_string (s : text) : string := string_of (concat (encode_char <$> s)).

(** * Repository slugs *)

Definition SLASH : Z := 47.

Module RepoSlug.
Record t := mk { owner : text; repo : text }.
#[global] Instance t_eq_dec : EqDecision t.
Proof. solve_decision. Defined.
End RepoSlug.

Inductive RepoSlugParseError := MissingSlash | EmptyOwner | EmptyRepo | ExtraSlashes.

(** [str::split_once('/')]. *)
Fixpoint split_once (sep : Z) (s : text) : option (text * text) :=
  match s with
  | [] => None
  | c :: s =>
      if c =? sep then Some ([], s)
      else match split_once sep s with
           | Some (a, b) => Some (c :: a, b)
           | None => None
           end
  end.

(** [impl FromStr for RepoSlug]. *)
Definition from_str (s : text) : result RepoSlugParseError RepoSlug.t :=
  let s := trim s in
  match split_once SLASH s with
  | None => Err MissingSlash
  | Some (owner, repo) =>
      if decide (owner = []) then Err EmptyOwner
      else if decide (repo = []) then Err EmptyRepo
      else if existsb (Z.eqb SLASH) repo then Err ExtraSlashes
      else Ok (RepoSlug.mk owner repo)
  end.

(** [impl Display for RepoSlug]. *)
Definition display (slug : RepoSlug.t) : text :=
  RepoSlug.owner slug ++ SLASH :: RepoSlug.repo slug.

(** * Commands *)

(** Await identifiers are eight hexadecimal bytes, kept in lowercase. *)
Definition parse_await_id (id : string) : result string string :=
  if (zstrlen id =? 8) && forallb is_ascii_hexdigit (bytes_of id)
  then Ok (string_of (to_ascii_lowercase <$> bytes_of id))
  else Err "identifier must contain exactly eight hexadecimal characters".

Module Command.
Inductive t :=
| Put (repo_slug : RepoSlug.t) (pr_number : Z) (comment_body : string) (now : bool)
| List
| Bump (id : string)
| Bust (id : string)
| Del (id : string)
| Await (id : string)
| Hist (limit : option Z).
End Command.

(** The protocol request a command performs. *)
Definition to_request (c : Command.t) : Request.t :=
  match c with
  | Command.Put repo_slug pr_number comment_body now =>
      Request.Put
        (CommentRequest.mk (to_string (RepoSlug.owner repo_slug))
           (to_string (RepoSlug.repo repo_slug)) pr_number comment_body) now
  | Command.List => Request.List
  | Command.Await id => Request.Await id
  | Command.Bump id => Request.Bump id
  | Command.Bust id => Request.Bust id
  | Command.Del id => Request.Del id
  | Command.Hist limit => Request.Hist limit None
  end.

(** * Socket paths *)

Definition DEFAULT_SOCKET_PATH : string := "/run/comenq/comenq.sock".
Definition SOCKET_RELATIVE_PATH : string := "comenq/comenq.sock".

(** [Path::is_absolute] on Unix: the path starts with the root. *)
Definition is_absolute (p : string) : bool :=
  match p with String c _ => bool_decide (code c = SLASH) | EmptyString => false end.
(** [PathBuf::join] with a relative path: one separator between the two. *)
Definition join (dir rel : string) : string :=
  match last (bytes_of dir) with
  | None => rel
  | Some c => if decide (code c = SLASH) then dir +:+ rel else dir +:+ "/" +:+ rel
  end.

(** Socket path in the per-user runtime directory, from [XDG_RUNTIME_DIR]. *)
Definition user_socket_path (xdg_runtime_dir : option string) : option string :=
  match xdg_runtime_dir with
  | None => None
  | Some dir =>
      if decide (dir = "") then None
      else if is_absolute dir then Some (join dir SOCKET_RELATIVE_PATH)
      else None
  end.

Definition default_socket_path (xdg_runtime_dir : option string) : string :=
  default DEFAULT_SOCKET_PATH (user_socket_path xdg_runtime_dir).

(** The parts of a path between separators. *)
Fixpoint split_slash (b : bytes) : list bytes :=
  match b with
  | [] => [[]]
  | c :: r =>
      if decide (code c = SLASH) then [] :: split_slash r
      else match split_slash r with
           | part :: parts => (c :: part) :: parts
           | [] => [[c]]
           end
  end.
(** [Path::components] of an absolute path: repeated separators and [.] parts
    are dropped.  [Path] equality compares components. *)
Definition components (p : string) : list bytes :=
  filter (fun part => part <> [] /\ part <> bytes_of ".") (split_slash (bytes_of p)).
Definition path_eqb (p q : string) : bool :=
  Bool.eqb (is_absolute p) (is_absolute q) && bool_decide (components p = components q).

Definition discovered_candidates (xdg_runtime_dir : option string) : list string :=
  let candidates := option_list (user_socket_path xdg_runtime_dir) in
  if existsb (path_eqb DEFAULT_SOCKET_PATH) candidates then candidates
  else candidates ++ [DEFAULT_SOCKET_PATH].

(** [Args::socket_candidates]: an explicit path is the only candidate. *)
Definition socket_candidates (socket xdg_runtime_dir : option string) : list string :=
  match socket with
  | Some explicit => [explicit]
  | None => discovered_candidates xdg_runtime_dir
  end.

(** * Properties *)

Lemma split_once_spec sep s :
  match split_once sep s with
  | Some (a, b) => s = a ++ sep :: b /\ sep ∉ a
  | None => sep ∉ s
  end.
Proof.
  induction s as [|c s IH]; simpl; [by apply not_elem_of_nil|].
  destruct (Z.eqb_spec c sep) as [->|Hne]; [split; [done|by apply not_elem_of_nil]|].
  destruct (split_once sep s) as [[a b]|]; [destruct IH as [-> Ha]; split; [done|]|];
    apply not_elem_of_cons; split; congruence.
Qed.

Lemma split_once_app sep a b : sep ∉ a -> split_once sep (a ++ sep :: b) = Some (a, b).
Proof.
  induction a as [|c a IH]; intros Ha; simpl; [by rewrite Z.eqb_refl|].
  apply not_elem_of_cons in Ha as [Hc Ha]. destruct (Z.eqb_spec c sep); [congruence|].
  by rewrite IH.
Qed.

Lemma trim_start_idem s : trim_start (trim_start s) = trim_start s.
Proof.
  induction s as [|c s IH]; simpl; [done|].
  destruct (is_whitespace c) eqn:E; [done|]. simpl. by rewrite E.
Qed.

(** Trimming at the end keeps a first character that is not whitespace. *)
Lemma trim_start_app s c : is_whitespace c = false -> trim_start (s ++ [c]) = trim_start s ++ [c].
Proof.
  intros Hc. induction s as [|x s IH]; simpl; [by rewrite Hc|]. by destruct (is_whitespace x).
Qed.

Lemma trim_start_fixed s :
  trim_start s = s -> s = [] \/ exists c r, s = c :: r /\ is_whitespace c = false.
Proof.
  destruct s as [|c r]; [by left|]. simpl. destruct (is_whitespace c) eqn:E; [|eauto].
  intros Heq. exfalso. apply (f_equal length) in Heq.
  assert (Hle : forall l, (length (trim_start l) <= length l)%nat).
  { induction l as [|x l IH]; simpl; [done|]. destruct (is_whitespace x); simpl; lia. }
  specialize (Hle r). simpl in Heq. lia.
Qed.

Lemma trim_end_keeps_start s :
  trim_start s = s -> trim_start (rev (trim_start (rev s))) = rev (trim_start (rev s)).
Proof.
  intros [->|(c & r & -> & Hc)]%trim_start_fixed; [done|].
  cbn [rev]. rewrite trim_start_app by done. rewrite rev_app_distr. simpl. by rewrite Hc.
Qed.

Lemma trim_idem s : trim (trim s) = trim s.
Proof.
  unfold trim. rewrite (trim_end_keeps_start (trim_start s)) by apply trim_start_idem.
  by rewrite rev_involutive, trim_start_idem.
Qed.

Lemma from_str_display s slug : from_str s = Ok slug -> display slug = trim s.
Proof.
  unfold from_str, display. pose proof (split_once_spec SLASH (trim s)) as Hs.
  destruct (split_once SLASH (trim s)) as [[owner repo]|]; [|done].
  repeat case_decide; try done. destruct (existsb _ repo); [done|].
  intros [= <-]. by destruct Hs as [-> _].
Qed.

(** Scalar values and their encoding. *)
Definition is_scalar (c : Z) : Prop := 0 <= c < 55296 \/ 57344 <= c < 1114112.

Lemma utf8_decode_encode c b :
  is_scalar c -> utf8_decode (encode_char c ++ b) = cons c <$> utf8_decode b.
Proof.
  intros Hc. unfold encode_char, is_scalar in *.
  pose proof (Z.div_mod c 64 ltac:(lia)) as H64. pose proof (Z.mod_pos_bound c 64 ltac:(lia)) as M64.
  destruct (Z.ltb_spec c 128) as [H1|H1].
  { cbn [app utf8_decode]. rewrite code_byte_of by lia. destruct (Z.ltb_spec c 128); [done|lia]. }
  destruct (Z.ltb_spec c 2048) as [H2|H2].
  { cbn [app utf8_decode]. unfold cont. rewrite !code_byte_of by lia.
    destruct (Z.ltb_spec (192 + c / 64) 128); [lia|].
    rewrite (proj2 (andb_true_iff (194 <=? 192 + c / 64) _)) by lia.
    rewrite (proj2 (andb_true_iff (128 <=? 128 + c mod 64) _)) by lia.
    do 2 f_equal. lia. }
  pose proof (Z.div_mod (c / 64) 64 ltac:(lia)) as H4096.
  pose proof (Z.mod_pos_bound (c / 64) 64 ltac:(lia)) as M4096.
  assert (E4096 : c / 4096 = c / 64 / 64) by by rewrite Z.div_div.
  destruct (Z.ltb_spec c 65536) as [H3|H3].
  { cbn [app utf8_decode]. unfold cont, between. rewrite E4096, !code_byte_of by lia.
    destruct (Z.ltb_spec (224 + c / 64 / 64) 128); [lia|].
    rewrite (proj2 (andb_false_iff (194 <=? 224 + c / 64 / 64) _)) by lia.
    rewrite (proj2 (andb_true_iff (224 <=? 224 + c / 64 / 64) _)) by lia.
    destruct (Z.eqb_spec (224 + c / 64 / 64) 224); destruct (Z.eqb_spec (224 + c / 64 / 64) 237);
      rewrite (proj2 (andb_true_iff (_ && _) _)) by lia; do 2 f_equal; lia. }
  pose proof (Z.div_mod (c / 64 / 64) 64 ltac:(lia)) as H262.
  pose proof (Z.mod_pos_bound (c / 64 / 64) 64 ltac:(lia)) as M262.
  assert (E262 : c / 262144 = c / 64 / 64 / 64) by by rewrite !Z.div_div.
  cbn [app utf8_decode]. unfold cont, between. rewrite E4096, E262, !code_byte_of by lia.
  destruct (Z.ltb_spec (240 + c / 64 / 64 / 64) 128); [lia|].
  rewrite (proj2 (andb_false_iff (194 <=? 240 + c / 64 / 64 / 64) _)) by lia.
  rewrite (proj2 (andb_false_iff (224 <=? 240 + c / 64 / 64 / 64) _)) by lia.
  rewrite (proj2 (andb_true_iff (240 <=? 240 + c / 64 / 64 / 64) _)) by lia.
  destruct (Z.eqb_spec (240 + c / 64 / 64 / 64) 240); destruct (Z.eqb_spec (240 + c / 64 / 64 / 64) 244);
    rewrite (proj2 (andb_true_iff (_ && _) _)) by lia; do 2 f_equal; lia.
Qed.

Lemma chars_to_string s : Forall is_scalar s -> chars (to_string s) = s.
Proof.
  intros Hs. unfold chars, to_string. rewrite bytes_of_string_of.
  enough (utf8_decode (concat (encode_char <$> s)) = Some s) as -> by done.
  induction Hs as [|c s Hc _ IH]; [done|]. rewrite fmap_cons. cbn [concat].
  rewrite utf8_decode_encode by done. by rewrite IH.
Qed.

Lemma user_socket_absolute xdg user : user_socket_path xdg = Some user -> is_absolute user = true.
Proof.
  unfold user_socket_path, join. destruct xdg as [[|c dir]|]; [done| |done].
  case_decide; [done|]. destruct (is_absolute (String c dir)) eqn:Ha; [|done].
  destruct (last _) as [l|] eqn:El; [case_decide; by intros [= <-]|].
  change (bytes_of (String c dir)) with (c :: bytes_of dir) in El.
  by apply last_None in El.
Qed.

(** * Results *)

(** C40: printing a parsed slug gives the trimmed argument back, parsing that
    print gives the same slug, and the owner and repository sent to the daemon
    are the two non-empty, slash-free parts of the argument. *)
Theorem repo_slug_round_trip s slug :
  from_str s = Ok slug ->
  display slug = trim s /\ from_str (display slug) = Ok slug
  /\ RepoSlug.owner slug <> [] /\ RepoSlug.repo slug <> []
  /\ (SLASH ∉ RepoSlug.owner slug) /\ (SLASH ∉ RepoSlug.repo slug).
Proof.
  intros Hs. pose proof (from_str_display s slug Hs) as Hd. split; [done|].
  split. { rewrite Hd. unfold from_str in *. by rewrite trim_idem. }
  revert Hs. unfold from_str. pose proof (split_once_spec SLASH (trim s)) as Hsp.
  destruct (split_once SLASH (trim s)) as [[owner repo]|]; [|done].
  case_decide; [done|]. case_decide; [done|]. destruct (existsb _ repo) eqn:He; [done|].
  intros [= <-]. destruct Hsp as [_ Ho]. split_and!; try done. simpl. intros Hin.
  rewrite <- not_true_iff_false in He. apply He, existsb_exists. exists SLASH.
  split; [by apply list_elem_of_In|apply Z.eqb_refl].
Qed.

(** Without an explicit path the client tries the daemon's own default
    first, which is the user socket when the runtime directory is set and
    absolute; the system socket is always among the candidates, and no two
    candidates name the same path. *)
Theorem candidates_are_ordered xdg :
  head (discovered_candidates xdg) = Some (default_socket_path xdg)
  /\ existsb (path_eqb DEFAULT_SOCKET_PATH) (discovered_candidates xdg) = true
  /\ NoDup (components <$> discovered_candidates xdg).
Proof.
  unfold discovered_candidates, default_socket_path. destruct (user_socket_path xdg) as [user|] eqn:E.
  2:{ split; [done|]. split; [done|]. apply NoDup_singleton. }
  destruct (existsb (path_eqb DEFAULT_SOCKET_PATH) (option_list (Some user))) eqn:Ee.
  { split; [done|]. split; [done|]. apply NoDup_singleton. }
  split; [done|]. split. { by rewrite existsb_app, Ee. }
  apply NoDup_cons. split; [|apply NoDup_singleton]. intros Heq%list_elem_of_singleton.
  cbn [option_list existsb] in Ee. apply orb_false_iff in Ee as [Ee _].
  unfold path_eqb in Ee. rewrite (user_socket_absolute xdg user E), Heq in Ee.
  by rewrite bool_decide_true in Ee.
Qed.
