(* ===== verification/Disk.v ===== *)
(** The file system under the queue directory, the errors of the store and the
    monad in which every store operation runs.

    A store operation is a sequence of system calls.  Each call consumes one
    entry of the world's fault schedule: it may succeed, fail with an I/O error
    or be the point at which the process dies, and a write that fails or dies
    may leave any prefix of its bytes in the file.  An empty schedule means that
    no further call fails. *)

From S2P Require Import Prelude Text.

(** * Errors *)

Inductive ErrorKind :=
| NotFound | PermissionDenied | InvalidData | InvalidInput | UnexpectedEof
| IsADirectory | NotADirectory | AlreadyExists | AddrInUse | BrokenPipe | ConnectionRefused
| OtherKind.
#[global] Instance ErrorKind_eq_dec : EqDecision ErrorKind.
Proof. solve_decision. Defined.

Record io_error := IoError { kind : ErrorKind; text : string }.
#[global] Instance io_error_eq_dec : EqDecision io_error.
Proof. solve_decision. Defined.

(** [store.rs], [enum StoreError]. *)
Inductive StoreError :=
| Io (e : io_error)
| Serde (message : string)
| UnknownId (id : string)
| InvalidId (id : string)
| InvalidRepositoryComponent (component : string)
| LastPost (e : IntErrorKind)
| LastAttempt (e : IntErrorKind)
| BlockingTask (message : string)
| QueueFull (limit : Z)
| EntryTooLarge (size limit : Z)
| QueueByteBudgetExceeded (used requested limit : Z).

Definition io_error_kind (e : io_error) : string :=
  match kind e with
  | NotFound => "not_found"
  | PermissionDenied => "permission_denied"
  | InvalidData => "invalid_data"
  | _ => "io_error"
  end.

(** [StoreError::category]: a bounded classification. *)
Definition category (e : StoreError) : string :=
  match e with
  | Io e => io_error_kind e
  | Serde _ => "invalid_json"
  | UnknownId _ => "unknown_identifier"
  | InvalidId _ => "unsafe_identifier"
  | InvalidRepositoryComponent _ => "invalid_repository_component"
  | LastPost _ => "invalid_last_post"
  | LastAttempt _ => "invalid_last_attempt"
  | BlockingTask _ => "blocking_task"
  | QueueFull _ => "queue_full"
  | EntryTooLarge _ _ => "entry_too_large"
  | QueueByteBudgetExceeded _ _ _ => "byte_budget_exceeded"
  end.

(** [StoreError::is_unexpected]. *)
Definition is_unexpected (e : StoreError) : bool :=
  match e with
  | Io _ | Serde _ | LastPost _ | LastAttempt _ | BlockingTask _ => true
  | _ => false
  end.

(** * Files *)

(** The three directories of the queue path: the queue path itself,
    [entries] and [await-deletions].  They exist once the store is open, and
    no operation removes one. *)
Inductive dir := Root | Entries | AwaitDeletions.
#[global] Instance dir_eq_dec : EqDecision dir.
Proof. solve_decision. Defined.

Definition path : Type := dir * string.

(** A directory entry: a regular file with its content, or a directory, the
    only other kind of node represented here. *)
Inductive node :=
| Regular (content : bytes)
| Directory.

Record disk := Disk {
  d_root : gmap string node;
  d_entries : gmap string node;
  d_deletions : gmap string node;
}.

Definition dmap (d : disk) (x : dir) : gmap string node :=
  match x with
  | Root => d_root d
  | Entries => d_entries d
  | AwaitDeletions => d_deletions d
  end.
Definition set_dmap (x : dir) (m : gmap string node) (d : disk) : disk :=
  match x with
  | Root => Disk m (d_entries d) (d_deletions d)
  | Entries => Disk (d_root d) m (d_deletions d)
  | AwaitDeletions => Disk (d_root d) (d_entries d) m
  end.

Definition dget (d : disk) (p : path) : option node := dmap d p.1 !! p.2.
Definition dput (p : path) (n : node) (d : disk) : disk :=
  set_dmap p.1 (<[p.2 := n]> (dmap d p.1)) d.
Definition ddel (p : path) (d : disk) : disk :=
  set_dmap p.1 (delete p.2 (dmap d p.1)) d.

(** * Worlds and the store monad *)

Inductive fault :=
| Fail (e : io_error) (written : nat)
| Crash (written : nat).

Record world := World {
  w_disk : disk;
  w_faults : list (option fault);
  w_uuids : nat;   (** version-4 UUIDs drawn so far *)
}.

Inductive outcome (A : Type) :=
| Done (a : A)
| Failed (e : StoreError)
| Crashed     (** the process died in a system call *)
| Diverged.   (** a loop ran out of the iterations its model allows *)
Arguments Done {A} a.
Arguments Failed {A} e.
Arguments Crashed {A}.
Arguments Diverged {A}.

Definition M (A : Type) : Type := world -> outcome A * world.

Definition ret {A} (a : A) : M A := fun w => (Done a, w).
Definition throw {A} (e : StoreError) : M A := fun w => (Failed e, w).
Definition diverge {A} : M A := fun w => (Diverged, w).
Definition bind {A B} (m : M A) (k : A -> M B) : M B := fun w =>
  match m w with
  | (Done a, w) => k a w
  | (Failed e, w) => (Failed e, w)
  | (Crashed, w) => (Crashed, w)
  | (Diverged, w) => (Diverged, w)
  end.
(** Run [m] and inspect its [Result], as a [match] on it does. *)
Definition attempt {A} (m : M A) : M (result StoreError A) := fun w =>
  match m w with
  | (Done a, w) => (Done (Ok a), w)
  | (Failed e, w) => (Done (Err e), w)
  | (Crashed, w) => (Crashed, w)
  | (Diverged, w) => (Diverged, w)
  end.
Definition lift {A} (r : result StoreError A) : M A :=
  match r with Ok a => ret a | Err e => throw e end.

Declare Scope store_scope.
Delimit Scope store_scope with store.
Notation "'let*' x := m 'in' k" := (bind m (fun x => k))
  (at level 10, x name, m at level 100, k at level 200) : store_scope.
Notation "'let*' ( x , y ) := m 'in' k" := (bind m (fun p => let '(x, y) := p in k))
  (at level 10, x name, y name, m at level 100, k at level 200) : store_scope.
Notation "m ;; k" := (bind m (fun _ => k))
  (at level 100, k at level 200, right associativity) : store_scope.
Open Scope store_scope.

(** One system call: [run] is its effect when it succeeds, [torn n] what it
    leaves behind when it is interrupted after [n] bytes. *)
Definition syscall {A} (run : disk -> result io_error A * disk)
    (torn : nat -> disk -> disk) : M A := fun w =>
  let go fs :=
    match run (w_disk w) with
    | (Ok a, d) => (Done a, World d fs (w_uuids w))
    | (Err e, d) => (Failed (Io e), World d fs (w_uuids w))
    end in
  match w_faults w with
  | [] => go []
  | None :: fs => go fs
  | Some (Fail e n) :: fs => (Failed (Io e), World (torn n (w_disk w)) fs (w_uuids w))
  | Some (Crash n) :: fs => (Crashed, World (torn n (w_disk w)) fs (w_uuids w))
  end.

(** A call that does not change the disk. *)
Definition query {A} (f : disk -> result io_error A) : M A :=
  syscall (fun d => (f d, d)) (fun _ d => d).

Definition os_error (k : ErrorKind) : io_error :=
  IoError k (match k with
    | NotFound => "No such file or directory (os error 2)"
    | IsADirectory => "Is a directory (os error 21)"
    | NotADirectory => "Not a directory (os error 20)"
    | AlreadyExists => "File exists (os error 17)"
    | AddrInUse => "Address in use (os error 98)"
    | _ => "Input/output error (os error 5)"
    end).

(** [fs::symlink_metadata] and [fs::metadata]: is it a regular file, and its
    length (zero is reported for a directory, whose length no caller uses). *)
Definition metadata (p : path) : M (bool * Z) :=
  query (fun d => match dget d p with
    | Some (Regular c) => Ok (true, zlen c)
    | Some Directory => Ok (false, 0)
    | None => Err (os_error NotFound)
    end).

(** [File::open]. *)
Definition open_file (p : path) : M unit :=
  query (fun d => match dget d p with
    | Some _ => Ok tt
    | None => Err (os_error NotFound)
    end).

(** Read the whole content of an open file. *)
Definition read_all (p : path) : M bytes :=
  query (fun d => match dget d p with
    | Some (Regular c) => Ok c
    | Some Directory => Err (os_error IsADirectory)
    | None => Err (os_error NotFound)
    end).

(** [fs::read]. *)
Definition read (p : path) : M bytes := open_file p ;; read_all p.

(** [fs::read_to_string]: the content must be UTF-8; its characters. *)
Definition read_to_string (p : path) : M (bytes * list Z) :=
  let* b := read p in
  match utf8_decode b with
  | Some cs => ret (b, cs)
  | None => throw (Io (IoError InvalidData "stream did not contain valid UTF-8"))
  end.

(** [File::create]: create or truncate. *)
Definition create (p : path) : M unit :=
  syscall (fun d => match dget d p with
    | Some Directory => (Err (os_error IsADirectory), d)
    | _ => (Ok tt, dput p (Regular []) d)
    end) (fun _ d => d).

(** [OpenOptions::new().create(true).append(true).read(true).open(p)]. *)
Definition open_append (p : path) : M unit :=
  syscall (fun d => match dget d p with
    | Some Directory => (Err (os_error IsADirectory), d)
    | Some (Regular _) => (Ok tt, d)
    | None => (Ok tt, dput p (Regular []) d)
    end) (fun _ d => d).

(** [write_all] at the end of an open file; an interrupted call leaves a prefix. *)
Definition append_bytes (p : path) (b : bytes) (d : disk) : disk :=
  match dget d p with
  | Some (Regular c) => dput p (Regular (c ++ b)) d
  | _ => d
  end.
Definition write_all (p : path) (b : bytes) : M unit :=
  syscall (fun d => (Ok tt, append_bytes p b d))
          (fun n d => append_bytes p (take n b) d).

(** [File::sync_all], [File::sync_data]: durability only. *)
Definition sync : M unit := query (fun _ => Ok tt).
(** Open a directory in order to sync it; the three directories exist. *)
Definition open_dir : M unit := query (fun _ => Ok tt).

(** [fs::rename], within the queue directory. *)
Definition rename (p q : path) : M unit :=
  syscall (fun d => match dget d p, dget d q with
    | None, _ => (Err (os_error NotFound), d)
    | Some (Regular _), Some Directory => (Err (os_error IsADirectory), d)
    | Some n, _ => (Ok tt, dput q n (ddel p d))
    end) (fun _ d => d).

(** [fs::remove_file]. *)
Definition remove_file (p : path) : M unit :=
  syscall (fun d => match dget d p with
    | Some (Regular _) => (Ok tt, ddel p d)
    | Some Directory => (Err (os_error IsADirectory), d)
    | None => (Err (os_error NotFound), d)
    end) (fun _ d => d).

(** * The platform: directory order and random identifiers

    The order in which [fs::read_dir] lists names is the file system's, and
    [Uuid::new_v4] is the [uuid] crate's: both are parameters. *)
Class Platform := {
  dir_order : list string -> list string;
  new_v4 : nat -> string;
}.

Class PlatformOk `{Platform} : Prop := {
  (** A listing holds every name of the directory exactly once. *)
  dir_order_perm l : dir_order l ≡ₚ l;
  (** The hyphenated form of a UUID has 36 lowercase hexadecimal digits and hyphens. *)
  new_v4_length n : String.length (new_v4 n) = 36%nat;
  new_v4_chars n :
    Forall (fun c => is_ascii_hexdigit c = true \/ c = byte_of 45) (bytes_of (new_v4 n));
}.

Section platform.
Context `{Platform}.

(** [fs::read_dir]: the names in the directory. *)
Definition read_dir (x : dir) : M (list string) :=
  query (fun d => Ok (dir_order ((map_to_list (dmap d x)).*1))).

(** [Uuid::new_v4().to_string()]. *)
Definition fresh_uuid : M string := fun w =>
  (Done (new_v4 (w_uuids w)), World (w_disk w) (w_faults w) (S (w_uuids w))).
End platform.

(** * Reasoning about runs *)

Lemma dmap_set_same x m d : dmap (set_dmap x m d) x = m.
Proof. by destruct x. Qed.
Lemma dmap_set_other x y m d : x <> y -> dmap (set_dmap x m d) y = dmap d y.
Proof. by destruct x, y. Qed.

Lemma dget_dput_same p n d : dget (dput p n d) p = Some n.
Proof. unfold dget, dput. rewrite dmap_set_same. apply lookup_insert_eq. Qed.
Lemma dget_dput_other p q n d : p <> q -> dget (dput p n d) q = dget d q.
Proof.
  intros Hne. unfold dget, dput. destruct p as [x a], q as [y b]; simpl in *.
  destruct (decide (x = y)) as [->|Hxy]; [|by rewrite dmap_set_other].
  rewrite dmap_set_same. apply lookup_insert_ne. congruence.
Qed.
Lemma dget_ddel_same p d : dget (ddel p d) p = None.
Proof. unfold dget, ddel. rewrite dmap_set_same. apply lookup_delete_eq. Qed.
Lemma dget_ddel_other p q d : p <> q -> dget (ddel p d) q = dget d q.
Proof.
  intros Hne. unfold dget, ddel. destruct p as [x a], q as [y b]; simpl in *.
  destruct (decide (x = y)) as [->|Hxy]; [|by rewrite dmap_set_other].
  rewrite dmap_set_same. apply lookup_delete_ne. congruence.
Qed.
Lemma dmap_dput_same x a n d : dmap (dput (x, a) n d) x = <[a := n]> (dmap d x).
Proof. unfold dput. apply dmap_set_same. Qed.
Lemma dmap_dput_other x y a n d : x <> y -> dmap (dput (x, a) n d) y = dmap d y.
Proof. intros. unfold dput. by apply dmap_set_other. Qed.
Lemma dmap_ddel_same x a d : dmap (ddel (x, a) d) x = delete a (dmap d x).
Proof. unfold ddel. apply dmap_set_same. Qed.
Lemma dmap_ddel_other x y a d : x <> y -> dmap (ddel (x, a) d) y = dmap d y.
Proof. intros. unfold ddel. by apply dmap_set_other. Qed.

Lemma disk_eq d d' : (forall x, dmap d x = dmap d' x) -> d = d'.
Proof.
  intros H. pose proof (H Root). pose proof (H Entries). pose proof (H AwaitDeletions).
  destruct d, d'; simpl in *. congruence.
Qed.
Lemma disk_ext d d' : (forall p, dget d p = dget d' p) -> d = d'.
Proof. intros H. apply disk_eq. intros x. apply map_eq. intros a. apply (H (x, a)). Qed.

Create Rewrite HintDb disk.
#[export] Hint Rewrite dget_dput_same dget_ddel_same dmap_dput_same dmap_ddel_same : disk.
#[export] Hint Rewrite dget_dput_other dget_ddel_other dmap_dput_other dmap_ddel_other
  using congruence : disk.

Section runs.
Context {A B : Type}.

Lemma bind_done (m : M A) (k : A -> M B) w a w' :
  m w = (Done a, w') -> bind m k w = k a w'.
Proof. intros Hm. unfold bind. by rewrite Hm. Qed.
Lemma bind_failed (m : M A) (k : A -> M B) w e w' :
  m w = (Failed e, w') -> bind m k w = (Failed e, w').
Proof. intros Hm. unfold bind. by rewrite Hm. Qed.
Lemma attempt_done (m : M A) w a w' :
  m w = (Done a, w') -> attempt m w = (Done (Ok a), w').
Proof. intros Hm. unfold attempt. by rewrite Hm. Qed.
Lemma attempt_failed (m : M A) w e w' :
  m w = (Failed e, w') -> attempt m w = (Done (Err e), w').
Proof. intros Hm. unfold attempt. by rewrite Hm. Qed.
Lemma bind_inv (m : M A) (k : A -> M B) w b w' :
  bind m k w = (Done b, w') -> exists a w1, m w = (Done a, w1) /\ k a w1 = (Done b, w').
Proof.
  unfold bind. destruct (m w) as [[a|e| |] w1] eqn:Hm; intros Hk; simplify_eq. eauto.
Qed.
End runs.

(** The faults a schedule may hold.  No call is told that a file is missing when
    it is not: the code treats that answer as a fact about the file.  In a [calm]
    schedule the process may die, and no call fails otherwise. *)
Definition injected (e : StoreError) : Prop := exists x, e = Io x /\ kind x <> NotFound.
Definition tolerated (calm : bool) (f : option fault) : Prop :=
  match f with Some (Fail e _) => calm = false /\ kind e <> NotFound | _ => True end.
Definition genuine : list (option fault) -> Prop := Forall (tolerated false).
Definition crashes : list (option fault) -> Prop := Forall (tolerated true).

Lemma tolerated_genuine calm fs : Forall (tolerated calm) fs -> genuine fs.
Proof. intros Hfs. eapply Forall_impl; [exact Hfs|]. intros [[e n|n]|]; try done. by intros [_ ?]. Qed.

(** What is left of a schedule: whatever holds of its faults still does. *)
Definition remains (fs fs' : list (option fault)) : Prop :=
  forall P : option fault -> Prop, Forall P fs -> Forall P fs'.
#[global] Instance remains_preorder : PreOrder remains.
Proof. split; [by intros fs P|intros fs1 fs2 fs3 H12 H23 P HP; by apply H23, H12]. Qed.

Lemma remains_refl fs : remains fs fs.
Proof. reflexivity. Qed.
Lemma remains_tail f fs : remains (f :: fs) fs.
Proof. intros P HP. by apply Forall_cons_1 in HP as [_ ?]. Qed.

(** [runs_in calm m Q d]: from disk [d], under every such schedule, [m] ends with an
    outcome and a disk that satisfy [Q]. *)
Definition runs_in {A} (calm : bool) (m : M A) (Q : outcome A -> disk -> Prop) (d : disk) : Prop :=
  forall fs u, Forall (tolerated calm) fs ->
    Q (m (World d fs u)).1 (w_disk (m (World d fs u)).2)
    /\ remains fs (w_faults (m (World d fs u)).2).
Notation runs := (runs_in false).

Section runs_rules.
Context {A B : Type} {calm : bool}.

Lemma runs_ret (a : A) (Q : outcome A -> disk -> Prop) d : Q (Done a) d -> runs_in calm (ret a) Q d.
Proof. by intros HQ fs u. Qed.
Lemma runs_throw e (Q : outcome A -> disk -> Prop) d : Q (Failed e) d -> runs_in calm (throw e) Q d.
Proof. by intros HQ fs u. Qed.
Lemma runs_mono (m : M A) (Q Q' : outcome A -> disk -> Prop) d :
  runs_in calm m Q d -> (forall r d', Q r d' -> Q' r d') -> runs_in calm m Q' d.
Proof. intros Hm HQ fs u Hfs. destruct (Hm fs u Hfs). split; [by apply HQ|done]. Qed.

Lemma runs_calm (m : M A) (Q : outcome A -> disk -> Prop) d : runs m Q d -> runs_in calm m Q d.
Proof. intros Hm fs u Hfs. by apply Hm, (tolerated_genuine calm). Qed.

Lemma runs_and (m : M A) (Q Q' : outcome A -> disk -> Prop) d :
  runs_in calm m Q d -> runs_in calm m Q' d -> runs_in calm m (fun r d' => Q r d' /\ Q' r d') d.
Proof.
  intros Hm Hm' fs u Hfs. destruct (Hm fs u Hfs), (Hm' fs u Hfs). by split_and!.
Qed.

Lemma runs_bind (m : M A) (k : A -> M B) (Q : outcome B -> disk -> Prop) d :
  runs_in calm m (fun r d' => match r with
    | Done a => runs_in calm (k a) Q d'
    | Failed e => Q (Failed e) d'
    | Crashed => Q Crashed d'
    | Diverged => Q Diverged d'
    end) d -> runs_in calm (bind m k) Q d.
Proof.
  intros Hm fs u Hfs. destruct (Hm fs u Hfs) as [Hr Hg]. unfold bind.
  destruct (m (World d fs u)) as [[a|e| |] [d' fs' u']]; simpl in *; [|done..].
  destruct (Hr fs' u' (Hg _ Hfs)) as [HQ Hg']. split; [done|]. by transitivity fs'.
Qed.

Lemma runs_attempt (m : M A) (Q : outcome (result StoreError A) -> disk -> Prop) d :
  runs_in calm m (fun r d' => match r with
    | Done a => Q (Done (Ok a)) d'
    | Failed e => Q (Done (Err e)) d'
    | Crashed => Q Crashed d'
    | Diverged => Q Diverged d'
    end) d -> runs_in calm (attempt m) Q d.
Proof.
  intros Hm fs u Hfs. destruct (Hm fs u Hfs) as [Hr Hg]. unfold attempt.
  by destruct (m (World d fs u)) as [[a|e| |] [d' fs' u']].
Qed.

Lemma runs_syscall run torn (Q : outcome A -> disk -> Prop) d :
  (forall a d', run d = (Ok a, d') -> Q (Done a) d') ->
  (forall e d', run d = (Err e, d') -> Q (Failed (Io e)) d') ->
  (forall e n, kind e <> NotFound -> Q (Failed (Io e)) (torn n d)) ->
  (forall n, Q Crashed (torn n d)) ->
  runs_in calm (syscall run torn) Q d.
Proof.
  intros Hok Herr Hfail Hcrash fs u Hfs. unfold syscall. simpl.
  destruct Hfs as [|[[e n|n]|] fs Hf Hfs]; simpl.
  2:{ split; [apply Hfail, Hf|apply remains_tail]. }
  2:{ split; [apply Hcrash|apply remains_tail]. }
  all: destruct (run d) as [[e|a] d'] eqn:E; simpl; (split; [auto|]);
    apply remains_tail || reflexivity.
Qed.

Lemma runs_query f (Q : outcome A -> disk -> Prop) d :
  (forall a, f d = Ok a -> Q (Done a) d) ->
  (forall e, Q (Failed (Io e)) d) -> Q Crashed d ->
  runs_in calm (query f) Q d.
Proof.
  intros. apply runs_syscall; intros; simplify_eq; eauto.
Qed.
End runs_rules.

(** [succeeds m Q d]: without faults, [m] returns from disk [d] with a result and
    a disk that satisfy [Q]. *)
Definition succeeds {A} (m : M A) (Q : A -> disk -> Prop) (d : disk) : Prop :=
  forall u, exists a d' u', m (World d [] u) = (Done a, World d' [] u') /\ Q a d'.

Section succeeds_rules.
Context {A B : Type}.

Lemma succeeds_ret (a : A) (Q : A -> disk -> Prop) d : Q a d -> succeeds (ret a) Q d.
Proof. intros HQ u. by exists a, d, u. Qed.

Lemma succeeds_bind (m : M A) (k : A -> M B) (Q : B -> disk -> Prop) d :
  succeeds m (fun a d' => succeeds (k a) Q d') d -> succeeds (bind m k) Q d.
Proof.
  intros Hm u. destruct (Hm u) as (a & d1 & u1 & Hrun & Hk).
  destruct (Hk u1) as (b & d2 & u2 & Hrun2 & HQ). exists b, d2, u2. split; [|done].
  by rewrite (bind_done _ _ _ _ _ Hrun).
Qed.

Lemma succeeds_syscall run torn (a : A) d d' (Q : A -> disk -> Prop) :
  run d = (Ok a, d') -> Q a d' -> succeeds (syscall run torn) Q d.
Proof.
  intros Hrun HQ u. exists a, d', u. split; [|done]. unfold syscall. simpl. by rewrite Hrun.
Qed.

Lemma succeeds_quiet (m : M A) a d (Q : A -> disk -> Prop) :
  (forall u, m (World d [] u) = (Done a, World d [] u)) -> Q a d -> succeeds m Q d.
Proof. intros Hm HQ u. by exists a, d, u. Qed.

Lemma succeeds_attempt (m : M A) r d (Q : result StoreError A -> disk -> Prop) :
  (forall u, attempt m (World d [] u) = (Done r, World d [] u)) -> Q r d ->
  succeeds (attempt m) Q d.
Proof. intros Hm HQ u. by exists r, d, u. Qed.

(** What holds of every run holds of the one without faults. *)
Lemma succeeds_runs (m : M A) (R : outcome A -> disk -> Prop) (Q : A -> disk -> Prop) d :
  succeeds m (fun _ _ => True) d -> runs m R d -> (forall a d', R (Done a) d' -> Q a d') ->
  succeeds m Q d.
Proof.
  intros Hm HR HQ u. destruct (Hm u) as (a & d' & u' & Hrun & _). exists a, d', u'.
  split; [done|]. apply HQ. destruct (HR [] u) as [Hr _]; [constructor|]. by rewrite Hrun in Hr.
Qed.
End succeeds_rules.

(** * Programs that only read

    A reader that comes to a result under faults comes to the same result
    without them; it fails with its own error or with an injected one. *)
Definition reads {A} (m : M A) : Prop :=
  forall d fs u, genuine fs ->
    let '(r, w') := m (World d fs u) in
    w_disk w' = d /\ remains fs (w_faults w') /\ w_uuids w' = u
    /\ match r with
       | Done a => m (World d [] u) = (Done a, World d [] u)
       | Failed e =>
           m (World d [] u) = (Failed e, World d [] u) \/ injected e /\ ~ crashes fs
       | Crashed => True
       | Diverged => m (World d [] u) = (Diverged, World d [] u)
       end.

Section reads_rules.
Context {A B : Type}.
#[local] Hint Resolve remains_refl remains_tail : core.

Lemma reads_ret (a : A) : reads (ret a).
Proof. by intros d fs u Hfs. Qed.
Lemma reads_throw e : reads (throw e : M A).
Proof. intros d fs u Hfs. simpl. auto. Qed.
Lemma reads_diverge : reads (diverge : M A).
Proof. intros d fs u Hfs. simpl. auto. Qed.

Lemma reads_query f : reads (query f : M A).
Proof.
  intros d fs u Hfs. unfold query, syscall. simpl.
  destruct Hfs as [|[[e n|n]|] fs Hf Hfs]; simpl.
  - destruct (f d); simpl; auto.
  - split_and!; auto. right. split; [exists e; by destruct Hf|].
    intros Hc. by apply Forall_cons_1 in Hc as [[? _] _].
  - auto.
  - destruct (f d); simpl; auto.
Qed.

Lemma reads_bind (m : M A) (k : A -> M B) :
  reads m -> (forall a, reads (k a)) -> reads (bind m k).
Proof.
  intros Hm Hk d fs u Hfs. specialize (Hm d fs u Hfs). unfold bind.
  destruct (m (World d fs u)) as [[a|e| |] [d1 fs1 u1]]; simpl in *;
    destruct Hm as (-> & Hg & -> & Hm).
  - specialize (Hk a d fs1 u (Hg _ Hfs)). rewrite Hm.
    destruct (k a (World d fs1 u)) as [r w']. destruct Hk as (H1 & H2 & H3 & H4).
    split_and!; [done|by transitivity fs1|done|]. destruct r; try done.
    destruct H4 as [?|[? Hc]]; [by left|right]. split; [done|]. contradict Hc. by apply Hg.
  - split_and!; auto. destruct Hm as [->|Hm]; auto.
  - auto.
  - split_and!; auto. by rewrite Hm.
Qed.

(** A [match] on a result that passes injected errors on. *)
Lemma reads_attempt (m : M A) (k : result StoreError A -> M B) :
  reads m -> (forall a, reads (k (Ok a))) -> (forall e, reads (k (Err e))) ->
  (forall e w, injected e -> k (Err e) w = (Failed e, w)) ->
  reads (bind (attempt m) k).
Proof.
  intros Hm Hok Herr Hinj d fs u Hfs. specialize (Hm d fs u Hfs). unfold bind, attempt.
  assert (Hnext : forall r fs1, remains fs fs1 -> reads (k r) ->
    let '(o, w') := k r (World d fs1 u) in
    w_disk w' = d /\ remains fs (w_faults w') /\ w_uuids w' = u
    /\ match o with
       | Done a => k r (World d [] u) = (Done a, World d [] u)
       | Failed e => k r (World d [] u) = (Failed e, World d [] u) \/ injected e /\ ~ crashes fs
       | Crashed => True
       | Diverged => k r (World d [] u) = (Diverged, World d [] u)
       end).
  { intros r fs1 Hg Hr. specialize (Hr d fs1 u (Hg _ Hfs)).
    destruct (k r (World d fs1 u)) as [o w']. destruct Hr as (H1 & H2 & H3 & H4).
    split_and!; [done|by transitivity fs1|done|]. destruct o; try done.
    destruct H4 as [?|[? Hc]]; [by left|right]. split; [done|]. contradict Hc. by apply Hg. }
  destruct (m (World d fs u)) as [[a|e| |] [d1 fs1 u1]]; simpl in *;
    destruct Hm as (-> & Hg & -> & Hm).
  - rewrite Hm. by apply Hnext.
  - destruct Hm as [Hm|[Hm Hc]]; [rewrite Hm; by apply Hnext|].
    rewrite Hinj by done. simpl. split_and!; auto.
  - auto.
  - split_and!; auto. by rewrite Hm.
Qed.

(** Under faults a reader returns its quiet result, fails or dies. *)
Lemma runs_reads {calm : bool} (m : M A) r d (Q : outcome A -> disk -> Prop) :
  reads m -> (forall u, m (World d [] u) = (r, World d [] u)) ->
  Q r d -> (forall e, injected e -> calm = false -> Q (Failed e) d) -> Q Crashed d ->
  runs_in calm m Q d.
Proof.
  intros Hm Hq Hr Hi Hc fs u Hfs. specialize (Hm d fs u (tolerated_genuine calm fs Hfs)).
  destruct (m (World d fs u)) as [r' [d' fs' u']]. simpl in *.
  destruct Hm as (-> & Hg & _ & Hres). split; [|done]. specialize (Hq u).
  destruct r' as [a|e| |]; [| |done|].
  - rewrite Hres in Hq. by simplify_eq.
  - destruct Hres as [Hres|[Hres Hnc]]; [rewrite Hres in Hq; by simplify_eq|].
    apply Hi; [done|]. by destruct calm.
  - rewrite Hres in Hq. by simplify_eq.
Qed.
End reads_rules.

Create HintDb reads.
#[export] Hint Resolve reads_ret reads_throw reads_diverge reads_query reads_bind : reads.

(** ** Quiet readers

    Without faults the run changes nothing, whatever its result. *)
Definition still {A} (m : M A) : Prop :=
  forall d u, exists r, m (World d [] u) = (r, World d [] u).

Section still_rules.
Context {A B : Type}.

Lemma still_ret (a : A) : still (ret a).
Proof. intros d u. by eexists. Qed.
Lemma still_throw e : still (throw e : M A).
Proof. intros d u. by eexists. Qed.
Lemma still_diverge : still (diverge : M A).
Proof. intros d u. by eexists. Qed.
Lemma still_query f : still (query f : M A).
Proof. intros d u. unfold query, syscall. cbn. destruct (f d); by eexists. Qed.
Lemma still_lift r : still (lift r : M A).
Proof. destruct r; [apply still_throw|apply still_ret]. Qed.
Lemma still_bind (m : M A) (k : A -> M B) : still m -> (forall a, still (k a)) -> still (bind m k).
Proof.
  intros Hm Hk d u. destruct (Hm d u) as [r Hr]. unfold bind. rewrite Hr.
  destruct r; [apply Hk|by eexists..].
Qed.
Lemma still_attempt (m : M A) : still m -> still (attempt m).
Proof.
  intros Hm d u. destruct (Hm d u) as [r Hr]. unfold attempt. rewrite Hr.
  destruct r; by eexists.
Qed.
End still_rules.
Create HintDb still.
#[export] Hint Resolve still_ret still_throw still_diverge still_query still_lift still_bind
  still_attempt : still.

(** Walk down a reader: binds, tests, matches. *)
Ltac still_step :=
  match goal with
  | |- forall _, _ => intros ?
  | |- still (bind _ _) => apply still_bind
  | |- still (attempt _) => apply still_attempt
  | |- still (match ?x with _ => _ end) => destruct x
  | |- still (let '(_, _) := ?x in _) => destruct x
  | |- _ => solve [auto with still]
  end.
Ltac still := repeat still_step.

(** A quiet reader that also comes to an answer: a value or an error. *)
Definition answers {A} (m : M A) : Prop :=
  forall d u, exists r, attempt m (World d [] u) = (Done r, World d [] u).

Section answers_rules.
Context {A B : Type}.

Lemma answers_ret (a : A) : answers (ret a).
Proof. intros d u. by eexists. Qed.
Lemma answers_throw e : answers (throw e : M A).
Proof. intros d u. by eexists. Qed.
Lemma answers_query f : answers (query f : M A).
Proof. intros d u. unfold attempt, query, syscall. cbn. destruct (f d); by eexists. Qed.
Lemma answers_lift r : answers (lift r : M A).
Proof. destruct r; [apply answers_throw|apply answers_ret]. Qed.
Lemma answers_bind (m : M A) (k : A -> M B) :
  answers m -> (forall a, answers (k a)) -> answers (bind m k).
Proof.
  intros Hm Hk d u. destruct (Hm d u) as [r Hr]. unfold attempt, bind in *.
  destruct (m (World d [] u)) as [[a|e| |] w]; try done; injection Hr as <- ->; [apply Hk|by eexists].
Qed.
Lemma answers_attempt (m : M A) : answers m -> answers (attempt m).
Proof.
  intros Hm d u. destruct (Hm d u) as [r Hr]. exists (Ok r). unfold attempt at 1. by rewrite Hr.
Qed.
End answers_rules.
Create HintDb answers.
#[export] Hint Resolve answers_ret answers_throw answers_query answers_lift answers_bind
  answers_attempt : answers.

Ltac answers_step :=
  match goal with
  | |- forall _, _ => intros ?
  | |- answers (bind _ _) => apply answers_bind
  | |- answers (attempt _) => apply answers_attempt
  | |- answers (match ?x with _ => _ end) => destruct x
  | |- answers (let '(_, _) := ?x in _) => destruct x
  | |- _ => solve [auto with answers]
  end.
Ltac answers := repeat answers_step.
