(* ===== verification/Recorder.v ===== *)
(** Metric samples ([metrics.rs], [metrics/duration.rs]): what each recording
    function hands to the metrics recorder, with the fixed label vocabulary.

    A sample carries the integer the code starts from; the conversion to a float is
    the recorder's. *)

From S2P Require Import Prelude Text Disk.

(** * Samples *)

(** Increments of counters, values of gauges, observations of histograms; durations
    are in nanoseconds, [Seconds] are whole seconds. *)
Inductive value := Increment (n : Z) | Level (n : Z) | Seconds (n : Z) | Duration (nanos : Z).

Record sample := Sample {
  s_name : string;
  s_labels : list (string * string);
  s_value : value;
}.

Definition TASK_RESTARTS : string := "comenqd_task_restarts_total".
Definition REQUESTS : string := "comenqd_requests_total".
Definition QUEUE_ENTRIES : string := "comenqd_queue_entries".
Definition QUEUE_BYTES : string := "comenqd_queue_bytes".
Definition AWAIT_SCHEDULE_CACHE : string := "comenqd_await_schedule_cache_total".
Definition COOLDOWN_WAIT_DURATION : string := "comenqd_cooldown_wait_duration_seconds".
Definition GITHUB_POSTS : string := "comenqd_github_posts_total".
Definition GITHUB_POST_DURATION : string := "comenqd_github_post_duration_seconds".
Definition PROTOCOL_TRANSACTION_DURATION : string := "comenqd_protocol_transaction_duration_seconds".
Definition QUEUE_STORE_OPERATION_DURATION : string := "comenqd_queue_store_operation_duration_seconds".

(** Record a supervised task restart using a fixed task-name label. *)
Definition record_task_restart (task : string) : sample :=
  Sample TASK_RESTARTS [("task", task)] (Increment 1).

(** Record whether a client request reached the daemon queue. *)
Definition record_request (operation : option string) (outcome : string) : sample :=
  match operation with
  | Some operation => Sample REQUESTS [("operation", operation); ("outcome", outcome)] (Increment 1)
  | None => Sample REQUESTS [("outcome", outcome)] (Increment 1)
  end.

Definition record_queue_entries (count : Z) : sample := Sample QUEUE_ENTRIES [] (Level count).
Definition record_queue_bytes (bytes : Z) : sample := Sample QUEUE_BYTES [] (Level bytes).

Definition record_await_schedule_cache (outcome : string) : sample :=
  Sample AWAIT_SCHEDULE_CACHE [("outcome", outcome)] (Increment 1).

Definition record_cooldown_wait (seconds : Z) : sample :=
  Sample COOLDOWN_WAIT_DURATION [] (Seconds seconds).

Definition record_github_post_outcome (outcome : string) : sample :=
  Sample GITHUB_POSTS [("outcome", outcome)] (Increment 1).
Definition record_github_post_duration (duration : Z) : sample :=
  Sample GITHUB_POST_DURATION [] (Duration duration).

(** * Labels *)

(** A label of the vocabulary stays, any other becomes [unknown]. *)
Definition bounded (vocabulary : list string) (label : string) : string :=
  if decide (label ∈ vocabulary) then label else "unknown".

(** Map wire operations to a fixed label vocabulary. *)
Definition protocol_operation_label (operation : option string) : string :=
  match operation with
  | Some operation => bounded ["put"; "list"; "bump"; "bust"; "del"; "hist"; "await"] operation
  | None => "unknown"
  end.

(** Map internal store operation names to a finite label vocabulary. *)
Definition queue_store_operation_label (operation : string) : string :=
  if decide (operation = "claim_next_due") then "claim"
  else if decide (operation = "release_claim") then "release"
  else if decide (operation = "recover_worker_state") then "recover"
  else if decide (operation = "queue_metrics_snapshot") then "metrics"
  else bounded ["put"; "list"; "bump"; "bust"; "del"; "hist"; "history"; "append_history";
                "latest_history_token"; "next_due"; "complete"; "resolve_await"] operation.

Definition bounded_outcome_label (outcome : string) : string :=
  bounded ["accepted"; "failed"; "rejected"; "success"; "failure"; "posted"; "unknown_identifier";
           "removed"; "rejected_capacity"; "shutdown"; "client_gone"; "posted_without_url";
           "posted_url_too_large"; "not_found"; "permission_denied"; "invalid_data"; "io_error";
           "invalid_json"; "invalid_identifier"; "unsafe_identifier"; "invalid_repository_component";
           "invalid_last_post"; "invalid_last_attempt"; "blocking_task"; "queue_full";
           "entry_too_large"; "byte_budget_exceeded"] outcome.

Definition bounded_error_label (error_kind : option string) : string :=
  match error_kind with
  | None => "none"
  | Some error_kind =>
      bounded ["none"; "protocol_io"; "invalid_json"; "response_too_large"; "response_serialization";
               "not_found"; "permission_denied"; "invalid_data"; "io_error"; "unknown_identifier";
               "unsafe_identifier"; "invalid_repository_component"; "invalid_last_post";
               "invalid_last_attempt"; "blocking_task"; "queue_full"; "entry_too_large";
               "byte_budget_exceeded"] error_kind
  end.

(** * Durations *)

Definition duration_labels (operation outcome error_kind : string) : list (string * string) :=
  [("operation", operation); ("outcome", outcome); ("error_kind", error_kind)].

(** Record a complete listener transaction with fixed, low-cardinality labels. *)
Definition record_protocol_duration (operation : option string) (outcome : string)
    (error_kind : option string) (duration : Z) : sample :=
  Sample PROTOCOL_TRANSACTION_DURATION
    (duration_labels (protocol_operation_label operation) (bounded_outcome_label outcome)
       (bounded_error_label error_kind))
    (Duration duration).

(** Record a blocking store result. *)
Definition record_queue_store_duration (operation outcome : string) (error_kind : option string)
    (duration : Z) : sample :=
  Sample QUEUE_STORE_OPERATION_DURATION
    (duration_labels (queue_store_operation_label operation) (bounded_outcome_label outcome)
       (bounded_error_label error_kind))
    (Duration duration).

(** How [with_state] and [scan_await_history] record a result of store work. *)
Definition store_sample {A} (operation : string) (r : result StoreError A) (duration : Z) : sample :=
  let '(outcome, error_kind) :=
    match r with Ok _ => ("success", None) | Err e => ("failure", Some (category e)) end in
  record_queue_store_duration operation outcome error_kind duration.
