(* ===== verification/Entry.v ===== *)
(** Queue entries and the other durable records of the store ([store.rs],
    [store/history/record.rs], [store/completion.rs], [store/await_deletions.rs]):
    their data, their identifiers and file names, and the interface to the JSON
    codec, which is the [serde_json] crate's. *)

From S2P Require Import Prelude Text Protocol Disk.

(** * Durable records *)

Module StoredEntry.
Record t := mk {
  id : string;
  incarnation : string;
  order : Z;
  flutter_seconds : Z;
  enqueued_at : Z;
  not_before : Z;
  claim_token : option string;
  request : CommentRequest.t;
}.
#[global] Instance t_eq_dec : EqDecision t.
Proof. solve_decision. Defined.

(** The updates the store makes to an entry after it is enqueued. *)
Definition with_order (o : Z) (e : t) : t :=
  mk (id e) (incarnation e) o (flutter_seconds e) (enqueued_at e) (not_before e)
     (claim_token e) (request e).
Definition with_claim (c : option string) (e : t) : t :=
  mk (id e) (incarnation e) (order e) (flutter_seconds e) (enqueued_at e) (not_before e)
     c (request e).
Definition with_incarnation (i : string) (e : t) : t :=
  mk (id e) i (order e) (flutter_seconds e) (enqueued_at e) (not_before e)
     (claim_token e) (request e).
End StoredEntry.

Module HistoryRecord.
Record t := mk {
  attempt_id : string;
  id : string;
  posted_at : Z;
  success : bool;
  error : option string;
  token_hash : string;
  comment_url : option string;
  incarnation : string;
  request : CommentRequest.t;
}.
#[global] Instance t_eq_dec : EqDecision t.
Proof. solve_decision. Defined.
End HistoryRecord.

Module CompletionRecord.
Record t := mk {
  id : string;
  posted_at : Z;
  claim_token : option string;
  history : option HistoryRecord.t;
  history_offset : option Z;
}.
End CompletionRecord.

Module AwaitDeletionRecord.
Record t := mk { incarnation : string }.
End AwaitDeletionRecord.

Module PutOptions.
Record t := mk { cooldown : Z; flutter_seconds : Z; immediate : bool }.
End PutOptions.

(** * Identifiers *)

Definition FNV_OFFSET : Z := 0xcbf29ce484222325.
Definition FNV_PRIME : Z := 0x00000100000001b3.

(** The closure [eat]: fold bytes into the 64-bit FNV-1a state. *)
Definition eat (hash : Z) (bs : bytes) : Z :=
  foldl (fun h b => wrapping_mul (Z.lxor h (code b)) FNV_PRIME) hash bs.

Definition entry_hash (request : CommentRequest.t) (enqueued_at : Z) (salt : option Z) : Z :=
  let hash := FNV_OFFSET in
  let hash := eat hash (bytes_of (CommentRequest.owner request)) in
  let hash := eat hash [byte_of 0] in
  let hash := eat hash (bytes_of (CommentRequest.repo request)) in
  let hash := eat hash [byte_of 0] in
  let hash := eat hash (to_le_bytes (CommentRequest.pr_number request)) in
  let hash := eat hash (bytes_of (CommentRequest.body request)) in
  let hash := eat hash (to_le_bytes enqueued_at) in
  match salt with
  | Some salt => eat hash (to_le_bytes salt)
  | None => hash
  end.

(** [format!("{hash:016x}")] and its first eight characters. *)
Definition entry_id_with_salt (request : CommentRequest.t) (enqueued_at : Z)
    (salt : option Z) : string :=
  string_of (take 8 (hex_digits 16 (entry_hash request enqueued_at salt))).

Definition entry_id (request : CommentRequest.t) (enqueued_at : Z) : string :=
  entry_id_with_salt request enqueued_at None.

(** Check whether an identifier is safe as a queue-entry filename. *)
Definition is_valid_id (id : string) : bool :=
  (zstrlen id =? 8) && forallb is_ascii_hexdigit (bytes_of id).

(** * File names *)

(** Split a file name at its last dot, as [Path] does. *)
Fixpoint rsplit_dot (s : bytes) : option (bytes * bytes) :=
  match s with
  | [] => None
  | c :: r =>
      match rsplit_dot r with
      | Some (before, after) => Some (c :: before, after)
      | None => if decide (c = byte_of 46) then Some ([], r) else None
      end
  end.

(** [Path::extension] and [Path::file_stem] of a file name.  A leading dot is
    part of the stem, and the name [..] has no extension. *)
Definition split_extension (name : string) : string * option string :=
  if decide (name = "..") then (name, None)
  else match rsplit_dot (bytes_of name) with
       | Some ((_ :: _) as before, after) => (string_of before, Some (string_of after))
       | _ => (name, None)
       end.
Definition file_stem (name : string) : string := (split_extension name).1.
Definition extension (name : string) : option string := (split_extension name).2.

(** [path.with_extension("tmp")]. *)
Definition tmp_path (p : path) : path := (p.1, file_stem p.2 +:+ ".tmp").

Definition LAST_POST_FILE : path := (Root, "last_post").
Definition LAST_ATTEMPT_FILE : path := (Root, "last_attempt").
Definition HISTORY_FILE : path := (Root, "history.jsonl").
Definition COMPLETION_FILE : path := (Root, "completion").

(** Resolve a validated identifier to its persisted entry path. *)
Definition entry_path (id : string) : result StoreError path :=
  if is_valid_id id then Ok (Entries, id +:+ ".json") else Err (InvalidId id).

(** Resolve an identifier's durable deletion marker path. *)
Definition await_deletion_path (id : string) : result StoreError path :=
  if is_valid_id id then Ok (AwaitDeletions, id) else Err (InvalidId id).

(** Require the persisted identifier to name the file that stores it. *)
Definition path_matches_id (name id : string) : bool := bool_decide (file_stem name = id).

(** * The JSON codec

    [serde_json] is not part of the repository: its functions are parameters,
    with what the store relies on as laws. *)
Class SerdeJson := {
  entry_to_vec_pretty : StoredEntry.t -> option bytes;
  entry_from_slice : bytes -> result string StoredEntry.t;
  string_to_vec : string -> option bytes;
  record_to_vec : HistoryRecord.t -> option bytes;
  record_from_slice : bytes -> result string HistoryRecord.t;
  completion_to_vec : CompletionRecord.t -> option bytes;
  completion_from_str : bytes -> result string CompletionRecord.t;
  deletion_to_vec : AwaitDeletionRecord.t -> option bytes;
  deletion_from_slice : bytes -> result string AwaitDeletionRecord.t;
}.

(** A [?] on a serialization result. *)
Definition serde_some {A} (r : option A) : M A :=
  match r with Some a => ret a | None => throw (Serde "serialization failed") end.
Definition serde_ok {A} (r : result string A) : M A :=
  match r with Ok a => ret a | Err e => throw (Serde e) end.

(** Values that a Rust program can hold: machine-width integers, UTF-8 text. *)
Definition utf8 (s : string) : Prop := is_Some (utf8_decode (bytes_of s)).
Definition utf8_opt (o : option string) : Prop :=
  match o with Some s => utf8 s | None => True end.
Definition request_typed (r : CommentRequest.t) : Prop :=
  utf8 (CommentRequest.owner r) /\ utf8 (CommentRequest.repo r)
  /\ is_u64 (CommentRequest.pr_number r) /\ utf8 (CommentRequest.body r).
Definition entry_typed (e : StoredEntry.t) : Prop :=
  utf8 (StoredEntry.id e) /\ utf8 (StoredEntry.incarnation e)
  /\ is_i64 (StoredEntry.order e) /\ is_u64 (StoredEntry.flutter_seconds e)
  /\ is_u64 (StoredEntry.enqueued_at e) /\ is_u64 (StoredEntry.not_before e)
  /\ utf8_opt (StoredEntry.claim_token e) /\ request_typed (StoredEntry.request e).
Definition record_typed (r : HistoryRecord.t) : Prop :=
  utf8 (HistoryRecord.attempt_id r) /\ utf8 (HistoryRecord.id r)
  /\ is_u64 (HistoryRecord.posted_at r) /\ utf8_opt (HistoryRecord.error r)
  /\ utf8 (HistoryRecord.token_hash r) /\ utf8_opt (HistoryRecord.comment_url r)
  /\ utf8 (HistoryRecord.incarnation r) /\ request_typed (HistoryRecord.request r).
Definition completion_typed (c : CompletionRecord.t) : Prop :=
  utf8 (CompletionRecord.id c) /\ is_u64 (CompletionRecord.posted_at c)
  /\ utf8_opt (CompletionRecord.claim_token c)
  /\ match CompletionRecord.history c with Some r => record_typed r | None => True end
  /\ match CompletionRecord.history_offset c with Some o => is_u64 o | None => True end.

(** Two entries that agree on everything but the fields the store updates. *)
Definition same_body (e e' : StoredEntry.t) : Prop :=
  StoredEntry.id e = StoredEntry.id e'
  /\ StoredEntry.flutter_seconds e = StoredEntry.flutter_seconds e'
  /\ StoredEntry.enqueued_at e = StoredEntry.enqueued_at e'
  /\ StoredEntry.not_before e = StoredEntry.not_before e'
  /\ StoredEntry.request e = StoredEntry.request e'.

(** The widths of the three updatable fields in the pretty-printed form: the
    decimal order key; [null] or the quoted claim token; nothing, or a line
    [  "incarnation": <string>,] with its newline. *)
Definition quoted_length `{SerdeJson} (s : string) : Z :=
  match string_to_vec s with Some b => zlen b | None => 0 end.
Definition order_width (e : StoredEntry.t) : Z := zlen (i64_to_bytes (StoredEntry.order e)).
Definition claim_width `{SerdeJson} (e : StoredEntry.t) : Z :=
  match StoredEntry.claim_token e with Some t => quoted_length t | None => 4 end.
Definition incarnation_width `{SerdeJson} (e : StoredEntry.t) : Z :=
  if decide (StoredEntry.incarnation e = "") then 0
  else 19 + quoted_length (StoredEntry.incarnation e).

Class SerdeJsonOk `{SerdeJson} : Prop := {
  (** The derived [Serialize] implementations of these types do not fail. *)
  entry_to_vec_total e : entry_typed e -> is_Some (entry_to_vec_pretty e);
  record_to_vec_total r : record_typed r -> is_Some (record_to_vec r);
  completion_to_vec_total c : completion_typed c -> is_Some (completion_to_vec c);
  deletion_to_vec_total m :
    utf8 (AwaitDeletionRecord.incarnation m) -> is_Some (deletion_to_vec m);
  (** Deserializing what was serialized gives the value back. *)
  entry_round_trip e b :
    entry_typed e -> entry_to_vec_pretty e = Some b -> entry_from_slice b = Ok e;
  record_round_trip r b :
    record_typed r -> record_to_vec r = Some b -> record_from_slice b = Ok r;
  completion_round_trip c b :
    completion_typed c -> completion_to_vec c = Some b -> completion_from_str b = Ok c;
  deletion_round_trip m b :
    utf8 (AwaitDeletionRecord.incarnation m) ->
    deletion_to_vec m = Some b -> deletion_from_slice b = Ok m;
  (** Serialized text is UTF-8. *)
  completion_to_vec_utf8 c b :
    completion_typed c -> completion_to_vec c = Some b -> is_Some (utf8_decode b);
  (** The compact form of a record is one line that holds an object; an object
      is complete only with its closing brace, and JSON allows whitespace after
      a value. *)
  record_to_vec_object r b : record_to_vec r = Some b -> head b = Some (byte_of 123);
  record_from_slice_prefix r b k :
    record_typed r -> record_to_vec r = Some b -> (k < length b)%nat ->
    exists message, record_from_slice (take k b) = Err message;
  record_to_vec_line r b : record_to_vec r = Some b -> NEWLINE ∉ b;
  record_from_slice_newline b r :
    record_from_slice (b ++ [NEWLINE]) = Ok r <-> record_from_slice b = Ok r;
  (** A string of ASCII characters that need no escape is quoted as it is. *)
  string_to_vec_plain s :
    Forall (fun c => is_ascii_hexdigit c = true \/ c = byte_of 45) (bytes_of s) ->
    string_to_vec s = Some (byte_of 34 :: bytes_of s ++ [byte_of 34]);
  (** The pretty printer writes each field on its own line, so the size of an
      entry changes by the widths of the fields that change. *)
  entry_size_difference e e' b b' :
    entry_typed e -> entry_typed e' -> same_body e e' ->
    entry_to_vec_pretty e = Some b -> entry_to_vec_pretty e' = Some b' ->
    zlen b' - zlen b
    = (order_width e' - order_width e) + (claim_width e' - claim_width e)
      + (incarnation_width e' - incarnation_width e);
}.

(** * Identifier properties *)

Lemma bytes_of_take8 b : bytes_of (string_of (take 8 b)) = take 8 b.
Proof. apply bytes_of_string_of. Qed.

Lemma is_valid_id_spec id :
  is_valid_id id = true <->
  length (bytes_of id) = 8%nat /\ Forall (fun c => is_ascii_hexdigit c = true) (bytes_of id).
Proof.
  unfold is_valid_id, zstrlen. rewrite andb_true_iff, Z.eqb_eq, forallb_forall, Forall_forall.
  rewrite bytes_of_length. setoid_rewrite list_elem_of_In. split; intros [? ?]; split; auto; lia.
Qed.

(** Every derived identifier is eight lowercase hexadecimal characters, so it is
    a valid file name whatever the request. *)
Lemma entry_id_with_salt_valid request now salt :
  is_valid_id (entry_id_with_salt request now salt) = true.
Proof.
  apply is_valid_id_spec. unfold entry_id_with_salt. rewrite bytes_of_take8. split.
  - rewrite length_take, hex_digits_length. reflexivity.
  - apply Forall_take, hex_digits_hex.
Qed.

Lemma rsplit_dot_app a b :
  rsplit_dot b = None -> rsplit_dot (a ++ byte_of 46 :: b) = Some (a, b).
Proof.
  intros Hb. induction a as [|c a IH]; simpl.
  - by rewrite Hb.
  - by rewrite IH.
Qed.

Lemma string_of_app a b : string_of (a ++ b) = string_of a +:+ string_of b.
Proof.
  rewrite <- (string_of_bytes_of (string_of a +:+ string_of b)).
  by rewrite bytes_of_app, !bytes_of_string_of.
Qed.

Lemma bytes_of_inj s t : bytes_of s = bytes_of t -> s = t.
Proof. intros Heq. rewrite <- (string_of_bytes_of s), <- (string_of_bytes_of t). congruence. Qed.

(** A valid identifier followed by an extension splits at that dot. *)
Lemma split_extension_app id ext :
  bytes_of id <> [] -> rsplit_dot (bytes_of ext) = None -> ext <> "" ->
  split_extension (id +:+ "." +:+ ext) = (id, Some ext).
Proof.
  intros Hid Hext Hne. unfold split_extension.
  assert (Hb : bytes_of (id +:+ "." +:+ ext) = bytes_of id ++ byte_of 46 :: bytes_of ext)
    by by rewrite !bytes_of_app.
  rewrite decide_False.
  - rewrite Hb, rsplit_dot_app by done. destruct (bytes_of id) eqn:E; [done|].
    rewrite <- E. by rewrite !string_of_bytes_of.
  - intros Heq. apply (f_equal bytes_of) in Heq. rewrite Hb in Heq.
    destruct (bytes_of id) as [|c [|c' l]]; [done| |].
    + simpl in Heq. injection Heq as _ Heq. apply (bytes_of_inj ext "") in Heq. done.
    + simpl in Heq. by destruct l.
Qed.

Lemma is_valid_id_nonempty id : is_valid_id id = true -> bytes_of id <> [].
Proof. intros [Hl _]%is_valid_id_spec. by destruct (bytes_of id). Qed.

Lemma valid_json_name id :
  is_valid_id id = true ->
  file_stem (id +:+ ".json") = id /\ extension (id +:+ ".json") = Some "json".
Proof.
  intros Hv. unfold file_stem, extension.
  change (id +:+ ".json") with (id +:+ "." +:+ "json").
  rewrite (split_extension_app id "json"); [done| |done|done].
  by apply is_valid_id_nonempty.
Qed.

Lemma valid_tmp_name id :
  is_valid_id id = true ->
  tmp_path (Entries, id +:+ ".json") = (Entries, id +:+ ".tmp")
  /\ extension (id +:+ ".tmp") = Some "tmp".
Proof.
  intros Hv. unfold tmp_path, extension. simpl.
  destruct (valid_json_name id Hv) as [-> _]. split; [done|].
  change (id +:+ ".tmp") with (id +:+ "." +:+ "tmp").
  rewrite (split_extension_app id "tmp"); [done| |done|done].
  by apply is_valid_id_nonempty.
Qed.

Lemma json_name_inj id id' : id +:+ ".json" = id' +:+ ".json" -> id = id'.
Proof.
  intros Heq%(f_equal bytes_of). rewrite !bytes_of_app in Heq.
  apply app_inv_tail in Heq. by apply bytes_of_inj.
Qed.
