(* ===== verification/Wire.v ===== *)
(** The JSON form of the messages ([src/protocol.rs]): the functions of
    [serde_json] on requests, responses and await events, which are not part of
    the repository, as parameters, with what the client and the listener rely on
    as laws. *)

From S2P Require Import Prelude Text Protocol Disk Entry.

Class WireJson := {
  request_to_vec : Request.t -> option bytes;
  request_from_slice : bytes -> result string Request.t;
  response_to_vec : Response.t -> option bytes;
  response_from_slice : bytes -> result string Response.t;
  pending_to_vec : PendingEntry.t -> option bytes;
  history_entry_to_vec : HistoryEntry.t -> option bytes;
  event_to_vec : AwaitEvent.t -> option bytes;
  event_from_slice : bytes -> result string AwaitEvent.t;
}.

(** * Messages that a Rust program can hold *)

Definition cursor_typed (c : HistoryCursor.t) : Prop :=
  is_u64 (HistoryCursor.offset c) /\ is_u64 (HistoryCursor.end_offset c).
Definition cursor_opt_typed (o : option HistoryCursor.t) : Prop :=
  match o with Some c => cursor_typed c | None => True end.
Definition pending_typed (e : PendingEntry.t) : Prop :=
  utf8 (PendingEntry.id e) /\ is_u64 (PendingEntry.eta_seconds e)
  /\ utf8 (PendingEntry.owner e) /\ utf8 (PendingEntry.repo e)
  /\ is_u64 (PendingEntry.pr_number e) /\ utf8 (PendingEntry.body e).
Definition history_entry_typed (e : HistoryEntry.t) : Prop :=
  utf8 (HistoryEntry.id e) /\ is_u64 (HistoryEntry.posted_at e)
  /\ utf8_opt (HistoryEntry.error e) /\ utf8 (HistoryEntry.token_hash e)
  /\ utf8 (HistoryEntry.owner e) /\ utf8 (HistoryEntry.repo e)
  /\ is_u64 (HistoryEntry.pr_number e) /\ utf8 (HistoryEntry.body e).
Definition request_wf (r : Request.t) : Prop :=
  match r with
  | Request.Put c _ => request_typed c
  | Request.List => True
  | Request.Bump i | Request.Bust i | Request.Del i | Request.Await i => utf8 i
  | Request.Hist limit cursor =>
      match limit with Some n => is_u64 n | None => True end /\ cursor_opt_typed cursor
  end.
Definition response_wf (r : Response.t) : Prop :=
  match r with
  | Response.Ok entry entries history cursor =>
      match entry with Some e => pending_typed e | None => True end
      /\ match entries with Some es => Forall pending_typed es | None => True end
      /\ match history with Some hs => Forall history_entry_typed hs | None => True end
      /\ cursor_opt_typed cursor
  | Response.Error m => utf8 m
  end.
Definition event_wf (e : AwaitEvent.t) : Prop :=
  match e with
  | AwaitEvent.Waiting eta => is_u64 eta
  | AwaitEvent.Posted s | AwaitEvent.Error s => utf8 s
  end.

(** Printable ASCII without a quote or a backslash: quoted as it is. *)
Definition plain (s : string) : bool :=
  forallb (fun c => (32 <=? code c) && (code c <=? 126) && negb (code c =? 34) && negb (code c =? 92))
    (bytes_of s).

(** The commas between the elements of a compact array. *)
Definition separators {A} (l : list A) : Z := Z.max 0 (zlen l - 1).

Class WireJsonOk `{WireJson} : Prop := {
  (** The derived [Serialize] implementations of these types do not fail. *)
  request_to_vec_total r : request_wf r -> is_Some (request_to_vec r);
  response_to_vec_total r : response_wf r -> is_Some (response_to_vec r);
  pending_to_vec_total e : pending_typed e -> is_Some (pending_to_vec e);
  history_entry_to_vec_total e : history_entry_typed e -> is_Some (history_entry_to_vec e);
  event_to_vec_total e : event_wf e -> is_Some (event_to_vec e);
  (** Deserializing what was serialized gives the value back; JSON allows
      whitespace after a value. *)
  request_round_trip r b :
    request_wf r -> request_to_vec r = Some b -> request_from_slice b = Ok r;
  response_round_trip r b :
    response_wf r -> response_to_vec r = Some b -> response_from_slice b = Ok r;
  event_round_trip e b :
    event_wf e -> event_to_vec e = Some b -> event_from_slice (b ++ [NEWLINE]) = Ok e;
  (** The compact form of an event is one line. *)
  event_to_vec_line e b : event_to_vec e = Some b -> NEWLINE ∉ b;
  (** An array is its elements and the commas between them. *)
  entries_size es bs b0 b :
    Forall pending_typed es -> Forall2 (fun e x => pending_to_vec e = Some x) es bs ->
    response_to_vec (Response.entries []) = Some b0 ->
    response_to_vec (Response.entries es) = Some b ->
    zlen b = zlen b0 + zsum (zlen <$> bs) + separators es;
  history_size hs cursor bs b0 b :
    Forall history_entry_typed hs -> cursor_opt_typed cursor ->
    Forall2 (fun e x => history_entry_to_vec e = Some x) hs bs ->
    response_to_vec (Response.history [] cursor) = Some b0 ->
    response_to_vec (Response.history hs cursor) = Some b ->
    zlen b = zlen b0 + zsum (zlen <$> bs) + separators hs;
  (** The envelopes: an empty list reply and an error with a plain message. *)
  empty_entries_size b : response_to_vec (Response.entries []) = Some b -> zlen b <= 64;
  empty_history_size cursor b : cursor_opt_typed cursor ->
    response_to_vec (Response.history [] cursor) = Some b -> zlen b <= 160;
  error_size m b : plain m = true -> response_to_vec (Response.error m) = Some b ->
    zlen b <= 64 + zstrlen m;
  hist_request_size limit cursor b : request_wf (Request.Hist limit cursor) ->
    request_to_vec (Request.Hist limit cursor) = Some b -> zlen b <= 256;
  event_error_size m b : plain m = true -> event_to_vec (AwaitEvent.Error m) = Some b ->
    zlen b <= 64 + zstrlen m;
  event_waiting_size n b : is_u64 n -> event_to_vec (AwaitEvent.Waiting n) = Some b ->
    zlen b <= 96;
}.
