(* ===== verification/Order.v ===== *)
(** Posting order ([store/bounds.rs], the comparator of [entries_with_usage]):
    entries are sorted by ordering key, then enqueue time, then identifier.
    Entries with distinct identifiers have one sorted arrangement, so the queue
    does not depend on the order in which the directory was listed. *)

From S2P Require Import Prelude Text Protocol Disk Entry.

Import StoredEntry.

(** [(a.order, a.enqueued_at, &a.id) <= (b.order, b.enqueued_at, &b.id)]. *)
Definition entry_le (a b : t) : Prop :=
  order a < order b
  \/ (order a = order b
      /\ (enqueued_at a < enqueued_at b
          \/ (enqueued_at a = enqueued_at b /\ String.le (id a) (id b)))).

#[global] Instance entry_le_dec : RelDecision entry_le.
Proof. intros a b. unfold entry_le. apply _. Defined.

(** [entries.sort_by(...)]. *)
Definition sort_entries (l : list t) : list t := merge_sort entry_le l.

#[global] Instance entry_le_trans : Transitive entry_le.
Proof.
  intros a b c. unfold entry_le. intros Hab Hbc.
  destruct Hab as [?|[? [?|[? Hs]]]], Hbc as [?|[? [?|[? Hs']]]]; try lia.
  right. split; [lia|]. right. split; [lia|]. by transitivity (id b).
Qed.

#[global] Instance entry_le_total : Total entry_le.
Proof.
  intros a b. unfold entry_le.
  destruct (Z.lt_trichotomy (order a) (order b)) as [?|[?|?]]; [tauto| |tauto].
  destruct (Z.lt_trichotomy (enqueued_at a) (enqueued_at b)) as [?|[?|?]];
    [tauto| |right; right; split; [lia|tauto]].
  destruct (total String.le (id a) (id b)); [tauto|].
  right; right; split; [lia|]. right; split; [lia|done].
Qed.

#[global] Instance entry_le_refl : Reflexive entry_le.
Proof. intros a. destruct (total entry_le a a); done. Qed.

Lemma entry_le_antisymm a b : entry_le a b -> entry_le b a -> id a = id b.
Proof.
  unfold entry_le. intros Hab Hba.
  destruct Hab as [?|[? [?|[? Hs]]]], Hba as [?|[? [?|[? Hs']]]]; try lia.
  by apply (anti_symm String.le).
Qed.

Lemma sort_entries_perm l : sort_entries l ≡ₚ l.
Proof. apply merge_sort_Permutation. Qed.

Lemma sort_entries_sorted l : StronglySorted entry_le (sort_entries l).
Proof. apply (StronglySorted_merge_sort _). Qed.

Lemma NoDup_id_inj (l : list t) a b :
  NoDup (id <$> l) -> a ∈ l -> b ∈ l -> id a = id b -> a = b.
Proof.
  intros Hnd [i Hi]%list_elem_of_lookup [j Hj]%list_elem_of_lookup Heq.
  assert (i = j) as ->.
  { eapply (NoDup_lookup (id <$> l)); [done| |].
    - by rewrite list_lookup_fmap, Hi.
    - rewrite list_lookup_fmap, Hj. simpl. by rewrite Heq. }
  congruence.
Qed.

(** The posting order is determined by the set of entries. *)
Lemma sorted_unique l l' :
  NoDup (id <$> l) -> StronglySorted entry_le l -> StronglySorted entry_le l' ->
  l ≡ₚ l' -> l = l'.
Proof.
  intros Hnd Hs Hs' Hp.
  eapply (StronglySorted_unique_strong entry_le); [|done|done|done].
  intros a b Ha Hb Hab Hba. apply (NoDup_id_inj l); [done|done|by rewrite Hp|].
  by apply entry_le_antisymm.
Qed.

Lemma sort_entries_unique l l' :
  NoDup (id <$> l) -> StronglySorted entry_le l' -> l ≡ₚ l' -> sort_entries l = l'.
Proof.
  intros Hnd Hs Hp. apply sorted_unique; [|apply sort_entries_sorted|done|].
  - by rewrite sort_entries_perm.
  - by rewrite sort_entries_perm.
Qed.

Lemma sort_entries_proper l l' :
  NoDup (id <$> l) -> l ≡ₚ l' -> sort_entries l = sort_entries l'.
Proof.
  intros Hnd Hp. apply sort_entries_unique; [done|apply sort_entries_sorted|].
  by rewrite sort_entries_perm.
Qed.

(** An entry below all others is the head of the queue. *)
Lemma sort_entries_head e l :
  NoDup (id <$> e :: l) -> Forall (entry_le e) l ->
  sort_entries (e :: l) = e :: sort_entries l.
Proof.
  intros Hnd He. apply sort_entries_unique; [done| |by rewrite sort_entries_perm].
  constructor; [apply sort_entries_sorted|]. by rewrite sort_entries_perm.
Qed.

(** An entry above all others is the tail of the queue. *)
Lemma sort_entries_tail e l :
  NoDup (id <$> e :: l) -> Forall (fun x => entry_le x e) l ->
  sort_entries (e :: l) = sort_entries l ++ [e].
Proof.
  intros Hnd He. apply sort_entries_unique; [done| |].
  - apply StronglySorted_app_2; [|apply sort_entries_sorted|repeat constructor].
    intros x y Hx ->%list_elem_of_singleton.
    rewrite sort_entries_perm in Hx. rewrite Forall_forall in He. by apply He.
  - rewrite sort_entries_perm. apply Permutation_cons_append.
Qed.

(** Dropping entries keeps the relative order of the rest. *)
Lemma StronglySorted_filter (P : t -> Prop) `{!forall x, Decision (P x)} l :
  StronglySorted entry_le l -> StronglySorted entry_le (filter P l).
Proof.
  induction 1 as [|x l Hs IH Hx]; [constructor|].
  rewrite filter_cons. case_decide; [|done].
  constructor; [done|]. rewrite Forall_forall in *. intros y Hy%list_elem_of_filter.
  apply Hx. tauto.
Qed.

Lemma sort_entries_filter (P : t -> Prop) `{!forall x, Decision (P x)} l :
  NoDup (id <$> l) -> sort_entries (filter P l) = filter P (sort_entries l).
Proof.
  intros Hnd. symmetry. apply sorted_unique.
  - rewrite sort_entries_perm. clear -Hnd. induction l as [|x l IH]; [done|].
    rewrite fmap_cons in Hnd. apply NoDup_cons in Hnd as [Hx Hnd].
    rewrite filter_cons. case_decide; [|by apply IH].
    rewrite fmap_cons. constructor; [|by apply IH].
    contradict Hx. apply list_elem_of_fmap in Hx as (y & Hy & Hin).
    apply list_elem_of_fmap. exists y. split; [done|].
    by apply list_elem_of_filter in Hin as [_ ?].
  - apply StronglySorted_filter, sort_entries_sorted.
  - apply sort_entries_sorted.
  - by rewrite !sort_entries_perm.
Qed.

(** Head and tail of a sorted queue bound every other entry's key. *)
Lemma sorted_head_le e l x :
  StronglySorted entry_le (e :: l) -> x ∈ e :: l -> order e <= order x.
Proof.
  intros Hs Hx. inversion Hs as [|? ? _ Hall]; subst.
  apply elem_of_cons in Hx as [->|Hx]; [lia|].
  rewrite Forall_forall in Hall. specialize (Hall x Hx).
  unfold entry_le in Hall. lia.
Qed.

Lemma sorted_last_le e l x :
  StronglySorted entry_le l -> last l = Some e -> x ∈ l -> order x <= order e.
Proof.
  intros Hs Hl Hx. apply last_Some in Hl as [l' ->].
  apply StronglySorted_app in Hs as (Hall & _ & _).
  apply elem_of_app in Hx as [Hx| ->%list_elem_of_singleton]; [|lia].
  specialize (Hall x e Hx ltac:(set_solver)). unfold entry_le in Hall. lia.
Qed.

(** ** In-place updates *)

(** The entries other than one. *)
Definition others (wanted : string) (l : list t) : list t := filter (fun x => id x <> wanted) l.

(** Put [e] in the place of the entry with its identifier. *)
Definition replace_entry (e : t) (l : list t) : list t :=
  (fun x => if decide (id x = id e) then e else x) <$> l.

Lemma replace_entry_fresh e l : Forall (fun x => id x <> id e) l -> replace_entry e l = l.
Proof.
  unfold replace_entry. induction 1 as [|x l Hx _ IH]; [done|].
  rewrite fmap_cons, IH. by rewrite decide_False.
Qed.

Lemma others_fresh wanted l : Forall (fun x => id x <> wanted) l -> others wanted l = l.
Proof.
  unfold others. induction 1 as [|x l Hx _ IH]; [done|].
  rewrite filter_cons_True by done. by rewrite IH.
Qed.

Lemma others_perm wanted l l' : l ≡ₚ l' -> others wanted l ≡ₚ others wanted l'.
Proof. intros Hp. unfold others. by rewrite Hp. Qed.

Lemma others_NoDup wanted l : NoDup (id <$> l) -> NoDup (id <$> others wanted l).
Proof.
  intros Hnd. unfold others. induction l as [|x l IH]; [done|].
  rewrite fmap_cons in Hnd. apply NoDup_cons in Hnd as [Hx Hnd].
  rewrite filter_cons. case_decide; [|by apply IH].
  rewrite fmap_cons. constructor; [|by apply IH]. contradict Hx.
  apply list_elem_of_fmap in Hx as (y & Hy & Hin). apply list_elem_of_fmap.
  exists y. split; [done|]. by apply list_elem_of_filter in Hin as [_ ?].
Qed.

Lemma others_elem wanted l x : x ∈ others wanted l <-> id x <> wanted /\ x ∈ l.
Proof. unfold others. by rewrite list_elem_of_filter. Qed.

Lemma NoDup_cons_others e l :
  NoDup (id <$> l) -> NoDup (id <$> e :: others (id e) l).
Proof.
  intros Hnd. rewrite fmap_cons. constructor; [|by apply others_NoDup].
  intros (x & Hx & Hin)%list_elem_of_fmap. by apply others_elem in Hin as [? _].
Qed.

(** Split a queue with distinct identifiers at one of its entries. *)
Lemma NoDup_id_split e l :
  NoDup (id <$> l) -> e ∈ l ->
  exists l1 l2, l = l1 ++ e :: l2
    /\ Forall (fun x => id x <> id e) l1 /\ Forall (fun x => id x <> id e) l2.
Proof.
  intros Hnd (l1 & l2 & ->)%list_elem_of_split. exists l1, l2. split; [done|].
  rewrite fmap_app, fmap_cons in Hnd. apply NoDup_app in Hnd as (_ & H1 & Hnd).
  apply NoDup_cons in Hnd as [H2 _]. split; apply Forall_forall; intros x Hx Heq.
  - apply (H1 (id x)); [apply list_elem_of_fmap; eauto|]. rewrite Heq. left.
  - apply H2. apply list_elem_of_fmap. eauto.
Qed.

Lemma others_app wanted l k : others wanted (l ++ k) = others wanted l ++ others wanted k.
Proof. apply filter_app. Qed.

Lemma replace_entry_app e l k :
  replace_entry e (l ++ k) = replace_entry e l ++ replace_entry e k.
Proof. apply fmap_app. Qed.

Lemma others_split e l1 l2 :
  Forall (fun x => id x <> id e) l1 -> Forall (fun x => id x <> id e) l2 ->
  others (id e) (l1 ++ e :: l2) = l1 ++ l2.
Proof.
  intros H1 H2. rewrite others_app, (others_fresh _ l1) by done.
  unfold others. rewrite filter_cons_False by auto. f_equal. by apply others_fresh.
Qed.

Lemma replace_entry_split e e' l1 l2 :
  id e' = id e ->
  Forall (fun x => id x <> id e) l1 -> Forall (fun x => id x <> id e) l2 ->
  replace_entry e' (l1 ++ e :: l2) = l1 ++ e' :: l2.
Proof.
  intros Hid H1 H2. rewrite <- Hid in H1, H2.
  rewrite replace_entry_app, (replace_entry_fresh _ l1) by done. f_equal.
  unfold replace_entry. rewrite fmap_cons, decide_True by done. f_equal.
  by apply replace_entry_fresh.
Qed.

(** An update that keeps the sort key keeps the place in the queue. *)
Lemma sort_same_key e e' l :
  NoDup (id <$> l) -> StronglySorted entry_le l -> e ∈ l ->
  id e' = id e -> order e' = order e -> enqueued_at e' = enqueued_at e ->
  sort_entries (e' :: others (id e) l) = replace_entry e' l.
Proof.
  intros Hnd Hs He Hid Ho Ht.
  assert (Hle : forall x, (entry_le x e <-> entry_le x e') /\ (entry_le e x <-> entry_le e' x)).
  { intros x. unfold entry_le. by rewrite Hid, Ho, Ht. }
  destruct (NoDup_id_split e l Hnd He) as (l1 & l2 & -> & H1 & H2).
  rewrite others_split, (replace_entry_split e) by done.
  apply sort_entries_unique; [| |by rewrite Permutation_middle].
  - pose proof (NoDup_cons_others e' _ Hnd) as Hn. by rewrite Hid, others_split in Hn.
  - apply StronglySorted_app in Hs as (Hall & Hs1 & Hs2).
    inversion Hs2 as [|? ? Hs3 Hall2]; subst.
    apply StronglySorted_app_2; [|done|].
    + intros x y Hx Hy. apply elem_of_cons in Hy as [->|Hy].
      * apply Hle. apply Hall; [done|left].
      * apply Hall; [done|by right].
    + constructor; [done|]. eapply Forall_impl; [exact Hall2|]. intros x Hx. by apply Hle.
Qed.

Lemma entry_le_lt_order a b : order a < order b -> entry_le a b.
Proof. by left. Qed.

(** Reading one entry of a queue by identifier, after an update of another. *)
Lemma others_sorted wanted l :
  StronglySorted entry_le l -> StronglySorted entry_le (others wanted l).
Proof. apply StronglySorted_filter. Qed.

Lemma sort_entries_id l : NoDup (id <$> l) -> StronglySorted entry_le l -> sort_entries l = l.
Proof. intros Hnd Hs. by apply sort_entries_unique. Qed.

(** The update that makes an entry the first, or the last, of a sorted queue. *)
Lemma sort_to_head e' l :
  NoDup (id <$> l) -> StronglySorted entry_le l ->
  Forall (fun x => order e' < order x) (others (id e') l) ->
  sort_entries (e' :: others (id e') l) = e' :: others (id e') l.
Proof.
  intros Hnd Hs Hlt. rewrite sort_entries_head.
  - f_equal. apply sort_entries_id; [by apply others_NoDup|by apply others_sorted].
  - by apply NoDup_cons_others.
  - eapply Forall_impl; [exact Hlt|]. intros x. apply entry_le_lt_order.
Qed.

Lemma sort_to_tail e' l :
  NoDup (id <$> l) -> StronglySorted entry_le l ->
  Forall (fun x => order x < order e') (others (id e') l) ->
  sort_entries (e' :: others (id e') l) = others (id e') l ++ [e'].
Proof.
  intros Hnd Hs Hlt. rewrite sort_entries_tail.
  - f_equal. apply sort_entries_id; [by apply others_NoDup|by apply others_sorted].
  - by apply NoDup_cons_others.
  - eapply Forall_impl; [exact Hlt|]. intros x. apply entry_le_lt_order.
Qed.

Lemma replace_entry_same e l : NoDup (id <$> l) -> e ∈ l -> replace_entry e l = l.
Proof.
  intros Hnd He. destruct (NoDup_id_split e l Hnd He) as (l1 & l2 & -> & H1 & H2).
  by apply replace_entry_split.
Qed.
