(* ===== verification/Bounds.v ===== *)
(** Bounded queue-entry reads and admission ([store/bounds.rs]), with the atomic
    file replacement and the entry lookup of [store.rs].

    The byte budget reserves, for every entry, room for the updates the store
    makes later: a longer ordering key, a claim token, the incarnation of a
    legacy record.  The definitions follow the code call by call; [entries_of]
    and [usage_of] are what a scan of a directory without I/O failures computes. *)

From S2P Require Import Prelude Text Protocol Disk Entry Order.

Import StoredEntry.

Definition MAX_QUEUE_ENTRIES : Z := 1024.
Definition MAX_ENTRY_BYTES : Z := 2 * 1024 * 1024.
Definition MAX_QUEUE_BYTES : Z := 32 * 1024 * 1024.
Definition ENTRY_MUTATION_HEADROOM_BYTES : Z := 80.

Lemma limits :
  MAX_QUEUE_ENTRIES = 1024 /\ MAX_ENTRY_BYTES = 2097152 /\ MAX_QUEUE_BYTES = 33554432
  /\ ENTRY_MUTATION_HEADROOM_BYTES = 80 /\ U64_MAX = 18446744073709551615.
Proof. done. Qed.

(** Linear arithmetic over the limits and the saturating operations. *)
Ltac capacity :=
  pose proof limits as (? & ? & ? & ? & ?); unfold sat_add, sat_sub in *; lia.

Record QueueUsage := Usage { count : Z; used_bytes : Z; headroom_bytes : Z }.
Definition accounted_bytes (u : QueueUsage) : Z := sat_add (used_bytes u) (headroom_bytes u).

(** * Pure accounting *)

(** Reject an entry size above its durable per-file limit. *)
Definition ensure_entry_size (size limit : Z) : result StoreError unit :=
  if limit <? size then Err (EntryTooLarge size limit) else Ok tt.

(** Reject a write whose bytes and remaining reservations exceed the budget. *)
Definition ensure_queue_bytes (used requested : Z) : result StoreError unit :=
  if MAX_QUEUE_BYTES <? sat_add used requested
  then Err (QueueByteBudgetExceeded used requested MAX_QUEUE_BYTES) else Ok tt.

(** The pretty-printed UUID field is absent in legacy records and adds 57 bytes. *)
Definition incarnation_growth (e : t) : Z := if decide (incarnation e = "") then 57 else 0.

Section accounting.
Context `{SerdeJson}.

(** Remaining reservation for the only fields changed after enqueue. *)
Definition entry_headroom (e : t) : Z :=
  let order_growth := sat_sub (zlen (i64_to_bytes (order e))) 1 in
  let claim_growth :=
    match claim_token e with
    | None => 0
    | Some token =>
        match string_to_vec token with
        | Some encoded => sat_sub (zlen encoded) 4
        | None => U64_MAX
        end
    end in
  sat_add (sat_sub (sat_sub ENTRY_MUTATION_HEADROOM_BYTES order_growth) claim_growth)
          (incarnation_growth e).

(** Worst-case growth for order, claim and incarnation updates. *)
Definition maximum_mutation_growth (e : t) : Z :=
  let MAX_ORDER_BYTES := 20 in
  let UUID_JSON_BYTES := 38 in
  let order_growth := sat_sub MAX_ORDER_BYTES (zlen (i64_to_bytes (order e))) in
  let claim_bytes :=
    match claim_token e with
    | None => 4
    | Some token =>
        match string_to_vec token with Some encoded => zlen encoded | None => U64_MAX end
    end in
  let claim_growth := sat_sub UUID_JSON_BYTES claim_bytes in
  sat_add (sat_add order_growth claim_growth) (incarnation_growth e).
End accounting.

(** * Store operations *)

Section operations.
Context `{Platform} `{SerdeJson}.

(** Replace a file through a temporary sibling so partial writes are unseen. *)
Definition write_atomic (p : path) (b : bytes) : M unit :=
  let tmp := tmp_path p in
  create tmp ;;
  write_all tmp b ;;
  sync ;;
  open_dir ;;
  sync ;;
  rename tmp p ;;
  sync.

Definition not_regular_error : StoreError :=
  Io (IoError InvalidData "queue entry path is not a regular file").

(** Read at most one entry's limit plus a sentinel byte before deserializing. *)
Definition read_entry (p : path) : M t :=
  let* (is_file, len) := metadata p in
  if negb is_file then throw not_regular_error
  else
    lift (ensure_entry_size len MAX_ENTRY_BYTES) ;;
    open_file p ;;
    let* content := read_all p in
    let b := ztake (MAX_ENTRY_BYTES + 1) content in
    lift (ensure_entry_size (zlen b) MAX_ENTRY_BYTES) ;;
    serde_ok (entry_from_slice b).

(** The loop of [scan_entry_files]; each directory entry is one more call. *)
Fixpoint scan_loop (names paths : list string) (total : Z) : M (list string * Z) :=
  match names with
  | [] => ret (paths, total)
  | name :: names =>
      query (fun _ => Ok tt) ;;
      if bool_decide (extension name = Some "json") then
        let* (is_file, _) := metadata (Entries, name) in
        if negb is_file then scan_loop names paths total
        else if zlen paths =? MAX_QUEUE_ENTRIES then throw (QueueFull MAX_QUEUE_ENTRIES)
        else
          let* (_, file_bytes) := metadata (Entries, name) in
          lift (ensure_queue_bytes total file_bytes) ;;
          scan_loop names (paths ++ [name]) (sat_add total file_bytes)
      else scan_loop names paths total
  end.

(** Collect entry-file metadata while enforcing count and aggregate limits. *)
Definition scan_entry_files : M (list string * QueueUsage) :=
  let* names := read_dir Entries in
  let* (paths, total) := scan_loop names [] 0 in
  ret (paths, Usage (zlen paths) total 0).

(** The loop of [entries_with_usage]: unreadable, unsafe and misnamed records
    are skipped; an entry without room for its updates is an error. *)
Fixpoint read_loop (files : list string) (entries : list t) (headroom : Z) : M (list t * Z) :=
  match files with
  | [] => ret (entries, headroom)
  | name :: files =>
      let* r := attempt (read_entry (Entries, name)) in
      match r with
      | Ok entry =>
          if negb (is_valid_id (id entry)) then read_loop files entries headroom
          else if path_matches_id name (id entry) then
            let* m := attempt (metadata (Entries, name)) in
            match m with
            | Err _ => read_loop files entries headroom
            | Ok (_, file_bytes) =>
                let required_bytes := sat_add file_bytes (maximum_mutation_growth entry) in
                if MAX_ENTRY_BYTES <? required_bytes
                then throw (EntryTooLarge required_bytes MAX_ENTRY_BYTES)
                else read_loop files (entries ++ [entry])
                       (sat_add headroom (entry_headroom entry))
            end
          else read_loop files entries headroom
      | Err _ => read_loop files entries headroom
      end
  end.

(** Read a bounded directory snapshot and retain its metadata for admission. *)
Definition entries_with_usage : M (list t * QueueUsage) :=
  let* (files, usage) := scan_entry_files in
  let* (entries, headroom) := read_loop files [] (headroom_bytes usage) in
  ret (sort_entries entries, Usage (count usage) (used_bytes usage) headroom).

(** Return pending entries in posting order, skipping unreadable records. *)
Definition entries : M (list t) :=
  let* (es, _) := entries_with_usage in ret es.

(** Validate startup data after bounded entry reads account for reservations. *)
Definition validate_existing_limits : M unit :=
  let* (_, usage) := entries_with_usage in
  lift (ensure_queue_bytes (used_bytes usage) (headroom_bytes usage)).

(** Return the valid entry count and accounted bytes for queue metrics. *)
Definition queue_metrics_snapshot : M (Z * Z) :=
  let* (es, usage) := entries_with_usage in
  ret (zlen es, accounted_bytes usage).

(** The size of the file an entry replaces, if there is one. *)
Definition previous_size (p : path) : M (option Z) :=
  let* r := attempt (metadata p) in
  match r with
  | Ok (true, len) => ret (Some len)
  | Ok (false, _) => throw not_regular_error
  | Err (Io e) => if decide (kind e = NotFound) then ret None else throw (Io e)
  | Err e => throw e
  end.

(** Persist an entry using a previously scanned store metadata snapshot. *)
Definition write_entry_with_usage (entry : t) (usage : QueueUsage) : M unit :=
  let* b := serde_some (entry_to_vec_pretty entry) in
  let new_bytes := zlen b in
  let* p := lift (entry_path (id entry)) in
  let* previous_bytes := previous_size p in
  let is_new := bool_decide (previous_bytes = None) in
  if MAX_QUEUE_ENTRIES <? count usage + (if is_new then 1 else 0)
  then throw (QueueFull MAX_QUEUE_ENTRIES)
  else
    let entry_limit :=
      if is_new then sat_sub MAX_ENTRY_BYTES ENTRY_MUTATION_HEADROOM_BYTES
      else MAX_ENTRY_BYTES in
    lift (ensure_entry_size new_bytes entry_limit) ;;
    let used := sat_sub (used_bytes usage) (default 0 previous_bytes) in
    let* previous_headroom :=
      (if is_new then ret 0
       else let* old := read_entry p in ret (entry_headroom old)) in
    let other_headroom := sat_sub (headroom_bytes usage) previous_headroom in
    let requested := sat_add (sat_add new_bytes other_headroom) (entry_headroom entry) in
    lift (ensure_queue_bytes used requested) ;;
    write_atomic p b.

(** Persist an updated entry after rechecking the durable capacity. *)
Definition write_entry (entry : t) : M unit :=
  let* (_, usage) := entries_with_usage in
  write_entry_with_usage entry usage.

(** Read one entry by identifier, preserving typed missing-entry errors. *)
Definition find (wanted : string) : M t :=
  let* p := lift (entry_path wanted) in
  let* r := attempt (read_entry p) in
  match r with
  | Ok entry => if decide (id entry = wanted) then ret entry else throw (InvalidId (id entry))
  | Err (Io e) => if decide (kind e = NotFound) then throw (UnknownId wanted) else throw (Io e)
  | Err e => throw e
  end.
End operations.

(** * The queue a directory holds *)

Section view.
Context `{SerdeJson}.

Definition json_file (x : string * node) : option (string * bytes) :=
  match x with
  | (name, Regular c) =>
      if bool_decide (extension name = Some "json") then Some (name, c) else None
  | (_, Directory) => None
  end.

(** The entry files of a directory, with their contents. *)
Definition json_files (m : gmap string node) : list (string * bytes) :=
  omap json_file (map_to_list m).

(** The entry a file holds, when it is readable, safe and well named. *)
Definition entry_at (f : string * bytes) : option t :=
  if zlen f.2 <=? MAX_ENTRY_BYTES then
    match entry_from_slice f.2 with
    | Ok e => if is_valid_id (id e) && path_matches_id f.1 (id e) then Some e else None
    | Err _ => None
    end
  else None.

Definition valid_entries (m : gmap string node) : list t := omap entry_at (json_files m).
Definition entries_of (m : gmap string node) : list t := sort_entries (valid_entries m).

Definition sizes (m : gmap string node) : list Z := (fun f => zlen f.2) <$> json_files m.
Definition usage_of (m : gmap string node) : QueueUsage :=
  Usage (zlen (json_files m)) (zsum (sizes m)) (zsum (entry_headroom <$> valid_entries m)).

(** A directory that a scan accepts. *)
Definition fits (m : gmap string node) : Prop :=
  zlen (json_files m) <= MAX_QUEUE_ENTRIES
  /\ zsum (sizes m) <= MAX_QUEUE_BYTES
  /\ Forall (fun f => forall e, entry_at f = Some e ->
               zlen f.2 + maximum_mutation_growth e <= MAX_ENTRY_BYTES) (json_files m).
End view.
