(* ===== verification/Scan.v ===== *)
(** Runs of the bounded scans without I/O failures: [entries_with_usage],
    [find] and [write_atomic] compute what the pure view of the directory says,
    and every interrupted [write_atomic] leaves the target whole. *)

From S2P Require Import Prelude Text Protocol Disk Entry Order Bounds.

Import StoredEntry.

(** * Calls that succeed *)

Lemma query_quiet {A} (f : disk -> result io_error A) d u :
  query f (World d [] u)
  = match f d with
    | Ok a => (Done a, World d [] u)
    | Err e => (Failed (Io e), World d [] u)
    end.
Proof. unfold query, syscall. simpl. by destruct (f d). Qed.

Lemma metadata_quiet p d u :
  metadata p (World d [] u)
  = match dget d p with
    | Some (Regular c) => (Done (true, zlen c), World d [] u)
    | Some Directory => (Done (false, 0), World d [] u)
    | None => (Failed (Io (os_error NotFound)), World d [] u)
    end.
Proof. unfold metadata. rewrite query_quiet. by destruct (dget d p) as [[]|]. Qed.

Lemma open_file_quiet p d u n :
  dget d p = Some n -> open_file p (World d [] u) = (Done tt, World d [] u).
Proof. intros Hp. unfold open_file. by rewrite query_quiet, Hp. Qed.

Lemma read_all_quiet p d u c :
  dget d p = Some (Regular c) -> read_all p (World d [] u) = (Done c, World d [] u).
Proof. intros Hp. unfold read_all. by rewrite query_quiet, Hp. Qed.

Lemma sync_quiet d u : sync (World d [] u) = (Done tt, World d [] u).
Proof. reflexivity. Qed.
Lemma open_dir_quiet d u : open_dir (World d [] u) = (Done tt, World d [] u).
Proof. reflexivity. Qed.

(** * Entry reads *)

Lemma json_extension_name name :
  extension name = Some "json" -> name = file_stem name +:+ ".json".
Proof.
  unfold extension, file_stem, split_extension.
  destruct (decide (name = "..")); [done|].
  destruct (rsplit_dot (bytes_of name)) as [[[|c before] after]|] eqn:E;
    cbn [fst snd]; try done.
  intros [= Hafter].
  assert (Hsplit : bytes_of name = (c :: before) ++ byte_of 46 :: after).
  { clear -E. revert before after c E. generalize (bytes_of name) as s.
    assert (Hgen : forall s a b, rsplit_dot s = Some (a, b) -> s = a ++ byte_of 46 :: b).
    { induction s as [|x s IH]; intros a b; simpl; [done|].
      destruct (rsplit_dot s) as [[a' b']|].
      - intros [= <- <-]. simpl. f_equal. by apply IH.
      - case_decide; [|done]. intros [= <- <-]. by subst. }
    intros. by apply Hgen. }
  apply bytes_of_inj. rewrite Hsplit, bytes_of_app, bytes_of_string_of.
  f_equal. apply (f_equal bytes_of) in Hafter. rewrite bytes_of_string_of in Hafter.
  by rewrite Hafter.
Qed.

Section reads.
Context `{SerdeJson}.

Lemma read_entry_quiet p d u c :
  dget d p = Some (Regular c) -> zlen c <= MAX_ENTRY_BYTES ->
  read_entry p (World d [] u)
  = match entry_from_slice c with
    | Ok e => (Done e, World d [] u)
    | Err m => (Failed (Serde m), World d [] u)
    end.
Proof.
  intros Hp Hlen. unfold read_entry.
  rewrite (bind_done _ _ _ (true, zlen c) (World d [] u)) by by rewrite metadata_quiet, Hp.
  simpl. unfold ensure_entry_size at 1.
  destruct (Z.ltb_spec MAX_ENTRY_BYTES (zlen c)); [lia|]. simpl.
  rewrite (bind_done _ _ _ tt (World d [] u)) by done.
  erewrite (bind_done _ _ _ tt) by by eapply open_file_quiet.
  erewrite (bind_done _ _ _ c) by by apply read_all_quiet.
  rewrite ztake_all by lia. unfold ensure_entry_size.
  destruct (Z.ltb_spec MAX_ENTRY_BYTES (zlen c)); [lia|]. simpl.
  rewrite (bind_done _ _ _ tt (World d [] u)) by done.
  by destruct (entry_from_slice c).
Qed.

Lemma read_entry_oversized p d u c :
  dget d p = Some (Regular c) -> MAX_ENTRY_BYTES < zlen c ->
  read_entry p (World d [] u) = (Failed (EntryTooLarge (zlen c) MAX_ENTRY_BYTES), World d [] u).
Proof.
  intros Hp Hlen. unfold read_entry.
  rewrite (bind_done _ _ _ (true, zlen c) (World d [] u)) by by rewrite metadata_quiet, Hp.
  simpl. unfold ensure_entry_size.
  destruct (Z.ltb_spec MAX_ENTRY_BYTES (zlen c)); [|lia]. done.
Qed.

Lemma entry_at_spec f e :
  entry_at f = Some e <->
  zlen f.2 <= MAX_ENTRY_BYTES /\ entry_from_slice f.2 = Ok e
  /\ is_valid_id (id e) = true /\ file_stem f.1 = id e.
Proof.
  unfold entry_at. split.
  - destruct (Z.leb_spec (zlen f.2) MAX_ENTRY_BYTES); [|done].
    destruct (entry_from_slice f.2) as [|e']; [done|].
    destruct (is_valid_id (id e')) eqn:Ev; simpl; [|done].
    unfold path_matches_id. case_bool_decide; [|done]. intros [= ->]. auto.
  - intros (Hle & -> & Hv & Hs). destruct (Z.leb_spec (zlen f.2) MAX_ENTRY_BYTES); [|lia].
    rewrite Hv. unfold path_matches_id. by rewrite bool_decide_true.
Qed.

(** * The files of a directory *)

Lemma json_files_elem m name c :
  (name, c) ∈ json_files m <-> m !! name = Some (Regular c) /\ extension name = Some "json".
Proof.
  unfold json_files. rewrite list_elem_of_omap. split.
  - intros ([name' n] & Hin%elem_of_map_to_list & Hj). destruct n; simpl in Hj; [|done].
    case_bool_decide; simplify_eq. auto.
  - intros [Hm He]. exists (name, Regular c). rewrite elem_of_map_to_list.
    split; [done|]. simpl. by rewrite bool_decide_true.
Qed.

Lemma json_files_NoDup m : NoDup ((json_files m).*1).
Proof.
  unfold json_files. pose proof (NoDup_fst_map_to_list m) as Hnd.
  induction (map_to_list m) as [|[k n] l IH]; [constructor|].
  rewrite fmap_cons in Hnd. apply NoDup_cons in Hnd as [Hk Hnd]. simpl in Hk.
  destruct n as [c|]; simpl; [|by apply IH].
  case_bool_decide; [|by apply IH].
  rewrite fmap_cons. constructor; [|by apply IH]. simpl. contradict Hk.
  apply list_elem_of_fmap in Hk as ([k' c'] & Hk' & Hin).
  apply list_elem_of_omap in Hin as ([k'' n''] & Hin & Hj).
  destruct n'' as [c''|]; simpl in Hj, Hk'; [|done]. case_bool_decide; simplify_eq.
  apply list_elem_of_fmap. by exists (k', Regular c').
Qed.

Lemma valid_entries_elem m e :
  e ∈ valid_entries m <-> exists c, m !! (id e +:+ ".json") = Some (Regular c)
                                    /\ entry_at (id e +:+ ".json", c) = Some e.
Proof.
  unfold valid_entries. rewrite list_elem_of_omap. split.
  - intros ([name c] & Hin & He). apply json_files_elem in Hin as [Hm Hext].
    pose proof He as (_ & _ & _ & Hstem)%entry_at_spec. simpl in Hstem.
    apply json_extension_name in Hext. rewrite Hstem in Hext. subst name. eauto.
  - intros (c & Hm & He). exists (id e +:+ ".json", c). split; [|done].
    apply json_files_elem. split; [done|].
    pose proof He as (_ & _ & Hv & _)%entry_at_spec. by apply valid_json_name.
Qed.

(** Identifiers name their files, so they are distinct. *)
Lemma valid_entries_NoDup m : NoDup (id <$> valid_entries m).
Proof.
  unfold valid_entries. pose proof (json_files_NoDup m) as Hnd.
  assert (Hall : Forall (fun f => extension f.1 = Some "json") (json_files m)).
  { apply Forall_forall. intros [k c] Hin. by apply json_files_elem in Hin as [_ ?]. }
  induction (json_files m) as [|[k c] l IH]; [constructor|].
  rewrite fmap_cons in Hnd. apply NoDup_cons in Hnd as [Hk Hnd].
  apply Forall_cons_1 in Hall as [Hext Hall]. simpl in Hk, Hext. simpl.
  destruct (entry_at (k, c)) as [e|] eqn:He; [|by apply IH].
  rewrite fmap_cons. constructor; [|by apply IH].
  contradict Hk. apply list_elem_of_fmap in Hk as (e' & Heq & Hin).
  apply list_elem_of_omap in Hin as ([k' c'] & Hin & He').
  apply entry_at_spec in He as (_ & _ & _ & Hs), He' as (_ & _ & _ & Hs'). simpl in *.
  rewrite Forall_forall in Hall. pose proof (Hall _ Hin) as Hext'. simpl in Hext'.
  apply json_extension_name in Hext, Hext'. apply list_elem_of_fmap.
  exists (k', c'). split; [|done]. simpl. congruence.
Qed.

(** Inserting and deleting one name changes the file list at that name only. *)
Lemma json_files_insert m k n :
  json_files (<[k := n]> m) ≡ₚ option_list (json_file (k, n)) ++ json_files (delete k m).
Proof.
  unfold json_files. rewrite <- insert_delete_eq.
  rewrite map_to_list_insert by apply lookup_delete_eq.
  destruct n as [c|]; simpl; [by case_bool_decide|done].
Qed.

Lemma json_files_split m k n :
  m !! k = Some n ->
  json_files m ≡ₚ option_list (json_file (k, n)) ++ json_files (delete k m).
Proof. intros Hk. rewrite <- json_files_insert. by rewrite insert_id. Qed.

Lemma json_files_delete_other m k :
  extension k <> Some "json" -> json_files (delete k m) ≡ₚ json_files m.
Proof.
  intros Hext. destruct (m !! k) as [n|] eqn:Hk.
  - rewrite (json_files_split m k n) by done. destruct n as [c|]; simpl; [|done].
    by rewrite bool_decide_false.
  - by rewrite delete_id.
Qed.

Lemma option_list_omap {A B} (f : A -> option B) (o : option A) l :
  omap f (option_list o ++ l) = option_list (o ≫= f) ++ omap f l.
Proof. destruct o as [a|]; simpl; [|done]. by destruct (f a). Qed.

Lemma valid_entries_proper m m' :
  json_files m ≡ₚ json_files m' -> valid_entries m ≡ₚ valid_entries m'.
Proof. intros Hp. unfold valid_entries. by rewrite Hp. Qed.

Lemma entries_of_proper m m' :
  json_files m ≡ₚ json_files m' -> entries_of m = entries_of m'.
Proof.
  intros Hp. unfold entries_of. apply sort_entries_proper; [apply valid_entries_NoDup|].
  by apply valid_entries_proper.
Qed.

Lemma entries_of_elem m e : e ∈ entries_of m <-> e ∈ valid_entries m.
Proof. unfold entries_of. by rewrite sort_entries_perm. Qed.

Lemma entries_of_NoDup m : NoDup (id <$> entries_of m).
Proof. unfold entries_of. rewrite sort_entries_perm. apply valid_entries_NoDup. Qed.
End reads.

(** * Scans *)

Section scans.
Context `{Platform} `{!PlatformOk} `{SerdeJson}.

(** The entry files among a list of names. *)
Definition jsons (m : gmap string node) (names : list string) : list (string * bytes) :=
  omap (fun name => m !! name ≫= fun n => json_file (name, n)) names.

Lemma jsons_listing m : jsons m (dir_order (map_to_list m).*1) ≡ₚ json_files m.
Proof.
  unfold jsons. rewrite (dir_order_perm _). unfold json_files.
  assert (Hall : Forall (fun x => m !! x.1 = Some x.2) (map_to_list m)).
  { apply Forall_forall. intros [k n] Hin. by apply elem_of_map_to_list in Hin. }
  induction Hall as [|[k n] l Hk _ IH]; [done|]. cbn [fst snd] in Hk.
  rewrite fmap_cons. cbn [omap list_omap fst]. rewrite Hk. cbn [mbind option_bind].
  destruct (json_file (k, n)); [by rewrite IH|done].
Qed.

Definition total_size (l : list (string * bytes)) : Z := zsum ((fun f => zlen f.2) <$> l).

Lemma total_size_nonneg l : 0 <= total_size l.
Proof. apply zsum_nonneg, Forall_fmap, Forall_true. intros. apply zlen_nonneg. Qed.

Lemma total_size_cons name c l : total_size ((name, c) :: l) = zlen c + total_size l.
Proof. done. Qed.

Lemma scan_loop_quiet d u names paths total :
  0 <= total ->
  zlen paths + zlen (jsons (d_entries d) names) <= MAX_QUEUE_ENTRIES ->
  total + total_size (jsons (d_entries d) names) <= MAX_QUEUE_BYTES ->
  Forall (fun name => is_Some (d_entries d !! name)) names ->
  scan_loop names paths total (World d [] u)
  = (Done (paths ++ (jsons (d_entries d) names).*1,
           total + total_size (jsons (d_entries d) names)), World d [] u).
Proof.
  intros Htot Hcount Hsize Hnames. revert paths total Htot Hcount Hsize.
  induction Hnames as [|name names [n Hn] _ IH]; intros paths total Htot Hcount Hsize.
  { simpl. rewrite app_nil_r. unfold total_size. simpl. by rewrite Z.add_0_r. }
  cbn [scan_loop].
  rewrite (bind_done _ _ _ tt (World d [] u)) by by rewrite query_quiet.
  assert (Hget : dget d (Entries, name) = Some n) by done.
  assert (Hcons : jsons (d_entries d) (name :: names)
                  = option_list (json_file (name, n)) ++ jsons (d_entries d) names).
  { unfold jsons. cbn [omap list_omap]. rewrite Hn. cbn [mbind option_bind].
    by destruct (json_file (name, n)). }
  rewrite Hcons in *.
  destruct n as [c|]; cbn [json_file] in *.
  - case_bool_decide as Hext; [|by apply IH].
    change (option_list (Some (name, c)) ++ jsons (d_entries d) names)
      with ((name, c) :: jsons (d_entries d) names) in *.
    rewrite zlen_cons in Hcount. rewrite total_size_cons in *.
    rewrite (bind_done _ _ _ (true, zlen c) (World d [] u))
      by by rewrite metadata_quiet, Hget.
    simpl. pose proof (zlen_nonneg (jsons (d_entries d) names)).
    destruct (Z.eqb_spec (zlen paths) MAX_QUEUE_ENTRIES); [lia|].
    rewrite (bind_done _ _ _ (true, zlen c) (World d [] u))
      by by rewrite metadata_quiet, Hget.
    pose proof (total_size_nonneg (jsons (d_entries d) names)).
    pose proof (zlen_nonneg c).
    assert (Hsat : sat_add total (zlen c) = total + zlen c)
      by (unfold MAX_QUEUE_BYTES in *; machine).
    unfold ensure_queue_bytes. rewrite Hsat.
    destruct (Z.ltb_spec MAX_QUEUE_BYTES (total + zlen c)); [lia|].
    rewrite (bind_done _ _ _ tt (World d [] u)) by done.
    rewrite IH; [|lia|autorewrite with zlen; lia|lia].
    rewrite <- app_assoc. simpl. by rewrite Z.add_assoc.
  - change (option_list None ++ jsons (d_entries d) names)
      with (jsons (d_entries d) names) in *.
    case_bool_decide; [|by apply IH].
    rewrite (bind_done _ _ _ (false, 0) (World d [] u)) by by rewrite metadata_quiet, Hget.
    by apply IH.
Qed.

Lemma entry_headroom_range e : 0 <= entry_headroom e <= 137.
Proof.
  unfold entry_headroom, incarnation_growth, ENTRY_MUTATION_HEADROOM_BYTES.
  pose proof (zlen_nonneg (i64_to_bytes (order e))).
  destruct (decide _), (claim_token e) as [t|]; try destruct (string_to_vec t) as [b|];
    try pose proof (zlen_nonneg b); machine.
Qed.

Lemma read_loop_quiet d u files es headroom :
  0 <= headroom -> headroom + 137 * zlen files <= U64_MAX ->
  Forall (fun f => d_entries d !! f.1 = Some (Regular f.2) /\
     (forall e, entry_at f = Some e ->
        zlen f.2 + maximum_mutation_growth e <= MAX_ENTRY_BYTES)) files ->
  read_loop files.*1 es headroom (World d [] u)
  = (Done (es ++ omap entry_at files,
           headroom + zsum (entry_headroom <$> omap entry_at files)), World d [] u).
Proof.
  intros Hh Hmax Hall. revert es headroom Hh Hmax.
  induction Hall as [|[name c] files [Hm Hgrow] _ IH]; intros es headroom Hh Hmax.
  { simpl. by rewrite app_nil_r, Z.add_0_r. }
  rewrite zlen_cons in Hmax. cbn [fst snd] in *.
  rewrite fmap_cons. cbn [read_loop fst].
  assert (Hget : dget d (Entries, name) = Some (Regular c)) by done.
  cbn [omap list_omap].
  assert (Hskip : entry_at (name, c) = None ->
    read_loop files.*1 es headroom (World d [] u)
    = (Done (es ++ match entry_at (name, c) with
                   | Some y => y :: omap entry_at files | None => omap entry_at files end,
             headroom + zsum (entry_headroom <$>
               match entry_at (name, c) with
               | Some y => y :: omap entry_at files | None => omap entry_at files end)),
       World d [] u)).
  { intros ->. apply IH; [done|lia]. }
  destruct (Z.le_gt_cases (zlen c) MAX_ENTRY_BYTES) as [Hle|Hgt].
  2:{ erewrite (bind_done _ _ _ (Err _)) by (apply attempt_failed; by apply read_entry_oversized).
      apply Hskip. unfold entry_at. simpl. by destruct (Z.leb_spec (zlen c) MAX_ENTRY_BYTES); [lia|]. }
  unfold entry_at in Hskip, Hgrow |- *. cbn [fst snd] in *.
  destruct (Z.leb_spec (zlen c) MAX_ENTRY_BYTES); [|lia].
  destruct (entry_from_slice c) as [msg|e] eqn:Hslice.
  { erewrite (bind_done _ _ _ (Err _))
      by (apply attempt_failed; rewrite (read_entry_quiet _ _ _ c), Hslice; done).
    by apply Hskip. }
  erewrite (bind_done _ _ _ (Ok e))
    by (apply attempt_done; rewrite (read_entry_quiet _ _ _ c), Hslice; done).
  destruct (is_valid_id (id e)) eqn:Hv; simpl in Hskip, Hgrow |- *; [|by apply Hskip].
  destruct (path_matches_id name (id e)) eqn:Hp; [|by apply Hskip].
  erewrite (bind_done _ _ _ (Ok (true, zlen c)))
    by (apply attempt_done; rewrite metadata_quiet, Hget; done).
  specialize (Hgrow e eq_refl).
  assert (0 <= maximum_mutation_growth e).
  { unfold maximum_mutation_growth, incarnation_growth. destruct (decide _); machine. }
  pose proof (zlen_nonneg c). pose proof (entry_headroom_range e).
  pose proof (zlen_nonneg files).
  replace (sat_add (zlen c) (maximum_mutation_growth e))
    with (zlen c + maximum_mutation_growth e) by (unfold MAX_ENTRY_BYTES in *; machine).
  destruct (Z.ltb_spec MAX_ENTRY_BYTES (zlen c + maximum_mutation_growth e)); [lia|].
  replace (sat_add headroom (entry_headroom e)) with (headroom + entry_headroom e) by machine.
  rewrite IH by lia. rewrite <- app_assoc. simpl. by rewrite Z.add_assoc.
Qed.

Lemma jsons_elem m names f :
  f ∈ jsons m names -> m !! f.1 = Some (Regular f.2) /\ f ∈ json_files m.
Proof.
  unfold jsons. rewrite list_elem_of_omap. intros (name & _ & Hf).
  destruct (m !! name) as [n|] eqn:Hm; [|done]. simpl in Hf.
  destruct n as [c|]; [|done]. case_bool_decide; simplify_eq. split; [done|].
  by apply json_files_elem.
Qed.

(** Without failures, a scan of a directory within the limits returns the queue
    it holds, whatever the listing order, and leaves the world alone. *)
Lemma entries_with_usage_quiet d u :
  fits (d_entries d) ->
  entries_with_usage (World d [] u)
  = (Done (entries_of (d_entries d), usage_of (d_entries d)), World d [] u).
Proof.
  intros (Hcount & Hsize & Hgrow). set (m := d_entries d) in *.
  set (names := dir_order (map_to_list m).*1).
  assert (Hperm : jsons m names ≡ₚ json_files m) by apply jsons_listing.
  assert (Htotal : total_size (jsons m names) = zsum (sizes m))
    by (unfold total_size, sizes; by rewrite Hperm).
  unfold entries_with_usage, scan_entry_files.
  assert (Hscan : scan_loop names [] 0 (World d [] u)
    = (Done ((jsons m names).*1, zsum (sizes m)), World d [] u)).
  { rewrite scan_loop_quiet; fold m; [by rewrite Htotal| lia | | |].
    - rewrite zlen_nil, Hperm. lia.
    - lia.
    - apply Forall_forall. intros name Hin. unfold names in Hin.
      rewrite (dir_order_perm _) in Hin. apply list_elem_of_fmap in Hin as ([k n] & -> & Hin).
      apply elem_of_map_to_list in Hin. eauto. }
  erewrite (bind_done _ _ _ ((jsons m names).*1, Usage (zlen (json_files m)) (zsum (sizes m)) 0)).
  2:{ erewrite (bind_done _ _ _ names) by (unfold read_dir; by rewrite query_quiet).
      erewrite bind_done by exact Hscan. unfold ret. do 3 f_equal.
      unfold zlen. rewrite length_fmap. fold (zlen (jsons m names)). by rewrite Hperm. }
  assert (Hlen : zlen (jsons m names) <= MAX_QUEUE_ENTRIES) by (rewrite Hperm; lia).
  erewrite bind_done.
  2:{ apply read_loop_quiet; simpl; [lia|unfold MAX_QUEUE_ENTRIES, U64_MAX in *; lia|].
      apply Forall_forall. intros f [Hf Hin]%jsons_elem. split; [done|].
      rewrite Forall_forall in Hgrow. by apply Hgrow. }
  cbn [app headroom_bytes count used_bytes]. unfold ret. f_equal.
  assert (Hv : omap entry_at (jsons m names) ≡ₚ valid_entries m)
    by (unfold valid_entries; by rewrite Hperm).
  assert (Hsort : sort_entries (omap entry_at (jsons m names)) = entries_of m)
    by (apply sort_entries_proper; [rewrite Hv; apply valid_entries_NoDup|done]).
  assert (Hhead : zsum (entry_headroom <$> omap entry_at (jsons m names))
                  = zsum (entry_headroom <$> valid_entries m)) by by rewrite Hv.
  unfold usage_of. by rewrite Z.add_0_l, Hsort, Hhead.
Qed.

Lemma entries_quiet d u :
  fits (d_entries d) ->
  entries (World d [] u) = (Done (entries_of (d_entries d)), World d [] u).
Proof.
  intros Hf. unfold entries. by erewrite bind_done by by apply entries_with_usage_quiet.
Qed.

(** * Lookup of one entry *)

Lemma find_found d u wanted c e :
  dget d (Entries, wanted +:+ ".json") = Some (Regular c) ->
  entry_at (wanted +:+ ".json", c) = Some e ->
  find wanted (World d [] u) = (Done e, World d [] u).
Proof.
  intros Hget He. apply entry_at_spec in He as (Hle & Hs & Hv & Hstem). simpl in *.
  assert (id e = wanted /\ is_valid_id wanted = true) as [Hid Hvw].
  { enough (file_stem (wanted +:+ ".json") = wanted) by (split; congruence).
    unfold file_stem. change (wanted +:+ ".json") with (wanted +:+ "." +:+ "json").
    rewrite split_extension_app; [done| |done|done].
    intros Hnil. assert (wanted = "") as -> by by apply bytes_of_inj.
    rewrite <- Hstem in Hv. vm_compute in Hv. done. }
  unfold find, entry_path. rewrite Hvw. cbn [lift].
  rewrite (bind_done _ _ _ (Entries, wanted +:+ ".json") (World d [] u)) by done.
  erewrite (bind_done _ _ _ (Ok e))
    by (apply attempt_done; rewrite (read_entry_quiet _ _ _ c), Hs; done).
  by rewrite decide_True.
Qed.

Lemma find_missing d u wanted :
  is_valid_id wanted = true -> dget d (Entries, wanted +:+ ".json") = None ->
  find wanted (World d [] u) = (Failed (UnknownId wanted), World d [] u).
Proof.
  intros Hv Hget. unfold find, entry_path. rewrite Hv. cbn [lift].
  rewrite (bind_done _ _ _ (Entries, wanted +:+ ".json") (World d [] u)) by done.
  erewrite (bind_done _ _ _ (Err _)); [|apply attempt_failed; unfold read_entry;
    apply bind_failed; by rewrite metadata_quiet, Hget].
  simpl. done.
Qed.

Lemma find_invalid w wanted :
  is_valid_id wanted = false -> find wanted w = (Failed (InvalidId wanted), w).
Proof. intros Hv. unfold find, entry_path. by rewrite Hv. Qed.

Lemma find_valid d u e :
  e ∈ valid_entries (d_entries d) -> find (id e) (World d [] u) = (Done e, World d [] u).
Proof. intros (c & Hc & He)%valid_entries_elem. by eapply find_found. Qed.
End scans.

(** * Atomic replacement *)

Section atomic.

(** The disk after a completed replacement of [p]. *)
Definition replaced (p : path) (b : bytes) (d : disk) : disk :=
  dput p (Regular b) (ddel (tmp_path p) d).

Lemma ddel_dput p n d : ddel p (dput p n d) = ddel p d.
Proof.
  apply disk_ext. intros q. destruct (decide (p = q)) as [->|Hne].
  - by autorewrite with disk.
  - by rewrite !dget_ddel_other, dget_dput_other.
Qed.
Lemma dput_dput p n n' d : dput p n (dput p n' d) = dput p n d.
Proof.
  apply disk_ext. intros q. destruct (decide (p = q)) as [->|Hne].
  - by autorewrite with disk.
  - by rewrite !dget_dput_other.
Qed.

Lemma write_atomic_quiet p b d u :
  tmp_path p <> p -> dget d (tmp_path p) <> Some Directory -> dget d p <> Some Directory ->
  write_atomic p b (World d [] u) = (Done tt, World (replaced p b d) [] u).
Proof.
  intros Hne Htmp Hp. unfold write_atomic. set (tmp := tmp_path p) in *.
  erewrite (bind_done _ _ _ tt (World (dput tmp (Regular []) d) [] u)).
  2:{ unfold create, syscall. simpl. by destruct (dget d tmp) as [[|]|]. }
  erewrite (bind_done _ _ _ tt (World (dput tmp (Regular b) d) [] u)).
  2:{ unfold write_all, syscall, append_bytes. simpl.
      rewrite dget_dput_same. simpl. by rewrite dput_dput. }
  do 3 (erewrite (bind_done _ _ _ tt) by first [apply sync_quiet | apply open_dir_quiet]).
  erewrite (bind_done _ _ _ tt (World (replaced p b d) [] u)); [apply sync_quiet|].
  unfold rename, syscall. simpl. rewrite dget_dput_same, dget_dput_other by done.
  unfold replaced. fold tmp. rewrite ddel_dput.
  by destruct (dget d p) as [[|]|].
Qed.

(** Calls that leave the disk alone do not change what a run can reach. *)
Lemma runs_sync {calm : bool} (Q : outcome unit -> disk -> Prop) d :
  Q (Done tt) d -> (forall e, Q (Failed (Io e)) d) -> Q Crashed d -> runs_in calm sync Q d.
Proof. intros. apply runs_query; [by intros [] _|done|done]. Qed.
Lemma runs_open_dir {calm : bool} (Q : outcome unit -> disk -> Prop) d :
  Q (Done tt) d -> (forall e, Q (Failed (Io e)) d) -> Q Crashed d -> runs_in calm open_dir Q d.
Proof. intros. apply runs_query; [by intros [] _|done|done]. Qed.

(** Whatever call fails, and wherever the process dies, the file [p] holds its
    old content or the whole new one, and no other file changes but the
    temporary sibling. *)
Lemma write_atomic_runs p b d :
  tmp_path p <> p ->
  runs (write_atomic p b) (fun r d' =>
    d' = replaced p b d
    \/ r <> Done tt /\ (forall q, q <> tmp_path p -> dget d' q = dget d q)
       /\ (dget d (tmp_path p) <> Some Directory -> dget d' (tmp_path p) <> Some Directory)) d.
Proof.
  intros Hne. unfold write_atomic. set (tmp := tmp_path p) in *.
  set (old := fun d' : disk => (forall q, q <> tmp -> dget d' q = dget d q)
    /\ (dget d tmp <> Some Directory -> dget d' tmp <> Some Directory)).
  assert (Hput : forall c, old (dput tmp (Regular c) d)).
  { intros c. split; [|by rewrite dget_dput_same]. intros q Hq. by rewrite dget_dput_other. }
  assert (Happ : forall c b', old (append_bytes tmp b' (dput tmp (Regular c) d))).
  { intros c b'. unfold append_bytes. rewrite dget_dput_same, dput_dput. by apply Hput. }
  assert (Hold : old d) by done.
  apply runs_bind, runs_syscall; [|intros; right; split; [done|]..].
  2:{ destruct (dget d tmp) as [[|]|]; simplify_eq; done. }
  2-3: done.
  intros [] d1 Hd1.
  assert (d1 = dput tmp (Regular []) d) as -> by (destruct (dget d tmp) as [[|]|]; congruence).
  apply runs_bind, runs_syscall; [|by intros; simplify_eq|intros; right; split; [done|]; apply Happ..].
  intros [] d2 [= <-].
  assert (Hd2 : append_bytes tmp b (dput tmp (Regular []) d) = dput tmp (Regular b) d).
  { unfold append_bytes. by rewrite dget_dput_same, dput_dput. }
  rewrite Hd2. clear Hd2. specialize (Hput b).
  do 3 (apply runs_bind; first [apply runs_sync | apply runs_open_dir];
        [|by intros; right|by right]).
  apply runs_bind, runs_syscall; [|intros; right; split; [done|]..].
  2:{ rewrite dget_dput_same, dget_dput_other in H by done.
      destruct (dget d p) as [[|]|]; by simplify_eq. }
  2-3: done.
  intros [] d3 Hd3. rewrite dget_dput_same, dget_dput_other in Hd3 by done.
  assert (d3 = replaced p b d) as ->.
  { unfold replaced. fold tmp. rewrite <- (ddel_dput tmp (Regular b)).
    destruct (dget d p) as [[|]|]; congruence. }
  apply runs_sync; auto.
Qed.

(** It ends, whatever the faults. *)
Lemma write_atomic_ends p b d : runs (write_atomic p b) (fun r _ => r <> Diverged) d.
Proof.
  unfold write_atomic. do 6 (apply runs_bind, runs_syscall; [intros ? ? _|by intros..]).
  by apply runs_syscall.
Qed.
End atomic.

(** * Result *)

(** C19: the atomic file replacement is atomic under every failure and crash: the
    target keeps its old content or has the whole new one, success means the new
    one, and no other file changes but the temporary sibling. *)
Theorem replacement_is_atomic p b d fs u o w' :
  tmp_path p <> p -> genuine fs ->
  write_atomic p b (World d fs u) = (o, w') ->
  (dget (w_disk w') p = dget d p \/ dget (w_disk w') p = Some (Regular b))
  /\ (o = Done tt -> dget (w_disk w') p = Some (Regular b))
  /\ forall q, q <> p -> q <> tmp_path p -> dget (w_disk w') q = dget d q.
Proof.
  intros Hne Hfs Hrun. destruct (write_atomic_runs p b d Hne fs u Hfs) as [Hpost _].
  rewrite Hrun in Hpost. cbn [fst snd] in Hpost. destruct Hpost as [->|(Ho & Hq & _)].
  - unfold replaced. rewrite dget_dput_same. split_and!; auto. intros q H1 H2.
    by rewrite dget_dput_other, dget_ddel_other.
  - split_and!; [left; by apply Hq|done|]. intros q _ H2. by apply Hq.
Qed.
