(* ===== verification/Capacity.v ===== *)
(** The durable capacity invariant ([store/bounds.rs]): count and byte budget
    with reserved headroom, and why the reservation is enough.

    [store_wf] is the invariant of the entries directory.  An update of the
    ordering key, of the claim token or of a legacy record's incarnation keeps
    the accounted bytes exactly (what the file grows, the reservation gives
    back), so such a write never exceeds the limits. *)

From S2P Require Import Prelude Text Protocol Disk Entry Order Bounds Scan.

Import StoredEntry.

Section capacity.
Context `{SerdeJson}.

(** A claim token is absent or quoted in the 38 bytes of a UUID. *)
Definition claim_ok (c : option string) : Prop :=
  match c with
  | None => True
  | Some token => exists b, string_to_vec token = Some b /\ zlen b = 38
  end.

Definition entry_ok (e : t) : Prop :=
  entry_typed e /\ is_valid_id (id e) = true /\ claim_ok (claim_token e).

(** File [f] holds the printed form of [e] and has room for its updates. *)
Definition stored (f : string * bytes) (e : t) : Prop :=
  f.1 = id e +:+ ".json" /\ entry_to_vec_pretty e = Some f.2 /\ entry_ok e
  /\ zlen f.2 + maximum_mutation_growth e <= MAX_ENTRY_BYTES.

Record store_wf (m : gmap string node) : Prop := {
  wf_count : zlen (json_files m) <= MAX_QUEUE_ENTRIES;
  wf_budget :
    zsum (sizes m) + zsum (entry_headroom <$> valid_entries m) <= MAX_QUEUE_BYTES;
  wf_stored : forall f e, f ∈ json_files m -> entry_at f = Some e -> stored f e;
  wf_regular : forall k, m !! k <> Some Directory;
}.

Lemma zsum_headroom_nonneg l : 0 <= zsum (entry_headroom <$> l).
Proof.
  apply zsum_nonneg, Forall_fmap, Forall_true. intros e. simpl.
  pose proof (entry_headroom_range e). lia.
Qed.

Lemma zsum_sizes_nonneg m : 0 <= zsum (sizes m).
Proof. apply total_size_nonneg. Qed.

Lemma store_wf_fits m : store_wf m -> fits m.
Proof.
  intros Hwf. repeat split.
  - apply Hwf.
  - pose proof (wf_budget m Hwf). pose proof (zsum_headroom_nonneg (valid_entries m)). lia.
  - apply Forall_forall. intros f Hf e He. by apply (wf_stored m Hwf f e Hf He).
Qed.

(** ** Exact widths *)

Lemma order_width_range e : is_i64 (order e) -> 1 <= order_width e <= 20.
Proof. apply i64_to_bytes_length. Qed.

Lemma claim_width_ok e :
  claim_ok (claim_token e) ->
  claim_width e = 4 /\ claim_token e = None \/
  claim_width e = 38 /\ exists token b,
    claim_token e = Some token /\ string_to_vec token = Some b /\ zlen b = 38.
Proof.
  unfold claim_ok, claim_width, quoted_length. destruct (claim_token e) as [token|]; [|auto].
  intros (b & Hb & Hlen). rewrite Hb. right. eauto 10.
Qed.

(** No saturation happens: the reservation is a linear function of the widths. *)
Lemma entry_headroom_exact e :
  is_i64 (order e) -> claim_ok (claim_token e) ->
  entry_headroom e = 85 - order_width e - claim_width e + incarnation_growth e.
Proof.
  intros Ho Hc. pose proof (order_width_range e Ho) as Hw.
  unfold entry_headroom, ENTRY_MUTATION_HEADROOM_BYTES. fold (order_width e).
  assert (incarnation_growth e = 0 \/ incarnation_growth e = 57)
    by (unfold incarnation_growth; destruct (decide _); auto).
  destruct (claim_width_ok e Hc) as [[-> ->]|[-> (token & b & -> & -> & Hb)]]; [|rewrite Hb];
    machine.
Qed.

Lemma maximum_mutation_growth_exact e :
  is_i64 (order e) -> claim_ok (claim_token e) ->
  maximum_mutation_growth e = 58 - order_width e - claim_width e + incarnation_growth e.
Proof.
  intros Ho Hc. pose proof (order_width_range e Ho) as Hw.
  unfold maximum_mutation_growth. fold (order_width e).
  assert (incarnation_growth e = 0 \/ incarnation_growth e = 57)
    by (unfold incarnation_growth; destruct (decide _); auto).
  destruct (claim_width_ok e Hc) as [[-> ->]|[-> (token & b & -> & -> & Hb)]]; [|rewrite Hb];
    machine.
Qed.

(** The updates the store makes: same content, a valid key and claim, and the
    same incarnation unless a legacy record receives a UUID. *)
Definition update_of (e e' : t) : Prop :=
  same_body e e' /\ entry_ok e'
  /\ (incarnation e' = incarnation e
      \/ incarnation e = "" /\ incarnation e' <> "" /\ quoted_length (incarnation e') = 38).

Context `{!SerdeJsonOk}.

Lemma update_size e e' b b' :
  entry_ok e -> update_of e e' ->
  entry_to_vec_pretty e = Some b -> entry_to_vec_pretty e' = Some b' ->
  zlen b' + entry_headroom e' = zlen b + entry_headroom e
  /\ zlen b' + maximum_mutation_growth e' = zlen b + maximum_mutation_growth e.
Proof.
  intros (Ht & _ & Hc) (Hsb & (Ht' & _ & Hc') & Hinc) Hb Hb'.
  pose proof (entry_size_difference e e' b b' Ht Ht' Hsb Hb Hb') as Hdiff.
  assert (Hi : incarnation_width e' + incarnation_growth e'
               = incarnation_width e + incarnation_growth e).
  { unfold incarnation_width, incarnation_growth.
    destruct Hinc as [->|(-> & Hne & Hq)]; [done|].
    destruct (decide (incarnation e' = "")); [done|]. rewrite Hq. simpl. lia. }
  destruct Ht as (_ & _ & Ho & _), Ht' as (_ & _ & Ho' & _).
  rewrite !entry_headroom_exact, !maximum_mutation_growth_exact by done. lia.
Qed.

(** ** One entry file among the others *)

Lemma json_file_entry id c :
  is_valid_id id = true -> json_file (id +:+ ".json", Regular c) = Some (id +:+ ".json", c).
Proof.
  intros Hv. simpl. rewrite bool_decide_true; [done|]. by apply valid_json_name.
Qed.

Lemma stored_entry_at f e : stored f e -> entry_at f = Some e.
Proof.
  intros (Hname & Hvec & (Ht & Hv & Hc) & Hgrow). apply entry_at_spec. repeat split.
  - assert (0 <= maximum_mutation_growth e); [|lia].
    unfold maximum_mutation_growth, incarnation_growth. destruct (decide _); machine.
  - by apply entry_round_trip.
  - done.
  - rewrite Hname. by apply valid_json_name.
Qed.

(** The directory split at the file of [e]. *)
Lemma stored_split m e c :
  m !! (id e +:+ ".json") = Some (Regular c) -> stored (id e +:+ ".json", c) e ->
  let rest := delete (id e +:+ ".json") m in
  json_files m ≡ₚ (id e +:+ ".json", c) :: json_files rest
  /\ valid_entries m ≡ₚ e :: valid_entries rest
  /\ zsum (sizes m) = zlen c + zsum (sizes rest).
Proof.
  intros Hm Hst rest.
  assert (Hj : json_files m ≡ₚ (id e +:+ ".json", c) :: json_files rest).
  { rewrite (json_files_split m _ _ Hm). rewrite json_file_entry; [done|]. apply Hst. }
  split; [done|]. split.
  - unfold valid_entries. rewrite Hj. simpl. by rewrite (stored_entry_at _ e).
  - unfold sizes. rewrite Hj. done.
Qed.

(** Files that are not entries do not take part in the accounting. *)
Lemma store_wf_perm m m' :
  json_files m ≡ₚ json_files m' -> (forall k, m' !! k <> Some Directory) ->
  store_wf m -> store_wf m'.
Proof.
  intros Hp Hreg Hwf. constructor; [| | |done].
  - rewrite <- Hp. apply Hwf.
  - pose proof (wf_budget m Hwf) as Hb. unfold sizes in *.
    rewrite (valid_entries_proper m m' Hp), Hp in Hb. exact Hb.
  - intros f e Hf. rewrite <- Hp in Hf. by apply (wf_stored m Hwf).
Qed.

(** Writing [e'] over [e] keeps the invariant and the accounted bytes. *)
Lemma store_wf_update m e e' c c' :
  store_wf m -> m !! (id e +:+ ".json") = Some (Regular c) ->
  entry_at (id e +:+ ".json", c) = Some e -> update_of e e' ->
  entry_to_vec_pretty e' = Some c' ->
  let m' := <[id e +:+ ".json" := Regular c']> m in
  store_wf m'
  /\ used_bytes (usage_of m') + headroom_bytes (usage_of m')
     = used_bytes (usage_of m) + headroom_bytes (usage_of m)
  /\ valid_entries m' ≡ₚ e' :: valid_entries (delete (id e +:+ ".json") m).
Proof.
  intros Hwf Hm He Hup Hvec m'.
  assert (Hst : stored (id e +:+ ".json", c) e).
  { apply (wf_stored m Hwf); [|done]. apply json_files_elem. split; [done|].
    apply entry_at_spec in He as (_ & _ & Hv & _). by apply valid_json_name. }
  destruct (stored_split m e c Hm Hst) as (Hj & Hv & Hs).
  assert (Hid : id e' = id e) by (symmetry; apply Hup).
  destruct (update_size e e' c c') as [Hhead Hgrow]; [apply Hst|done|apply Hst|done|].
  assert (Hst' : stored (id e' +:+ ".json", c') e').
  { split; [done|]. split; [done|]. split; [apply Hup|]. simpl. rewrite Hgrow. apply Hst. }
  rewrite Hid in Hst'.
  assert (Hm' : m' !! (id e' +:+ ".json") = Some (Regular c'))
    by (rewrite Hid; apply lookup_insert_eq).
  rewrite <- Hid in Hst'.
  destruct (stored_split m' e' c' Hm' Hst') as (Hj' & Hv' & Hs').
  assert (Hrest : delete (id e' +:+ ".json") m' = delete (id e +:+ ".json") m).
  { rewrite Hid. unfold m'. apply delete_insert_eq. }
  rewrite Hrest in Hj', Hv', Hs'.
  assert (Hacc : zsum (sizes m') + zsum (entry_headroom <$> valid_entries m')
                 = zsum (sizes m) + zsum (entry_headroom <$> valid_entries m)).
  { rewrite Hs, Hs', Hv, Hv'. rewrite !fmap_cons. simpl. lia. }
  split; [|split; [exact Hacc|done]].
  constructor.
  - rewrite Hj', zlen_cons. pose proof (wf_count m Hwf) as Hc.
    rewrite Hj, zlen_cons in Hc. exact Hc.
  - rewrite Hacc. apply Hwf.
  - intros f x Hf Hx. rewrite Hj' in Hf. apply elem_of_cons in Hf as [->|Hf].
    + rewrite (stored_entry_at _ e' Hst') in Hx. by simplify_eq.
    + apply (wf_stored m Hwf); [|done]. rewrite Hj. by right.
  - intros k. unfold m'. destruct (decide (k = id e +:+ ".json")) as [->|Hne].
    + by rewrite lookup_insert_eq.
    + rewrite lookup_insert_ne by done. apply Hwf.
Qed.
End capacity.
