(* ===== verification/Writes.v ===== *)
(** Runs of the entry writes without I/O failures ([store/bounds.rs],
    [write_entry] and [write_entry_with_usage]): an update always fits, an
    admission is checked against the limits, and both keep [store_wf]. *)

From S2P Require Import Prelude Text Protocol Disk Entry Order Bounds Scan Capacity.

Import StoredEntry.

(** The file of an entry, and the disk after its file is replaced. *)
Definition entry_file (wanted : string) : path := (Entries, wanted +:+ ".json").

Lemma tmp_entry_file wanted :
  is_valid_id wanted = true -> tmp_path (entry_file wanted) = (Entries, wanted +:+ ".tmp").
Proof. intros Hv. by apply valid_tmp_name. Qed.

Lemma tmp_entry_file_ne wanted :
  is_valid_id wanted = true -> tmp_path (entry_file wanted) <> entry_file wanted.
Proof.
  intros Hv. rewrite tmp_entry_file by done. unfold entry_file.
  destruct (valid_tmp_name wanted Hv) as [_ Ht], (valid_json_name wanted Hv) as [_ Hj].
  intros [= Heq]. rewrite Heq in Ht. congruence.
Qed.

Lemma replaced_entries wanted b d :
  is_valid_id wanted = true ->
  d_entries (replaced (entry_file wanted) b d)
  = <[wanted +:+ ".json" := Regular b]> (delete (wanted +:+ ".tmp") (d_entries d)).
Proof. intros Hv. unfold replaced. by rewrite tmp_entry_file. Qed.

Section writes.
Context `{Platform} `{!PlatformOk} `{SerdeJson} `{!SerdeJsonOk}.

(** Dropping a leftover temporary file does not change the queue. *)
Lemma json_files_tmp m wanted :
  is_valid_id wanted = true -> json_files (delete (wanted +:+ ".tmp") m) ≡ₚ json_files m.
Proof.
  intros Hv. apply json_files_delete_other.
  destruct (valid_tmp_name wanted Hv) as [_ ->]. congruence.
Qed.

Lemma store_wf_tmp m wanted :
  is_valid_id wanted = true -> store_wf m -> store_wf (delete (wanted +:+ ".tmp") m).
Proof.
  intros Hv Hwf. apply (store_wf_perm m); [by rewrite json_files_tmp| |done].
  intros k. rewrite lookup_delete. case_decide; [done|]. apply Hwf.
Qed.

Lemma tmp_lookup (m : gmap string node) wanted wanted' :
  is_valid_id wanted = true -> is_valid_id wanted' = true ->
  delete (wanted +:+ ".tmp") m !! (wanted' +:+ ".json") = m !! (wanted' +:+ ".json").
Proof.
  intros Hv Hv'. apply lookup_delete_ne. intros Heq.
  destruct (valid_tmp_name wanted Hv) as [_ Ht], (valid_json_name wanted' Hv') as [_ Hj].
  rewrite Heq in Ht. congruence.
Qed.

(** Removing the file of [e] leaves the other entries. *)
Lemma valid_entries_delete m e c :
  m !! (id e +:+ ".json") = Some (Regular c) -> stored (id e +:+ ".json", c) e ->
  valid_entries (delete (id e +:+ ".json") m) ≡ₚ others (id e) (valid_entries m).
Proof.
  intros Hm Hst. destruct (stored_split m e c Hm Hst) as (_ & Hv & _).
  rewrite (others_perm _ _ _ Hv). unfold others. rewrite filter_cons_False by auto.
  fold (others (id e) (valid_entries (delete (id e +:+ ".json") m))).
  rewrite others_fresh; [done|].
  pose proof (valid_entries_NoDup m) as Hnd. rewrite Hv, fmap_cons in Hnd.
  apply NoDup_cons in Hnd as [Hx _]. apply Forall_forall. intros x Hin Heq.
  apply Hx. apply list_elem_of_fmap. by exists x.
Qed.

Lemma wf_entry_stored m e :
  store_wf m -> e ∈ valid_entries m ->
  exists c, m !! (id e +:+ ".json") = Some (Regular c)
            /\ entry_at (id e +:+ ".json", c) = Some e /\ stored (id e +:+ ".json", c) e.
Proof.
  intros Hwf (c & Hm & He)%valid_entries_elem. exists c. split; [done|]. split; [done|].
  apply (wf_stored m Hwf); [|done]. apply json_files_elem. split; [done|].
  apply entry_at_spec in He as (_ & _ & Hv & _). by apply valid_json_name.
Qed.

(** ** Updates *)

(** The directory after an update of [e] to [e']. *)
Lemma updated_directory m e e' c' :
  store_wf m -> e ∈ valid_entries m -> update_of e e' -> entry_to_vec_pretty e' = Some c' ->
  let m' := <[id e +:+ ".json" := Regular c']> (delete (id e +:+ ".tmp") m) in
  store_wf m'
  /\ entries_of m' = sort_entries (e' :: others (id e) (entries_of m))
  /\ used_bytes (usage_of m') + headroom_bytes (usage_of m')
     = used_bytes (usage_of m) + headroom_bytes (usage_of m).
Proof.
  intros Hwf He Hup Hvec m'.
  destruct (wf_entry_stored m e Hwf He) as (c & Hm & Hat & Hst).
  assert (Hv : is_valid_id (id e) = true) by apply Hst.
  set (m0 := delete (id e +:+ ".tmp") m) in *.
  assert (Hp0 : json_files m0 ≡ₚ json_files m) by by apply json_files_tmp.
  assert (Hm0 : m0 !! (id e +:+ ".json") = Some (Regular c))
    by (unfold m0; by rewrite tmp_lookup).
  destruct (store_wf_update m0 e e' c c') as (Hwf' & Hacc & Hval); try done.
  { by apply store_wf_tmp. }
  fold m' in Hwf', Hacc, Hval. split; [done|]. split.
  - unfold entries_of. apply sort_entries_proper; [apply valid_entries_NoDup|].
    rewrite Hval. apply perm_skip. rewrite (valid_entries_delete m0 e c) by done.
    apply others_perm. rewrite (valid_entries_proper _ _ Hp0). by rewrite sort_entries_perm.
  - rewrite Hacc. unfold usage_of. simpl. unfold sizes.
    by rewrite (valid_entries_proper _ _ Hp0), Hp0.
Qed.

(** Writing an update of a queued entry succeeds: the reservation covers it. *)
Lemma write_entry_update d u e e' :
  store_wf (d_entries d) -> e ∈ valid_entries (d_entries d) -> update_of e e' ->
  exists c', entry_to_vec_pretty e' = Some c'
    /\ write_entry e' (World d [] u)
       = (Done tt, World (replaced (entry_file (id e)) c' d) [] u).
Proof.
  intros Hwf He Hup. set (m := d_entries d) in *.
  destruct (wf_entry_stored m e Hwf He) as (c & Hm & Hat & Hst).
  assert (Hv : is_valid_id (id e) = true) by apply Hst.
  assert (Hid : id e' = id e) by (symmetry; apply Hup).
  destruct (entry_to_vec_total e') as [c' Hvec]; [apply Hup|].
  exists c'. split; [done|]. unfold write_entry.
  erewrite bind_done by (apply entries_with_usage_quiet; by apply store_wf_fits).
  unfold write_entry_with_usage. rewrite Hvec, Hid. unfold entry_path. rewrite Hv. simpl.
  do 2 (erewrite bind_done by done).
  assert (Hget : dget d (Entries, id e +:+ ".json") = Some (Regular c)) by done.
  erewrite (bind_done _ _ _ (Some (zlen c))).
  2:{ unfold previous_size. erewrite (bind_done _ _ _ (Ok (true, zlen c)));
        [done|]. apply attempt_done. by rewrite metadata_quiet, Hget. }
  rewrite bool_decide_false by done.
  destruct (update_size e e' c c') as [Hhead Hgrow]; [apply Hst|done|apply Hst|done|].
  destruct (stored_split m e c Hm Hst) as (Hj & Hval & Hsz).
  pose proof (wf_count m Hwf). pose proof (wf_budget m Hwf) as Hbud.
  pose proof (entry_headroom_range e). pose proof (entry_headroom_range e').
  pose proof (zlen_nonneg c). pose proof (zlen_nonneg c').
  pose proof (zsum_sizes_nonneg (delete (id e +:+ ".json") m)).
  pose proof (zsum_headroom_nonneg (valid_entries (delete (id e +:+ ".json") m))).
  assert (Hh : zsum (entry_headroom <$> valid_entries m) =
    entry_headroom e + zsum (entry_headroom <$> valid_entries (delete (id e +:+ ".json") m)))
    by by rewrite Hval.
  assert (0 <= maximum_mutation_growth e').
  { unfold maximum_mutation_growth, incarnation_growth. destruct (decide _); machine. }
  assert (Hmax : zlen c + maximum_mutation_growth e <= MAX_ENTRY_BYTES) by apply Hst.
  simpl count. change (d_entries d) with m.
  destruct (Z.ltb_spec MAX_QUEUE_ENTRIES (zlen (json_files m) + 0)); [lia|].
  unfold ensure_entry_size. destruct (Z.ltb_spec MAX_ENTRY_BYTES (zlen c')); [lia|].
  erewrite bind_done by done.
  erewrite (bind_done _ _ _ (entry_headroom e)).
  2:{ erewrite (bind_done _ _ _ e); [done|].
      apply entry_at_spec in Hat as (Hle & Hs & _). simpl in *.
      by rewrite (read_entry_quiet _ _ _ c), Hs. }
  unfold ensure_queue_bytes. simpl.
  match goal with |- context [MAX_QUEUE_BYTES <? ?x] =>
    replace x with (zsum (sizes m) + zsum (entry_headroom <$> valid_entries m))
      by (unfold MAX_QUEUE_BYTES, MAX_ENTRY_BYTES in *; rewrite Hsz, Hh in *; machine) end.
  destruct (Z.ltb_spec MAX_QUEUE_BYTES
    (zsum (sizes m) + zsum (entry_headroom <$> valid_entries m))); [lia|].
  erewrite bind_done by done. apply write_atomic_quiet.
  - by apply tmp_entry_file_ne.
  - change (tmp_path (Entries, id e +:+ ".json")) with (tmp_path (entry_file (id e))).
    rewrite tmp_entry_file by done. apply Hwf.
  - apply Hwf.
Qed.

(** ** Removal *)

Lemma removed_directory m e :
  store_wf m -> e ∈ valid_entries m ->
  let m' := delete (id e +:+ ".json") m in
  store_wf m' /\ entries_of m' = others (id e) (entries_of m).
Proof.
  intros Hwf He m'. destruct (wf_entry_stored m e Hwf He) as (c & Hm & Hat & Hst).
  destruct (stored_split m e c Hm Hst) as (Hj & Hval & Hsz).
  pose proof (valid_entries_delete m e c Hm Hst) as Hrest. split.
  - constructor.
    + pose proof (wf_count m Hwf) as Hc. rewrite Hj, zlen_cons in Hc.
      unfold m'. lia.
    + pose proof (wf_budget m Hwf) as Hb. rewrite Hsz, Hval, fmap_cons in Hb.
      simpl in Hb. pose proof (entry_headroom_range e). pose proof (zlen_nonneg c).
      unfold m'. lia.
    + intros f x Hf Hx. apply (wf_stored m Hwf); [|done]. rewrite Hj. by right.
    + intros k. unfold m'. rewrite lookup_delete. case_decide; [done|]. apply Hwf.
  - unfold entries_of, others. rewrite <- sort_entries_filter by apply valid_entries_NoDup.
    apply sort_entries_proper; [apply valid_entries_NoDup|]. exact Hrest.
Qed.

(** ** Admission *)

Lemma added_directory m e c :
  store_wf m -> m !! (id e +:+ ".json") = None -> stored (id e +:+ ".json", c) e ->
  zlen (json_files m) < MAX_QUEUE_ENTRIES ->
  zsum (sizes m) + zsum (entry_headroom <$> valid_entries m) + zlen c + entry_headroom e
    <= MAX_QUEUE_BYTES ->
  let m' := <[id e +:+ ".json" := Regular c]> (delete (id e +:+ ".tmp") m) in
  store_wf m' /\ entries_of m' = sort_entries (e :: entries_of m).
Proof.
  intros Hwf Hm Hst Hcount Hbud m'.
  assert (Hv : is_valid_id (id e) = true) by apply Hst.
  set (m0 := delete (id e +:+ ".tmp") m) in *.
  assert (Hp0 : json_files m0 ≡ₚ json_files m) by by apply json_files_tmp.
  assert (Hm' : m' !! (id e +:+ ".json") = Some (Regular c)) by apply lookup_insert_eq.
  destruct (stored_split m' e c Hm' Hst) as (Hj & Hval & Hsz).
  assert (Hdel : delete (id e +:+ ".json") m' = m0).
  { unfold m'. rewrite delete_insert_eq. apply delete_id. unfold m0. by rewrite tmp_lookup. }
  rewrite Hdel in Hj, Hval, Hsz.
  assert (Hsz0 : zsum (sizes m0) = zsum (sizes m)) by (unfold sizes; by rewrite Hp0).
  pose proof (valid_entries_proper _ _ Hp0) as Hv0. split.
  - constructor.
    + rewrite Hj, zlen_cons, Hp0. lia.
    + rewrite Hsz, Hval, fmap_cons. simpl. rewrite Hsz0, Hv0. lia.
    + intros f x Hf Hx. rewrite Hj in Hf. apply elem_of_cons in Hf as [->|Hf].
      * rewrite (stored_entry_at _ e Hst) in Hx. by simplify_eq.
      * rewrite Hp0 in Hf. by apply (wf_stored m Hwf).
    + intros k. unfold m'. rewrite lookup_insert. case_decide; [done|].
      unfold m0. rewrite lookup_delete. case_decide; [done|]. apply Hwf.
  - unfold entries_of at 1. apply sort_entries_proper; [apply valid_entries_NoDup|].
    rewrite Hval, Hv0. apply perm_skip. symmetry. apply sort_entries_perm.
Qed.
End writes.

(** * Result *)

(** C25: rewriting a queued entry with a new ordering key, claim or incarnation
    always succeeds in a store within its limits: the headroom reserved when the
    entry was admitted covers every such growth, and the accounted bytes stay
    exactly the same. *)
Theorem updates_always_fit `{Platform} `{!PlatformOk} `{SerdeJson} `{!SerdeJsonOk} d u e e' :
  store_wf (d_entries d) -> e ∈ valid_entries (d_entries d) -> update_of e e' ->
  exists d', write_entry e' (World d [] u) = (Done tt, World d' [] u)
    /\ store_wf (d_entries d')
    /\ entries_of (d_entries d') = sort_entries (e' :: others (id e) (entries_of (d_entries d)))
    /\ used_bytes (usage_of (d_entries d')) + headroom_bytes (usage_of (d_entries d'))
       = used_bytes (usage_of (d_entries d)) + headroom_bytes (usage_of (d_entries d)).
Proof.
  intros Hwf He Hup. destruct (write_entry_update d u e e' Hwf He Hup) as (c' & Hvec & Hrun).
  eexists. split; [exact Hrun|].
  assert (Hv : is_valid_id (id e) = true)
    by (destruct (wf_entry_stored _ e Hwf He) as (c & _ & _ & Hst); apply Hst).
  rewrite replaced_entries by done. by apply updated_directory.
Qed.
