(* ===== verification/Schedule.v ===== *)
(** Queue scheduling ([store/scheduling.rs], [projected_schedule]): the
    projection of an ordered queue onto its earliest posting times.

    The specification is a set of constraints on posting times: a schedule is
    [feasible] when every post keeps the cooldown and the flutter after the
    previous activity, respects the entry's floor and is not in the past.  The
    projection is the least feasible schedule. *)

From S2P Require Import Prelude Text Protocol Disk Entry.

Import StoredEntry.

Section schedule.
Variables (cooldown now : Z).

(** [previous_post.map_or(now, |previous| previous + cooldown + flutter)]. *)
Definition due (previous_post : option Z) (entry : t) : Z :=
  match previous_post with
  | Some previous => sat_add (sat_add previous cooldown) (flutter_seconds entry)
  | None => now
  end.

Definition post_at (previous_post : option Z) (entry : t) : Z :=
  Z.max (Z.max (due previous_post entry) (not_before entry)) now.

Fixpoint projected_schedule (entries : list t) (previous_post : option Z) : list (t * Z) :=
  match entries with
  | [] => []
  | entry :: rest =>
      let at_ := post_at previous_post entry in
      (entry, sat_sub at_ now) :: projected_schedule rest (Some at_)
  end.

(** [.into_iter().find(|(scheduled, _)| scheduled.id == id).map_or(0, |(_, eta)| eta)]. *)
Definition eta_of (schedule : list (t * Z)) (wanted : string) : Z :=
  match list_find (fun p => id p.1 = wanted) schedule with
  | Some (_, (_, eta)) => eta
  | None => 0
  end.

(** * Specification *)

Inductive feasible : option Z -> list (t * Z) -> Prop :=
| feasible_nil previous : feasible previous []
| feasible_cons previous entry time rest :
    (forall p, previous = Some p ->
       sat_add (sat_add p cooldown) (flutter_seconds entry) <= time) ->
    not_before entry <= time ->
    now <= time ->
    feasible (Some time) rest ->
    feasible previous ((entry, time) :: rest).

(** The absolute posting times a projection stands for. *)
Definition times (schedule : list (t * Z)) : list (t * Z) :=
  (fun p => (p.1, now + p.2)) <$> schedule.
#[local] Arguments times : simpl never.

Lemma post_at_ge_now previous entry : now <= post_at previous entry.
Proof. unfold post_at. lia. Qed.

Lemma eta_absolute previous entry :
  now + sat_sub (post_at previous entry) now = post_at previous entry.
Proof. pose proof (post_at_ge_now previous entry). machine. Qed.

Lemma projected_schedule_fst entries previous :
  (projected_schedule entries previous).*1 = entries.
Proof.
  revert previous. induction entries as [|e es IH]; intros previous; [done|].
  simpl. by rewrite IH.
Qed.

Lemma projected_schedule_length entries previous :
  length (projected_schedule entries previous) = length entries.
Proof. by rewrite <- (length_fmap fst), projected_schedule_fst. Qed.

Lemma projected_schedule_app es es' previous :
  exists previous',
    projected_schedule (es ++ es') previous
    = projected_schedule es previous ++ projected_schedule es' previous'.
Proof.
  revert previous. induction es as [|e es IH]; intros previous; simpl; [eauto|].
  destruct (IH (Some (post_at previous e))) as [p' ->]. eauto.
Qed.

Lemma times_cons entry eta rest :
  times ((entry, eta) :: rest) = (entry, now + eta) :: times rest.
Proof. done. Qed.

Lemma projected_schedule_feasible entries previous :
  feasible previous (times (projected_schedule entries previous)).
Proof.
  revert previous. induction entries as [|entry rest IH]; intros previous; simpl;
    [constructor|].
  rewrite times_cons, eta_absolute. constructor; [| | |apply IH].
  - intros p ->. unfold post_at, due. lia.
  - unfold post_at. lia.
  - apply post_at_ge_now.
Qed.

Lemma post_at_mono p q entry :
  p <= q -> post_at (Some p) entry <= post_at (Some q) entry.
Proof. intros. unfold post_at, due. machine. Qed.

(** The projection is below every feasible schedule that starts no earlier. *)
Lemma projected_schedule_le entries p q other :
  other.*1 = entries -> p <= q -> feasible (Some q) other ->
  Forall2 (fun a b => a.2 <= b.2) (times (projected_schedule entries (Some p))) other.
Proof.
  intros Hfst. revert p q entries Hfst.
  induction other as [|[entry time] other IH]; intros p q entries Hfst Hpq Hf;
    subst entries; simpl; [constructor|].
  inversion Hf as [|? ? ? ? Hdue Hnb Hnow Hrest]; subst.
  rewrite times_cons, eta_absolute.
  assert (Hle : post_at (Some p) entry <= time).
  { specialize (Hdue q eq_refl). apply Z.le_trans with (post_at (Some q) entry).
    - by apply post_at_mono.
    - unfold post_at, due. lia. }
  constructor; [done|]. by eapply IH.
Qed.

Lemma projected_schedule_least entries previous other :
  other.*1 = entries -> feasible previous other ->
  Forall2 (fun a b => a.2 <= b.2) (times (projected_schedule entries previous)) other.
Proof.
  intros Hfst Hf. destruct previous as [p|].
  { apply (projected_schedule_le entries p p); [done|lia|done]. }
  inversion Hf as [|? entry time rest _ Hnb Hnow Hrest]; subst; simpl; [constructor|].
  rewrite times_cons, eta_absolute.
  assert (post_at None entry <= time) by (unfold post_at, due; lia).
  constructor; [done|]. eapply projected_schedule_le; [done| |done]. lia.
Qed.

(** Later entries never post before earlier ones. *)
Lemma projected_schedule_from entries p :
  0 <= cooldown -> Forall (fun e => 0 <= flutter_seconds e) entries ->
  p <= U64_MAX -> Forall (fun e => not_before e <= U64_MAX) entries -> now <= U64_MAX ->
  Forall (fun x => p <= now + x.2) (projected_schedule entries (Some p)).
Proof.
  intros Hc Hfl. revert p.
  induction Hfl as [|entry rest Hf _ IH]; intros p Hp Hnb Hnow; simpl; [constructor|].
  apply Forall_cons_1 in Hnb as [Hnb Hrest].
  assert (Hle : p <= post_at (Some p) entry) by (unfold post_at, due; machine).
  constructor; simpl; [rewrite eta_absolute; lia|].
  eapply Forall_impl; [apply IH; [unfold post_at, due; machine | done | done]|].
  simpl. intros x Hx. lia.
Qed.
End schedule.

(** * Result *)

(** C20: the projected schedule is the earliest one.  It keeps the queue order,
    it satisfies every constraint (cooldown and flutter after the previous post,
    the entry's own floor, not in the past), and no schedule that satisfies them
    posts any entry earlier. *)
Theorem schedule_is_earliest cooldown now entries previous :
  (projected_schedule cooldown now entries previous).*1 = entries
  /\ feasible cooldown now previous (times now (projected_schedule cooldown now entries previous))
  /\ forall other, other.*1 = entries -> feasible cooldown now previous other ->
     Forall2 (fun a b => a.2 <= b.2)
       (times now (projected_schedule cooldown now entries previous)) other.
Proof.
  split; [apply projected_schedule_fst|]. split; [apply projected_schedule_feasible|].
  intros other. apply projected_schedule_least.
Qed.
