(* ===== verification/History.v ===== *)
(** The posting-history log ([store/history.rs], [store/history/recent.rs],
    [store/history/record.rs]): records, appends, paged forward reads and the
    chunked reverse scan, as the code performs them on the file. *)

From S2P Require Import Prelude Text Protocol Disk Entry.

Definition MAX_HISTORY_LINE_BYTES : Z := 2 * 1024 * 1024.
Definition MAX_HISTORY_ERROR_BYTES : Z := 64 * 1024.
Definition REVERSE_CHUNK_BYTES : Z := 16 * 1024.
(** The default capacity of [BufReader]. *)
Definition BUF_CAPACITY : Z := 8 * 1024.

Module HistoryPosition.
Record t := mk { offset : Z; end_offset : Z }.
#[global] Instance t_eq_dec : EqDecision t.
Proof. solve_decision. Defined.
End HistoryPosition.

Module HistoryRecordAt.
Record t := mk { record : HistoryRecord.t; position_after : HistoryPosition.t }.
End HistoryRecordAt.

Module HistoryPage.
Record t := mk { records : list HistoryRecordAt.t; next : option HistoryPosition.t }.
Definition empty : t := mk [] None.
End HistoryPage.

Module AwaitCursor.
Record t := mk { offset : Z; incarnation : string }.
#[global] Instance t_eq_dec : EqDecision t.
Proof. solve_decision. Defined.
End AwaitCursor.

(** * Records *)

(** [str::is_char_boundary]: not inside the string, or not a continuation byte. *)
Definition is_char_boundary (b : bytes) (i : nat) : bool :=
  match b !! i with
  | Some c => negb (cont c)
  | None => bool_decide (i = length b)
  end.

(** [while !error.is_char_boundary(end) { end -= 1 }]; index 0 is a boundary. *)
Fixpoint floor_boundary (b : bytes) (i : nat) : nat :=
  match i with
  | O => O
  | S j => if is_char_boundary b i then i else floor_boundary b j
  end.

Definition bounded_error (error : string) : string :=
  if zstrlen error <=? MAX_HISTORY_ERROR_BYTES then error
  else
    let b := bytes_of error in
    let end_ := floor_boundary b (Z.to_nat (MAX_HISTORY_ERROR_BYTES - 3)) in
    string_of (take end_ b ++ bytes_of "...").

Section records.
Context `{Platform}.

(** [HistoryRecord::success] and [HistoryRecord::failure]; each draws a UUID. *)
Definition record_success (entry : StoredEntry.t) (token_hash : string) (posted_at : Z)
    (comment_url : option string) : M HistoryRecord.t :=
  let* attempt_id := fresh_uuid in
  ret {| HistoryRecord.attempt_id := attempt_id;
         HistoryRecord.id := StoredEntry.id entry;
         HistoryRecord.posted_at := posted_at;
         HistoryRecord.success := true;
         HistoryRecord.error := None;
         HistoryRecord.token_hash := token_hash;
         HistoryRecord.comment_url := comment_url;
         HistoryRecord.incarnation := StoredEntry.incarnation entry;
         HistoryRecord.request := StoredEntry.request entry |}.

Definition record_failure (entry : StoredEntry.t) (token_hash : string) (posted_at : Z)
    (error : string) : M HistoryRecord.t :=
  let* attempt_id := fresh_uuid in
  ret {| HistoryRecord.attempt_id := attempt_id;
         HistoryRecord.id := StoredEntry.id entry;
         HistoryRecord.posted_at := posted_at;
         HistoryRecord.success := false;
         HistoryRecord.error := Some (bounded_error error);
         HistoryRecord.token_hash := token_hash;
         HistoryRecord.comment_url := None;
         HistoryRecord.incarnation := StoredEntry.incarnation entry;
         HistoryRecord.request := StoredEntry.request entry |}.
End records.

(** * Reading at an offset *)

(** Bytes [from, from + len) of the file, as far as it goes. *)
Definition slice (c : bytes) (from len : Z) : bytes := ztake len (zdrop from c).

(** [seek] then [read_exact]. *)
Definition read_exact_at (p : path) (from len : Z) : M bytes :=
  query (fun _ => Ok tt) ;;
  let* b := query (fun d => match dget d p with
    | Some (Regular c) => Ok (slice c from len)
    | Some Directory => Err (os_error IsADirectory)
    | None => Err (os_error NotFound)
    end) in
  if zlen b <? len
  then throw (Io (IoError UnexpectedEof "failed to fill whole buffer"))
  else ret b.

(** A [BufReader<File>]: the position of the next byte and the unread buffer. *)
Record reader := Reader { r_pos : Z; r_buf : bytes }.

Definition seek (p : path) (offset : Z) : M reader :=
  query (fun _ => Ok tt) ;; ret (Reader offset []).

(** [fill_buf]: refill an empty buffer from the file. *)
Definition fill_buf (p : path) (r : reader) : M reader :=
  match r_buf r with
  | [] =>
      let* b := query (fun d => match dget d p with
        | Some (Regular c) => Ok (slice c (r_pos r) BUF_CAPACITY)
        | Some Directory => Err (os_error IsADirectory)
        | None => Err (os_error NotFound)
        end) in
      ret (Reader (r_pos r) b)
  | _ => ret r
  end.
Definition consume (n : Z) (r : reader) : reader :=
  Reader (r_pos r + n) (zdrop n (r_buf r)).

(** [iter().position(|byte| *byte == b'\n')]. *)
Fixpoint newline_index (b : bytes) : option Z :=
  match b with
  | [] => None
  | c :: r => if decide (c = NEWLINE) then Some 0
              else match newline_index r with Some i => Some (1 + i) | None => None end
  end.

(** * Appending *)

Section log.
Context `{SerdeJson}.

Definition has_final_newline (p : path) (file_len : Z) : M bool :=
  let* last_byte := read_exact_at p (file_len - 1) 1 in
  ret (bool_decide (last_byte = [NEWLINE])).

Definition append_line (p : path) (line : bytes) (file_len : Z) : M unit :=
  (if 0 <? file_len then
     let* ended := has_final_newline p file_len in
     if ended then ret tt else write_all p [NEWLINE]
   else ret tt) ;;
  write_all p line ;;
  sync.

Definition sync_parent_directory : M unit := open_dir ;; sync.

(** Append [record] as one line to the log at [p]. *)
Definition append (p : path) (record : HistoryRecord.t) : M unit :=
  let* b := serde_some (record_to_vec record) in
  let line := b ++ [NEWLINE] in
  open_append p ;;
  let* (_, file_len) := metadata p in
  append_line p line file_len ;;
  if file_len =? 0 then sync_parent_directory else ret tt.

(** * Forward reads *)

Definition snapshot_error : StoreError :=
  Io (IoError UnexpectedEof "history log changed while reading a snapshot").

(** The loop of [read_snapshot_line]: the reader, the current offset, the line
    kept so far and whether it is oversized.  Each turn consumes at least one
    byte of the snapshot. *)
Fixpoint read_snapshot_line (fuel : nat) (p : path) (r : reader) (current end_ : Z)
    (line : bytes) (oversized : bool) : M (reader * Z * bytes * bool) :=
  if current <? end_ then
    match fuel with
    | O => diverge
    | S fuel =>
        let remaining := end_ - current in
        let* r := fill_buf p r in
        let available := r_buf r in
        match available with
        | [] => throw snapshot_error
        | _ =>
            let visible := Z.min (zlen available) remaining in
            let line_end := newline_index (ztake visible available) in
            let line_len := match line_end with Some i => i + 1 | None => visible end in
            let keep := negb oversized
                        && (sat_add (zlen line) line_len <=? MAX_HISTORY_LINE_BYTES) in
            let line := if keep then line ++ ztake line_len available else line in
            let oversized := negb keep in
            let r := consume line_len r in
            let current := current + line_len in
            match line_end with
            | Some _ => ret (r, current, line, oversized)
            | None => read_snapshot_line fuel p r current end_ line oversized
            end
        end
    end
  else ret (r, current, line, oversized).

Definition line_fuel (current end_ : Z) : nat := Z.to_nat (end_ - current).

(** One line of the snapshot, as a record when it holds one. *)
Definition parse_line (line : bytes) : option HistoryRecord.t :=
  if forallb is_ascii_whitespace line then None
  else match record_from_slice line with Ok r => Some r | Err _ => None end.

Definition read_record (p : path) (r : reader) (current end_ : Z)
    : M (reader * Z * option HistoryRecordAt.t) :=
  let* x := read_snapshot_line (line_fuel current end_) p r current end_ [] false in
  let '(r, current, line, oversized) := x in
  if oversized then ret (r, current, None)
  else match parse_line line with
       | Some record =>
           ret (r, current, Some (HistoryRecordAt.mk record (HistoryPosition.mk current end_)))
       | None => ret (r, current, None)
       end.

Fixpoint read_records (fuel : nat) (p : path) (r : reader) (current end_ page_size : Z)
    (records : list HistoryRecordAt.t) : M (list HistoryRecordAt.t * Z) :=
  if (current <? end_) && (zlen records <? page_size) then
    match fuel with
    | O => diverge
    | S fuel =>
        let* x := read_record p r current end_ in
        let '(r, current, item) := x in
        read_records fuel p r current end_ page_size
          (match item with Some record => records ++ [record] | None => records end)
    end
  else ret (records, current).

Definition invalid_position : StoreError :=
  Io (IoError InvalidData "history cursor is invalid").

Definition validate_position (p : path) (position : HistoryPosition.t) (file_len : Z) : M unit :=
  let offset := HistoryPosition.offset position in
  let end_offset := HistoryPosition.end_offset position in
  if (end_offset <? offset) || (file_len <? end_offset) then throw invalid_position
  else if offset =? 0 then ret tt
  else
    let* previous_byte := read_exact_at p (offset - 1) 1 in
    if decide (previous_byte = [NEWLINE]) then ret tt else throw invalid_position.

(** The length of the opened file; a missing log can stand for an empty one. *)
Definition open_history_snapshot (p : path) (missing_is_empty : bool) : M (option Z) :=
  let* r := attempt (open_file p) in
  match r with
  | Ok _ => let* (_, file_len) := metadata p in ret (Some file_len)
  | Err (Io e) =>
      if missing_is_empty && bool_decide (kind e = NotFound) then ret None else throw (Io e)
  | Err e => throw e
  end.

(** * Reverse scan *)

(** State of the reverse scan: the line read so far (the code pushes its bytes
    in reverse and reverses the buffer in [finish_line]; here the newest byte is
    the head, which is that reversal), the offset of its first byte, and whether
    it is oversized. *)
Record rev_state := Rev { rev_line : bytes; line_start : option Z; rev_oversized : bool }.
Definition rev_init : rev_state := Rev [] None false.

Definition finish_line (st : rev_state) : option HistoryRecord.t :=
  match line_start st with
  | None => None
  | Some _ => if rev_oversized st then None else parse_line (rev_line st)
  end.

Section reverse.
Context {S : Type} (accept : S -> Z -> HistoryRecord.t -> bool * S).

(** [if let Some(record) = finish_line(..) && accept(start, &record)]. *)
Definition try_accept (st : rev_state) (start : Z) (acc : S) : option HistoryRecord.t * S :=
  match finish_line st with
  | Some record =>
      let '(hit, acc) := accept acc start record in
      ((if hit then Some record else None), acc)
  | None => (None, acc)
  end.

(** The inner loop, over the bytes of a chunk from the last to the first;
    [offset] is the offset of the head of [bs]. *)
Fixpoint rev_bytes (bs : bytes) (offset : Z) (st : rev_state) (acc : S)
    : option HistoryRecord.t * rev_state * S :=
  match bs with
  | [] => (None, st, acc)
  | b :: bs =>
      if decide (b = NEWLINE) then
        let '(hit, acc) := try_accept st (offset + 1) acc in
        match hit with
        | Some record => (Some record, st, acc)
        | None => rev_bytes bs (offset - 1) rev_init acc
        end
      else
        let st :=
          if rev_oversized st then Rev (rev_line st) (Some offset) true
          else if zlen (rev_line st) =? MAX_HISTORY_LINE_BYTES then Rev [] (Some offset) true
          else Rev (b :: rev_line st) (Some offset) false in
        rev_bytes bs (offset - 1) st acc
  end.

(** The outer loop, one chunk per turn. *)
Fixpoint rev_chunks (fuel : nat) (p : path) (chunk_end minimum : Z) (st : rev_state) (acc : S)
    : M (option HistoryRecord.t * S) :=
  if minimum <? chunk_end then
    match fuel with
    | O => diverge
    | Datatypes.S fuel =>
        let chunk_start := Z.max (sat_sub chunk_end REVERSE_CHUNK_BYTES) minimum in
        let* chunk := read_exact_at p chunk_start (chunk_end - chunk_start) in
        let '(hit, st, acc) := rev_bytes (rev chunk) (chunk_end - 1) st acc in
        match hit with
        | Some record => ret (Some record, acc)
        | None => rev_chunks fuel p chunk_start minimum st acc
        end
    end
  else ret (try_accept st minimum acc).

(** Return the newest accepted record at or beyond [minimum]. *)
Definition scan_reverse (p : path) (end_ minimum : Z) (acc : S)
    : M (option HistoryRecord.t * S) :=
  rev_chunks (Z.to_nat (end_ - minimum)) p end_ minimum rev_init acc.
End reverse.

(** Find the start of the newest [limit] valid records. *)
Definition recent_start (p : path) (end_ limit : Z) : M Z :=
  let* (_, acc) := scan_reverse
    (fun (acc : Z * Z) start _ => let n := acc.2 + 1 in (n =? limit, (start, n)))
    p end_ 0 (end_, 0) in
  ret acc.1.

(** Find the newest success, excluding attempts from older incarnations. *)
Definition latest_completion (p : path) (wanted : string) (cursor : option AwaitCursor.t)
    : M (option HistoryRecord.t) :=
  let* snapshot := open_history_snapshot p true in
  match snapshot with
  | None => ret None
  | Some end_ =>
      let minimum := match cursor with Some c => AwaitCursor.offset c | None => 0 end in
      let* (hit, _) := scan_reverse
        (fun (_ : unit) _ record =>
           (bool_decide (HistoryRecord.id record = wanted)
            && HistoryRecord.success record
            && match cursor with
               | Some c => bool_decide (HistoryRecord.incarnation record = AwaitCursor.incarnation c)
               | None => true
               end, tt))
        p end_ minimum tt in
      ret hit
  end.

(** * Pages *)

Definition page_offsets (p : path) (file_len : Z) (position : option HistoryPosition.t)
    (recent_limit : option Z) : M (Z * Z) :=
  match position with
  | Some position => ret (HistoryPosition.offset position, HistoryPosition.end_offset position)
  | None =>
      let* offset :=
        (match recent_limit with
         | Some limit => if limit =? 0 then ret file_len else recent_start p file_len limit
         | None => ret 0
         end) in
      ret (offset, file_len)
  end.

Definition read_snapshot_page (p : path) (file_len : Z) (position : option HistoryPosition.t)
    (offset end_ page_size : Z) : M HistoryPage.t :=
  (match position with
   | Some position => validate_position p position file_len
   | None => ret tt
   end) ;;
  if end_ <=? offset then ret HistoryPage.empty
  else
    let* r := seek p offset in
    let* (records, current) := read_records (line_fuel offset end_) p r offset end_ page_size [] in
    ret (HistoryPage.mk records
           (if current <? end_ then Some (HistoryPosition.mk current end_) else None)).

(** Read a bounded page, optionally starting at the newest [recent_limit] records. *)
Definition read_page (p : path) (position : option HistoryPosition.t) (recent_limit : option Z)
    (page_size : Z) : M HistoryPage.t :=
  if page_size =? 0 then throw (Io (IoError InvalidInput "page size is zero"))
  else
    let* snapshot := open_history_snapshot p (bool_decide (position = None)) in
    match snapshot with
    | None => ret HistoryPage.empty
    | Some file_len =>
        let* (offset, end_) := page_offsets p file_len position recent_limit in
        read_snapshot_page p file_len position offset end_ page_size
    end.

(** * Idempotent appends *)

Fixpoint contains_loop (fuel : nat) (p : path) (r : reader) (current end_ : Z)
    (attempt_id : string) : M bool :=
  if current <? end_ then
    match fuel with
    | O => diverge
    | S fuel =>
        let* x := read_snapshot_line (line_fuel current end_) p r current end_ [] false in
        let '(r, current, line, oversized) := x in
        if oversized then contains_loop fuel p r current end_ attempt_id
        else match record_from_slice line with
             | Ok record =>
                 if decide (HistoryRecord.attempt_id record = attempt_id) then ret true
                 else contains_loop fuel p r current end_ attempt_id
             | Err _ => contains_loop fuel p r current end_ attempt_id
             end
    end
  else ret false.

Definition contains_attempt (p : path) (attempt_id : string) (search_from : Z) : M bool :=
  let* snapshot := open_history_snapshot p true in
  match snapshot with
  | None => ret false
  | Some file_len =>
      let offset := Z.min search_from file_len in
      let* r := seek p offset in
      contains_loop (line_fuel offset file_len) p r offset file_len attempt_id
  end.

(** Append a completion record unless its stable attempt identifier is present. *)
Definition append_once (p : path) (record : HistoryRecord.t) (search_from : Z) : M unit :=
  let* present := contains_attempt p (HistoryRecord.attempt_id record) search_from in
  if present then ret tt else append p record.
End log.
