(* ===== verification/Excerpt.v ===== *)
(** The error text of a history record ([store/history.rs], [bounded_error]): cut
    at a character boundary, so that the record is text again and stays small. *)

From S2P Require Import Prelude Text Protocol Disk Entry Order Bounds Schedule History.

(** * Characters of a UTF-8 text *)

(** One encoded character: a byte that is not a continuation, and continuations. *)
Lemma utf8_split b cs :
  utf8_decode b = Some cs ->
  b = [] \/ exists h t rest c, b = (h :: t) ++ rest /\ cont h = false
    /\ Forall (fun x => cont x = true) t /\ (length t <= 3)%nat
    /\ (forall tail, utf8_decode ((h :: t) ++ tail) = cons c <$> utf8_decode tail).
Proof.
  intros Hb. destruct b as [|h r]; [by left|right]. cbn [utf8_decode] in Hb.
  assert (Hcont : forall lo hi x, 128 <= lo -> hi <= 191 -> between lo hi x = true -> cont x = true).
  { intros lo hi x ? ?. unfold between, cont. rewrite !andb_true_iff, !Z.leb_le. lia. }
  destruct (code h <? 128) eqn:H1.
  { exists h, [], r, (code h). split_and!; [done| |constructor|simpl; lia|].
    - unfold cont. apply andb_false_iff. left. apply Z.ltb_lt in H1. apply Z.leb_gt. lia.
    - intros tail. cbn [app utf8_decode]. by rewrite H1. }
  assert (Hh : forall n, 192 <= n -> n <= code h -> cont h = false).
  { intros n ? ?. unfold cont. apply andb_false_iff. right. apply Z.leb_gt. lia. }
  destruct ((194 <=? code h) && (code h <=? 223)) eqn:H2.
  { destruct r as [|b1 r]; [done|]. destruct (cont b1) eqn:Hc1; [|done].
    exists h, [b1], r, ((code h - 192) * 64 + (code b1 - 128)). split_and!; [done|..].
    - apply andb_true_iff in H2 as [H2 _]. apply Z.leb_le in H2. apply (Hh 194); lia.
    - by repeat constructor.
    - simpl. lia.
    - intros tail. cbn [app utf8_decode]. by rewrite H1, H2, Hc1. }
  destruct ((224 <=? code h) && (code h <=? 239)) eqn:H3.
  { destruct r as [|b1 [|b2 r]]; [done..|]. destruct (_ && cont b2) eqn:Hc; [|done].
    exists h, [b1; b2], r, ((code h - 224) * 4096 + (code b1 - 128) * 64 + (code b2 - 128)).
    split_and!; [done|..].
    - apply andb_true_iff in H3 as [H3 _]. apply Z.leb_le in H3. apply (Hh 224); lia.
    - apply andb_true_iff in Hc as [Hb1 Hb2]. repeat constructor; [|done].
      revert Hb1. apply Hcont; [destruct (code h =? 224); lia|destruct (code h =? 237); lia].
    - simpl. lia.
    - intros tail. cbn [app utf8_decode]. by rewrite H1, H2, H3, Hc. }
  destruct ((240 <=? code h) && (code h <=? 244)) eqn:H4; [|done].
  destruct r as [|b1 [|b2 [|b3 r]]]; [done..|]. destruct (_ && cont b3) eqn:Hc; [|done].
  exists h, [b1; b2; b3], r,
    ((code h - 240) * 262144 + (code b1 - 128) * 4096 + (code b2 - 128) * 64 + (code b3 - 128)).
  split_and!; [done|..].
  - apply andb_true_iff in H4 as [H4 _]. apply Z.leb_le in H4. apply (Hh 240); lia.
  - apply andb_true_iff in Hc as [[Hb1 Hb2]%andb_true_iff Hb3]. repeat constructor; [|done..].
    revert Hb1. apply Hcont; [destruct (code h =? 240); lia|destruct (code h =? 244); lia].
  - simpl. lia.
  - intros tail. cbn [app utf8_decode]. by rewrite H1, H2, H3, H4, Hc.
Qed.

Lemma utf8_decode_app a b cs cs' :
  utf8_decode a = Some cs -> utf8_decode b = Some cs' -> utf8_decode (a ++ b) = Some (cs ++ cs').
Proof.
  revert cs. induction a as [a IH] using (induction_ltof1 _ (@length ascii)).
  intros cs Ha Hb. destruct (utf8_split a cs Ha) as [->|(h & t & rest & c & -> & _ & _ & _ & Hdec)].
  { by injection Ha as <-. }
  rewrite Hdec in Ha. apply fmap_Some in Ha as (cs1 & Hrest & ->).
  rewrite <- app_assoc, Hdec. erewrite IH; [done| |exact Hrest|done].
  unfold ltof. rewrite length_app. simpl. lia.
Qed.

(** Cutting at a boundary leaves a text. *)
Lemma utf8_take b i cs :
  utf8_decode b = Some cs -> (i = 0%nat \/ is_char_boundary b i = true) ->
  exists cs', utf8_decode (take i b) = Some cs'.
Proof.
  revert i cs. induction b as [b IH] using (induction_ltof1 _ (@length ascii)).
  intros i cs Hb Hi. destruct (utf8_split b cs Hb) as [->|(h & t & rest & c & -> & _ & Ht & _ & Hdec)].
  { exists []. by rewrite take_nil. }
  destruct (decide (i = 0%nat)) as [->|Hi0]; [by exists []|].
  destruct Hi as [?|Hi]; [done|]. destruct (decide (i < length (h :: t))%nat) as [Hlt|Hge].
  { exfalso. unfold is_char_boundary in Hi. rewrite lookup_app_l in Hi by done.
    destruct i as [|i]; [done|]. cbn [lookup list_lookup] in Hi. simpl in Hlt.
    destruct (t !! i) as [x|] eqn:Hx; [|by apply lookup_ge_None in Hx; lia].
    rewrite Forall_lookup in Ht. rewrite (Ht i x Hx) in Hi. done. }
  rewrite take_app_ge by lia. set (j := (i - length (h :: t))%nat).
  rewrite Hdec in Hb. apply fmap_Some in Hb as (cs1 & Hrest & ->).
  destruct (IH rest) with (i := j) (cs := cs1) as [cs' Hcs']; [unfold ltof; rewrite length_app; simpl; lia|done| |].
  - destruct (decide (j = 0%nat)) as [?|Hj]; [by left|right]. unfold is_char_boundary in *.
    rewrite lookup_app_r in Hi by lia. fold j in Hi. destruct (rest !! j); [done|].
    apply bool_decide_eq_true in Hi. apply bool_decide_eq_true. rewrite length_app in Hi. unfold j. lia.
  - exists (c :: cs'). rewrite Hdec, Hcs'. done.
Qed.

Lemma floor_boundary_spec b i :
  (floor_boundary b i <= i)%nat
  /\ (floor_boundary b i = 0%nat \/ is_char_boundary b (floor_boundary b i) = true).
Proof.
  induction i as [|i [IHle IHb]]; [split; [done|by left]|]. cbn [floor_boundary].
  destruct (is_char_boundary b (S i)) eqn:Hb; [split; [done|by right]|]. split; [lia|done].
Qed.

Lemma boundary_app a b j :
  is_char_boundary (a ++ b) (length a + j) = is_char_boundary b j.
Proof.
  unfold is_char_boundary. rewrite lookup_app_r by lia.
  replace (length a + j - length a)%nat with j by lia. destruct (b !! j); [done|].
  apply bool_decide_ext. rewrite length_app. lia.
Qed.

Lemma boundary_start b cs : utf8_decode b = Some cs -> is_char_boundary b 0 = true.
Proof.
  intros Hb. destruct (utf8_split b cs Hb) as [->|(h & t & rest & c & -> & Hh & _)]; [done|].
  unfold is_char_boundary. simpl. by rewrite Hh.
Qed.

Lemma floor_boundary_app a b j :
  a <> [] -> is_char_boundary b 0 = true ->
  floor_boundary (a ++ b) (length a + j) = (length a + floor_boundary b j)%nat.
Proof.
  intros Ha Hb. induction j as [|j IH].
  - destruct a as [|x a]; [done|]. cbn [length]. rewrite Nat.add_0_r. cbn [floor_boundary].
    pose proof (boundary_app (x :: a) b 0) as Hx. rewrite Nat.add_0_r in Hx. cbn [length] in Hx.
    rewrite Hx, Hb. simpl. lia.
  - replace (length a + S j)%nat with (S (length a + j)) by lia. cbn [floor_boundary].
    replace (S (length a + j)) with (length a + S j)%nat by lia. rewrite boundary_app.
    destruct (is_char_boundary b (S j)); [lia|done].
Qed.

(** A character has at most four bytes: few are dropped before a boundary. *)
Lemma floor_boundary_near b i cs :
  utf8_decode b = Some cs -> (i <= length b)%nat -> (i <= floor_boundary b i + 3)%nat.
Proof.
  revert i cs. induction b as [b IH] using (induction_ltof1 _ (@length ascii)).
  intros i cs Hb Hi. destruct (utf8_split b cs Hb) as [->|(h & t & rest & c & -> & _ & _ & Ht & Hdec)].
  { simpl in Hi. lia. }
  destruct (decide (i < length (h :: t))%nat) as [Hlt|Hge]; [simpl in Hlt; lia|].
  rewrite Hdec in Hb. apply fmap_Some in Hb as (cs1 & Hrest & ->).
  replace i with (length (h :: t) + (i - length (h :: t)))%nat by lia.
  rewrite length_app in Hi. rewrite floor_boundary_app by (done || by eapply boundary_start).
  pose proof (IH rest) as IHr. unfold ltof in IHr. rewrite length_app in IHr.
  specialize (IHr ltac:(simpl; lia) (i - length (h :: t))%nat cs1 Hrest ltac:(lia)). lia.
Qed.

(** * The bounded error *)

Lemma bounded_error_cut error :
  MAX_HISTORY_ERROR_BYTES < zstrlen error ->
  exists n, bytes_of (bounded_error error) = take n (bytes_of error) ++ bytes_of "..."
    /\ (n <= Z.to_nat (MAX_HISTORY_ERROR_BYTES - 3))%nat
    /\ (n = 0%nat \/ is_char_boundary (bytes_of error) n = true)
    /\ (utf8 error -> (Z.to_nat (MAX_HISTORY_ERROR_BYTES - 3) <= n + 3)%nat).
Proof.
  intros Hlen. unfold bounded_error. destruct (Z.leb_spec (zstrlen error) MAX_HISTORY_ERROR_BYTES); [lia|].
  set (m := Z.to_nat (MAX_HISTORY_ERROR_BYTES - 3)). exists (floor_boundary (bytes_of error) m).
  destruct (floor_boundary_spec (bytes_of error) m) as [Hle Hb].
  split_and!; [by rewrite bytes_of_string_of|done|done|]. intros [cs Hcs].
  eapply floor_boundary_near; [exact Hcs|]. unfold m, zstrlen in *. rewrite bytes_of_length. lia.
Qed.

Lemma bounded_error_text error : utf8 error -> utf8 (bounded_error error).
Proof.
  intros Hu. destruct (Z.leb_spec (zstrlen error) MAX_HISTORY_ERROR_BYTES) as [Hle|Hgt].
  { unfold bounded_error. by destruct (Z.leb_spec (zstrlen error) MAX_HISTORY_ERROR_BYTES); [|lia]. }
  destruct (bounded_error_cut error Hgt) as (n & Hn & _ & Hb & _). destruct Hu as [cs Hcs].
  destruct (utf8_take _ n cs Hcs Hb) as [cs' Hcs'].
  eexists. rewrite Hn. by apply utf8_decode_app.
Qed.

(** * Result *)

(** C26: the error text stored in the history is valid UTF-8 of at most the limit:
    a text within the limit is stored as it is; a longer one is cut at a character
    boundary, at most three bytes before the room that is left for the ellipsis. *)
Theorem stored_errors_are_bounded error :
  utf8 error ->
  utf8 (bounded_error error) /\ zstrlen (bounded_error error) <= MAX_HISTORY_ERROR_BYTES
  /\ (zstrlen error <= MAX_HISTORY_ERROR_BYTES -> bounded_error error = error)
  /\ (MAX_HISTORY_ERROR_BYTES < zstrlen error ->
      exists n, bytes_of (bounded_error error) = take n (bytes_of error) ++ bytes_of "..."
        /\ MAX_HISTORY_ERROR_BYTES - 6 <= Z.of_nat n <= MAX_HISTORY_ERROR_BYTES - 3).
Proof.
  intros Hu. split; [by apply bounded_error_text|].
  assert (Hcut : MAX_HISTORY_ERROR_BYTES < zstrlen error ->
      exists n, bytes_of (bounded_error error) = take n (bytes_of error) ++ bytes_of "..."
        /\ MAX_HISTORY_ERROR_BYTES - 6 <= Z.of_nat n <= MAX_HISTORY_ERROR_BYTES - 3).
  { intros Hlen. destruct (bounded_error_cut error Hlen) as (n & Hn & Hle & _ & Hge).
    exists n. split; [done|]. specialize (Hge Hu). unfold MAX_HISTORY_ERROR_BYTES in *. lia. }
  assert (Hsame : zstrlen error <= MAX_HISTORY_ERROR_BYTES -> bounded_error error = error).
  { intros Hle. unfold bounded_error.
    by destruct (Z.leb_spec (zstrlen error) MAX_HISTORY_ERROR_BYTES); [|lia]. }
  split_and!; [|done|done]. destruct (Z.leb_spec (zstrlen error) MAX_HISTORY_ERROR_BYTES) as [Hle|Hgt].
  { by rewrite Hsame. }
  destruct (Hcut Hgt) as (n & Hn & _ & Hle). unfold zstrlen. rewrite <- bytes_of_length, Hn, length_app, length_take.
  change (length (bytes_of "...")) with 3%nat. lia.
Qed.
