(* ===== verification/Store.v ===== *)
(** Queue operations of the store: [store.rs], [store/scheduling.rs],
    [store/completion.rs], [store/await_deletions.rs] and
    [store/await_lookup.rs].  Every operation is the code's sequence of calls. *)

From S2P Require Import Prelude Text Protocol Disk Entry Order Bounds Schedule History.

Import StoredEntry.

Section store.
Context `{Platform} `{SerdeJson}.

(** * Markers *)

(** Unix time of the most recent successful post, when any. *)
Definition last_post : M (option Z) :=
  let* r := attempt (read_to_string LAST_POST_FILE) in
  match r with
  | Ok (_, text) =>
      match parse_u64 (trim text) with
      | Ok n => ret (Some n)
      | Err e => throw (LastPost e)
      end
  | Err (Io e) => if decide (kind e = NotFound) then ret None else throw (Io e)
  | Err e => throw e
  end.

(** Unix time of the most recent failed post attempt, when any. *)
Definition last_attempt : M (option Z) :=
  let* r := attempt (read_to_string LAST_ATTEMPT_FILE) in
  match r with
  | Ok (_, text) =>
      match parse_u64 (trim text) with
      | Ok n => ret (Some n)
      | Err e => throw (LastAttempt e)
      end
  | Err (Io e) => if decide (kind e = NotFound) then ret None else throw (Io e)
  | Err e => throw e
  end.

(** [last_post.into_iter().chain(last_attempt).max()]. *)
Definition max_option (a b : option Z) : option Z :=
  match a, b with
  | Some a, Some b => Some (Z.max a b)
  | Some a, None => Some a
  | None, b => b
  end.

(** Latest completed post or failed attempt, used as the cooldown anchor. *)
Definition previous_activity : M (option Z) :=
  let* post := last_post in
  let* failed := last_attempt in
  ret (max_option post failed).

(** * Enqueue *)

(** The loop of [resolve_entry_id]: a request's stable identifier, salted only
    while another request holds it.  [salt] is [None] first, then 1, 2, ... *)
Fixpoint resolve_entry_id (fuel : nat) (request : CommentRequest.t) (now : Z) (salt : option Z)
    : M (string * option t) :=
  let wanted := entry_id_with_salt request now salt in
  let* r := attempt (find wanted) in
  match r with
  | Ok existing =>
      if decide (StoredEntry.request existing = request) then ret (wanted, Some existing)
      else
        match fuel with
        | O => diverge
        | S fuel =>
            resolve_entry_id fuel request now
              (Some (match salt with Some value => sat_add value 1 | None => 1 end))
        end
  | Err (UnknownId _) => ret (wanted, None)
  | Err e => throw e
  end.

(** The entry [put] persists for a request that is not queued yet. *)
Definition new_entry (wanted incarnation : string) (es : list t) (request : CommentRequest.t)
    (options : PutOptions.t) (now : Z) : t :=
  {| id := wanted;
     incarnation := incarnation;
     order := match last es with Some tail => i64_sat_add (order tail) 1 | None => 0 end;
     flutter_seconds := PutOptions.flutter_seconds options;
     enqueued_at := now;
     not_before :=
       if PutOptions.immediate options then 0
       else sat_add (sat_add now (PutOptions.cooldown options))
                    (PutOptions.flutter_seconds options);
     claim_token := None;
     StoredEntry.request := request |}.

(** Enqueue [request] and return the persisted entry with its stable ETA.
    [fuel] bounds the identifier collisions that are resolved. *)
Definition put_with_eta (fuel : nat) (request : CommentRequest.t) (options : PutOptions.t)
    (now : Z) : M (t * Z) :=
  let* (wanted, existing) := resolve_entry_id fuel request now None in
  let* (es, usage) := entries_with_usage in
  let* previous := previous_activity in
  let cooldown := PutOptions.cooldown options in
  match existing with
  | Some entry =>
      ret (entry, eta_of (projected_schedule cooldown now es previous) (id entry))
  | None =>
      if MAX_QUEUE_ENTRIES <=? zlen es then throw (QueueFull MAX_QUEUE_ENTRIES)
      else
        let* incarnation := fresh_uuid in
        let entry := new_entry wanted incarnation es request options now in
        let eta := eta_of (projected_schedule cooldown now (es ++ [entry]) previous) (id entry) in
        write_entry_with_usage entry usage ;;
        ret (entry, eta)
  end.

Definition put (fuel : nat) (request : CommentRequest.t) (options : PutOptions.t) (now : Z)
    : M t :=
  let* (entry, _) := put_with_eta fuel request options now in ret entry.

(** * Reordering *)

(** Apply an order-key change and atomically replace the affected file. *)
Definition reorder (wanted : string) (new_order : t -> list t -> Z) : M unit :=
  let* all := entries in
  let* entry := find wanted in
  write_entry (with_order (new_order entry all) entry).

Definition bump_order (entry : t) (all : list t) : Z :=
  match head all with
  | None => order entry
  | Some h => if decide (id h = id entry) then order entry else i64_sat_sub (order h) 1
  end.
Definition bust_order (entry : t) (all : list t) : Z :=
  match last all with
  | None => order entry
  | Some tl => if decide (id tl = id entry) then order entry else i64_sat_add (order tl) 1
  end.

(** Move the identified entry to the head, or to the tail, of the queue. *)
Definition bump (wanted : string) : M unit := reorder wanted bump_order.
Definition bust (wanted : string) : M unit := reorder wanted bust_order.

(** * Deletion markers *)

(** Check whether the latest queue lifetime was deleted without posting. *)
Definition await_lifetime_was_deleted (wanted : string) : M bool :=
  let* p := lift (await_deletion_path wanted) in
  let* r := attempt (read p) in
  match r with
  | Ok _ => ret true
  | Err (Io e) => if decide (kind e = NotFound) then ret false else throw (Io e)
  | Err e => throw e
  end.

(** Record a deletion before removing its entry so stale successes stay hidden. *)
Definition write_await_deletion (entry : t) : M unit :=
  let* marker := serde_some (deletion_to_vec (AwaitDeletionRecord.mk (incarnation entry))) in
  let* p := lift (await_deletion_path (id entry)) in
  write_atomic p marker.

(** Remove a deletion marker when the posting belongs to it or its successor. *)
Definition clear_await_deletion (wanted lifetime : string) : M unit :=
  let* p := lift (await_deletion_path wanted) in
  let* r := attempt (read p) in
  match r with
  | Ok b =>
      let* marker := serde_ok (deletion_from_slice b) in
      let* f := attempt (find wanted) in
      let* current_matches :=
        (match f with
         | Ok entry => ret (bool_decide (incarnation entry = lifetime))
         | Err (UnknownId _) => ret false
         | Err e => throw e
         end) in
      if negb (bool_decide (AwaitDeletionRecord.incarnation marker = lifetime))
         && negb current_matches
      then ret tt
      else remove_file p ;; open_dir ;; sync
  | Err (Io e) => if decide (kind e = NotFound) then ret tt else throw (Io e)
  | Err e => throw e
  end.

(** The loop of [reconcile_await_deletions]; whether a marker was removed. *)
Fixpoint clear_markers (es : list t) (removed : bool) : M bool :=
  match es with
  | [] => ret removed
  | entry :: es =>
      let* p := lift (await_deletion_path (id entry)) in
      let* r := attempt (read p) in
      match r with
      | Ok _ => remove_file p ;; clear_markers es true
      | Err (Io e) => if decide (kind e = NotFound) then clear_markers es removed else throw (Io e)
      | Err e => throw e
      end
  end.

(** Clear a deletion marker left before a crash that did not remove its entry. *)
Definition reconcile_await_deletions : M unit :=
  let* es := entries in
  let* removed := clear_markers es false in
  if removed then open_dir ;; sync else ret tt.

(** Remove the identified entry from the queue. *)
Definition del (wanted : string) : M unit :=
  let* entry := find wanted in
  write_await_deletion entry ;;
  let* p := lift (entry_path wanted) in
  remove_file p.

(** * Scheduling and claims *)

(** Pending entries paired with their estimated seconds-until-post. *)
Definition schedule (cooldown now : Z) : M (list (t * Z)) :=
  let* es := entries in
  let* previous := previous_activity in
  ret (projected_schedule cooldown now es previous).

(** The head entry and its wait, when any; nothing while a claim is outstanding. *)
Definition next_due (cooldown now : Z) : M (option (t * Z)) :=
  let* s := schedule cooldown now in
  if existsb (fun p => bool_decide (claim_token p.1 <> None)) s then ret None
  else ret (head s).

(** Claim a due entry while holding the store lock for the whole transition. *)
Definition claim_next_due (cooldown now : Z) : M (option (t * Z)) :=
  let* next := next_due cooldown now in
  match next with
  | None => ret None
  | Some (entry, wait_seconds) =>
      if 0 <? wait_seconds then ret (Some (entry, wait_seconds))
      else
        let* token := fresh_uuid in
        let entry := with_claim (Some token) entry in
        write_entry entry ;;
        ret (Some (entry, 0))
  end.

(** Release a failed post's claim so the worker can retry it later. *)
Definition release_claim (wanted token : string) (attempted_at : Z) : M unit :=
  let* f := attempt (find wanted) in
  match f with
  | Err (UnknownId _) => ret tt
  | Err e => throw e
  | Ok entry =>
      if decide (claim_token entry = Some token) then
        let* previous := last_attempt in
        let latest_attempt := Z.max (default 0 previous) attempted_at in
        write_atomic LAST_ATTEMPT_FILE (u64_to_bytes latest_attempt) ;;
        write_entry (with_claim None entry)
      else ret tt
  end.

(** The loop of [reclaim_claims]. *)
Fixpoint reclaim_loop (es : list t) : M unit :=
  match es with
  | [] => ret tt
  | entry :: es =>
      let was_claimed := bool_decide (claim_token entry <> None) in
      let entry := with_claim None entry in
      let needs_incarnation := bool_decide (incarnation entry = "") in
      let* entry :=
        (if needs_incarnation
         then let* lifetime := fresh_uuid in ret (with_incarnation lifetime entry)
         else ret entry) in
      (if was_claimed || needs_incarnation then write_entry entry else ret tt) ;;
      reclaim_loop es
  end.

(** Clear interrupted claims and assign stable lifetimes to legacy entries. *)
Definition reclaim_claims : M unit :=
  let* es := entries in reclaim_loop es.

(** * Completion *)

(** Whether the recorded completion owns the entry now stored under its id. *)
Definition owns_entry (record : CompletionRecord.t) (entry : t) : bool :=
  match CompletionRecord.claim_token record with
  | None => true
  | Some token => bool_decide (claim_token entry = Some token)
  end.

(** The part of [reconcile_completion] that removes the completed entry. *)
Definition remove_owned (record : CompletionRecord.t) (p : path) : M unit :=
  let* f := attempt (find (CompletionRecord.id record)) in
  let* remove_entry :=
    (match f with
     | Ok entry => ret (owns_entry record entry)
     | Err (UnknownId _) => ret false
     | Err e => throw e
     end) in
  if remove_entry then
    let* x := attempt (remove_file p) in
    match x with
    | Ok _ => ret tt
    | Err (Io e) => if decide (kind e = NotFound) then ret tt else throw (Io e)
    | Err e => throw e
    end
  else ret tt.

(** Finish a persisted completion record, if a previous cleanup stopped early. *)
Definition reconcile_completion : M unit :=
  let* r := attempt (read_to_string COMPLETION_FILE) in
  match r with
  | Err (Io e) => if decide (kind e = NotFound) then ret tt else throw (Io e)
  | Err e => throw e
  | Ok (text, _) =>
      let* record := serde_ok (completion_from_str text) in
      let* p := lift (entry_path (CompletionRecord.id record)) in
      (match CompletionRecord.history record with
       | Some history =>
           append_once HISTORY_FILE history (default 0 (CompletionRecord.history_offset record)) ;;
           clear_await_deletion (CompletionRecord.id record) (HistoryRecord.incarnation history)
       | None => ret tt
       end) ;;
      remove_owned record p ;;
      write_atomic LAST_POST_FILE (u64_to_bytes (CompletionRecord.posted_at record)) ;;
      remove_file COMPLETION_FILE ;;
      open_dir ;;
      sync
  end.

(** [fs::metadata(&self.history_path)], zero when the log does not exist. *)
Definition history_end : M Z :=
  let* r := attempt (metadata HISTORY_FILE) in
  match r with
  | Ok (_, len) => ret len
  | Err (Io e) => if decide (kind e = NotFound) then ret 0 else throw (Io e)
  | Err e => throw e
  end.

(** Complete a claimed post and persist its token identity for rotation. *)
Definition complete_claim_with_token (entry : t) (token_hash : string) (now : Z)
    (comment_url : option string) : M unit :=
  (if decide (claim_token entry = None)
   then let* _ := find (id entry) in ret tt
   else ret tt) ;;
  let* history_offset := history_end in
  let* history := record_success entry token_hash now comment_url in
  let* record := serde_some (completion_to_vec
    {| CompletionRecord.id := id entry;
       CompletionRecord.posted_at := now;
       CompletionRecord.claim_token := claim_token entry;
       CompletionRecord.history := Some history;
       CompletionRecord.history_offset := Some history_offset |}) in
  write_atomic COMPLETION_FILE record ;;
  reconcile_completion.

(** Complete a claimed post without deleting a replacement entry. *)
Definition complete_claim (entry : t) (now : Z) : M unit :=
  complete_claim_with_token entry "" now None.

(** Persist post completion before removing its entry and updating the marker. *)
Definition complete (wanted : string) (now : Z) : M unit :=
  let* entry := find wanted in complete_claim entry now.

(** Reconcile an interrupted completion before reclaiming claims. *)
Definition recover_worker_state : M unit :=
  reconcile_completion ;; reclaim_claims.

(** The recovery part of [QueueStore::open], once the directories exist. *)
Definition open_store : M unit :=
  query (fun _ => Ok tt) ;;   (* fs::create_dir_all(&entries_dir)? *)
  query (fun _ => Ok tt) ;;   (* fs::create_dir_all(&await_deletions_dir)? *)
  reconcile_completion ;;
  validate_existing_limits ;;
  reclaim_claims ;;
  reconcile_await_deletions.

(** * Awaiting an entry *)

Inductive AwaitState :=
| Pending (eta_seconds : Z) (cursor : AwaitCursor.t)
| Posted (comment_url : option string) (posted_at : Z)
| Unknown.

(** Project a selected entry using the same scheduling rules as [list]. *)
Definition pending_await_state (entry : t) (cursor : option AwaitCursor.t) (eta_seconds : Z)
    : M AwaitState :=
  let* cursor :=
    (match cursor with
     | Some cursor => ret cursor
     | None => let* offset := history_end in ret (AwaitCursor.mk offset (incarnation entry))
     end) in
  ret (Pending eta_seconds cursor).

(** Resolve durable completion without requiring the queue-state mutex. *)
Definition resolve_await_completion (wanted : string) (cursor : option AwaitCursor.t)
    : M AwaitState :=
  let* hidden :=
    (if decide (cursor = None) then await_lifetime_was_deleted wanted else ret false) in
  if hidden then ret Unknown
  else
    let* record := latest_completion HISTORY_FILE wanted cursor in
    match record with
    | None => ret Unknown
    | Some r => ret (Posted (HistoryRecord.comment_url r) (HistoryRecord.posted_at r))
    end.
End store.
