(* ===== verification/Readers.v ===== *)
(** The read-only operations of the store change nothing: lookups, schedules,
    history pages and await lookups. *)

From S2P Require Import Prelude Text Protocol Disk Entry Order Bounds Schedule History Store.

Section readers.
Context `{Platform} `{SerdeJson}.

Lemma still_metadata p : still (metadata p).
Proof. apply still_query. Qed.
Lemma still_open_file p : still (open_file p).
Proof. apply still_query. Qed.
Lemma still_read p : still (read p).
Proof. unfold read, open_file, read_all. still. Qed.
#[local] Hint Resolve still_metadata still_open_file still_read : still.

Lemma still_read_to_string p : still (read_to_string p).
Proof. unfold read_to_string. still. Qed.
#[local] Hint Resolve still_read_to_string : still.

Lemma still_read_entry p : still (read_entry p).
Proof. unfold read_entry, read_all, serde_ok. still. Qed.
#[local] Hint Resolve still_read_entry : still.

Lemma still_find wanted : still (find wanted).
Proof. unfold find. still. Qed.

Lemma still_scan_loop names : forall paths total, still (scan_loop names paths total).
Proof. induction names as [|name names IH]; intros; cbn [scan_loop]; still. Qed.
Lemma still_read_loop files : forall es headroom, still (read_loop files es headroom).
Proof. induction files as [|f files IH]; intros; cbn [read_loop]; still. Qed.
#[local] Hint Resolve still_find still_scan_loop still_read_loop : still.

Lemma still_entries_with_usage : still entries_with_usage.
Proof. unfold entries_with_usage, scan_entry_files, read_dir. still. Qed.
#[local] Hint Resolve still_entries_with_usage : still.
Lemma still_entries : still entries.
Proof. unfold entries. still. Qed.
Lemma still_metrics : still queue_metrics_snapshot.
Proof. unfold queue_metrics_snapshot. still. Qed.

Lemma still_last_post : still last_post.
Proof. unfold last_post. still. Qed.
Lemma still_last_attempt : still last_attempt.
Proof. unfold last_attempt. still. Qed.
#[local] Hint Resolve still_entries still_last_post still_last_attempt : still.

Lemma still_schedule cooldown now : still (schedule cooldown now).
Proof. unfold schedule, previous_activity. still. Qed.
#[local] Hint Resolve still_schedule : still.
Lemma still_next_due cooldown now : still (next_due cooldown now).
Proof. unfold next_due. still. Qed.

(** ** The history log *)

Lemma still_read_exact_at p from len : still (read_exact_at p from len).
Proof. unfold read_exact_at. still. Qed.
Lemma still_fill_buf p r : still (fill_buf p r).
Proof. unfold fill_buf. still. Qed.
Lemma still_seek p offset : still (seek p offset).
Proof. unfold seek. still. Qed.
#[local] Hint Resolve still_read_exact_at still_fill_buf still_seek : still.

Lemma still_read_snapshot_line fuel : forall p r current end_ line oversized,
  still (read_snapshot_line fuel p r current end_ line oversized).
Proof. induction fuel as [|fuel IH]; intros; cbn [read_snapshot_line]; still. Qed.
#[local] Hint Resolve still_read_snapshot_line : still.

Lemma still_read_record p r current end_ : still (read_record p r current end_).
Proof. unfold read_record. still. Qed.
#[local] Hint Resolve still_read_record : still.

Lemma still_read_records fuel : forall p r current end_ page_size records,
  still (read_records fuel p r current end_ page_size records).
Proof. induction fuel as [|fuel IH]; intros; cbn [read_records]; still. Qed.

Lemma still_rev_chunks {S} (accept : S -> Z -> HistoryRecord.t -> bool * S) fuel :
  forall p chunk_end minimum st acc, still (rev_chunks accept fuel p chunk_end minimum st acc).
Proof. induction fuel as [|fuel IH]; intros; cbn [rev_chunks]; still. Qed.
#[local] Hint Resolve still_read_records still_rev_chunks : still.

Lemma still_open_history_snapshot p missing : still (open_history_snapshot p missing).
Proof. unfold open_history_snapshot. still. Qed.
#[local] Hint Resolve still_open_history_snapshot : still.

Lemma still_read_page p position limit page_size : still (read_page p position limit page_size).
Proof.
  unfold read_page, page_offsets, recent_start, scan_reverse, read_snapshot_page,
    validate_position. still.
Qed.

Lemma still_latest_completion p wanted cursor : still (latest_completion p wanted cursor).
Proof. unfold latest_completion, scan_reverse. still. Qed.
#[local] Hint Resolve still_latest_completion : still.

Lemma still_resolve_await_completion wanted cursor :
  still (resolve_await_completion wanted cursor).
Proof. unfold resolve_await_completion, await_lifetime_was_deleted. still. Qed.

Lemma still_pending_await_state entry cursor eta : still (pending_await_state entry cursor eta).
Proof. unfold pending_await_state, history_end. still. Qed.

(** The completion lookup terminates: every chunk brings the scan closer to its
    lower bound. *)
Lemma answers_rev_chunks {S} (accept : S -> Z -> HistoryRecord.t -> bool * S) fuel :
  forall p chunk_end minimum st acc, 0 <= minimum -> (Z.to_nat (chunk_end - minimum) <= fuel)%nat ->
  answers (rev_chunks accept fuel p chunk_end minimum st acc).
Proof.
  induction fuel as [|fuel IH]; intros p chunk_end minimum st acc Hmin Hf; cbn [rev_chunks];
    destruct (Z.ltb_spec minimum chunk_end); try lia; auto with answers.
  apply answers_bind; [unfold read_exact_at; answers|]. intros chunk.
  destruct (rev_bytes _ _ _ _ _) as [[[record|] st'] acc']; [auto with answers|].
  apply IH; [done|]. unfold sat_sub, REVERSE_CHUNK_BYTES. lia.
Qed.

Definition cursor_ok (cursor : option AwaitCursor.t) : Prop :=
  match cursor with Some c => 0 <= AwaitCursor.offset c | None => True end.

Lemma answers_resolve_await_completion wanted cursor :
  cursor_ok cursor -> answers (resolve_await_completion wanted cursor).
Proof.
  intros Hc.
  assert (Hread : forall p, answers (read p)) by (unfold read, open_file, read_all; answers).
  assert (Hlast : forall p, answers (latest_completion p wanted cursor)).
  { intros p. unfold latest_completion, open_history_snapshot, open_file, metadata, scan_reverse.
    apply answers_bind; [answers|]. intros [end_|]; [|auto with answers].
    apply answers_bind; [|answers].
    apply answers_rev_chunks; [by destruct cursor|done]. }
  unfold resolve_await_completion, await_lifetime_was_deleted. answers.
Qed.

Lemma answers_find wanted : answers (find wanted).
Proof.
  unfold find, read_entry, metadata, open_file, read_all, serde_ok. answers.
Qed.
Lemma answers_pending_await_state entry cursor eta :
  answers (pending_await_state entry cursor eta).
Proof. unfold pending_await_state, history_end, metadata. answers. Qed.
End readers.

#[export] Hint Resolve still_read_entry still_find still_metrics still_schedule still_next_due still_read_page
  still_resolve_await_completion still_pending_await_state : still.
