(* ===== verification/DiskState.v ===== *)
(** The invariant of the whole queue directory and runs that only read it:
    the entries directory within its limits, the two time markers well formed,
    no directory in the place of a file. *)

From S2P Require Import Prelude Text Protocol Disk Entry Order Bounds Scan Capacity Writes Schedule.
From S2P Require Import History Store.

Import StoredEntry.

(** * Markers *)

(** The time a marker file holds. *)
Definition marker (d : disk) (p : path) : option Z :=
  match dget d p with
  | Some (Regular c) =>
      match utf8_decode c with
      | Some cs => match parse_u64 (trim cs) with Ok n => Some n | Err _ => None end
      | None => None
      end
  | _ => None
  end.

(** A marker is absent or holds the decimal text of a [u64]. *)
Definition marker_wf (d : disk) (p : path) : Prop :=
  dget d p = None \/ exists n, is_u64 n /\ dget d p = Some (Regular (u64_to_bytes n)).

(** The cooldown anchor: the latest post or failed attempt. *)
Definition activity (d : disk) : option Z :=
  max_option (marker d LAST_POST_FILE) (marker d LAST_ATTEMPT_FILE).

Lemma marker_value d p n :
  is_u64 n -> dget d p = Some (Regular (u64_to_bytes n)) -> marker d p = Some n.
Proof.
  intros Hn Hp. unfold marker. rewrite Hp.
  destruct (marker_round_trip n Hn) as (cs & -> & ->). done.
Qed.

Lemma marker_none d p : dget d p = None -> marker d p = None.
Proof. intros Hp. unfold marker. by rewrite Hp. Qed.

Lemma marker_u64 d p n : marker_wf d p -> marker d p = Some n -> is_u64 n.
Proof.
  intros [Hp|(k & Hk & Hp)] Hm; [by rewrite (marker_none d p Hp) in Hm|].
  rewrite (marker_value d p k Hk Hp) in Hm. congruence.
Qed.

Lemma read_quiet p d u :
  read p (World d [] u)
  = match dget d p with
    | Some (Regular c) => (Done c, World d [] u)
    | Some Directory => (Failed (Io (os_error IsADirectory)), World d [] u)
    | None => (Failed (Io (os_error NotFound)), World d [] u)
    end.
Proof.
  unfold read, bind, open_file, read_all. rewrite !query_quiet.
  destruct (dget d p) as [[c|]|] eqn:Hp; rewrite ?query_quiet, ?Hp; done.
Qed.

Lemma read_to_string_marker p d u n :
  is_u64 n -> dget d p = Some (Regular (u64_to_bytes n)) ->
  exists b cs, read_to_string p (World d [] u) = (Done (b, cs), World d [] u)
               /\ parse_u64 (trim cs) = Ok n.
Proof.
  intros Hn Hp. destruct (marker_round_trip n Hn) as (cs & Hcs & Hparse).
  exists (u64_to_bytes n), cs. split; [|done]. unfold read_to_string.
  erewrite bind_done by (rewrite read_quiet, Hp; done). by rewrite Hcs.
Qed.

Lemma read_to_string_missing p d u :
  dget d p = None ->
  read_to_string p (World d [] u) = (Failed (Io (os_error NotFound)), World d [] u).
Proof.
  intros Hp. unfold read_to_string. apply bind_failed. by rewrite read_quiet, Hp.
Qed.

Lemma last_post_quiet d u :
  marker_wf d LAST_POST_FILE ->
  last_post (World d [] u) = (Done (marker d LAST_POST_FILE), World d [] u).
Proof.
  intros [Hp|(n & Hn & Hp)]; unfold last_post.
  - erewrite bind_done by (apply attempt_failed; by apply read_to_string_missing).
    by rewrite marker_none.
  - destruct (read_to_string_marker _ d u n Hn Hp) as (b & cs & Hr & Hparse).
    erewrite bind_done by (apply attempt_done, Hr).
    cbn beta iota. rewrite Hparse. by rewrite (marker_value _ _ n).
Qed.

Lemma last_attempt_quiet d u :
  marker_wf d LAST_ATTEMPT_FILE ->
  last_attempt (World d [] u) = (Done (marker d LAST_ATTEMPT_FILE), World d [] u).
Proof.
  intros [Hp|(n & Hn & Hp)]; unfold last_attempt.
  - erewrite bind_done by (apply attempt_failed; by apply read_to_string_missing).
    by rewrite marker_none.
  - destruct (read_to_string_marker _ d u n Hn Hp) as (b & cs & Hr & Hparse).
    erewrite bind_done by (apply attempt_done, Hr).
    cbn beta iota. rewrite Hparse. by rewrite (marker_value _ _ n).
Qed.

(** * The disk invariant *)

Record disk_wf `{SerdeJson} (d : disk) : Prop := {
  wf_entries : store_wf (d_entries d);
  wf_last_post : marker_wf d LAST_POST_FILE;
  wf_last_attempt : marker_wf d LAST_ATTEMPT_FILE;
  wf_root : forall k, d_root d !! k <> Some Directory;
  wf_deletions : forall k, d_deletions d !! k <> Some Directory;
}.

(** Whether an entry is claimed, and the claimed entries of the queue. *)
Definition claimed (e : t) : bool := bool_decide (claim_token e <> None).
Definition claims `{SerdeJson} (d : disk) : list t :=
  filter (fun e => claimed e = true) (entries_of (d_entries d)).

Section reads.
Context `{Platform} `{!PlatformOk} `{SerdeJson} `{!SerdeJsonOk}.

Lemma entries_wf d u :
  disk_wf d -> entries (World d [] u) = (Done (entries_of (d_entries d)), World d [] u).
Proof. intros Hwf. apply entries_quiet, store_wf_fits, Hwf. Qed.

Lemma previous_activity_quiet d u :
  disk_wf d -> previous_activity (World d [] u) = (Done (activity d), World d [] u).
Proof.
  intros Hwf. unfold previous_activity.
  erewrite bind_done by apply last_post_quiet, Hwf.
  by erewrite bind_done by apply last_attempt_quiet, Hwf.
Qed.

Lemma schedule_quiet d u cooldown now :
  disk_wf d ->
  schedule cooldown now (World d [] u)
  = (Done (projected_schedule cooldown now (entries_of (d_entries d)) (activity d)),
     World d [] u).
Proof.
  intros Hwf. unfold schedule. erewrite bind_done by by apply entries_wf.
  by erewrite bind_done by by apply previous_activity_quiet.
Qed.

(** ** UUIDs as claim tokens and incarnations *)

Lemma new_v4_plain n :
  string_to_vec (new_v4 n) = Some (byte_of 34 :: bytes_of (new_v4 n) ++ [byte_of 34]).
Proof. apply string_to_vec_plain, new_v4_chars. Qed.

Lemma new_v4_claim_ok n : claim_ok (Some (new_v4 n)).
Proof.
  eexists. split; [apply new_v4_plain|].
  rewrite zlen_cons, zlen_app. unfold zlen at 1. rewrite bytes_of_length, new_v4_length. done.
Qed.

Lemma new_v4_quoted n : quoted_length (new_v4 n) = 38.
Proof.
  unfold quoted_length. rewrite new_v4_plain. rewrite zlen_cons, zlen_app.
  unfold zlen at 1. by rewrite bytes_of_length, new_v4_length.
Qed.

Lemma ascii_utf8 s : Forall (fun c => code c < 128) (bytes_of s) -> utf8 s.
Proof. intros Hs. unfold utf8. rewrite utf8_decode_ascii by done. eauto. Qed.

Lemma hex_code c : is_ascii_hexdigit c = true -> code c < 128.
Proof. unfold is_ascii_hexdigit, is_ascii_digit. lia. Qed.

Lemma new_v4_utf8 n : utf8 (new_v4 n).
Proof.
  apply ascii_utf8. eapply Forall_impl; [apply new_v4_chars|].
  intros c [Hc| ->]; [by apply hex_code|done].
Qed.

Lemma new_v4_nonempty n : new_v4 n <> "".
Proof. intros Heq. pose proof (new_v4_length n) as Hl. by rewrite Heq in Hl. Qed.

Lemma valid_id_utf8 wanted : is_valid_id wanted = true -> utf8 wanted.
Proof.
  intros [_ Hall]%is_valid_id_spec. apply ascii_utf8.
  eapply Forall_impl; [exact Hall|]. apply hex_code.
Qed.

(** ** The updates of the store are updates in the sense of the budget *)

Lemma with_order_update e o :
  entry_ok e -> is_i64 o -> update_of e (with_order o e).
Proof.
  intros (Ht & Hv & Hc) Ho. split; [by repeat split|]. split; [|by left].
  split; [|done]. unfold entry_typed in *. simpl. tauto.
Qed.

Lemma with_claim_update e c :
  entry_ok e -> utf8_opt c -> claim_ok c -> update_of e (with_claim c e).
Proof.
  intros (Ht & Hv & _) Hu Hc. split; [by repeat split|]. split; [|by left].
  split; [|done]. unfold entry_typed in *. simpl. tauto.
Qed.

Lemma reclaim_update e n :
  entry_ok e -> incarnation e = "" ->
  update_of e (with_incarnation (new_v4 n) (with_claim None e)).
Proof.
  intros (Ht & Hv & _) He. split; [by repeat split|]. split.
  - split; [|done]. pose proof (new_v4_utf8 n). unfold entry_typed in *. simpl. tauto.
  - right. split; [done|]. split; [apply new_v4_nonempty|apply new_v4_quoted].
Qed.

Lemma wf_entry_ok d e : disk_wf d -> e ∈ entries_of (d_entries d) -> entry_ok e.
Proof.
  intros Hwf He%entries_of_elem.
  destruct (wf_entry_stored _ e (wf_entries d Hwf) He) as (c & _ & _ & Hst). apply Hst.
Qed.

(** Replacing an entry file keeps every other part of the disk. *)
Lemma replaced_entry_wf d e e' c' :
  disk_wf d -> e ∈ entries_of (d_entries d) -> update_of e e' ->
  entry_to_vec_pretty e' = Some c' ->
  disk_wf (replaced (entry_file (id e)) c' d)
  /\ entries_of (d_entries (replaced (entry_file (id e)) c' d))
     = sort_entries (e' :: others (id e) (entries_of (d_entries d)))
  /\ d_root (replaced (entry_file (id e)) c' d) = d_root d
  /\ d_deletions (replaced (entry_file (id e)) c' d) = d_deletions d.
Proof.
  intros Hwf He Hup Hvec. pose proof He as Hv%entries_of_elem.
  assert (Hid : is_valid_id (id e) = true) by apply (wf_entry_ok d e Hwf He).
  destruct (updated_directory _ e e' c' (wf_entries d Hwf) Hv Hup Hvec) as (Hs & Hes & _).
  rewrite <- replaced_entries in Hs, Hes by done.
  split; [|done]. destruct Hwf. by constructor.
Qed.
End reads.
