(* ===== verification/Claims.v ===== *)
(** Claims ([store/scheduling.rs], [claim_next_due] and [release_claim]): the
    worker takes the head of the queue only when its time has come and no other
    entry is claimed, and giving a claim back moves the cooldown anchor. *)

From S2P Require Import Prelude Text Protocol Disk Entry Order Bounds Scan Capacity Writes Schedule.
From S2P Require Import History Store DiskState.

Import StoredEntry.

Section claims.
Context `{Platform} `{!PlatformOk} `{SerdeJson} `{!SerdeJsonOk}.

Lemma entries_of_sorted m : StronglySorted entry_le (entries_of m).
Proof. apply sort_entries_sorted. Qed.

Lemma projected_claims cooldown now es previous :
  existsb (fun p => bool_decide (claim_token p.1 <> None))
    (projected_schedule cooldown now es previous) = existsb claimed es.
Proof.
  revert previous. induction es as [|e es IH]; intros previous; [done|].
  simpl. by rewrite IH.
Qed.

Lemma existsb_claims d :
  existsb claimed (entries_of (d_entries d)) = negb (bool_decide (claims d = [])).
Proof.
  unfold claims. induction (entries_of (d_entries d)) as [|e es IH]; [done|].
  cbn [existsb]. rewrite filter_cons. destruct (claimed e) eqn:He; [done|].
  by rewrite IH.
Qed.

Lemma next_due_quiet d u cooldown now :
  disk_wf d ->
  next_due cooldown now (World d [] u)
  = (Done (if bool_decide (claims d = [])
           then head (projected_schedule cooldown now (entries_of (d_entries d)) (activity d))
           else None), World d [] u).
Proof.
  intros Hwf. unfold next_due. erewrite bind_done by by apply schedule_quiet.
  rewrite projected_claims, existsb_claims. by case_bool_decide.
Qed.

(** Writing an update of a queued entry that keeps its key keeps its place. *)
Lemma write_same_key d u e e' :
  disk_wf d -> e ∈ entries_of (d_entries d) -> update_of e e' ->
  order e' = order e ->
  exists d', write_entry e' (World d [] u) = (Done tt, World d' [] u)
    /\ disk_wf d' /\ entries_of (d_entries d') = replace_entry e' (entries_of (d_entries d))
    /\ d_root d' = d_root d /\ d_deletions d' = d_deletions d.
Proof.
  intros Hwf He Hup Ho. pose proof He as Hv%entries_of_elem.
  destruct (write_entry_update d u e e' (wf_entries d Hwf) Hv Hup) as (c' & Hvec & Hrun).
  destruct (replaced_entry_wf d e e' c' Hwf He Hup Hvec) as (Hwf' & Hes & Hroot & Hdel).
  exists (replaced (entry_file (id e)) c' d). split_and!; try done.
  rewrite Hes. destruct Hup as [(Hid & _ & Ht & _) _].
  apply sort_same_key; [apply entries_of_NoDup|apply entries_of_sorted|done|done|done|done].
Qed.

(** Result of a claim attempt, on every branch. *)
Definition claim_outcome (cooldown now : Z) (d : disk) (u : nat)
    (r : option (t * Z)) (w' : world) : Prop :=
  match r with
  | None =>
      w' = World d [] u /\ (entries_of (d_entries d) = [] \/ claims d <> [])
  | Some (e, wait) =>
      claims d = [] /\ exists e0 rest, entries_of (d_entries d) = e0 :: rest
      /\ let at_ := post_at cooldown now (activity d) e0 in
         (now < at_ /\ e = e0 /\ wait = at_ - now /\ w' = World d [] u
          \/ at_ = now /\ wait = 0 /\ e = with_claim (Some (new_v4 u)) e0
             /\ w_faults w' = [] /\ w_uuids w' = S u
             /\ disk_wf (w_disk w') /\ entries_of (d_entries (w_disk w')) = e :: rest
             /\ d_root (w_disk w') = d_root d /\ d_deletions (w_disk w') = d_deletions d)
  end.

Lemma claim_next_due_quiet d u cooldown now :
  disk_wf d ->
  exists r w', claim_next_due cooldown now (World d [] u) = (Done r, w')
    /\ claim_outcome cooldown now d u r w'.
Proof.
  intros Hwf. unfold claim_next_due.
  erewrite bind_done by by apply next_due_quiet.
  case_bool_decide as Hc.
  2:{ exists None, (World d [] u). split; [done|]. split; [done|by right]. }
  destruct (entries_of (d_entries d)) as [|e0 rest] eqn:Hes.
  { exists None, (World d [] u). split; [done|]. split; [done|by left]. }
  cbn [projected_schedule head]. set (at_ := post_at cooldown now (activity d) e0).
  pose proof (post_at_ge_now cooldown now (activity d) e0) as Hge. fold at_ in Hge.
  destruct (Z.ltb_spec 0 (sat_sub at_ now)) as [Hlt|Hle].
  - exists (Some (e0, sat_sub at_ now)), (World d [] u). split; [done|].
    split; [done|]. exists e0, rest. split; [done|]. left.
    split_and!; [machine|done|machine|done].
  - erewrite (bind_done _ _ _ (new_v4 u)) by done. cbn [w_disk w_faults w_uuids].
    assert (He0 : e0 ∈ entries_of (d_entries d)) by (rewrite Hes; left).
    pose proof (wf_entry_ok d e0 Hwf He0) as Hok.
    set (e := with_claim (Some (new_v4 u)) e0).
    destruct (write_same_key d (S u) e0 e) as (d' & Hrun & Hwf' & Hes' & Hr & Hd); try done.
    { apply with_claim_update; [done|apply new_v4_utf8|apply new_v4_claim_ok]. }
    erewrite bind_done by exact Hrun.
    exists (Some (e, 0)), (World d' [] (S u)). split; [done|].
    split; [done|]. exists e0, rest. split; [done|]. right.
    assert (at_ = now) by machine. split_and!; try done.
    simpl. rewrite Hes', Hes.
    pose proof (entries_of_NoDup (d_entries d)) as Hnd. rewrite Hes, fmap_cons in Hnd.
    apply NoDup_cons in Hnd as [Hnd _].
    apply (replace_entry_split e0 e [] rest); [done|constructor|].
    apply Forall_forall. intros x Hx Heq. apply Hnd, list_elem_of_fmap. eauto.
Qed.

(** * Releasing a claim *)

Lemma marker_same d d' p : dget d' p = dget d p -> marker d' p = marker d p.
Proof. unfold marker. by intros ->. Qed.

Lemma marker_same_root d d' p : p.1 = Root -> d_root d' = d_root d -> marker d' p = marker d p.
Proof. intros Hp Hr. apply marker_same. unfold dget. by rewrite Hp; simpl; rewrite Hr. Qed.

Lemma activity_same_root d d' : d_root d' = d_root d -> activity d' = activity d.
Proof. intros Hr. unfold activity. by rewrite !(marker_same_root d d'). Qed.

(** The cooldown anchor does not move back. *)
Definition anchored (d d' : disk) : Prop :=
  forall p, activity d = Some p -> exists q, activity d' = Some q /\ p <= q.

Lemma anchored_refl d : anchored d d.
Proof. intros p Hp. exists p. split; [done|lia]. Qed.

Lemma anchored_same_root d d' : d_root d' = d_root d -> anchored d d'.
Proof. intros Hr p Hp. rewrite (activity_same_root d d' Hr). exists p. split; [done|lia]. Qed.

(** The two marker files. *)
Definition is_marker (p : path) : Prop := p = LAST_POST_FILE \/ p = LAST_ATTEMPT_FILE.

(** Writing a marker changes that marker only. *)
Lemma write_marker_quiet d u p n :
  disk_wf d -> is_marker p -> is_u64 n ->
  let d' := replaced p (u64_to_bytes n) d in
  write_atomic p (u64_to_bytes n) (World d [] u) = (Done tt, World d' [] u)
  /\ disk_wf d' /\ d_entries d' = d_entries d /\ d_deletions d' = d_deletions d
  /\ marker d' p = Some n
  /\ (forall q, q <> p -> q <> tmp_path p -> dget d' q = dget d q).
Proof.
  intros Hwf Hp Hn d'.
  assert (Hroot : p.1 = Root /\ tmp_path p <> p) by by destruct Hp as [->| ->].
  assert (Hother : forall q, q <> p -> q <> tmp_path p -> dget d' q = dget d q).
  { intros q Hq Hqt. unfold d', replaced. by rewrite dget_dput_other, dget_ddel_other. }
  assert (Hsame : dget d' p = Some (Regular (u64_to_bytes n))) by apply dget_dput_same.
  destruct Hroot as [Hdir Hne].
  assert (Hent : d_entries d' = d_entries d /\ d_deletions d' = d_deletions d)
    by by destruct Hp as [->| ->].
  destruct Hent as [Hent Hdel].
  split_and!; try done; [| |by apply marker_value].
  - apply write_atomic_quiet; [done| |]; unfold dget; [|rewrite Hdir; apply Hwf].
    destruct Hp as [->| ->]; apply Hwf.
  - constructor.
    + rewrite Hent. apply Hwf.
    + destruct (decide (LAST_POST_FILE = p)) as [<-|Hq]; [right; eauto|].
      unfold marker_wf. rewrite Hother; [apply Hwf|done|]. by destruct Hp as [->| ->].
    + destruct (decide (LAST_ATTEMPT_FILE = p)) as [<-|Hq]; [right; eauto|].
      unfold marker_wf. rewrite Hother; [apply Hwf|done|]. by destruct Hp as [->| ->].
    + intros k. change (d_root d' !! k) with (dget d' (Root, k)).
      destruct (decide ((Root, k) = p)) as [<-|Hk]; [by rewrite Hsame|].
      destruct (decide ((Root, k) = tmp_path p)) as [Hk'|Hk'].
      * unfold d', replaced. rewrite dget_dput_other by done. by rewrite Hk', dget_ddel_same.
      * rewrite Hother by done. apply (wf_root d Hwf).
    + rewrite Hdel. apply Hwf.
Qed.

(** Effect of a release on a queue, as its entries and its two markers. *)
Lemma release_claim_quiet d u e token attempted_at :
  disk_wf d -> e ∈ entries_of (d_entries d) -> claim_token e = Some token ->
  is_u64 attempted_at ->
  exists d', release_claim (id e) token attempted_at (World d [] u) = (Done tt, World d' [] u)
    /\ disk_wf d'
    /\ entries_of (d_entries d') = replace_entry (with_claim None e) (entries_of (d_entries d))
    /\ marker d' LAST_POST_FILE = marker d LAST_POST_FILE
    /\ marker d' LAST_ATTEMPT_FILE
       = Some (Z.max (default 0 (marker d LAST_ATTEMPT_FILE)) attempted_at)
    /\ d_deletions d' = d_deletions d
    /\ dget d' HISTORY_FILE = dget d HISTORY_FILE
    /\ dget d' COMPLETION_FILE = dget d COMPLETION_FILE.
Proof.
  intros Hwf He Htok Hat. unfold release_claim.
  erewrite bind_done by (apply attempt_done, find_valid; by apply entries_of_elem).
  cbn beta iota. rewrite decide_True by done.
  erewrite bind_done by apply last_attempt_quiet, Hwf.
  set (n := Z.max (default 0 (marker d LAST_ATTEMPT_FILE)) attempted_at).
  assert (Hn : is_u64 n).
  { apply max_u64; [|done]. destruct (marker d LAST_ATTEMPT_FILE) as [m|] eqn:Hm; [|done].
    apply (marker_u64 d LAST_ATTEMPT_FILE); [apply Hwf|done]. }
  destruct (write_marker_quiet d u LAST_ATTEMPT_FILE n Hwf) as
    (Hrun & Hwf' & Hent & Hdel & Hmark & Hother); [by right|done|].
  erewrite bind_done by exact Hrun.
  set (d1 := replaced LAST_ATTEMPT_FILE (u64_to_bytes n) d) in *.
  destruct (write_same_key d1 u e (with_claim None e)) as
    (d2 & Hrun2 & Hwf2 & Hes2 & Hroot2 & Hdel2); try done.
  { apply with_claim_update; [|done|done]. by apply (wf_entry_ok d). }
  exists d2.
  assert (Hget : forall k, dget d2 (Root, k) = dget d1 (Root, k))
    by (intros k; unfold dget; simpl; by rewrite Hroot2).
  split_and!; try done.
  - rewrite (marker_same_root d1 d2) by done. apply marker_same. by apply Hother.
  - by rewrite (marker_same_root d1 d2).
  - unfold HISTORY_FILE. rewrite Hget. by apply Hother.
  - unfold COMPLETION_FILE. rewrite Hget. by apply Hother.
Qed.

(** A release by anyone but the holder of the claim changes nothing. *)
Lemma release_claim_stale d u e token attempted_at :
  e ∈ entries_of (d_entries d) -> claim_token e <> Some token ->
  release_claim (id e) token attempted_at (World d [] u) = (Done tt, World d [] u).
Proof.
  intros He Htok. unfold release_claim.
  erewrite bind_done by (apply attempt_done, find_valid; by apply entries_of_elem).
  cbn beta iota. by rewrite decide_False.
Qed.

Lemma release_claim_unknown d u wanted token attempted_at :
  is_valid_id wanted = true -> d_entries d !! (wanted +:+ ".json") = None ->
  release_claim wanted token attempted_at (World d [] u) = (Done tt, World d [] u).
Proof.
  intros Hv Hm. unfold release_claim.
  by erewrite bind_done by (apply attempt_failed, find_missing; done).
Qed.
End claims.

(** * Results *)

(** What a claim attempt does, on every branch.  Nothing is claimed when the
    queue is empty or an entry is claimed already; the head is reported with its
    wait when its time has not come; otherwise the head, and only the head,
    receives a fresh claim token and keeps its place. *)
Theorem claim_takes_the_due_head `{Platform} `{!PlatformOk} `{SerdeJson} `{!SerdeJsonOk} d u cooldown now :
  disk_wf d ->
  exists r w', claim_next_due cooldown now (World d [] u) = (Done r, w')
    /\ claim_outcome cooldown now d u r w'.
Proof. apply claim_next_due_quiet. Qed.

(** Releasing a claim by its holder clears the claim, keeps the entry's place
    and moves the failed-attempt marker forward to the time of the attempt;
    anyone else's release changes nothing, and neither does the release of an entry
    that was deleted while it was posted: its failed attempt is not recorded. *)
Theorem release_returns_the_claim `{Platform} `{!PlatformOk} `{SerdeJson} `{!SerdeJsonOk} d u wanted token attempted_at :
  disk_wf d -> is_valid_id wanted = true -> is_u64 attempted_at ->
  (d_entries d !! (wanted +:+ ".json") = None ->
   release_claim wanted token attempted_at (World d [] u) = (Done tt, World d [] u))
  /\ forall e, e ∈ entries_of (d_entries d) -> id e = wanted ->
     exists d', release_claim wanted token attempted_at (World d [] u) = (Done tt, World d' [] u)
       /\ (claim_token e <> Some token -> d' = d)
       /\ (claim_token e = Some token ->
           disk_wf d'
           /\ entries_of (d_entries d') = replace_entry (with_claim None e) (entries_of (d_entries d))
           /\ marker d' LAST_POST_FILE = marker d LAST_POST_FILE
           /\ marker d' LAST_ATTEMPT_FILE
              = Some (Z.max (default 0 (marker d LAST_ATTEMPT_FILE)) attempted_at)).
Proof.
  intros Hwf Hv Hat. split; [by apply release_claim_unknown|]. intros e He <-.
  destruct (decide (claim_token e = Some token)) as [Htok|Htok].
  - destruct (release_claim_quiet d u e token attempted_at Hwf He Htok Hat)
      as (d' & Hrun & Hwf' & Hq & Hp & Ha & _). exists d'. split_and!; [done|done|]. intros _.
    split_and!; done.
  - exists d. split_and!; [by apply release_claim_stale|done|done].
Qed.
