(* ===== verification/Edits.v ===== *)
(** Queue edits ([store.rs]: [bump], [bust] and [del]): reordering moves one
    entry to an end of the queue, deletion removes one and leaves its marker;
    both keep every other entry and the directory invariant. *)

From S2P Require Import Prelude Text Protocol Disk Entry Order Bounds Scan Capacity Writes Schedule.
From S2P Require Import History Store DiskState Claims.

Import StoredEntry.

(** The deletion marker of an identifier. *)
Definition deletion_file (wanted : string) : path := (AwaitDeletions, wanted).

Lemma rsplit_dot_none b : byte_of 46 ∉ b -> rsplit_dot b = None.
Proof.
  induction b as [|c b IH]; intros Hb; [done|]. apply not_elem_of_cons in Hb as [Hc Hb].
  simpl. rewrite IH by done. by rewrite decide_False.
Qed.

Lemma valid_id_stem wanted : is_valid_id wanted = true -> file_stem wanted = wanted.
Proof.
  intros [Hlen Hhex]%is_valid_id_spec. unfold file_stem, split_extension.
  destruct (decide (wanted = "..")) as [->|_]; [done|].
  rewrite rsplit_dot_none; [done|]. intros Hin.
  rewrite Forall_forall in Hhex. by specialize (Hhex _ Hin).
Qed.

Lemma tmp_deletion_file wanted :
  is_valid_id wanted = true ->
  tmp_path (deletion_file wanted) = (AwaitDeletions, wanted +:+ ".tmp").
Proof. intros Hv. unfold tmp_path, deletion_file. simpl. by rewrite valid_id_stem. Qed.

Lemma tmp_deletion_file_ne wanted :
  is_valid_id wanted = true -> tmp_path (deletion_file wanted) <> deletion_file wanted.
Proof.
  intros Hv. rewrite tmp_deletion_file by done.
  intros [= Heq%(f_equal (fun s => length (bytes_of s)))].
  rewrite bytes_of_app, length_app in Heq. simpl in Heq. lia.
Qed.

Section edits.
Context `{Platform} `{!PlatformOk} `{SerdeJson} `{!SerdeJsonOk}.
Implicit Types d : disk.

Abbreviation queue d := (entries_of (d_entries d)).

(** Writing an update of a queued entry. *)
Lemma write_update_quiet d u e e' :
  disk_wf d -> e ∈ queue d -> update_of e e' ->
  exists d', write_entry e' (World d [] u) = (Done tt, World d' [] u)
    /\ disk_wf d' /\ queue d' = sort_entries (e' :: others (id e) (queue d))
    /\ d_root d' = d_root d /\ d_deletions d' = d_deletions d.
Proof.
  intros Hwf He Hup. pose proof He as Hv%entries_of_elem.
  destruct (write_entry_update d u e e' (wf_entries d Hwf) Hv Hup) as (c' & Hvec & Hrun).
  eexists. split; [exact Hrun|]. by apply replaced_entry_wf.
Qed.

(** ** Reordering *)

Lemma reorder_quiet d u e new_order :
  disk_wf d -> e ∈ queue d -> is_i64 (new_order e (queue d)) ->
  exists d', reorder (id e) new_order (World d [] u) = (Done tt, World d' [] u)
    /\ disk_wf d'
    /\ queue d' = sort_entries (with_order (new_order e (queue d)) e :: others (id e) (queue d))
    /\ d_root d' = d_root d /\ d_deletions d' = d_deletions d.
Proof.
  intros Hwf He Ho. unfold reorder. erewrite bind_done by by apply entries_wf.
  erewrite bind_done by (apply find_valid; by apply entries_of_elem).
  apply write_update_quiet; [done|done|]. apply with_order_update; [|done].
  by apply (wf_entry_ok d).
Qed.

Lemma reorder_missing d u wanted new_order :
  disk_wf d -> is_valid_id wanted = true -> d_entries d !! (wanted +:+ ".json") = None ->
  reorder wanted new_order (World d [] u) = (Failed (UnknownId wanted), World d [] u).
Proof.
  intros Hwf Hv Hm. unfold reorder. erewrite bind_done by by apply entries_wf.
  apply bind_failed. by apply find_missing.
Qed.

Lemma wf_order d e : disk_wf d -> e ∈ queue d -> is_i64 (order e).
Proof. intros Hwf He. destruct (wf_entry_ok d e Hwf He) as [(_ & _ & Ho & _) _]. done. Qed.

Lemma with_order_same e : with_order (order e) e = e.
Proof. by destruct e. Qed.

Lemma bump_order_i64 d e : disk_wf d -> e ∈ queue d -> is_i64 (bump_order e (queue d)).
Proof.
  intros Hwf He. pose proof (wf_order d e Hwf He). unfold bump_order.
  destruct (head _); [|done]. case_decide; [done|]. machine.
Qed.
Lemma bust_order_i64 d e : disk_wf d -> e ∈ queue d -> is_i64 (bust_order e (queue d)).
Proof.
  intros Hwf He. pose proof (wf_order d e Hwf He). unfold bust_order.
  destruct (last _); [|done]. case_decide; [done|]. machine.
Qed.

(** The queue a bump, or a bust, leaves: the entry first, or last, and the
    others as they were. *)
Lemma sort_bump l e :
  NoDup (id <$> l) -> StronglySorted entry_le l -> e ∈ l ->
  (forall h, head l = Some h -> I64_MIN < order h <= I64_MAX) ->
  sort_entries (with_order (bump_order e l) e :: others (id e) l)
  = with_order (bump_order e l) e :: others (id e) l.
Proof.
  intros Hnd Hs He Hmin. destruct l as [|h l]; [by apply elem_of_nil in He|].
  unfold bump_order. cbn [head]. case_decide as Hid.
  - assert (h = e) as -> by (eapply NoDup_id_inj; [exact Hnd|left|done|done]).
    rewrite with_order_same. rewrite fmap_cons in Hnd. apply NoDup_cons in Hnd as [Hx Hnd].
    assert (Ho : others (id e) (e :: l) = l).
    { apply (others_split e [] l); [constructor|]. apply Forall_forall. intros x Hin Heq.
      apply Hx, list_elem_of_fmap. eauto. }
    rewrite Ho. apply sort_entries_id; [rewrite fmap_cons; by constructor|done].
  - apply (sort_to_head (with_order (i64_sat_sub (order h) 1) e)); [done|done|].
    apply Forall_forall. intros x [_ Hx]%others_elem. simpl.
    pose proof (sorted_head_le h l x Hs Hx). specialize (Hmin h eq_refl). machine.
Qed.

Lemma sort_bust l e :
  NoDup (id <$> l) -> StronglySorted entry_le l -> e ∈ l ->
  (forall tl, last l = Some tl -> I64_MIN <= order tl < I64_MAX) ->
  sort_entries (with_order (bust_order e l) e :: others (id e) l)
  = others (id e) l ++ [with_order (bust_order e l) e].
Proof.
  intros Hnd Hs He Hmax. destruct (last l) as [tl|] eqn:Hl.
  2:{ apply last_None in Hl as ->. by apply elem_of_nil in He. }
  pose proof Hl as [l1 Heq]%last_Some.
  unfold bust_order. rewrite Hl. case_decide as Hid.
  - assert (tl = e) as ->.
    { eapply NoDup_id_inj; [exact Hnd| |done|done]. rewrite Heq. apply elem_of_app. right. by left. }
    rewrite with_order_same. subst l.
    assert (Ho : others (id e) (l1 ++ [e]) = l1).
    { rewrite <- (app_nil_r l1) at 2. apply others_split; [|constructor].
      rewrite fmap_app in Hnd. apply NoDup_app in Hnd as (_ & Hx & _).
      apply Forall_forall. intros x Hin Hxe. apply (Hx (id x)); [|rewrite Hxe; by left].
      apply list_elem_of_fmap. eauto. }
    rewrite Ho. apply sort_entries_unique; [|done|apply Permutation_cons_append].
    by rewrite Permutation_cons_append.
  - apply (sort_to_tail (with_order (i64_sat_add (order tl) 1) e)); [done|done|].
    apply Forall_forall. intros x [_ Hx]%others_elem. simpl.
    pose proof (sorted_last_le tl l x Hs Hl Hx).
    specialize (Hmax tl eq_refl). machine.
Qed.

(** A head with the smallest key stays the head. *)
Lemma bump_saturated_head h rest e :
  NoDup (id <$> h :: rest) -> StronglySorted entry_le (h :: rest) -> e ∈ rest ->
  order h = I64_MIN -> enqueued_at h < enqueued_at e ->
  head (sort_entries (with_order (bump_order e (h :: rest)) e :: others (id e) (h :: rest)))
  = Some h.
Proof.
  intros Hnd Hs He Hmin Hlt.
  assert (Hne : id h <> id e).
  { rewrite fmap_cons in Hnd. apply NoDup_cons in Hnd as [Hx _]. contradict Hx.
    rewrite Hx. apply list_elem_of_fmap. eauto. }
  assert (Ho : bump_order e (h :: rest) = I64_MIN).
  { unfold bump_order. cbn [head]. rewrite decide_False by done. rewrite Hmin. done. }
  rewrite Ho. set (e' := with_order I64_MIN e).
  assert (Hoth : others (id e) (h :: rest) = h :: others (id e) rest)
    by (unfold others; by rewrite filter_cons_True).
  pose proof (NoDup_cons_others e' (h :: rest) Hnd) as Hnd'. cbn [id e' with_order] in Hnd'.
  change (id e') with (id e) in Hnd'. rewrite Hoth in *.
  assert (Hperm : e' :: h :: others (id e) rest ≡ₚ h :: e' :: others (id e) rest)
    by constructor.
  rewrite (sort_entries_proper _ _ Hnd' Hperm).
  rewrite sort_entries_head; [done|by rewrite <- Hperm|].
  constructor.
  - right. split; [by rewrite Hmin|]. by left.
  - inversion Hs as [|? ? _ Hall]; subst. rewrite Forall_forall in *.
    intros x [_ Hx]%others_elem. by apply Hall.
Qed.

Lemma bump_quiet d u e :
  disk_wf d -> e ∈ queue d ->
  exists d', bump (id e) (World d [] u) = (Done tt, World d' [] u)
    /\ disk_wf d' /\ d_root d' = d_root d /\ d_deletions d' = d_deletions d
    /\ queue d' = sort_entries (with_order (bump_order e (queue d)) e :: others (id e) (queue d))
    /\ ((forall h, head (queue d) = Some h -> I64_MIN < order h) ->
        queue d' = with_order (bump_order e (queue d)) e :: others (id e) (queue d)).
Proof.
  intros Hwf He.
  destruct (reorder_quiet d u e bump_order Hwf He) as (d' & Hrun & Hwf' & Hq & Hr & Hd);
    [by apply bump_order_i64|].
  exists d'. split_and!; try done. intros Hmin. rewrite Hq.
  apply sort_bump; [apply entries_of_NoDup|apply entries_of_sorted|done|].
  intros h Hh. specialize (Hmin h Hh). split; [done|].
  apply (wf_order d); [done|]. destruct (queue d); simplify_eq/=. left.
Qed.

Lemma bust_quiet d u e :
  disk_wf d -> e ∈ queue d ->
  exists d', bust (id e) (World d [] u) = (Done tt, World d' [] u)
    /\ disk_wf d' /\ d_root d' = d_root d /\ d_deletions d' = d_deletions d
    /\ queue d' = sort_entries (with_order (bust_order e (queue d)) e :: others (id e) (queue d))
    /\ ((forall tl, last (queue d) = Some tl -> order tl < I64_MAX) ->
        queue d' = others (id e) (queue d) ++ [with_order (bust_order e (queue d)) e]).
Proof.
  intros Hwf He.
  destruct (reorder_quiet d u e bust_order Hwf He) as (d' & Hrun & Hwf' & Hq & Hr & Hd);
    [by apply bust_order_i64|].
  exists d'. split_and!; try done. intros Hmax. rewrite Hq.
  apply sort_bust; [apply entries_of_NoDup|apply entries_of_sorted|done|].
  intros tl Ht. specialize (Hmax tl Ht). split; [|done].
  apply (wf_order d); [done|]. apply last_Some in Ht as [l ->]. apply elem_of_app.
  right. by left.
Qed.

(** ** Deletion *)

(** The marker and the removal leave a directory within its limits. *)
Lemma del_quiet d u e :
  disk_wf d -> e ∈ queue d ->
  exists b d', deletion_to_vec (AwaitDeletionRecord.mk (incarnation e)) = Some b
    /\ del (id e) (World d [] u) = (Done tt, World d' [] u)
    /\ disk_wf d' /\ queue d' = others (id e) (queue d)
    /\ d_root d' = d_root d
    /\ d_deletions d' = <[id e := Regular b]> (delete (id e +:+ ".tmp") (d_deletions d)).
Proof.
  intros Hwf He. pose proof He as Hv%entries_of_elem.
  pose proof (wf_entry_ok d e Hwf He) as (Hty & Hid & _).
  assert (Hinc : utf8 (incarnation e)) by apply Hty.
  destruct (deletion_to_vec_total (AwaitDeletionRecord.mk (incarnation e))) as [b Hb]; [done|].
  set (d1 := replaced (deletion_file (id e)) b d).
  destruct (wf_entry_stored _ e (wf_entries d Hwf) Hv) as (c & Hc & _).
  destruct (removed_directory _ e (wf_entries d Hwf) Hv) as [Hwf1 Hq1].
  assert (Hd1 : d1 = Disk (d_root d) (d_entries d)
    (<[id e := Regular b]> (delete (id e +:+ ".tmp") (d_deletions d)))).
  { unfold d1, replaced. by rewrite tmp_deletion_file. }
  exists b, (ddel (entry_file (id e)) d1). split; [done|]. split_and!.
  - unfold del. erewrite bind_done by by apply find_valid.
    erewrite (bind_done _ _ _ tt (World d1 [] u)).
    2:{ unfold write_await_deletion. rewrite Hb. erewrite bind_done by done.
        unfold await_deletion_path. rewrite Hid. erewrite bind_done by done.
        apply write_atomic_quiet; [by apply tmp_deletion_file_ne| |apply Hwf].
        fold (deletion_file (id e)). rewrite tmp_deletion_file by done. apply Hwf. }
    unfold entry_path. rewrite Hid. erewrite bind_done by done.
    unfold remove_file, syscall. cbn [w_faults w_disk].
    assert (Hget : dget d1 (entry_file (id e)) = Some (Regular c))
      by (rewrite Hd1; unfold dget; simpl; exact Hc).
    fold (entry_file (id e)). by rewrite Hget.
  - rewrite Hd1. destruct Hwf. constructor; try done. simpl. intros k.
    rewrite lookup_insert. case_decide; [done|]. rewrite lookup_delete. case_decide; [done|].
    done.
  - by rewrite Hd1.
  - by rewrite Hd1.
  - by rewrite Hd1.
Qed.

Lemma del_missing d u wanted :
  is_valid_id wanted = true -> d_entries d !! (wanted +:+ ".json") = None ->
  del wanted (World d [] u) = (Failed (UnknownId wanted), World d [] u).
Proof. intros Hv Hm. unfold del. apply bind_failed. by apply find_missing. Qed.
End edits.

(** * Results *)

(** [bump] makes the entry the head of the queue, changes only its ordering
    key and keeps the order of the others, unless the head already has the
    smallest [i64] key. *)
Theorem bump_moves_to_the_head `{Platform} `{!PlatformOk} `{SerdeJson} `{!SerdeJsonOk} d u e :
  disk_wf d -> e ∈ entries_of (d_entries d) ->
  (forall h, head (entries_of (d_entries d)) = Some h -> I64_MIN < order h) ->
  exists d' o, bump (id e) (World d [] u) = (Done tt, World d' [] u)
    /\ disk_wf d'
    /\ entries_of (d_entries d') = with_order o e :: others (id e) (entries_of (d_entries d))
    /\ d_root d' = d_root d /\ d_deletions d' = d_deletions d.
Proof.
  intros Hwf He Hmin. destruct (bump_quiet d u e Hwf He) as (d' & Hrun & Hwf' & Hr & Hd & _ & Hq).
  exists d', (bump_order e (entries_of (d_entries d))). split_and!; try done. by apply Hq.
Qed.

(** [bust] makes the entry the tail of the queue, changes only its ordering
    key and keeps the order of the others, unless the tail already has the
    largest [i64] key. *)
Theorem bust_moves_to_the_tail `{Platform} `{!PlatformOk} `{SerdeJson} `{!SerdeJsonOk} d u e :
  disk_wf d -> e ∈ entries_of (d_entries d) ->
  (forall tl, last (entries_of (d_entries d)) = Some tl -> order tl < I64_MAX) ->
  exists d' o, bust (id e) (World d [] u) = (Done tt, World d' [] u)
    /\ disk_wf d'
    /\ entries_of (d_entries d') = others (id e) (entries_of (d_entries d)) ++ [with_order o e]
    /\ d_root d' = d_root d /\ d_deletions d' = d_deletions d.
Proof.
  intros Hwf He Hmax. destruct (bust_quiet d u e Hwf He) as (d' & Hrun & Hwf' & Hr & Hd & _ & Hq).
  exists d', (bust_order e (entries_of (d_entries d))). split_and!; try done. by apply Hq.
Qed.

(** [del] removes exactly the named entry and leaves a marker with its
    lifetime, so that a later wait for it reports an unknown comment. *)
Theorem del_removes_one_entry `{Platform} `{!PlatformOk} `{SerdeJson} `{!SerdeJsonOk} d u e :
  disk_wf d -> e ∈ entries_of (d_entries d) ->
  exists b d', del (id e) (World d [] u) = (Done tt, World d' [] u)
    /\ disk_wf d' /\ entries_of (d_entries d') = others (id e) (entries_of (d_entries d))
    /\ d_root d' = d_root d
    /\ d_deletions d' !! id e = Some (Regular b)
    /\ deletion_from_slice b = Ok (AwaitDeletionRecord.mk (incarnation e))
    /\ resolve_await_completion (id e) None (World d' [] u) = (Done Unknown, World d' [] u).
Proof.
  intros Hwf He. destruct (del_quiet d u e Hwf He) as (b & d' & Hb & Hrun & Hwf' & Hq & Hr & Hd).
  pose proof (wf_entry_ok d e Hwf He) as (Hty & Hid & _).
  assert (Hget : d_deletions d' !! id e = Some (Regular b)) by (rewrite Hd; apply lookup_insert_eq).
  exists b, d'. split_and!; try done.
  - apply deletion_round_trip; [apply Hty|done].
  - unfold resolve_await_completion, await_lifetime_was_deleted, await_deletion_path.
    rewrite Hid, decide_True by done. erewrite (bind_done _ _ _ true); [done|].
    erewrite bind_done by done.
    erewrite bind_done by (apply attempt_done; rewrite read_quiet; unfold dget; simpl;
      by rewrite Hget). done.
Qed.

(** At the end of the key space [bump] cannot make room: when the head has
    the smallest [i64] key, another entry that is enqueued later is given that
    same key and stays behind the head. *)
Theorem bump_saturates `{Platform} `{!PlatformOk} `{SerdeJson} `{!SerdeJsonOk} d u e h rest :
  disk_wf d -> entries_of (d_entries d) = h :: rest -> e ∈ rest -> order h = I64_MIN ->
  enqueued_at h < enqueued_at e ->
  exists d', bump (id e) (World d [] u) = (Done tt, World d' [] u)
    /\ head (entries_of (d_entries d')) = Some h.
Proof.
  intros Hwf Hq He Hmin Hlt.
  assert (Hin : e ∈ entries_of (d_entries d)) by (rewrite Hq; by right).
  destruct (bump_quiet d u e Hwf Hin) as (d' & Hrun & _ & _ & _ & Hq' & _).
  exists d'. split; [done|]. rewrite Hq', Hq.
  pose proof (entries_of_NoDup (d_entries d)) as Hnd. rewrite Hq in Hnd.
  pose proof (entries_of_sorted (d_entries d)) as Hs. rewrite Hq in Hs.
  by apply bump_saturated_head.
Qed.
