(* ===== verification/Sound.v ===== *)
(** What survives every failure and crash: the invariant of the queue directory
    that does not depend on a scan having read every entry.

    [disk_sound] holds of the directory after any system call of any operation;
    [intact] adds the byte budget with its reserved headroom, which only a scan
    that is not refused a read can keep. *)

From S2P Require Import Prelude Text Protocol Disk Entry Order Bounds Scan Capacity Writes Schedule.
From S2P Require Import History Store DiskState Claims Edits.

Import StoredEntry.

(** * The entries directory *)

Section store.
Context `{SerdeJson}.
Implicit Types m : gmap string node.

(** Every file that has the name of an entry holds one. *)
Definition readable m : Prop :=
  forall wanted c, is_valid_id wanted = true ->
    m !! (wanted +:+ ".json") = Some (Regular c) -> is_Some (entry_at (wanted +:+ ".json", c)).

Record store_sound m : Prop := {
  ss_count : zlen (json_files m) <= MAX_QUEUE_ENTRIES;
  ss_bytes : zsum (sizes m) <= MAX_QUEUE_BYTES;
  ss_stored : forall f e, f ∈ json_files m -> entry_at f = Some e -> stored f e;
  ss_regular : forall k, m !! k <> Some Directory;
  ss_readable : readable m;
}.

(** The accounted bytes, reservations included, are within the budget. *)
Definition budget m : Prop :=
  zsum (sizes m) + zsum (entry_headroom <$> valid_entries m) <= MAX_QUEUE_BYTES.

Lemma store_sound_wf m : store_sound m -> budget m -> store_wf m.
Proof. intros Hs Hb. constructor; [apply Hs|exact Hb|apply Hs|apply Hs]. Qed.

Lemma store_wf_sound m : store_wf m -> readable m -> store_sound m.
Proof.
  intros Hwf Hr. constructor; [apply Hwf| |apply Hwf|apply Hwf|done].
  pose proof (wf_budget m Hwf). pose proof (zsum_headroom_nonneg (valid_entries m)). lia.
Qed.

Lemma store_sound_fits m : store_sound m -> fits m.
Proof.
  intros Hs. split; [apply Hs|]. split; [apply Hs|].
  apply Forall_forall. intros f Hf e He. by apply (ss_stored m Hs f e Hf He).
Qed.

(** Two directories with the same entry files. *)
Definition same_files (m m' : gmap string node) : Prop :=
  forall k, extension k = Some "json" -> m' !! k = m !! k.

Lemma same_files_perm m m' : same_files m m' -> json_files m' ≡ₚ json_files m.
Proof.
  intros Hk. apply NoDup_Permutation;
    [apply (NoDup_fmap_1 fst), json_files_NoDup|apply (NoDup_fmap_1 fst), json_files_NoDup|].
  intros [name c]. rewrite !json_files_elem. split; intros [Hm Hx]; (split; [|done]);
    [by rewrite <- Hk|by rewrite Hk].
Qed.

Lemma same_files_queue m m' : same_files m m' -> entries_of m' = entries_of m.
Proof. intros Hk. by apply entries_of_proper, same_files_perm. Qed.

Lemma same_files_budget m m' : same_files m m' -> budget m -> budget m'.
Proof.
  intros Hk%same_files_perm. unfold budget, sizes. by rewrite (valid_entries_proper _ _ Hk), Hk.
Qed.

Lemma same_files_sound m m' :
  same_files m m' -> (forall k, m' !! k <> Some Directory) -> store_sound m -> store_sound m'.
Proof.
  intros Hk Hreg Hs. pose proof (same_files_perm m m' Hk) as Hp. constructor; [..|done|].
  - rewrite Hp. apply Hs.
  - unfold sizes. rewrite Hp. apply Hs.
  - intros f e Hf. rewrite Hp in Hf. by apply Hs.
  - intros wanted c Hv. rewrite Hk by by apply valid_json_name. by apply Hs.
Qed.

(** Membership in the queue, by the file of the entry. *)
Lemma queue_elem m x :
  x ∈ entries_of m <-> exists c, m !! (id x +:+ ".json") = Some (Regular c)
                                 /\ entry_at (id x +:+ ".json", c) = Some x.
Proof. by rewrite entries_of_elem, valid_entries_elem. Qed.

Lemma queue_valid m x : x ∈ entries_of m -> is_valid_id (id x) = true.
Proof. intros (c & _ & Hx)%queue_elem. by apply entry_at_spec in Hx as (_ & _ & ? & _). Qed.

Lemma sound_entry_ok m x : store_sound m -> x ∈ entries_of m -> entry_ok x.
Proof.
  intros Hs Hx. pose proof (queue_valid m x Hx) as Hv. apply queue_elem in Hx as (c & Hm & He).
  apply (ss_stored m Hs (id x +:+ ".json", c) x); [|exact He]. apply json_files_elem. split; [done|].
  by apply valid_json_name.
Qed.

(** ** Removing and writing one entry file *)

Lemma json_files_delete m k f : f ∈ json_files (delete k m) -> f ∈ json_files m.
Proof.
  destruct f as [name c]. rewrite !json_files_elem. intros [Hm Hx]. split; [|done].
  by apply lookup_delete_Some in Hm as [_ ?].
Qed.

Lemma json_files_removed m k :
  exists o, json_files m ≡ₚ option_list o ++ json_files (delete k m)
  /\ (forall f, o = Some f -> f ∈ json_files m).
Proof.
  destruct (m !! k) as [n|] eqn:Hk.
  - pose proof (json_files_split m k n Hk) as Hp. eexists. split; [exact Hp|].
    intros f Hf. rewrite Hp, Hf. by left.
  - exists None. by rewrite delete_id.
Qed.

Lemma store_sound_delete m k : store_sound m -> store_sound (delete k m).
Proof.
  intros Hs. destruct (json_files_removed m k) as (o & Hp & _).
  pose proof (ss_count m Hs) as Hc. pose proof (ss_bytes m Hs) as Hb. unfold sizes in *.
  rewrite Hp in Hc, Hb. constructor.
  - rewrite zlen_app in Hc. pose proof (zlen_nonneg (option_list o)). lia.
  - unfold sizes. rewrite fmap_app, zsum_app in Hb.
    pose proof (total_size_nonneg (option_list o)) as Hn. unfold total_size in Hn. lia.
  - intros f e Hf. apply Hs. by eapply json_files_delete.
  - intros k'. rewrite lookup_delete. case_decide; [done|]. apply Hs.
  - intros wanted c Hv [_ Hm]%lookup_delete_Some. by apply Hs.
Qed.

Lemma budget_delete m k : budget m -> budget (delete k m).
Proof.
  unfold budget, sizes, valid_entries. destruct (json_files_removed m k) as (o & Hp & _).
  rewrite Hp, option_list_omap, !fmap_app, !zsum_app.
  pose proof (total_size_nonneg (option_list o)) as Hn. unfold total_size in Hn.
  pose proof (zsum_headroom_nonneg (option_list (o ≫= entry_at))). lia.
Qed.

Context `{!SerdeJsonOk}.

Lemma written_files m e c :
  stored (id e +:+ ".json", c) e ->
  json_files (<[id e +:+ ".json" := Regular c]> m)
  ≡ₚ (id e +:+ ".json", c) :: json_files (delete (id e +:+ ".json") m).
Proof.
  intros Hst. rewrite json_files_insert, json_file_entry by apply Hst. done.
Qed.

Lemma readable_insert m e c :
  readable m -> stored (id e +:+ ".json", c) e -> readable (<[id e +:+ ".json" := Regular c]> m).
Proof.
  intros Hr Hst wanted x Hv. rewrite lookup_insert. case_decide as Hk; [|by apply Hr].
  apply json_name_inj in Hk as <-. intros [= <-]. rewrite (stored_entry_at _ e Hst). by eexists.
Qed.

Lemma store_sound_insert m e c :
  store_sound m -> stored (id e +:+ ".json", c) e ->
  zlen (json_files (delete (id e +:+ ".json") m)) < MAX_QUEUE_ENTRIES ->
  zlen c + zsum (sizes (delete (id e +:+ ".json") m)) <= MAX_QUEUE_BYTES ->
  store_sound (<[id e +:+ ".json" := Regular c]> m).
Proof.
  intros Hs Hst Hc Hb. pose proof (written_files m e c Hst) as Hp.
  pose proof (store_sound_delete m (id e +:+ ".json") Hs) as Hd. constructor.
  - rewrite Hp, zlen_cons. lia.
  - unfold sizes. rewrite Hp, fmap_cons. simpl. exact Hb.
  - intros f x. rewrite Hp. intros [->|Hf]%elem_of_cons; [|by apply Hd].
    rewrite (stored_entry_at _ e Hst). by intros [= <-].
  - intros k. rewrite lookup_insert. case_decide; [done|]. apply Hs.
  - apply readable_insert; [apply Hs|done].
Qed.

Lemma budget_insert m e c :
  stored (id e +:+ ".json", c) e ->
  zlen c + zsum (sizes (delete (id e +:+ ".json") m))
  + (entry_headroom e + zsum (entry_headroom <$> valid_entries (delete (id e +:+ ".json") m)))
  <= MAX_QUEUE_BYTES -> budget (<[id e +:+ ".json" := Regular c]> m).
Proof.
  intros Hst Hb. pose proof (written_files m e c Hst) as Hp. unfold budget, sizes, valid_entries.
  rewrite Hp, fmap_cons. cbn [omap list_omap]. rewrite (stored_entry_at _ e Hst), fmap_cons. simpl.
  unfold sizes, valid_entries in Hb. lia.
Qed.

(** The queue after the file of [e'] was written, or that of an entry removed. *)
Lemma queue_insert m e' c x :
  stored (id e' +:+ ".json", c) e' ->
  x ∈ entries_of (<[id e' +:+ ".json" := Regular c]> m)
  <-> x = e' \/ x ∈ entries_of m /\ id x <> id e'.
Proof.
  intros Hst. pose proof (stored_entry_at _ e' Hst) as He. rewrite !queue_elem.
  setoid_rewrite lookup_insert. split.
  - intros (c' & Hm & Hx). destruct (decide (id e' +:+ ".json" = id x +:+ ".json")) as [Heq|Hne].
    + rewrite Heq in He. left. injection Hm as <-. congruence.
    + right. split; [by exists c'|]. intros Hid. apply Hne. by rewrite Hid.
  - intros [->|[(c' & Hm & Hx) Hid]].
    + exists c. by rewrite decide_True.
    + exists c'. rewrite decide_False; [done|]. intros Heq%json_name_inj. by apply Hid.
Qed.

Lemma queue_delete m wanted x :
  x ∈ entries_of (delete (wanted +:+ ".json") m) <-> x ∈ entries_of m /\ id x <> wanted.
Proof.
  rewrite !queue_elem. setoid_rewrite lookup_delete. split.
  - intros (c' & Hm & Hx). case_decide as Hk; [done|]. split; [by exists c'|].
    intros <-. by apply Hk.
  - intros [(c' & Hm & Hx) Hid]. exists c'. rewrite decide_False; [done|].
    intros Heq%json_name_inj. by apply Hid.
Qed.

(** Removing the file of an entry leaves the others in their order. *)
Lemma queue_removed m e :
  store_sound m -> e ∈ entries_of m ->
  entries_of (delete (id e +:+ ".json") m) = others (id e) (entries_of m).
Proof.
  intros Hs He. pose proof (queue_valid m e He) as Hv. apply queue_elem in He as (c & Hm & He).
  assert (Hst : stored (id e +:+ ".json", c) e).
  { apply (ss_stored m Hs); [|done]. apply json_files_elem. split; [done|]. by apply valid_json_name. }
  unfold entries_of, others. rewrite <- sort_entries_filter by apply valid_entries_NoDup.
  apply sort_entries_proper; [apply valid_entries_NoDup|]. by apply (valid_entries_delete m e c).
Qed.
End store.

(** * The whole directory *)

Section disk.
Context `{SerdeJson}.
Implicit Types d : disk.

Record disk_sound d : Prop := {
  sd_entries : store_sound (d_entries d);
  sd_last_post : marker_wf d LAST_POST_FILE;
  sd_last_attempt : marker_wf d LAST_ATTEMPT_FILE;
  sd_root : forall k, d_root d !! k <> Some Directory;
  sd_deletions : forall k, d_deletions d !! k <> Some Directory;
  sd_markers : forall wanted x, is_valid_id wanted = true ->
    d_deletions d !! wanted = Some (Regular x) -> exists m, deletion_from_slice x = Ok m;
}.

Definition intact (calm : bool) d : Prop :=
  disk_sound d /\ (calm = true -> budget (d_entries d)).

Lemma intact_wf d : intact true d -> disk_wf d.
Proof.
  intros [Hs Hb]. constructor; try apply Hs. apply store_sound_wf; [apply Hs|by apply Hb].
Qed.

(** The temporary sibling of [p] may differ, and nothing else does. *)
Definition leftover (p : path) d d' : Prop :=
  (forall q, q <> tmp_path p -> dget d' q = dget d q)
  /\ (dget d (tmp_path p) <> Some Directory -> dget d' (tmp_path p) <> Some Directory).

Lemma leftover_refl p d : leftover p d d.
Proof. done. Qed.

(** Parts of a directory that a change of another part leaves alone. *)
Lemma disk_sound_parts d d' :
  disk_sound d -> store_sound (d_entries d') -> d_root d' = d_root d ->
  d_deletions d' = d_deletions d -> disk_sound d'.
Proof.
  intros Hs He Hr Hd. pose proof Hs as [_ Hp Ha Hroot Hdel Hm].
  constructor; [done| | |by rewrite Hr|by rewrite Hd|by rewrite Hd];
    unfold marker_wf, dget in *; simpl in *; by rewrite Hr.
Qed.

Lemma leftover_entry wanted d d' :
  is_valid_id wanted = true -> leftover (entry_file wanted) d d' ->
  same_files (d_entries d) (d_entries d') /\ d_root d' = d_root d /\ d_deletions d' = d_deletions d
  /\ ((forall k, d_entries d !! k <> Some Directory) -> forall k, d_entries d' !! k <> Some Directory).
Proof.
  intros Hv [Hq Ht]. rewrite tmp_entry_file in * by done. split_and!.
  - intros k Hk. apply (Hq (Entries, k)). intros [= ->].
    destruct (valid_tmp_name wanted Hv) as [_ Hx]. congruence.
  - apply map_eq. intros k. by apply (Hq (Root, k)).
  - apply map_eq. intros k. by apply (Hq (AwaitDeletions, k)).
  - intros Hreg k. destruct (decide (k = wanted +:+ ".tmp")) as [->|Hk].
    + apply Ht, Hreg.
    + pose proof (Hq (Entries, k)) as Heq. unfold dget in Heq. simpl in Heq.
      rewrite Heq by congruence. apply Hreg.
Qed.

Lemma intact_leftover calm wanted d d' :
  is_valid_id wanted = true -> leftover (entry_file wanted) d d' -> intact calm d ->
  intact calm d' /\ entries_of (d_entries d') = entries_of (d_entries d)
  /\ d_root d' = d_root d /\ d_deletions d' = d_deletions d.
Proof.
  intros Hv Hl [Hs Hb]. destruct (leftover_entry wanted d d' Hv Hl) as (Hk & Hr & Hd & Hreg).
  split_and!; [|by apply same_files_queue|done|done]. split.
  - apply (disk_sound_parts d); try done. apply (same_files_sound (d_entries d)); [done| |apply Hs].
    apply Hreg, (sd_entries d Hs).
  - intros Hc. by apply (same_files_budget (d_entries d)), Hb.
Qed.

(** Changes of the deletion markers. *)
Lemma intact_deletions calm d d' :
  intact calm d -> d_entries d' = d_entries d -> d_root d' = d_root d ->
  (forall k, d_deletions d' !! k <> Some Directory) ->
  (forall wanted x, is_valid_id wanted = true -> d_deletions d' !! wanted = Some (Regular x) ->
     exists m, deletion_from_slice x = Ok m) -> intact calm d'.
Proof.
  intros [Hs Hb] He Hr Hd Hm. split; [|by rewrite He].
  pose proof Hs as [Hent Hp Ha Hroot _ _].
  constructor; [by rewrite He| | |by rewrite Hr|done|done];
    unfold marker_wf, dget in *; simpl in *; by rewrite Hr.
Qed.

Lemma valid_tmp wanted : is_valid_id (wanted +:+ ".tmp") = false.
Proof.
  destruct (is_valid_id (wanted +:+ ".tmp")) eqn:Hv; [|done].
  apply is_valid_id_spec in Hv as [_ Hv]. rewrite bytes_of_app, Forall_app in Hv.
  destruct Hv as [_ Hv]. by apply Forall_cons_1 in Hv as [? _].
Qed.

Lemma leftover_deletion wanted d d' :
  is_valid_id wanted = true -> leftover (deletion_file wanted) d d' ->
  d_entries d' = d_entries d /\ d_root d' = d_root d
  /\ (forall k, k <> wanted +:+ ".tmp" -> d_deletions d' !! k = d_deletions d !! k)
  /\ ((forall k, d_deletions d !! k <> Some Directory) -> forall k, d_deletions d' !! k <> Some Directory).
Proof.
  intros Hv [Hq Ht]. rewrite tmp_deletion_file in * by done.
  assert (Hdel : forall k, k <> wanted +:+ ".tmp" -> d_deletions d' !! k = d_deletions d !! k)
    by (intros k Hk; apply (Hq (AwaitDeletions, k)); congruence).
  split_and!; [| |done|].
  - apply map_eq. intros k. by apply (Hq (Entries, k)).
  - apply map_eq. intros k. by apply (Hq (Root, k)).
  - intros Hreg k. destruct (decide (k = wanted +:+ ".tmp")) as [->|Hk]; [apply Ht, Hreg|].
    by rewrite Hdel.
Qed.

(** The marker was written, or only its temporary file. *)
Lemma intact_marked calm wanted b m d d' :
  is_valid_id wanted = true -> deletion_from_slice b = Ok m -> intact calm d ->
  leftover (deletion_file wanted) d d' \/ d' = replaced (deletion_file wanted) b d ->
  intact calm d' /\ d_entries d' = d_entries d /\ d_root d' = d_root d.
Proof.
  intros Hv Hb Hi Hd'. pose proof Hi as [Hs _].
  destruct Hd' as [Hl| ->].
  - destruct (leftover_deletion wanted d d' Hv Hl) as (He & Hr & Hdel & Hreg). split_and!; [|done|done].
    apply (intact_deletions calm d); try done; [apply Hreg, Hs|].
    intros w x Hw. rewrite Hdel; [by apply Hs|]. intros ->. by rewrite valid_tmp in Hw.
  - unfold replaced. rewrite tmp_deletion_file by done. split_and!; [|done|done].
    apply (intact_deletions calm d); try done; simpl.
    + intros k. rewrite lookup_insert. case_decide; [done|]. rewrite lookup_delete.
      case_decide; [done|]. apply Hs.
    + intros w x Hw. rewrite lookup_insert. case_decide; [intros [= <-]; eauto|].
      rewrite lookup_delete. case_decide; [done|]. by apply Hs.
Qed.

Lemma intact_unmarked calm wanted d :
  intact calm d -> intact calm (ddel (deletion_file wanted) d).
Proof.
  intros Hi. pose proof Hi as [Hs _]. apply (intact_deletions calm d); try done; simpl.
  - intros k. rewrite lookup_delete. case_decide; [done|]. apply Hs.
  - intros w x Hw [_ Hx]%lookup_delete_Some. by apply (sd_markers d Hs w x).
Qed.

(** The entry file of an identifier is removed. *)
Lemma intact_removed calm wanted d :
  intact calm d -> intact calm (ddel (entry_file wanted) d).
Proof.
  intros [Hs Hb]. split; [|intros Hc; by apply budget_delete, Hb].
  apply (disk_sound_parts d); try done. apply store_sound_delete, Hs.
Qed.

(** The root changes, the two markers stay well formed. *)
Lemma intact_root calm d d' :
  intact calm d -> d_entries d' = d_entries d -> d_deletions d' = d_deletions d ->
  marker_wf d' LAST_POST_FILE -> marker_wf d' LAST_ATTEMPT_FILE ->
  (forall k, d_root d' !! k <> Some Directory) -> intact calm d'.
Proof.
  intros [Hs Hb] He Hd Hp Ha Hr. split; [|by rewrite He].
  constructor; rewrite ?He, ?Hd; try done; apply Hs.
Qed.
End disk.
