(* ===== verification/Enqueue.v ===== *)
(** Enqueueing ([store.rs]: [resolve_entry_id], [put_with_eta]): the identifier
    is the first unsalted or salted digest that is free or already holds the
    same request, a repeated request is answered with the queued entry, and a
    new one is admitted within the limits at the tail of the queue. *)

From S2P Require Import Prelude Text Protocol Disk Entry Order Bounds Scan Capacity Writes Schedule.
From S2P Require Import History Store DiskState Claims Edits.

Import StoredEntry.

(** The salt of the [n]th attempt, and its identifier. *)
Definition salt_of (n : nat) : option Z :=
  match n with O => None | S _ => Some (Z.of_nat n) end.
Definition candidate (request : CommentRequest.t) (now : Z) (n : nat) : string :=
  entry_id_with_salt request now (salt_of n).

Lemma salt_succ n :
  Z.of_nat n < U64_MAX ->
  Some (match salt_of n with Some value => sat_add value 1 | None => 1 end) = salt_of (S n).
Proof. intros Hn. destruct n; simpl; [done|]. f_equal. machine. Qed.

Section enqueue.
Context `{Platform} `{!PlatformOk} `{SerdeJson} `{!SerdeJsonOk}.
Implicit Types d : disk.

Abbreviation queue d := (entries_of (d_entries d)).

(** The queue holds another request under this identifier. *)
Definition occupied d (request : CommentRequest.t) (wanted : string) : Prop :=
  exists e, e ∈ queue d /\ id e = wanted /\ StoredEntry.request e <> request.

(** What the first usable identifier refers to. *)
Inductive vacancy d (request : CommentRequest.t) (wanted : string) : option t -> Prop :=
| vacant : d_entries d !! (wanted +:+ ".json") = None -> vacancy d request wanted None
| queued e : e ∈ queue d -> id e = wanted -> StoredEntry.request e = request ->
    vacancy d request wanted (Some e).

(** The search stops at the first usable identifier; the fuel is the number of
    occupied ones before it. *)
Lemma resolve_from d u fuel request now k n r :
  (n <= fuel)%nat -> Z.of_nat (k + n) < U64_MAX ->
  (forall i, (i < n)%nat -> occupied d request (candidate request now (k + i))) ->
  vacancy d request (candidate request now (k + n)) r ->
  resolve_entry_id fuel request now (salt_of k) (World d [] u)
  = (Done (candidate request now (k + n), r), World d [] u).
Proof.
  revert fuel k. induction n as [|n IH]; intros fuel k Hfuel Hk Hocc Hv.
  - rewrite Nat.add_0_r in *. unfold candidate in *.
    destruct Hv as [Hm|e He Hid Hreq]; destruct fuel; simpl.
    1,2: by erewrite bind_done
      by (apply attempt_failed, find_missing; [apply entry_id_with_salt_valid|done]).
    all: rewrite <- Hid; erewrite bind_done
      by (apply attempt_done, find_valid; by apply entries_of_elem);
      cbn beta iota; by rewrite decide_True.
  - destruct fuel as [|fuel]; [lia|].
    destruct (Hocc 0%nat) as (e & He & Hid & Hreq); [lia|]. rewrite Nat.add_0_r in Hid.
    cbn [resolve_entry_id]. fold (candidate request now k). rewrite <- Hid.
    erewrite bind_done by (apply attempt_done, find_valid; by apply entries_of_elem).
    cbn beta iota. rewrite decide_False by done. rewrite salt_succ by lia.
    replace (k + S n)%nat with (S k + n)%nat in * by lia.
    apply IH; [lia|lia| |done]. intros i Hi.
    replace (S k + i)%nat with (k + S i)%nat by lia. apply Hocc. lia.
Qed.

(** The first usable identifier of a request. *)
Definition first_usable d request now (n : nat) (r : option t) : Prop :=
  Z.of_nat n < U64_MAX
  /\ (forall i, (i < n)%nat -> occupied d request (candidate request now i))
  /\ vacancy d request (candidate request now n) r.

Lemma resolve_entry_id_quiet d u fuel request now n r :
  first_usable d request now n r -> (n <= fuel)%nat ->
  resolve_entry_id fuel request now None (World d [] u)
  = (Done (candidate request now n, r), World d [] u).
Proof. intros (Hn & Hocc & Hv) Hfuel. by apply (resolve_from d u fuel request now 0). Qed.

(** ** Lookups and enqueues with any result *)

Lemma find_cases d u wanted :
  (forall k, d_entries d !! k <> Some Directory) ->
  (exists e, find wanted (World d [] u) = (Done e, World d [] u) /\ e ∈ queue d /\ id e = wanted)
  \/ (exists err, find wanted (World d [] u) = (Failed err, World d [] u)
      /\ forall x, err = UnknownId x -> d_entries d !! (wanted +:+ ".json") = None).
Proof.
  intros Hwf. destruct (is_valid_id wanted) eqn:Hv.
  2:{ right. eexists. split; [by apply find_invalid|done]. }
  destruct (d_entries d !! (wanted +:+ ".json")) as [[c|]|] eqn:Hm.
  - destruct (entry_at (wanted +:+ ".json", c)) as [e|] eqn:He.
    + left. exists e. split; [by eapply find_found|].
      assert (id e = wanted) as Hid.
      { apply entry_at_spec in He as (_ & _ & _ & Hs). simpl in Hs. rewrite <- Hs.
        by apply valid_json_name. }
      split; [|done]. apply entries_of_elem, valid_entries_elem. rewrite Hid. eauto.
    + right. unfold find, entry_path. rewrite Hv. unfold bind at 1. cbn [lift ret].
      assert (Hget : dget d (Entries, wanted +:+ ".json") = Some (Regular c)) by done.
      destruct (Z.leb_spec (zlen c) MAX_ENTRY_BYTES) as [Hle|Hgt].
      2:{ eexists. erewrite bind_done by (apply attempt_failed, read_entry_oversized; done).
          split; [done|]. intros x Heq. discriminate Heq. }
      pose proof (read_entry_quiet (Entries, wanted +:+ ".json") d u c Hget Hle) as Hread.
      unfold entry_at in He. cbn [fst snd] in He.
      destruct (Z.leb_spec (zlen c) MAX_ENTRY_BYTES); [|lia].
      destruct (entry_from_slice c) as [m|e] eqn:Hs.
      { eexists. erewrite bind_done by (apply attempt_failed, Hread). split; [done|].
        intros x Heq. discriminate Heq. }
      eexists. erewrite bind_done by (apply attempt_done, Hread). cbn beta iota.
      rewrite decide_False; [split; [done|intros x Heq; discriminate Heq]|].
      intros Hid. rewrite Hid, Hv in He. unfold path_matches_id in He.
      destruct (valid_json_name wanted Hv) as [Hst _]. rewrite Hst in He.
      by rewrite bool_decide_true in He.
  - exfalso. by apply (Hwf (wanted +:+ ".json")).
  - right. eexists. split; [by apply find_missing|done].
Qed.

(** The search for an identifier, with any result. *)
Lemma resolve_cases d u request now fuel :
  (forall k, d_entries d !! k <> Some Directory) -> forall k,
  (forall i, (i < k)%nat -> occupied d request (candidate request now i)) ->
  Z.of_nat (k + fuel) < U64_MAX ->
  (exists n r, (n <= k + fuel)%nat /\ first_usable d request now n r
     /\ resolve_entry_id fuel request now (salt_of k) (World d [] u)
        = (Done (candidate request now n, r), World d [] u))
  \/ exists o, (forall x, o <> Done x)
     /\ resolve_entry_id fuel request now (salt_of k) (World d [] u) = (o, World d [] u).
Proof.
  intros Hwf. induction fuel as [|fuel IH]; intros k Hocc Hk; cbn [resolve_entry_id];
    fold (candidate request now k);
    destruct (find_cases d u (candidate request now k) Hwf) as
      [(e & Hf & He & Hid)|(err & Hf & Herr)].
  1,3: erewrite bind_done by (apply attempt_done, Hf); cbn beta iota; case_decide as Hreq.
  1,3: left; exists k, (Some e); split; [lia|]; split; [|done];
       split; [lia|]; split; [done|]; by constructor.
  - right. eexists. split; [|done]. done.
  - rewrite salt_succ by lia.
    destruct (IH (S k)) as [(n & r & Hn & Hfu & Hrun)|Hrun]; [|lia| |by right].
    + intros i Hi. destruct (decide (i = k)) as [->|Hne]; [by exists e|]. apply Hocc. lia.
    + left. exists n, r. split; [lia|]. done.
  - erewrite bind_done by (apply attempt_failed, Hf). cbn beta iota.
    destruct err; try (right; eexists; split; [|done]; done).
    left. exists k, None. split; [lia|]. split; [|done]. split; [lia|]. split; [done|].
    constructor. by eapply Herr.
  - erewrite bind_done by (apply attempt_failed, Hf). cbn beta iota.
    destruct err; try (right; eexists; split; [|done]; done).
    left. exists k, None. split; [lia|]. split; [|done]. split; [lia|]. split; [done|].
    constructor. by eapply Herr.
Qed.

(** ** Admission *)

(** The checks of [write_entry_with_usage] for a new file. *)
Definition admit_checks (e : t) (c : bytes) (usage : QueueUsage) : result StoreError unit :=
  if MAX_QUEUE_ENTRIES <? count usage + 1 then Err (QueueFull MAX_QUEUE_ENTRIES)
  else
    match ensure_entry_size (zlen c) (sat_sub MAX_ENTRY_BYTES ENTRY_MUTATION_HEADROOM_BYTES) with
    | Err err => Err err
    | Ok _ =>
        ensure_queue_bytes (sat_sub (used_bytes usage) 0)
          (sat_add (sat_add (zlen c) (sat_sub (headroom_bytes usage) 0)) (entry_headroom e))
    end.

Lemma write_entry_new d u e c usage :
  is_valid_id (id e) = true -> d_entries d !! (id e +:+ ".json") = None ->
  (forall k, d_entries d !! k <> Some Directory) ->
  entry_to_vec_pretty e = Some c ->
  write_entry_with_usage e usage (World d [] u)
  = match admit_checks e c usage with
    | Err err => (Failed err, World d [] u)
    | Ok _ => (Done tt, World (replaced (entry_file (id e)) c d) [] u)
    end.
Proof.
  intros Hv Hm Hreg Hvec. unfold write_entry_with_usage, admit_checks. rewrite Hvec.
  unfold entry_path. rewrite Hv. cbn [lift serde_some].
  do 2 (erewrite bind_done by done).
  erewrite (bind_done _ _ _ None).
  2:{ unfold previous_size. erewrite (bind_done _ _ _ (Err (Io (os_error NotFound)))); [done|].
      apply attempt_failed. rewrite metadata_quiet. unfold dget. simpl. by rewrite Hm. }
  rewrite bool_decide_true by done. destruct (_ <? _); [done|].
  destruct (ensure_entry_size _ _) as [err|[]]; [done|]. cbn [lift].
  do 2 (erewrite bind_done by done). cbn [default].
  destruct (ensure_queue_bytes _ _) as [err|[]]; [done|]. cbn [lift].
  erewrite bind_done by done. apply write_atomic_quiet; [by apply tmp_entry_file_ne| |apply Hreg].
  fold (entry_file (id e)). rewrite tmp_entry_file by done. apply Hreg.
Qed.

Definition options_typed (o : PutOptions.t) : Prop :=
  is_u64 (PutOptions.cooldown o) /\ is_u64 (PutOptions.flutter_seconds o).

Lemma new_entry_ok wanted u es request options now :
  is_valid_id wanted = true -> request_typed request -> options_typed options -> is_u64 now ->
  entry_ok (new_entry wanted (new_v4 u) es request options now).
Proof.
  intros Hv Hr [Hc Hf] Hn. split; [|done]. unfold entry_typed, new_entry. simpl.
  split; [by apply valid_id_utf8|]. split; [apply new_v4_utf8|].
  split; [destruct (last es); [apply i64_sat_add_i64|done]|].
  split_and!; try done. destruct (PutOptions.immediate options); [done|]. auto with machine.
Qed.

(** What the checks establish. *)
Lemma admit_checks_ok e c usage :
  admit_checks e c usage = Ok tt ->
  0 <= used_bytes usage -> 0 <= headroom_bytes usage -> 0 <= entry_headroom e ->
  count usage < MAX_QUEUE_ENTRIES
  /\ zlen c + ENTRY_MUTATION_HEADROOM_BYTES <= MAX_ENTRY_BYTES
  /\ used_bytes usage + headroom_bytes usage + zlen c + entry_headroom e <= MAX_QUEUE_BYTES.
Proof.
  unfold admit_checks, ensure_entry_size, ensure_queue_bytes. intros Hadm Hu Hh He.
  pose proof (zlen_nonneg c).
  destruct (Z.ltb_spec MAX_QUEUE_ENTRIES (count usage + 1)); [done|].
  destruct (Z.ltb_spec (sat_sub MAX_ENTRY_BYTES ENTRY_MUTATION_HEADROOM_BYTES) (zlen c)); [done|].
  destruct (Z.ltb_spec MAX_QUEUE_BYTES (sat_add (sat_sub (used_bytes usage) 0)
    (sat_add (sat_add (zlen c) (sat_sub (headroom_bytes usage) 0)) (entry_headroom e)))); [done|].
  clear Hadm. split_and!; capacity.
Qed.

(** A refusal names the limit. *)
Lemma admit_checks_category e c usage err :
  admit_checks e c usage = Err err ->
  category err ∈ ["queue_full"; "entry_too_large"; "byte_budget_exceeded"].
Proof.
  unfold admit_checks, ensure_entry_size, ensure_queue_bytes.
  destruct (_ <? count usage + 1); [intros [= <-]; left|].
  destruct (_ <? zlen c); [intros [= <-]; right; left|].
  destruct (MAX_QUEUE_BYTES <? _); [intros [= <-]; right; right; left|done].
Qed.

(** The reservation of a new entry covers its later growth. *)
Lemma new_growth e :
  is_i64 (order e) -> claim_token e = None -> incarnation e <> "" ->
  maximum_mutation_growth e <= ENTRY_MUTATION_HEADROOM_BYTES.
Proof.
  intros Ho Hnone Hinc. pose proof (order_width_range e Ho) as Hw.
  assert (Hcw : claim_width e = 4) by (unfold claim_width; by rewrite Hnone).
  assert (Hig : incarnation_growth e = 0) by (unfold incarnation_growth; by rewrite decide_False).
  rewrite maximum_mutation_growth_exact; [|done|by rewrite Hnone].
  unfold ENTRY_MUTATION_HEADROOM_BYTES. lia.
Qed.

(** An admitted entry keeps the invariant and is placed by its key. *)
Lemma admitted_directory d e c :
  disk_wf d -> entry_ok e -> claim_token e = None -> incarnation e <> "" ->
  d_entries d !! (id e +:+ ".json") = None -> entry_to_vec_pretty e = Some c ->
  admit_checks e c (usage_of (d_entries d)) = Ok tt ->
  let d' := replaced (entry_file (id e)) c d in
  disk_wf d' /\ queue d' = sort_entries (e :: queue d)
  /\ d_root d' = d_root d /\ d_deletions d' = d_deletions d.
Proof.
  intros Hwf Hok Hnone Hinc Hm Hvec Hadm d'. pose proof Hok as (Hty & Hv & Hc).
  assert (Ho : is_i64 (order e)) by apply Hty.
  pose proof (new_growth e Ho Hnone Hinc) as Hgrow.
  destruct (admit_checks_ok e c _ Hadm) as (Hcnt & Hsz & Hbud).
  { apply zsum_sizes_nonneg. }
  { apply zsum_headroom_nonneg. }
  { apply entry_headroom_range. }
  destruct (added_directory (d_entries d) e c (wf_entries d Hwf) Hm) as [Hwf' Hq'].
  - split; [done|]. split; [done|]. split; [done|]. cbn [snd]. lia.
  - exact Hcnt.
  - exact Hbud.
  - rewrite <- replaced_entries in Hwf', Hq' by done. split_and!; try done.
    destruct Hwf. by constructor.
Qed.

(** The new entry goes to the tail unless the key space is exhausted. *)
Lemma new_entry_tail d wanted inc request options now :
  let e := new_entry wanted inc (queue d) request options now in
  (forall x, x ∈ queue d -> id x <> wanted) ->
  (forall tl, last (queue d) = Some tl -> is_i64 (order tl) /\ order tl < I64_MAX) ->
  sort_entries (e :: queue d) = queue d ++ [e].
Proof.
  intros e Hfresh Hlast.
  assert (Hoth : others (id e) (queue d) = queue d)
    by by apply others_fresh, Forall_forall, Hfresh.
  rewrite <- Hoth. apply sort_to_tail; [apply entries_of_NoDup|apply entries_of_sorted|].
  rewrite Hoth. apply Forall_forall. intros x Hx. unfold e, new_entry. simpl.
  destruct (last (queue d)) as [tl|] eqn:Hl.
  - pose proof (sorted_last_le tl _ x (entries_of_sorted _) Hl Hx).
    destruct (Hlast tl eq_refl). machine.
  - apply last_None in Hl. rewrite Hl in Hx. by apply elem_of_nil in Hx.
Qed.

(** ** The whole operation *)

(** A request that is queued already is answered with its entry. *)
Lemma put_queued d u fuel request options now n e :
  disk_wf d -> first_usable d request now n (Some e) -> (n <= fuel)%nat ->
  put_with_eta fuel request options now (World d [] u)
  = (Done (e, eta_of (projected_schedule (PutOptions.cooldown options) now (queue d) (activity d))
                (id e)), World d [] u).
Proof.
  intros Hwf Hn Hfuel. unfold put_with_eta.
  erewrite bind_done by by eapply resolve_entry_id_quiet.
  cbn beta iota.
  erewrite bind_done by (apply entries_with_usage_quiet, store_wf_fits, Hwf).
  cbn beta iota.
  by erewrite bind_done by by apply previous_activity_quiet.
Qed.

(** The entry a new request becomes, and its estimate. *)
Definition put_entry d u request options now n : t :=
  new_entry (candidate request now n) (new_v4 u) (queue d) request options now.
Definition put_eta d options now (e : t) : Z :=
  eta_of (projected_schedule (PutOptions.cooldown options) now (queue d ++ [e]) (activity d))
    (id e).

Lemma first_usable_fresh d request now n :
  first_usable d request now n None ->
  d_entries d !! (candidate request now n +:+ ".json") = None
  /\ (forall x, x ∈ queue d -> id x <> candidate request now n).
Proof.
  intros (_ & _ & Hv). inversion Hv as [Hm|]; subst. split; [done|].
  intros x (c & Hc & _)%entries_of_elem%valid_entries_elem Heq. congruence.
Qed.

(** A new request is refused with the store unchanged, or admitted. *)
Lemma put_new d u fuel request options now n :
  disk_wf d -> first_usable d request now n None -> (n <= fuel)%nat ->
  request_typed request -> options_typed options -> is_u64 now ->
  let e := put_entry d u request options now n in
  exists c, entry_to_vec_pretty e = Some c
  /\ put_with_eta fuel request options now (World d [] u)
     = if MAX_QUEUE_ENTRIES <=? zlen (queue d)
       then (Failed (QueueFull MAX_QUEUE_ENTRIES), World d [] u)
       else match admit_checks e c (usage_of (d_entries d)) with
            | Err err => (Failed err, World d [] (S u))
            | Ok _ => (Done (e, put_eta d options now e),
                       World (replaced (entry_file (id e)) c d) [] (S u))
            end.
Proof.
  intros Hwf Hn Hfuel Hr Ho Hnow e.
  assert (Hok : entry_ok e) by (apply new_entry_ok; try done; apply entry_id_with_salt_valid).
  destruct (entry_to_vec_total e) as [c Hc]; [apply Hok|]. exists c. split; [done|].
  destruct (first_usable_fresh d request now n Hn) as [Hm _].
  unfold put_with_eta. erewrite bind_done by by eapply resolve_entry_id_quiet.
  cbn beta iota.
  erewrite bind_done by (apply entries_with_usage_quiet, store_wf_fits, Hwf).
  cbn beta iota.
  erewrite bind_done by by apply previous_activity_quiet. cbn beta iota.
  destruct (_ <=? _); [done|].
  erewrite (bind_done _ _ _ (new_v4 u)) by done. cbn [w_disk w_faults w_uuids].
  fold e. pose proof (write_entry_new d (S u) e c (usage_of (d_entries d))) as Hw.
  destruct (admit_checks e c (usage_of (d_entries d))) as [err|[]].
  - apply bind_failed. apply Hw; [apply Hok|done|apply (wf_entries d Hwf)|done].
  - erewrite bind_done; [done|]. apply Hw; [apply Hok|done|apply (wf_entries d Hwf)|done].
Qed.

(** An admitted request is the last entry of the queue. *)
Lemma put_admitted d u fuel request options now n e eta w' :
  disk_wf d -> first_usable d request now n None -> (n <= fuel)%nat ->
  request_typed request -> options_typed options -> is_u64 now ->
  (forall tl, last (queue d) = Some tl -> order tl < I64_MAX) ->
  put_with_eta fuel request options now (World d [] u) = (Done (e, eta), w') ->
  disk_wf (w_disk w') /\ queue (w_disk w') = queue d ++ [e]
  /\ e = put_entry d u request options now n /\ eta = put_eta d options now e
  /\ d_root (w_disk w') = d_root d /\ d_deletions (w_disk w') = d_deletions d.
Proof.
  intros Hwf Hn Hfuel Hr Ho Hnow Hmax Hrun.
  destruct (put_new d u fuel request options now n) as (c & Hc & Heq); try done.
  rewrite Hrun in Heq. destruct (_ <=? _); [done|].
  destruct (admit_checks _ _ _) as [|[]] eqn:Hadm; [done|]. injection Heq as -> -> ->.
  destruct (first_usable_fresh d request now n Hn) as [Hm Hfresh].
  set (e := put_entry d u request options now n) in *.
  assert (Hok : entry_ok e) by (apply new_entry_ok; try done; apply entry_id_with_salt_valid).
  destruct (admitted_directory d e c) as (Hwf' & Hq & Hroot & Hdel); try done.
  { apply new_v4_nonempty. }
  change (id e) with (candidate request now n) in Hq. cbn [w_disk].
  split_and!; try done. rewrite Hq. apply new_entry_tail; [done|].
  intros tl Hl. split; [|by apply Hmax]. apply (wf_order d); [done|].
  apply last_Some in Hl as [l ->]. apply elem_of_app. right. by left.
Qed.

(** The estimate is that of the last place. *)
Lemma put_eta_last d options now e :
  (forall x, x ∈ queue d -> id x <> id e) ->
  last (projected_schedule (PutOptions.cooldown options) now (queue d ++ [e]) (activity d))
  = Some (e, put_eta d options now e).
Proof.
  intros Hfresh. unfold put_eta, eta_of.
  destruct (projected_schedule_app (PutOptions.cooldown options) now (queue d) [e] (activity d))
    as [previous ->]. cbn [projected_schedule]. rewrite last_snoc.
  rewrite list_find_app_r.
  2:{ apply list_find_None, Forall_forall. intros [x eta] Hx. simpl. apply Hfresh.
      rewrite <- (projected_schedule_fst (PutOptions.cooldown options) now (queue d) (activity d)).
      apply list_elem_of_fmap. by exists (x, eta). }
  simpl. by rewrite decide_True.
Qed.

(** A refused request leaves every file as it was. *)
Lemma put_refused d u fuel request options now n err w' :
  disk_wf d -> first_usable d request now n None -> (n <= fuel)%nat ->
  request_typed request -> options_typed options -> is_u64 now ->
  put_with_eta fuel request options now (World d [] u) = (Failed err, w') ->
  w_disk w' = d /\ category err ∈ ["queue_full"; "entry_too_large"; "byte_budget_exceeded"].
Proof.
  intros Hwf Hn Hfuel Hr Ho Hnow Hrun.
  destruct (put_new d u fuel request options now n) as (c & Hc & Heq); try done.
  rewrite Hrun in Heq. destruct (_ <=? _).
  { injection Heq as -> ->. split; [done|]. left. }
  destruct (admit_checks _ _ _) as [err'|[]] eqn:Hadm; [|done].
  injection Heq as -> ->. split; [done|]. by eapply admit_checks_category.
Qed.
End enqueue.

(** * Results *)

(** C27: an admitted request becomes the last entry of the queue and the rest of
    the queue is unchanged; its identifier is the first usable digest, its order
    follows the tail and the store stays within its limits. *)
Theorem put_appends `{Platform} `{!PlatformOk} `{SerdeJson} `{!SerdeJsonOk} d u fuel request options now n e eta w' :
  disk_wf d -> first_usable d request now n None -> (n <= fuel)%nat ->
  request_typed request -> options_typed options -> is_u64 now ->
  (forall tl, last (entries_of (d_entries d)) = Some tl -> order tl < I64_MAX) ->
  put_with_eta fuel request options now (World d [] u) = (Done (e, eta), w') ->
  disk_wf (w_disk w')
  /\ entries_of (d_entries (w_disk w')) = entries_of (d_entries d) ++ [e]
  /\ id e = candidate request now n /\ StoredEntry.request e = request
  /\ claim_token e = None
  /\ last (projected_schedule (PutOptions.cooldown options) now
             (entries_of (d_entries (w_disk w'))) (activity d)) = Some (e, eta)
  /\ d_root (w_disk w') = d_root d /\ d_deletions (w_disk w') = d_deletions d.
Proof.
  intros Hwf Hn Hf Hr Ho Hnow Hmax Hrun.
  destruct (put_admitted d u fuel request options now n e eta w')
    as (Hwf' & Hq & He & Heta & Hroot & Hdel); try done.
  rewrite Hq. subst e. split_and!; try done. rewrite Heta. apply put_eta_last.
  intros x Hx. by destruct (first_usable_fresh d request now n Hn) as [_ Hfr]; apply Hfr.
Qed.

(** A request that is not admitted leaves every file as it was, and the error
    names the limit it meets. *)
Theorem put_refusal_changes_nothing `{Platform} `{!PlatformOk} `{SerdeJson} `{!SerdeJsonOk} d u fuel request options now n err w' :
  disk_wf d -> first_usable d request now n None -> (n <= fuel)%nat ->
  request_typed request -> options_typed options -> is_u64 now ->
  put_with_eta fuel request options now (World d [] u) = (Failed err, w') ->
  w_disk w' = d /\ category err ∈ ["queue_full"; "entry_too_large"; "byte_budget_exceeded"].
Proof. apply put_refused. Qed.

(** Enqueueing a request that is queued already returns the queued entry and
    its place in the schedule, and writes nothing. *)
Theorem put_is_idempotent `{Platform} `{!PlatformOk} `{SerdeJson} `{!SerdeJsonOk} d u fuel request options now n e :
  disk_wf d -> first_usable d request now n (Some e) -> (n <= fuel)%nat ->
  put_with_eta fuel request options now (World d [] u)
  = (Done (e, eta_of (projected_schedule (PutOptions.cooldown options) now
                        (entries_of (d_entries d)) (activity d)) (id e)), World d [] u).
Proof. apply put_queued. Qed.
