(* ===== verification/Lines.v ===== *)
(** Forward reads of the history log ([store/history.rs]): the buffered reader
    yields exactly the lines of the snapshot, whatever the buffer boundaries,
    and a page is the records of a run of consecutive lines. *)

From S2P Require Import Prelude Text Protocol Disk Entry Order Bounds Scan History.

(** * Lines *)

(** The first line of a text, with its newline when it has one, and the rest. *)
Fixpoint first_line (b : bytes) : bytes :=
  match b with
  | [] => []
  | c :: r => if decide (c = NEWLINE) then [c] else c :: first_line r
  end.
Fixpoint rest_lines (b : bytes) : bytes :=
  match b with
  | [] => []
  | c :: r => if decide (c = NEWLINE) then r else rest_lines r
  end.

(** The lines of a text, each with its newline when it has one. *)
Fixpoint lines (b : bytes) : list bytes :=
  match b with
  | [] => []
  | c :: r =>
      if decide (c = NEWLINE) then [c] :: lines r
      else match lines r with
           | [] => [[c]]
           | l :: ls => (c :: l) :: ls
           end
  end.

Lemma first_rest b : first_line b ++ rest_lines b = b.
Proof. induction b as [|c r IH]; [done|]. simpl. case_decide; simpl; by rewrite ?IH. Qed.

Lemma lines_first b : b <> [] -> lines b = first_line b :: lines (rest_lines b).
Proof.
  induction b as [|c r IH]; [done|]. intros _. simpl. case_decide; [done|].
  destruct r as [|c' r]; [done|]. by rewrite IH.
Qed.

Lemma lines_concat b : concat (lines b) = b.
Proof.
  induction b as [|c r IH]; [done|]. simpl. case_decide; simpl; [by rewrite IH|].
  destruct (lines r) as [|l ls] eqn:E; simpl in *; by rewrite <- IH.
Qed.

Lemma lines_nonempty b : Forall (fun l => l <> []) (lines b).
Proof.
  induction b as [|c r IH]; simpl; [constructor|]. case_decide; [by constructor|].
  destruct (lines r); [by repeat constructor|]. apply Forall_cons_1 in IH as [_ IH].
  by constructor.
Qed.

Lemma first_line_nonempty b : b <> [] -> first_line b <> [].
Proof. destruct b as [|c b]; [done|]. intros _. simpl. by case_decide. Qed.

Lemma newline_index_some x i y :
  newline_index x = Some i ->
  0 <= i < zlen x /\ first_line (x ++ y) = ztake (i + 1) x
  /\ forall z, ztake (i + 1) (x ++ z) = ztake (i + 1) x.
Proof.
  revert i. induction x as [|c x IH]; intros i Hi; [done|]. simpl in *. rewrite zlen_cons.
  pose proof (zlen_nonneg x). case_decide; simplify_eq.
  - split; [lia|]. split.
    + destruct x; done.
    + intros z. by destruct x, z.
  - destruct (newline_index x) as [j|] eqn:E; simplify_eq.
    destruct (IH j) as (Hj & Hf & Hz); [done|]. split; [lia|].
    destruct (Z.leb_spec (1 + j + 1) 0); [lia|].
    replace (1 + j + 1 - 1) with (j + 1) by lia. split; [by rewrite Hf|].
    intros z. by rewrite Hz.
Qed.

Lemma newline_index_none x y :
  newline_index x = None ->
  first_line (x ++ y) = x ++ first_line y /\ rest_lines (x ++ y) = rest_lines y.
Proof.
  induction x as [|c x IH]; intros Hx; [done|]. simpl in *. case_decide; [done|].
  destruct (newline_index x); [done|]. destruct IH as [-> ->]; done.
Qed.

(** A text ends a line where the next one starts. *)
Lemma lines_app x y :
  (x = [] \/ last x = Some NEWLINE) -> lines (x ++ y) = lines x ++ lines y.
Proof.
  induction x as [|c x IH]; intros Hx; [done|]. simpl. case_decide.
  - rewrite IH; [done|]. destruct x; [by left|]. destruct Hx as [|Hx]; [done|by right].
  - destruct x as [|c' x].
    { destruct Hx as [|Hx]; [done|]. simpl in Hx. congruence. }
    rewrite IH by (right; by destruct Hx). by rewrite (lines_first (c' :: x)).
Qed.

Lemma lines_single l : NEWLINE ∉ l -> lines (l ++ [NEWLINE]) = [l ++ [NEWLINE]].
Proof.
  induction l as [|c l IH]; intros Hl; [done|]. apply not_elem_of_cons in Hl as [Hc Hl].
  simpl. rewrite decide_False by congruence. by rewrite IH.
Qed.

(** * The buffered reader *)

(** The reader stands before [rest]: what it has buffered is a prefix of it. *)
Definition reader_at (r : reader) (pos : Z) (rest : bytes) : Prop :=
  r_pos r = pos /\ exists k, rest = r_buf r ++ k.

Lemma zdrop_app {A} (x y : list A) : zdrop (zlen x) (x ++ y) = y.
Proof.
  rewrite zdrop_drop. unfold zlen. rewrite Nat2Z.id. apply drop_app_length.
Qed.
Lemma ztake_app {A} (x y : list A) : ztake (zlen x) (x ++ y) = x.
Proof.
  rewrite ztake_take. unfold zlen. rewrite Nat2Z.id. apply take_app_length.
Qed.
Lemma ztake_zdrop {A} n (l : list A) : ztake n l ++ zdrop n l = l.
Proof. rewrite ztake_take, zdrop_drop. apply take_drop. Qed.
Lemma zlen_ztake {A} n (l : list A) : 0 <= n -> zlen (ztake n l) = Z.min n (zlen l).
Proof. intros. rewrite ztake_take. unfold zlen. rewrite length_take. lia. Qed.
Lemma zlen_zero {A} (l : list A) : zlen l = 0 -> l = [].
Proof. destruct l; [done|]. rewrite zlen_cons. pose proof (zlen_nonneg l). lia. Qed.
Lemma zlen_pos {A} (l : list A) : l <> [] -> 0 < zlen l.
Proof. destruct l; [done|]. intros _. rewrite zlen_cons. pose proof (zlen_nonneg l). lia. Qed.

Section reader.
Context (p : path) (d : disk) (u : nat).

Lemma fill_buf_quiet r pre rest :
  dget d p = Some (Regular (pre ++ rest)) -> rest <> [] -> reader_at r (zlen pre) rest ->
  exists r', fill_buf p r (World d [] u) = (Done r', World d [] u)
    /\ reader_at r' (zlen pre) rest /\ r_buf r' <> [].
Proof.
  intros Hp Hne [Hpos [k Hk]]. unfold fill_buf. destruct (r_buf r) as [|a buf] eqn:Hbuf.
  - eexists. split.
    { erewrite bind_done; [done|]. rewrite query_quiet, Hp. done. }
    rewrite Hpos. unfold slice. rewrite zdrop_app. simpl. split.
    + split; [done|]. exists (zdrop BUF_CAPACITY rest). symmetry. apply ztake_zdrop.
    + destruct rest; done.
  - exists r. split; [done|]. split; [|by rewrite Hbuf]. split; [done|]. exists k. by rewrite Hbuf.
Qed.

Lemma consume_at r pos x rest :
  reader_at r pos (x ++ rest) -> zlen x <= zlen (r_buf r) ->
  reader_at (consume (zlen x) r) (pos + zlen x) rest.
Proof.
  intros [Hpos [k Hk]] Hle. unfold consume. split; [simpl; lia|]. simpl.
  assert (exists y, r_buf r = x ++ y) as [y Hy].
  { exists (zdrop (zlen x) (r_buf r)). rewrite <- (ztake_zdrop (zlen x) (r_buf r)) at 1.
    f_equal. rewrite ztake_take. unfold zlen in *. rewrite Nat2Z.id.
    rewrite <- (take_app_le (r_buf r) k) by lia. rewrite <- Hk. apply take_app_length. }
  rewrite Hy, zdrop_app. exists k. rewrite Hy, <- app_assoc in Hk. by apply app_inv_head in Hk.
Qed.
End reader.

Lemma history_limit : MAX_HISTORY_LINE_BYTES = 2097152 /\ U64_MAX = 18446744073709551615.
Proof. done. Qed.
Ltac line_lia := pose proof history_limit as [? ?]; unfold sat_add, sat_sub in *; lia.

(** The part of a buffer that lies within the snapshot. *)
Lemma visible_part (buf k b post : bytes) :
  b ++ post = buf ++ k -> buf <> [] -> b <> [] ->
  let x := ztake (Z.min (zlen buf) (zlen b)) buf in
  exists b', b = x ++ b' /\ x <> [] /\ zlen x = Z.min (zlen buf) (zlen b)
    /\ exists buf', buf = x ++ buf'.
Proof.
  intros Heq Hbuf Hb x. pose proof (zlen_pos buf Hbuf). pose proof (zlen_pos b Hb).
  assert (Hlen : zlen x = Z.min (zlen buf) (zlen b)) by (unfold x; rewrite zlen_ztake; lia).
  assert (Hx : x = ztake (Z.min (zlen buf) (zlen b)) b).
  { unfold x. rewrite !ztake_take.
    rewrite <- (take_app_le buf k), <- (take_app_le b post) by (unfold zlen; lia).
    by rewrite Heq. }
  exists (zdrop (Z.min (zlen buf) (zlen b)) b). split_and!; [by rewrite Hx, ztake_zdrop| |done|].
  - intros Hnil. rewrite Hnil in Hlen. change (zlen (@nil ascii)) with 0 in Hlen. lia.
  - exists (zdrop (Z.min (zlen buf) (zlen b)) buf). symmetry. apply ztake_zdrop.
Qed.

Lemma match_nonempty {A B} (l : list A) (x y : B) :
  l <> [] -> match l with [] => x | _ :: _ => y end = y.
Proof. by destruct l. Qed.

(** The oversize flag of the loop, turn by turn. *)
Lemma over_now over a b :
  0 <= a -> 0 <= b ->
  negb (negb over && (sat_add a b <=? MAX_HISTORY_LINE_BYTES))
  = over || (MAX_HISTORY_LINE_BYTES <? a + b).
Proof.
  intros Ha Hb. destruct over; [done|]. simpl.
  destruct (Z.leb_spec (sat_add a b) MAX_HISTORY_LINE_BYTES),
    (Z.ltb_spec MAX_HISTORY_LINE_BYTES (a + b)); try done; line_lia.
Qed.

Lemma over_later over (line x : bytes) f :
  0 <= f ->
  let keep := negb over && (sat_add (zlen line) (zlen x) <=? MAX_HISTORY_LINE_BYTES) in
  negb keep || (MAX_HISTORY_LINE_BYTES <? zlen (if keep then line ++ x else line) + f)
  = over || (MAX_HISTORY_LINE_BYTES <? zlen line + (zlen x + f)).
Proof.
  intros Hf keep. pose proof (zlen_nonneg line). pose proof (zlen_nonneg x).
  unfold keep. destruct over; [done|]. simpl.
  destruct (Z.leb_spec (sat_add (zlen line) (zlen x)) MAX_HISTORY_LINE_BYTES); simpl.
  - rewrite zlen_app. f_equal. lia.
  - symmetry. apply Z.ltb_lt. line_lia.
Qed.

Section lines.
Context `{SerdeJson}.
Context (p : path) (d : disk) (u : nat).

(** What the reader reports of a line that follows [line]: its end, whether it
    is oversized, and its text when it is not. *)
Lemma read_snapshot_line_quiet b :
  forall fuel pre post r line oversized,
  (length b <= fuel)%nat ->
  dget d p = Some (Regular (pre ++ b ++ post)) ->
  reader_at r (zlen pre) (b ++ post) ->
  (oversized = false -> zlen line <= MAX_HISTORY_LINE_BYTES) ->
  exists r' line' over,
    read_snapshot_line fuel p r (zlen pre) (zlen pre + zlen b) line oversized (World d [] u)
    = (Done (r', zlen pre + zlen (first_line b), line', over), World d [] u)
    /\ reader_at r' (zlen pre + zlen (first_line b)) (rest_lines b ++ post)
    /\ over = oversized || (MAX_HISTORY_LINE_BYTES <? zlen line + zlen (first_line b))
    /\ (over = false -> line' = line ++ first_line b).
Proof.
  induction b as [b IH] using (induction_ltof1 _ (@length ascii)). unfold ltof in IH.
  intros fuel pre post r line oversized Hfuel Hp Hr Hline.
  destruct (decide (b = [])) as [->|Hb].
  { exists r, line, oversized. simpl. rewrite zlen_nil, !Z.add_0_r.
    split. { destruct fuel; simpl; by rewrite Z.ltb_irrefl. }
    split; [done|]. split; [|by rewrite app_nil_r]. destruct oversized; [done|].
    specialize (Hline eq_refl). by destruct (Z.ltb_spec MAX_HISTORY_LINE_BYTES (zlen line)); [lia|]. }
  pose proof (zlen_pos b Hb) as Hpos.
  destruct fuel as [|fuel]; [destruct b; simpl in *; [done|lia]|]. cbn [read_snapshot_line].
  destruct (Z.ltb_spec (zlen pre) (zlen pre + zlen b)); [|lia].
  destruct (fill_buf_quiet p d u r pre (b ++ post)) as (r1 & Hfill & Hr1 & Hne); [done| |done|].
  { destruct b; done. }
  erewrite bind_done by exact Hfill. pose proof Hr1 as [_ [k Hk]].
  replace (zlen pre + zlen b - zlen pre) with (zlen b) by lia.
  destruct (visible_part (r_buf r1) k b post Hk Hne Hb) as (b' & Hbx & Hxne & Hlx & buf' & Hbuf).
  set (x := ztake (Z.min (zlen (r_buf r1)) (zlen b)) (r_buf r1)) in *.
  rewrite (match_nonempty (r_buf r1)) by done. cbn zeta. fold x. destruct (newline_index x) as [i|] eqn:Hni.
  - destruct (newline_index_some x i b' Hni) as (Hi & Hf & Hz).
    assert (Hfl : first_line b = ztake (i + 1) x) by by rewrite Hbx.
    assert (Htake : ztake (i + 1) (r_buf r1) = first_line b) by by rewrite Hfl, Hbuf.
    assert (Hlen : zlen (first_line b) = i + 1) by (rewrite Hfl, zlen_ztake; lia).
    rewrite Htake, <- Hlen.
    do 3 eexists. split; [done|]. split_and!.
    + apply consume_at; [by rewrite app_assoc, first_rest|].
      rewrite Hbuf, zlen_app. pose proof (zlen_nonneg buf'). lia.
    + apply over_now; apply zlen_nonneg.
    + intros Hov%negb_false_iff. by rewrite Hov.
  - destruct (newline_index_none x b' Hni) as [Hf Hrest]. rewrite <- Hbx in Hf, Hrest.
    rewrite <- Hlx. assert (Htake : ztake (zlen x) (r_buf r1) = x) by (rewrite Hbuf; apply ztake_app).
    rewrite Htake.
    set (keep := negb oversized && (sat_add (zlen line) (zlen x) <=? MAX_HISTORY_LINE_BYTES)).
    destruct (IH b') with (fuel := fuel) (pre := pre ++ x) (post := post)
      (r := consume (zlen x) r1) (line := if keep then line ++ x else line)
      (oversized := negb keep) as (r' & line' & over & Hrun & Hr' & Hover & Hline').
    + rewrite Hbx, length_app. destruct x; [done|]. simpl. lia.
    + rewrite Hbx, length_app in Hfuel. destruct x; [done|]. simpl in Hfuel. lia.
    + by rewrite Hp, Hbx, <- !app_assoc.
    + rewrite zlen_app. apply consume_at; [by rewrite app_assoc, <- Hbx|].
      rewrite Hbuf, zlen_app. pose proof (zlen_nonneg buf'). lia.
    + intros Hk'%negb_false_iff. rewrite Hk'. unfold keep in Hk'.
      apply andb_true_iff in Hk' as [_ Hle%Z.leb_le]. rewrite zlen_app. line_lia.
    + assert (Hlb : zlen b = zlen x + zlen b') by (rewrite Hbx at 1; apply zlen_app).
      assert (Hlf : zlen (first_line b) = zlen x + zlen (first_line b'))
        by (rewrite Hf; apply zlen_app).
      rewrite zlen_app in Hrun, Hr'.
      exists r', line', over. rewrite Hlb, Hlf, Hrest.
      replace (zlen pre + (zlen x + zlen b')) with (zlen pre + zlen x + zlen b') by lia.
      replace (zlen pre + (zlen x + zlen (first_line b')))
        with (zlen pre + zlen x + zlen (first_line b')) by lia.
      split; [exact Hrun|]. split; [done|].
      split; [rewrite Hover; apply over_later, zlen_nonneg|].
      intros Hov. rewrite (Hline' Hov). rewrite Hov in Hover.
      symmetry in Hover. apply orb_false_iff in Hover as [Hk'%negb_false_iff _].
      by rewrite Hk', Hf, app_assoc.
Qed.

(** ** Records *)

(** The record a line of the forward scan holds. *)
Definition line_record (l : bytes) : option HistoryRecord.t :=
  if zlen l <=? MAX_HISTORY_LINE_BYTES then parse_line l else None.

(** One line, as [read_record] and [contains_attempt] read it. *)
Lemma read_line_quiet b pre post r :
  dget d p = Some (Regular (pre ++ b ++ post)) -> reader_at r (zlen pre) (b ++ post) ->
  exists r' line',
    read_snapshot_line (line_fuel (zlen pre) (zlen pre + zlen b)) p r (zlen pre)
      (zlen pre + zlen b) [] false (World d [] u)
    = (Done (r', zlen pre + zlen (first_line b), line',
             MAX_HISTORY_LINE_BYTES <? zlen (first_line b)), World d [] u)
    /\ reader_at r' (zlen (pre ++ first_line b)) (rest_lines b ++ post)
    /\ (zlen (first_line b) <= MAX_HISTORY_LINE_BYTES -> line' = first_line b).
Proof.
  intros Hp Hr.
  destruct (read_snapshot_line_quiet b (line_fuel (zlen pre) (zlen pre + zlen b)) pre post r []
    false) as (r' & line' & over & Hrun & Hr' & Hover & Hline'); [| done| done| |].
  { unfold line_fuel, zlen. lia. }
  { intros _. rewrite zlen_nil. line_lia. }
  rewrite zlen_nil, Z.add_0_l in Hover. simpl in Hover. subst over.
  exists r', line'. split; [done|]. split; [by rewrite zlen_app|].
  intros Hle. apply Hline'. apply Z.ltb_ge. lia.
Qed.

Lemma read_record_quiet b pre post r :
  dget d p = Some (Regular (pre ++ b ++ post)) -> reader_at r (zlen pre) (b ++ post) ->
  let stop := zlen pre + zlen (first_line b) in
  exists r', read_record p r (zlen pre) (zlen pre + zlen b) (World d [] u)
    = (Done (r', stop,
        (fun record => HistoryRecordAt.mk record (HistoryPosition.mk stop (zlen pre + zlen b)))
          <$> line_record (first_line b)), World d [] u)
    /\ reader_at r' (zlen (pre ++ first_line b)) (rest_lines b ++ post).
Proof.
  intros Hp Hr stop. destruct (read_line_quiet b pre post r Hp Hr) as (r' & line' & Hrun & Hr' & Hl).
  exists r'. split; [|done]. unfold read_record. erewrite bind_done by exact Hrun.
  cbn beta iota. unfold line_record.
  destruct (Z.ltb_spec MAX_HISTORY_LINE_BYTES (zlen (first_line b))),
    (Z.leb_spec (zlen (first_line b)) MAX_HISTORY_LINE_BYTES); try lia; [done|].
  rewrite Hl by done. by destruct (parse_line (first_line b)).
Qed.

(** The records of consecutive lines, up to a page, and where the page stops. *)
Fixpoint collect (page_size : Z) (ls : list bytes) (current end_ : Z)
    (acc : list HistoryRecordAt.t) : list HistoryRecordAt.t * Z :=
  match ls with
  | [] => (acc, current)
  | l :: ls =>
      if zlen acc <? page_size then
        let current := current + zlen l in
        collect page_size ls current end_
          (match line_record l with
           | Some record =>
               acc ++ [HistoryRecordAt.mk record (HistoryPosition.mk current end_)]
           | None => acc
           end)
      else (acc, current)
  end.

Lemma read_records_quiet b :
  forall fuel pre post r page_size acc,
  (length b <= fuel)%nat ->
  dget d p = Some (Regular (pre ++ b ++ post)) -> reader_at r (zlen pre) (b ++ post) ->
  read_records fuel p r (zlen pre) (zlen pre + zlen b) page_size acc (World d [] u)
  = (Done (collect page_size (lines b) (zlen pre) (zlen pre + zlen b) acc), World d [] u).
Proof.
  induction b as [b IH] using (induction_ltof1 _ (@length ascii)). unfold ltof in IH.
  intros fuel pre post r page_size acc Hfuel Hp Hr.
  destruct (decide (b = [])) as [->|Hb].
  { rewrite zlen_nil, Z.add_0_r. destruct fuel; simpl; by rewrite Z.ltb_irrefl. }
  pose proof (zlen_pos b Hb). pose proof (first_line_nonempty b Hb) as Hfne.
  assert (Hlen : length b = (length (first_line b) + length (rest_lines b))%nat)
    by by rewrite <- length_app, first_rest.
  assert (Hf1 : (0 < length (first_line b))%nat) by (destruct (first_line b); simpl; [done|lia]).
  destruct fuel as [|fuel]; [lia|]. rewrite lines_first by done. cbn [read_records collect].
  destruct (Z.ltb_spec (zlen pre) (zlen pre + zlen b)); [|lia]. simpl.
  destruct (zlen acc <? page_size); [|done].
  destruct (read_record_quiet b pre post r Hp Hr) as (r' & Hrun & Hr').
  erewrite bind_done by exact Hrun. cbn beta iota.
  replace (zlen pre + zlen b) with (zlen (pre ++ first_line b) + zlen (rest_lines b))
    by (rewrite zlen_app; unfold zlen; lia).
  rewrite <- zlen_app.
  rewrite (IH (rest_lines b) ltac:(lia) fuel (pre ++ first_line b) post r'); [|lia| |done].
  - by destruct (line_record (first_line b)).
  - by rewrite Hp, <- app_assoc, (app_assoc (first_line b)), first_rest.
Qed.

(** ** Attempt identifiers *)

(** A line that [contains_attempt] matches. *)
Definition line_has_attempt (attempt_id : string) (l : bytes) : bool :=
  (zlen l <=? MAX_HISTORY_LINE_BYTES)
  && match record_from_slice l with
     | Ok record => bool_decide (HistoryRecord.attempt_id record = attempt_id)
     | Err _ => false
     end.

Lemma contains_loop_quiet attempt_id b :
  forall fuel pre r,
  (length b <= fuel)%nat ->
  dget d p = Some (Regular (pre ++ b)) -> reader_at r (zlen pre) b ->
  contains_loop fuel p r (zlen pre) (zlen pre + zlen b) attempt_id (World d [] u)
  = (Done (existsb (line_has_attempt attempt_id) (lines b)), World d [] u).
Proof.
  induction b as [b IH] using (induction_ltof1 _ (@length ascii)). unfold ltof in IH.
  intros fuel pre r Hfuel Hp Hr.
  destruct (decide (b = [])) as [->|Hb].
  { rewrite zlen_nil, Z.add_0_r. destruct fuel; simpl; by rewrite Z.ltb_irrefl. }
  pose proof (zlen_pos b Hb). pose proof (first_line_nonempty b Hb) as Hfne.
  assert (Hlen : length b = (length (first_line b) + length (rest_lines b))%nat)
    by by rewrite <- length_app, first_rest.
  assert (Hf1 : (0 < length (first_line b))%nat) by (destruct (first_line b); simpl; [done|lia]).
  destruct fuel as [|fuel]; [lia|]. rewrite lines_first by done.
  cbn [contains_loop existsb].
  destruct (Z.ltb_spec (zlen pre) (zlen pre + zlen b)); [|lia].
  destruct (read_line_quiet b pre [] r) as (r' & line' & Hrun & Hr' & Hl);
    [by rewrite app_nil_r|by rewrite app_nil_r|].
  erewrite bind_done by exact Hrun. cbn beta iota. rewrite app_nil_r in Hr'.
  pose proof (IH (rest_lines b) ltac:(lia) fuel (pre ++ first_line b) r' ltac:(lia)) as Hrest.
  replace (zlen (pre ++ first_line b) + zlen (rest_lines b)) with (zlen pre + zlen b) in Hrest
    by (rewrite zlen_app; unfold zlen; lia).
  rewrite <- app_assoc, first_rest in Hrest. specialize (Hrest Hp Hr').
  rewrite zlen_app in Hrest.
  unfold line_has_attempt at 1.
  destruct (Z.ltb_spec MAX_HISTORY_LINE_BYTES (zlen (first_line b))),
    (Z.leb_spec (zlen (first_line b)) MAX_HISTORY_LINE_BYTES); try lia; [exact Hrest|].
  rewrite Hl by done. destruct (record_from_slice (first_line b)); [exact Hrest|]. simpl.
  case_decide; [by rewrite bool_decide_true|by rewrite bool_decide_false].
Qed.
End lines.
