(* ===== verification/Reverse.v ===== *)
(** The reverse scan of the history log ([store/history/recent.rs],
    [latest_completion] and [recent_start]): reading the file backwards in
    chunks visits the newline-separated pieces of the text from the newest to
    the oldest, wherever the chunk boundaries fall. *)

From S2P Require Import Prelude Text Protocol Disk Entry Order Bounds Scan History Lines.

(** * Pieces of a text *)

(** The newline-separated pieces of a text that starts at offset [s], each with
    the offset of its first byte. *)
Fixpoint pieces (s : Z) (b : bytes) : list (Z * bytes) :=
  match b with
  | [] => [(s, [])]
  | c :: r =>
      if decide (c = NEWLINE) then (s, []) :: pieces (s + 1) r
      else match pieces (s + 1) r with
           | (_, x) :: ps => (s, c :: x) :: ps
           | [] => []
           end
  end.

Lemma pieces_nonempty s b : pieces s b <> [].
Proof.
  revert s. induction b as [|c b IH]; intros s; simpl; [done|]. case_decide; [done|].
  specialize (IH (s + 1)). by destruct (pieces (s + 1) b) as [|[]].
Qed.

Lemma pieces_plain s b : NEWLINE ∉ b -> pieces s b = [(s, b)].
Proof.
  revert s. induction b as [|c b IH]; intros s Hb; simpl; [done|].
  apply not_elem_of_cons in Hb as [Hc Hb]. rewrite decide_False by congruence.
  by rewrite IH.
Qed.

Lemma pieces_newline s x y :
  pieces s (x ++ NEWLINE :: y) = pieces s x ++ pieces (s + zlen x + 1) y.
Proof.
  revert s. induction x as [|c x IH]; intros s; simpl.
  - by rewrite zlen_nil, Z.add_0_r.
  - rewrite IH, zlen_cons. replace (s + 1 + zlen x + 1) with (s + (1 + zlen x) + 1) by lia.
    case_decide; [done|]. pose proof (pieces_nonempty (s + 1) x).
    by destruct (pieces (s + 1) x) as [|[]].
Qed.

(** * The scan *)

Section reverse.
Context `{SerdeJson} {S : Type} (accept : S -> Z -> HistoryRecord.t -> bool * S).

(** The record a piece holds for the reverse scan. *)
Definition piece_record (x : bytes) : option HistoryRecord.t :=
  if zlen x <=? MAX_HISTORY_LINE_BYTES then parse_line x else None.

(** Reference: visit pieces in the given order until one is accepted. *)
Fixpoint scan_pieces (ps : list (Z * bytes)) (acc : S) : option HistoryRecord.t * S :=
  match ps with
  | [] => (None, acc)
  | (s, x) :: ps =>
      match piece_record x with
      | Some record =>
          let '(hit, acc) := accept acc s record in
          if hit then (Some record, acc) else scan_pieces ps acc
      | None => scan_pieces ps acc
      end
  end.

(** The state of the scan after the bytes [y] of an unfinished line. *)
Definition state_of (s : Z) (y : bytes) : rev_state :=
  match y with
  | [] => rev_init
  | _ => if zlen y <=? MAX_HISTORY_LINE_BYTES then Rev y (Some s) false else Rev [] (Some s) true
  end.

Lemma state_of_cons s c y :
  (if rev_oversized (state_of (s + 1) y) then Rev (rev_line (state_of (s + 1) y)) (Some s) true
   else if zlen (rev_line (state_of (s + 1) y)) =? MAX_HISTORY_LINE_BYTES then Rev [] (Some s) true
   else Rev (c :: rev_line (state_of (s + 1) y)) (Some s) false)
  = state_of s (c :: y).
Proof.
  unfold state_of. rewrite zlen_cons. destruct y as [|c' y]; [done|].
  set (y' := c' :: y). pose proof (zlen_nonneg y').
  destruct (Z.leb_spec (zlen y') MAX_HISTORY_LINE_BYTES) as [Hle|Hgt];
    cbn [rev_oversized rev_line].
  - destruct (Z.eqb_spec (zlen y') MAX_HISTORY_LINE_BYTES),
      (Z.leb_spec (1 + zlen y') MAX_HISTORY_LINE_BYTES); try lia; done.
  - destruct (Z.leb_spec (1 + zlen y') MAX_HISTORY_LINE_BYTES); [lia|done].
Qed.

Lemma try_accept_state s y acc :
  try_accept accept (state_of s y) s acc = scan_pieces [(s, y)] acc.
Proof.
  unfold try_accept, finish_line. cbn [scan_pieces]. unfold piece_record.
  destruct y as [|c y]; [done|]. unfold state_of.
  destruct (zlen (c :: y) <=? MAX_HISTORY_LINE_BYTES);
    cbn [rev_line line_start rev_oversized]; [|done].
  destruct (parse_line (c :: y)) as [r|]; [|done]. destruct (accept acc s r) as [[] acc']; done.
Qed.

Lemma scan_pieces_app ps qs acc :
  scan_pieces (ps ++ qs) acc
  = let '(hit, acc) := scan_pieces ps acc in
    match hit with Some record => (Some record, acc) | None => scan_pieces qs acc end.
Proof.
  revert acc. induction ps as [|[s x] ps IH]; intros acc; simpl; [done|].
  destruct (piece_record x) as [r|]; [|apply IH].
  destruct (accept acc s r) as [[] acc']; [done|apply IH].
Qed.

(** The scan of all bytes, without chunks. *)
Definition rev_all (bs : bytes) (offset minimum : Z) (st : rev_state) (acc : S)
    : option HistoryRecord.t * S :=
  let '(hit, st, acc) := rev_bytes accept bs offset st acc in
  match hit with
  | Some record => (Some record, acc)
  | None => try_accept accept st minimum acc
  end.

Lemma rev_all_pieces x : forall minimum y acc,
  NEWLINE ∉ y ->
  rev_all (rev x) (minimum + zlen x - 1) minimum (state_of (minimum + zlen x) y) acc
  = scan_pieces (rev (pieces minimum (x ++ y))) acc.
Proof.
  induction x as [|c x IH] using rev_ind; intros minimum y acc Hy.
  - simpl. rewrite zlen_nil, Z.add_0_r, pieces_plain by done.
    unfold rev_all. cbn [rev_bytes rev]. apply try_accept_state.
  - rewrite rev_unit, zlen_app, zlen_cons, zlen_nil. unfold rev_all. cbn [rev_bytes].
    rewrite <- app_assoc. simpl ([c] ++ y).
    replace (minimum + (zlen x + (1 + 0)) - 1) with (minimum + zlen x) by lia.
    replace (minimum + (zlen x + (1 + 0))) with (minimum + zlen x + 1) by lia.
    case_decide as Hc.
    + subst c. rewrite pieces_newline, (pieces_plain _ y), rev_app_distr by done.
      change (rev [?q]) with [q]. rewrite scan_pieces_app, <- try_accept_state.
      destruct (try_accept accept _ _ acc) as [[r|] acc']; [done|].
      specialize (IH minimum [] acc' ltac:(apply not_elem_of_nil)).
      rewrite app_nil_r in IH. exact IH.
    + rewrite state_of_cons. apply IH. apply not_elem_of_cons. done.
Qed.

Lemma rev_bytes_app x y offset st acc :
  rev_bytes accept (x ++ y) offset st acc
  = let '(hit, st, acc) := rev_bytes accept x offset st acc in
    match hit with
    | Some record => (Some record, st, acc)
    | None => rev_bytes accept y (offset - zlen x) st acc
    end.
Proof.
  revert offset st acc. induction x as [|c x IH]; intros offset st acc.
  { simpl. by rewrite zlen_nil, Z.sub_0_r. }
  rewrite zlen_cons. replace (offset - (1 + zlen x)) with (offset - 1 - zlen x) by lia.
  cbn [app rev_bytes]. case_decide; [|apply IH].
  destruct (try_accept accept st (offset + 1) acc) as [[r|] acc']; [done|apply IH].
Qed.

Context (p : path) (d : disk) (u : nat).

Lemma read_exact_at_quiet pre b post :
  dget d p = Some (Regular (pre ++ b ++ post)) ->
  read_exact_at p (zlen pre) (zlen b) (World d [] u) = (Done b, World d [] u).
Proof.
  intros Hp. unfold read_exact_at. erewrite bind_done by (rewrite query_quiet; done).
  erewrite bind_done by (rewrite query_quiet, Hp; done).
  unfold slice. rewrite zdrop_app, ztake_app. by rewrite Z.ltb_irrefl.
Qed.

(** Reading backwards in chunks is reading all the bytes backwards. *)
Lemma rev_chunks_quiet b : forall fuel pre post st acc,
  (length b <= fuel)%nat ->
  dget d p = Some (Regular (pre ++ b ++ post)) ->
  rev_chunks accept fuel p (zlen pre + zlen b) (zlen pre) st acc (World d [] u)
  = (Done (rev_all (rev b) (zlen pre + zlen b - 1) (zlen pre) st acc), World d [] u).
Proof.
  induction b as [b IH] using (induction_ltof1 _ (@length ascii)). unfold ltof in IH.
  intros fuel pre post st acc Hfuel Hp. destruct (decide (b = [])) as [->|Hb].
  { rewrite zlen_nil, Z.add_0_r. destruct fuel; simpl; by rewrite Z.ltb_irrefl. }
  pose proof (zlen_pos b Hb). pose proof (zlen_nonneg pre).
  destruct fuel as [|fuel]; [destruct b; simpl in *; [done|lia]|]. cbn [rev_chunks].
  destruct (Z.ltb_spec (zlen pre) (zlen pre + zlen b)); [|lia].
  set (n := Z.max (zlen b - REVERSE_CHUNK_BYTES) 0).
  assert (Hn : 0 <= n < zlen b) by (unfold n, REVERSE_CHUNK_BYTES; lia).
  set (x := ztake n b). set (y := zdrop n b).
  assert (Hxy : b = x ++ y) by (symmetry; apply ztake_zdrop).
  assert (Hx : zlen x = n) by (unfold x; rewrite zlen_ztake; lia).
  assert (Hlb : zlen b = n + zlen y) by (rewrite Hxy at 1; rewrite zlen_app; lia).
  assert (Hstart : Z.max (sat_sub (zlen pre + zlen b) REVERSE_CHUNK_BYTES) (zlen pre)
                   = zlen (pre ++ x)).
  { rewrite zlen_app, Hx. unfold n, sat_sub, REVERSE_CHUNK_BYTES. lia. }
  rewrite Hstart. replace (zlen pre + zlen b - zlen (pre ++ x)) with (zlen y)
    by (rewrite zlen_app; lia).
  erewrite bind_done.
  2:{ apply (read_exact_at_quiet (pre ++ x) y post). by rewrite Hp, Hxy, <- !app_assoc. }
  rewrite Hxy at 2. unfold rev_all. rewrite rev_app_distr, rev_bytes_app.
  destruct (rev_bytes accept (rev y) _ st acc) as [[[r|] st'] acc'] eqn:Hrev; [done|].
  rewrite zlen_app. replace (zlen (rev y)) with (zlen y) by (unfold zlen; by rewrite length_rev).
  replace (zlen pre + zlen b - 1 - zlen y) with (zlen pre + zlen x - 1) by lia.
  apply (IH x) with (post := y ++ post).
  - unfold zlen in *. lia.
  - unfold zlen in *. lia.
  - by rewrite Hp, Hxy, <- app_assoc.
Qed.

Lemma scan_reverse_quiet pre b post acc :
  dget d p = Some (Regular (pre ++ b ++ post)) ->
  scan_reverse accept p (zlen pre + zlen b) (zlen pre) acc (World d [] u)
  = (Done (scan_pieces (rev (pieces (zlen pre) b)) acc), World d [] u).
Proof.
  intros Hp. unfold scan_reverse. rewrite (rev_chunks_quiet b _ pre post); [|unfold zlen; lia|done].
  pose proof (rev_all_pieces b (zlen pre) [] acc) as Hall. rewrite app_nil_r in Hall.
  rewrite <- Hall; [done|]. apply not_elem_of_nil.
Qed.
End reverse.
