(* ===== verification/Log.v ===== *)
(** The posting-history log as a sequence of records ([store/history.rs]): what
    an append adds, what a page returns, and that the reverse scan and the
    forward scan see the same records. *)

From S2P Require Import Prelude Text Protocol Disk Entry Order Bounds Scan History Lines Reverse.

(** * Splitting a text into lines *)

Lemma lines_nil b : lines b = [] -> b = [].
Proof. intros Hl. by rewrite <- (lines_concat b), Hl. Qed.

Lemma lines_newline x y :
  NEWLINE ∉ x -> lines (x ++ NEWLINE :: y) = (x ++ [NEWLINE]) :: lines y.
Proof.
  induction x as [|c x IH]; intros Hx; [done|]. apply not_elem_of_cons in Hx as [Hc Hx].
  simpl. rewrite decide_False by congruence. by rewrite IH.
Qed.

Lemma lines_plain b : NEWLINE ∉ b -> lines b = match b with [] => [] | _ => [b] end.
Proof.
  induction b as [|c b IH]; intros Hb; [done|]. apply not_elem_of_cons in Hb as [Hc Hb].
  simpl. rewrite decide_False by congruence. rewrite IH by done. by destruct b.
Qed.

(** Induction on a text, line by line. *)
Lemma lines_ind (P : bytes -> Prop) :
  (forall b, NEWLINE ∉ b -> P b) ->
  (forall x y, NEWLINE ∉ x -> P y -> P (x ++ NEWLINE :: y)) ->
  forall b, P b.
Proof.
  intros Hplain Hline. induction b as [b IH] using (induction_ltof1 _ (@length ascii)).
  unfold ltof in IH. destruct (decide (NEWLINE ∈ b)) as [Hin|Hin]; [|by apply Hplain].
  assert (exists x y, b = x ++ NEWLINE :: y /\ NEWLINE ∉ x) as (x & y & -> & Hx).
  { clear -Hin. induction b as [|c b IH]; [by apply elem_of_nil in Hin|].
    destruct (decide (c = NEWLINE)) as [->|Hc]; [exists [], b; split; [done|set_solver]|].
    destruct IH as (x & y & -> & Hx); [by apply elem_of_cons in Hin as [?|?]|].
    exists (c :: x), y. split; [done|]. by apply not_elem_of_cons. }
  apply Hline; [done|]. apply IH. rewrite length_app. simpl. lia.
Qed.

(** A cut between two lines. *)
Lemma lines_cut b ls1 ls2 :
  lines b = ls1 ++ ls2 -> ls2 <> [] ->
  lines (concat ls1) = ls1 /\ lines (concat ls2) = ls2
  /\ (concat ls1 = [] \/ last (concat ls1) = Some NEWLINE).
Proof.
  revert ls1. induction b as [b Hb|x y Hx IH] using lines_ind; intros ls1 Hl Hne.
  - rewrite lines_plain in Hl by done. destruct b as [|c b].
    { symmetry in Hl. apply app_eq_nil in Hl as [_ ?]. done. }
    destruct ls1 as [|l ls1]; [|destruct ls1, ls2; done].
    simpl in Hl. subst ls2. cbn [concat]. rewrite app_nil_r. split; [done|].
    split; [|by left]. by rewrite lines_plain.
  - rewrite lines_newline in Hl by done. destruct ls1 as [|l ls1]; simpl in *.
    { subst ls2. split; [done|]. split; [|by left]. simpl. rewrite lines_concat, <- app_assoc.
      simpl. by apply lines_newline. }
    injection Hl as <- Hl. destruct (IH ls1 Hl Hne) as (H1 & H2 & H3).
    rewrite <- app_assoc. simpl. rewrite lines_newline by done. rewrite H1.
    split; [done|]. split; [done|]. right. rewrite last_app, last_cons.
    destruct H3 as [->|H3]; [done|]. by rewrite H3.
Qed.

Section records.
Context `{SerdeJson} `{!SerdeJsonOk}.

(** The records of consecutive lines, each with the offset of its line. *)
Fixpoint records_from (s : Z) (ls : list bytes) : list (Z * HistoryRecord.t) :=
  match ls with
  | [] => []
  | l :: ls =>
      match line_record l with
      | Some r => (s, r) :: records_from (s + zlen l) ls
      | None => records_from (s + zlen l) ls
      end
  end.

(** The records of a log, oldest first. *)
Definition log_records (c : bytes) : list HistoryRecord.t := omap line_record (lines c).

Lemma records_from_snd s ls : (records_from s ls).*2 = omap line_record ls.
Proof.
  revert s. induction ls as [|l ls IH]; intros s; simpl; [done|].
  destruct (line_record l); [rewrite fmap_cons|]; by rewrite IH.
Qed.

Lemma records_from_app s ls1 ls2 :
  records_from s (ls1 ++ ls2)
  = records_from s ls1 ++ records_from (s + zlen (concat ls1)) ls2.
Proof.
  revert s. induction ls1 as [|l ls1 IH]; intros s; simpl.
  - by rewrite zlen_nil, Z.add_0_r.
  - rewrite IH, zlen_app, Z.add_assoc. by destruct (line_record l).
Qed.

(** A record of the list starts a line of the text. *)
Lemma records_from_split s ls rs1 st r rs2 :
  records_from s ls = rs1 ++ (st, r) :: rs2 ->
  exists ls1 l ls2, ls = ls1 ++ l :: ls2 /\ st = s + zlen (concat ls1)
    /\ records_from s ls1 = rs1 /\ records_from st (l :: ls2) = (st, r) :: rs2.
Proof.
  revert s rs1. induction ls as [|l ls IH]; intros s rs1 Hr.
  { simpl in Hr. by destruct rs1. }
  destruct rs1 as [|[s1 r1] rs1]; simpl in Hr.
  - destruct (line_record l) as [r'|] eqn:Hl.
    + injection Hr as -> -> Hr. exists [], l, ls. simpl. rewrite Hl, Hr, zlen_nil, Z.add_0_r.
      done.
    + destruct (IH (s + zlen l) [] Hr) as (ls1 & l' & ls2 & -> & -> & H1 & H2).
      exists (l :: ls1), l', ls2. simpl. rewrite Hl, H1, zlen_app, Z.add_assoc. done.
  - destruct (line_record l) as [r'|] eqn:Hl.
    + injection Hr as -> -> Hr.
      destruct (IH (s1 + zlen l) rs1 Hr) as (ls1 & l' & ls2 & -> & -> & H1 & H2).
      exists (l :: ls1), l', ls2. simpl. rewrite Hl, H1, zlen_app, Z.add_assoc. done.
    + destruct (IH (s + zlen l) ((s1, r1) :: rs1) Hr) as (ls1 & l' & ls2 & -> & -> & H1 & H2).
      exists (l :: ls1), l', ls2. simpl. rewrite Hl, H1, zlen_app, Z.add_assoc. done.
Qed.

(** ** Terminated and unterminated lines hold the same record *)

Lemma whitespace_newline x :
  forallb is_ascii_whitespace (x ++ [NEWLINE]) = forallb is_ascii_whitespace x.
Proof. rewrite forallb_app. simpl. by rewrite andb_true_r. Qed.

Lemma parse_newline x : parse_line (x ++ [NEWLINE]) = parse_line x.
Proof.
  unfold parse_line. rewrite whitespace_newline. destruct (forallb _ x); [done|].
  pose proof (record_from_slice_newline x) as Hx.
  destruct (record_from_slice (x ++ [NEWLINE])) as [m|r] eqn:E1,
    (record_from_slice x) as [m'|r'] eqn:E2; try done.
  - by destruct (Hx r') as [_ Hr]; specialize (Hr eq_refl).
  - by destruct (Hx r) as [Hr _]; specialize (Hr eq_refl).
  - destruct (Hx r) as [Hr _]. specialize (Hr eq_refl). congruence.
Qed.

Lemma line_record_plain x : line_record x = piece_record x.
Proof. done. Qed.

Lemma line_record_newline x :
  zlen x <> MAX_HISTORY_LINE_BYTES -> line_record (x ++ [NEWLINE]) = piece_record x.
Proof.
  intros Hx. unfold line_record, piece_record. rewrite parse_newline, zlen_app.
  change (zlen [NEWLINE]) with 1.
  destruct (Z.leb_spec (zlen x + 1) MAX_HISTORY_LINE_BYTES),
    (Z.leb_spec (zlen x) MAX_HISTORY_LINE_BYTES); try lia; done.
Qed.

Lemma line_record_closed x :
  zlen x <> MAX_HISTORY_LINE_BYTES -> line_record (x ++ [NEWLINE]) = line_record x.
Proof. intros Hx. rewrite line_record_newline by done. symmetry. apply line_record_plain. Qed.

(** No terminated line has a text of exactly the limit: there the forward scan,
    which counts the newline, and the reverse scan, which does not, differ. *)
Definition boundary_free (c : bytes) : Prop :=
  Forall (fun l => zlen l <> MAX_HISTORY_LINE_BYTES + 1) (lines c).

Definition piece_records (ps : list (Z * bytes)) : list (Z * HistoryRecord.t) :=
  omap (fun x => (fun r => (x.1, r)) <$> piece_record x.2) ps.

Lemma pieces_lines b : forall s,
  boundary_free b -> piece_records (pieces s b) = records_from s (lines b).
Proof.
  unfold boundary_free.
  induction b as [b Hb|x y Hx IH] using lines_ind; intros s Hbf.
  - rewrite pieces_plain, lines_plain in * by done. unfold piece_records. simpl.
    destruct b as [|c b]; [done|]. cbn [records_from].
    rewrite (line_record_plain (c :: b)).
    by destruct (piece_record (c :: b)).
  - rewrite pieces_newline, (pieces_plain _ x), lines_newline in * by done.
    apply Forall_cons_1 in Hbf as [Hx' Hbf]. cbn [records_from].
    rewrite zlen_app in *. change (zlen [NEWLINE]) with 1 in *.
    rewrite Z.add_assoc, <- (IH (s + zlen x + 1) Hbf).
    rewrite line_record_newline by lia. unfold piece_records. simpl.
    by destruct (piece_record x).
Qed.

(** ** The reverse scan over records *)

Fixpoint scan_records {S} (accept : S -> Z -> HistoryRecord.t -> bool * S)
    (rs : list (Z * HistoryRecord.t)) (acc : S) : option HistoryRecord.t * S :=
  match rs with
  | [] => (None, acc)
  | (s, r) :: rs =>
      let '(hit, acc) := accept acc s r in
      if hit then (Some r, acc) else scan_records accept rs acc
  end.

Lemma scan_pieces_records {S} (accept : S -> Z -> HistoryRecord.t -> bool * S) ps acc :
  scan_pieces accept ps acc = scan_records accept (piece_records ps) acc.
Proof.
  revert acc. induction ps as [|[s x] ps IH]; intros acc; [done|]. unfold piece_records.
  cbn [scan_pieces omap list_omap fst snd]. destruct (piece_record x) as [r|]; simpl; [|apply IH].
  destruct (accept acc s r) as [[] acc']; [done|apply IH].
Qed.

Lemma piece_records_rev ps : piece_records (rev ps) = rev (piece_records ps).
Proof.
  induction ps as [|[s x] ps IH]; [done|]. unfold piece_records in *. simpl.
  rewrite omap_app, IH. simpl. destruct (piece_record x); simpl; [done|by rewrite app_nil_r].
Qed.

(** The newest record that satisfies a predicate. *)
Lemma scan_records_find (P : HistoryRecord.t -> bool) rs :
  (scan_records (fun (_ : unit) _ r => (P r, tt)) (rev rs) tt).1
  = last (filter (fun r => P r = true) rs.*2).
Proof.
  induction rs as [|[s r] rs IH] using rev_ind; [done|].
  rewrite rev_unit, fmap_app, filter_app. cbn [scan_records fmap list_fmap snd].
  rewrite filter_cons, filter_nil. destruct (P r).
  - by rewrite decide_True, last_snoc by done.
  - by rewrite decide_False, app_nil_r by done.
Qed.

(** Counting [limit] records back from the end. *)
Definition count_back (limit : Z) (acc : Z * Z) (start : Z) (_ : HistoryRecord.t)
    : bool * (Z * Z) :=
  let n := acc.2 + 1 in (n =? limit, (start, n)).

Lemma scan_records_count limit rs : forall start n,
  0 <= n < limit ->
  exists taken left_, rs = taken ++ left_
    /\ (scan_records (count_back limit) rs (start, n)).2.1
       = default start (fst <$> last taken)
    /\ (zlen taken + n = limit \/ left_ = [] /\ zlen taken + n < limit).
Proof.
  induction rs as [|[s r] rs IH]; intros start n Hn; cbn [scan_records].
  - exists [], []. rewrite zlen_nil. split; [done|]. split; [done|]. right. split; [done|lia].
  - unfold count_back at 1. simpl. destruct (Z.eqb_spec (n + 1) limit) as [Heq|Hne].
    + exists [(s, r)], rs. split; [done|]. split; [done|]. left.
      rewrite zlen_cons, zlen_nil. lia.
    + destruct (IH s (n + 1)) as (taken & left_ & -> & Hs & Hlen); [lia|].
      exists ((s, r) :: taken), left_. split; [done|]. split.
      * rewrite Hs, last_cons. by destruct (last taken).
      * rewrite zlen_cons. destruct Hlen as [?|[-> ?]]; [left; lia|right; split; [done|lia]].
Qed.

Section runs.
Context (p : path) (d : disk) (u : nat).

Lemma recent_start_quiet c limit :
  dget d p = Some (Regular c) -> boundary_free c -> 0 < limit ->
  exists x y, c = x ++ y /\ (x = [] \/ last x = Some NEWLINE \/ y = [])
    /\ recent_start p (zlen c) limit (World d [] u) = (Done (zlen x), World d [] u)
    /\ log_records y = drop (length (log_records c) - Z.to_nat limit) (log_records c).
Proof.
  intros Hp Hbf Hlim. unfold recent_start.
  pose proof (scan_reverse_quiet (count_back limit) p d u [] c [] (zlen c, 0)) as Hscan.
  rewrite zlen_nil, Z.add_0_l, app_nil_r in Hscan. specialize (Hscan Hp).
  rewrite scan_pieces_records, piece_records_rev, pieces_lines in Hscan by done.
  destruct (scan_records_count limit (rev (records_from 0 (lines c))) (zlen c) 0)
    as (taken & left_ & Hrs & Hstart & Hlen); [lia|].
  destruct (scan_records _ _ _) as [hit [st n]]. cbn [fst snd] in Hstart. subst st.
  change (fun acc start _ => _) with (count_back limit). erewrite bind_done by exact Hscan.
  cbn beta iota. cbn [fst].
  apply (f_equal (@rev _)) in Hrs. rewrite rev_involutive, rev_app_distr in Hrs.
  destruct (last taken) as [[st r]|] eqn:Hlast.
  2:{ apply last_None in Hlast as ->. unfold zlen in Hlen. simpl in Hlen.
      destruct Hlen as [?|[-> _]]; [lia|]. exists c, []. rewrite app_nil_r.
      split_and!; auto. unfold log_records. by rewrite <- (records_from_snd 0 (lines c)), Hrs. }
  apply last_Some in Hlast as [taken' ->]. rewrite rev_unit in Hrs.
  destruct (records_from_split 0 (lines c) (rev left_) st r (rev taken') Hrs)
    as (ls1 & l & ls2 & Hl & Hst & H1 & H2).
  destruct (lines_cut c ls1 (l :: ls2) Hl) as (Hc1 & Hc2 & Hend); [done|].
  exists (concat ls1), (concat (l :: ls2)). split; [by rewrite <- concat_app, <- Hl, lines_concat|].
  split; [tauto|]. split; [by rewrite Hst|].
  unfold log_records. rewrite Hc2, <- (records_from_snd st (l :: ls2)), H2.
  rewrite <- (records_from_snd 0 (lines c)), Hrs.
  rewrite fmap_app. replace (_ - _)%nat with (length (rev left_).*2); [by rewrite drop_app_length|].
  unfold zlen in Hlen. rewrite length_app in *. rewrite !length_fmap in *. simpl in *.
  rewrite !length_rev in *. destruct Hlen as [?|[-> ?]]; simpl; lia.
Qed.

(** The record a completion lookup accepts. *)
Definition completes (wanted : string) (cursor : option AwaitCursor.t) (r : HistoryRecord.t)
    : bool :=
  bool_decide (HistoryRecord.id r = wanted) && HistoryRecord.success r
  && match cursor with
     | Some c => bool_decide (HistoryRecord.incarnation r = AwaitCursor.incarnation c)
     | None => true
     end.

Definition cursor_offset (cursor : option AwaitCursor.t) : Z :=
  match cursor with Some c => AwaitCursor.offset c | None => 0 end.

(** The lookup returns the newest completion in the part of the log after the
    cursor. *)
Lemma latest_completion_quiet x y wanted cursor :
  dget d p = Some (Regular (x ++ y)) -> zlen x = cursor_offset cursor -> boundary_free y ->
  latest_completion p wanted cursor (World d [] u)
  = (Done (last (filter (fun r => completes wanted cursor r = true) (log_records y))),
     World d [] u).
Proof.
  intros Hp Hx Hbf. unfold latest_completion, open_history_snapshot.
  erewrite (bind_done _ _ _ (Some (zlen (x ++ y)))).
  2:{ erewrite bind_done by (apply attempt_done; by eapply open_file_quiet).
      cbn beta iota. erewrite bind_done by by rewrite metadata_quiet, Hp. done. }
  cbn beta iota. fold (cursor_offset cursor). rewrite <- Hx, zlen_app.
  erewrite bind_done.
  2:{ apply (scan_reverse_quiet _ p d u x y []). by rewrite app_nil_r. }
  rewrite scan_pieces_records, piece_records_rev, pieces_lines by done.
  change (fun (_ : unit) _ record => _)
    with (fun (_ : unit) (_ : Z) r => (completes wanted cursor r, tt)).
  pose proof (scan_records_find (completes wanted cursor) (records_from (zlen x) (lines y))) as Hf.
  destruct (scan_records _ _ _) as [hit acc]. simpl in Hf. subst hit.
  by rewrite records_from_snd.
Qed.

(** A printed record of at most the limit's length is a record of the reverse scan. *)
Lemma record_piece r b :
  record_typed r -> record_to_vec r = Some b -> zlen b <= MAX_HISTORY_LINE_BYTES ->
  piece_record b = Some r.
Proof.
  intros Hty Hb Hlen. unfold piece_record, parse_line.
  destruct (Z.leb_spec (zlen b) MAX_HISTORY_LINE_BYTES); [|lia].
  rewrite (record_round_trip r b Hty Hb). pose proof (record_to_vec_object r b Hb) as Ho.
  destruct b as [|x b]; [done|]. injection Ho as ->. done.
Qed.

Lemma latest_completion_limit r b :
  (NEWLINE ∉ b) -> piece_record b = Some r -> HistoryRecord.success r = true ->
  dget d p = Some (Regular (b ++ [NEWLINE])) ->
  latest_completion p (HistoryRecord.id r) None (World d [] u) = (Done (Some r), World d [] u).
Proof.
  intros Hnl Hr Hs Hp. unfold latest_completion, open_history_snapshot.
  erewrite (bind_done _ _ _ (Some (zlen (b ++ [NEWLINE])))).
  2:{ erewrite bind_done by (apply attempt_done; by eapply open_file_quiet).
      cbn beta iota. erewrite bind_done by by rewrite metadata_quiet, Hp. done. }
  cbn beta iota. erewrite bind_done.
  2:{ pose proof (scan_reverse_quiet (fun (_ : unit) (_ : Z) record =>
        (bool_decide (HistoryRecord.id record = HistoryRecord.id r)
         && HistoryRecord.success record && true, tt)) p d u [] (b ++ [NEWLINE]) [] tt) as Hscan.
      rewrite app_nil_r, zlen_nil, Z.add_0_l in Hscan. by apply Hscan. }
  rewrite scan_pieces_records, piece_records_rev, pieces_newline, pieces_plain by done.
  unfold piece_records. rewrite omap_app. simpl. rewrite Hr. simpl.
  by rewrite bool_decide_true, Hs.
Qed.

Lemma latest_completion_missing wanted cursor :
  dget d p = None -> latest_completion p wanted cursor (World d [] u) = (Done None, World d [] u).
Proof.
  intros Hp. unfold latest_completion, open_history_snapshot.
  erewrite (bind_done _ _ _ None); [done|].
  erewrite bind_done by (apply attempt_failed; unfold open_file; by rewrite query_quiet, Hp).
  done.
Qed.

(** ** Pages *)

Abbreviation page_records rs := (HistoryRecordAt.record <$> rs).

(** A page takes the next records in order and stops after the last one. *)
Lemma collect_spec page_size ls : forall current end_ acc,
  zlen acc <= page_size ->
  exists ls1 ls2, ls = ls1 ++ ls2
    /\ (collect page_size ls current end_ acc).2 = current + zlen (concat ls1)
    /\ page_records (collect page_size ls current end_ acc).1
       = page_records acc ++ omap line_record ls1
    /\ zlen acc + zlen (omap line_record ls1) <= page_size
    /\ (ls2 = [] \/ zlen acc + zlen (omap line_record ls1) = page_size)
    /\ (zlen acc < page_size -> ls <> [] -> ls1 <> []).
Proof.
  induction ls as [|l ls IH]; intros current end_ acc Hacc.
  { exists [], []. simpl. rewrite app_nil_r. rewrite !zlen_nil, !Z.add_0_r. auto 10. }
  cbn [collect]. destruct (Z.ltb_spec (zlen acc) page_size) as [Hlt|Hge].
  2:{ exists [], (l :: ls). simpl. rewrite app_nil_r, !zlen_nil, !Z.add_0_r.
      split_and!; try done; [right; lia|lia]. }
  cbn zeta. destruct (line_record l) as [r|] eqn:Hl.
  - set (q := HistoryRecordAt.mk r _).
    destruct (IH (current + zlen l) end_ (acc ++ [q])) as (ls1 & ls2 & -> & H1 & H2 & H3 & H4 & _).
    { rewrite zlen_app, zlen_cons, zlen_nil. lia. }
    exists (l :: ls1), ls2. rewrite zlen_app, zlen_cons, zlen_nil in H3, H4.
    cbn [concat omap list_omap]. rewrite Hl, H1, H2, zlen_app, zlen_cons, fmap_app, <- app_assoc.
    split_and!; try done; [lia|lia|]. destruct H4; [by left|right; lia].
  - destruct (IH (current + zlen l) end_ acc) as (ls1 & ls2 & -> & H1 & H2 & H3 & H4 & _); [done|].
    exists (l :: ls1), ls2. cbn [concat omap list_omap]. rewrite Hl, H1, H2, zlen_app.
    split_and!; try done. lia.
Qed.

(** Reading from a line start to the end of the snapshot. *)
Lemma read_snapshot_page_quiet x y post page_size position :
  dget d p = Some (Regular (x ++ y ++ post)) ->
  (position = None \/ position = Some (HistoryPosition.mk (zlen x) (zlen x + zlen y))
                      /\ (x = [] \/ last x = Some NEWLINE)) ->
  read_snapshot_page p (zlen (x ++ y ++ post)) position (zlen x) (zlen x + zlen y) page_size
    (World d [] u)
  = (Done (if decide (y = []) then HistoryPage.empty
           else let '(rs, current) := collect page_size (lines y) (zlen x) (zlen x + zlen y) [] in
                HistoryPage.mk rs
                  (if current <? zlen x + zlen y
                   then Some (HistoryPosition.mk current (zlen x + zlen y)) else None)),
     World d [] u).
Proof.
  intros Hp Hpos. unfold read_snapshot_page.
  pose proof (zlen_nonneg y). pose proof (zlen_nonneg post). pose proof (zlen_nonneg x).
  erewrite (bind_done _ _ _ tt).
  2:{ destruct Hpos as [->|[-> Hx]]; [done|]. unfold validate_position.
      cbn [HistoryPosition.offset HistoryPosition.end_offset]. rewrite !zlen_app.
      destruct (Z.ltb_spec (zlen x + zlen y) (zlen x)); [lia|].
      destruct (Z.ltb_spec (zlen x + (zlen y + zlen post)) (zlen x + zlen y)); [lia|]. simpl.
      destruct (Z.eqb_spec (zlen x) 0) as [|Hne]; [done|].
      destruct Hx as [->|[x' ->]%last_Some]; [by rewrite zlen_nil in Hne|].
      rewrite zlen_app. change (zlen [NEWLINE]) with 1.
      replace (zlen x' + 1 - 1) with (zlen x') by lia.
      erewrite bind_done; [|apply (read_exact_at_quiet p d u x' [NEWLINE] (y ++ post));
        by rewrite Hp, <- !app_assoc].
      by rewrite decide_True. }
  destruct (Z.leb_spec (zlen x + zlen y) (zlen x)) as [Hle|Hgt].
  { rewrite decide_True; [done|]. apply zlen_zero. lia. }
  rewrite decide_False by (intros ->; rewrite zlen_nil in Hgt; lia).
  erewrite (bind_done _ _ _ (Reader (zlen x) [])) by done.
  erewrite bind_done.
  2:{ apply (read_records_quiet p d u y _ x post); [unfold line_fuel, zlen; lia|done|].
      split; [done|]. by exists (y ++ post). }
  by destruct (collect _ _ _ _ _).
Qed.
End runs.
End records.

(** * Results *)

(** C33: the completion lookup, which reads the log backwards in chunks, returns
    the newest successful record of the identifier (and of the awaited lifetime,
    when the cursor names one) among the records after the cursor. *)
Theorem lookup_finds_the_newest_completion `{SerdeJson} `{!SerdeJsonOk} p d u x y wanted cursor :
  dget d p = Some (Regular (x ++ y)) -> zlen x = cursor_offset cursor -> boundary_free y ->
  latest_completion p wanted cursor (World d [] u)
  = (Done (last (filter (fun r => completes wanted cursor r = true) (log_records y))),
     World d [] u).
Proof. apply latest_completion_quiet. Qed.
