(* ===== verification/Pages.v ===== *)
(** Paged history reads ([store/history.rs], [read_page]): following the cursors
    returns every record of the snapshot once and in order, a page does not see
    what was appended after its snapshot, and the newest [n] records are found
    from the end of the file. *)

From S2P Require Import Prelude Text Protocol Disk Entry Order Bounds Scan History Lines Reverse.
From S2P Require Import Log.

Section pages.
Context `{SerdeJson} `{!SerdeJsonOk}.

(** The page a snapshot [x ++ y], read from the end of [x], gives. *)
Definition page_of (page_size : Z) (x y : bytes) : HistoryPage.t :=
  if decide (y = []) then HistoryPage.empty
  else let '(rs, current) := collect page_size (lines y) (zlen x) (zlen x + zlen y) [] in
       HistoryPage.mk rs
         (if current <? zlen x + zlen y
          then Some (HistoryPosition.mk current (zlen x + zlen y)) else None).

Definition position_of (x y : bytes) : HistoryPosition.t :=
  HistoryPosition.mk (zlen x) (zlen x + zlen y).

(** A cut of the log where a line starts. *)
Definition line_start (x : bytes) : Prop := x = [] \/ last x = Some NEWLINE.

(** What a page holds and where the next one starts. *)
Lemma page_of_spec page_size x y :
  0 < page_size ->
  exists y1 y2, y = y1 ++ y2 /\ lines y = lines y1 ++ lines y2
    /\ HistoryRecordAt.record <$> HistoryPage.records (page_of page_size x y) = log_records y1
    /\ HistoryPage.next (page_of page_size x y)
       = (if decide (y2 = []) then None else Some (position_of (x ++ y1) y2))
    /\ (y2 = [] \/ zlen (log_records y1) = page_size)
    /\ zlen (log_records y1) <= page_size
    /\ (y <> [] -> y1 <> []) /\ (y2 <> [] -> line_start x -> line_start (x ++ y1)).
Proof.
  intros Hps. unfold page_of. destruct (decide (y = [])) as [->|Hy].
  { exists [], []. split_and!; auto; unfold log_records; simpl; rewrite ?zlen_nil; try lia; done. }
  destruct (collect_spec page_size (lines y) (zlen x) (zlen x + zlen y) [])
    as (ls1 & ls2 & Hls & Hstop & Hrs & Hle & Hfull & Hprog); [rewrite zlen_nil; lia|].
  destruct (collect _ _ _ _ _) as [rs stop]. simpl in Hstop, Hrs. rewrite zlen_nil in *.
  assert (Hcat : y = concat ls1 ++ concat ls2) by by rewrite <- concat_app, <- Hls, lines_concat.
  assert (Hne1 : ls1 <> []) by (apply Hprog; [lia|]; by intros ?%lines_nil).
  pose proof (lines_nonempty y) as Hall. rewrite Hls in Hall.
  apply Forall_app in Hall as [Hall1 Hall2].
  assert (Hlen : zlen y = zlen (concat ls1) + zlen (concat ls2)) by (rewrite Hcat at 1; apply zlen_app).
  pose proof (zlen_nonneg (concat ls2)).
  exists (concat ls1), (concat ls2). cbn [HistoryPage.records HistoryPage.next].
  assert (Hc1 : concat ls1 <> []).
  { destruct ls1 as [|l ls1]; [done|]. apply Forall_cons_1 in Hall1 as [Hl _].
    simpl. by destruct l. }
  destruct (decide (ls2 = [])) as [->|Hne2].
  - rewrite !app_nil_r in *. subst ls1. rewrite lines_concat in *. simpl in *.
    rewrite Hstop, Z.ltb_irrefl. unfold log_records. split_and!; auto; done.
  - destruct (lines_cut y ls1 ls2 Hls Hne2) as (Hc1' & Hc2' & Hend).
    unfold log_records. rewrite Hc1', Hc2'.
    assert (Hc2 : concat ls2 <> []).
    { destruct ls2 as [|l ls2]; [done|]. apply Forall_cons_1 in Hall2 as [Hl _].
      simpl. by destruct l. }
    pose proof (zlen_pos _ Hc2). rewrite decide_False by done.
    destruct (Z.ltb_spec stop (zlen x + zlen y)); [|lia].
    split_and!; auto.
    + unfold position_of. rewrite zlen_app, Hstop. do 2 f_equal. lia.
    + right. destruct Hfull; [done|lia].
    + intros _ _. right. destruct Hend as [|Hend]; [done|]. rewrite last_app. by rewrite Hend.
Qed.

(** ** Inside a page *)

Lemma collect_grows page_size ls : forall current end_ acc,
  exists more, (collect page_size ls current end_ acc).1 = acc ++ more.
Proof.
  induction ls as [|l ls IH]; intros current end_ acc; cbn [collect]; [exists []; by rewrite app_nil_r|].
  destruct (_ <? _); [|exists []; by rewrite app_nil_r].
  destruct (line_record l) as [r|]; [|apply IH].
  destruct (IH (current + zlen l) end_ (acc ++ [HistoryRecordAt.mk r (HistoryPosition.mk (current + zlen l) end_)]))
    as [more ->]. eexists. by rewrite <- app_assoc.
Qed.

(** A page cut after some of its records: where the last of them ends. *)
Lemma collect_cut page_size ls : forall current end_ acc taken left_,
  (collect page_size ls current end_ acc).1 = acc ++ taken ++ left_ -> taken <> [] ->
  exists ls1 ls2 item, ls = ls1 ++ ls2 /\ ls1 <> []
    /\ omap line_record ls1 = HistoryRecordAt.record <$> taken
    /\ last taken = Some item
    /\ HistoryRecordAt.position_after item = HistoryPosition.mk (current + zlen (concat ls1)) end_
    /\ (left_ = [] -> page_size <= zlen (acc ++ taken) ->
        (collect page_size ls current end_ acc).2 = current + zlen (concat ls1)).
Proof.
  induction ls as [|l ls IH]; intros current end_ acc taken left_ Hrs Hne; cbn [collect] in *.
  { cbn [fst] in Hrs. rewrite <- (app_nil_r acc) in Hrs at 1. apply app_inv_head in Hrs.
    symmetry in Hrs. apply app_eq_nil in Hrs as [-> _]. done. }
  destruct (Z.ltb_spec (zlen acc) page_size) as [Hlt|Hge].
  2:{ cbn [fst] in Hrs. rewrite <- (app_nil_r acc) in Hrs at 1. apply app_inv_head in Hrs.
      symmetry in Hrs. apply app_eq_nil in Hrs as [-> _]. done. }
  destruct (line_record l) as [r|] eqn:Hl.
  - set (item := HistoryRecordAt.mk r (HistoryPosition.mk (current + zlen l) end_)) in *.
    destruct (collect_grows page_size ls (current + zlen l) end_ (acc ++ [item])) as [more Hmore].
    pose proof Hrs as Htl. rewrite Hmore, <- app_assoc in Htl. apply app_inv_head in Htl. cbn [app] in Htl.
    destruct taken as [|i taken]; [done|]. injection Htl as Hi Htl. subst i.
    destruct taken as [|i' taken].
    + exists [l], ls, item. cbn [app concat omap list_omap]. rewrite Hl, app_nil_r. split_and!; try done.
      intros -> Hfull. destruct ls as [|l' ls]; [done|]. cbn [collect].
      destruct (Z.ltb_spec (zlen (acc ++ [item])) page_size); [lia|done].
    + destruct (IH (current + zlen l) end_ (acc ++ [item]) (i' :: taken) left_) as
        (ls1 & ls2 & it & -> & Hne1 & Hrec & Hlast & Hpos & Hfull); [by rewrite Hrs, <- app_assoc|done|].
      exists (l :: ls1), ls2, it. cbn [app concat omap list_omap]. rewrite Hl, zlen_app.
      split_and!; try done.
      * cbn [fmap list_fmap]. f_equal. exact Hrec.
      * rewrite Hpos. f_equal. lia.
      * intros Hnil Hf. rewrite (Hfull Hnil); [lia|]. by rewrite <- app_assoc.
  - destruct (IH (current + zlen l) end_ acc taken left_ Hrs Hne) as
      (ls1 & ls2 & it & -> & Hne1 & Hrec & Hlast & Hpos & Hfull).
    exists (l :: ls1), ls2, it. cbn [app concat omap list_omap]. rewrite Hl, zlen_app. split_and!; try done.
    + rewrite Hpos. f_equal. lia.
    + intros Hnil Hf. rewrite (Hfull Hnil Hf). lia.
Qed.

Lemma page_of_prefix page_size x y taken left_ :
  0 < page_size -> HistoryPage.records (page_of page_size x y) = taken ++ left_ -> taken <> [] ->
  exists y1 y2 item, y = y1 ++ y2 /\ y1 <> [] /\ log_records y = log_records y1 ++ log_records y2
    /\ log_records y1 = HistoryRecordAt.record <$> taken
    /\ last taken = Some item /\ HistoryRecordAt.position_after item = position_of (x ++ y1) y2
    /\ (left_ <> [] \/ HistoryPage.next (page_of page_size x y) <> None -> y2 <> [])
    /\ (left_ = [] -> HistoryPage.next (page_of page_size x y) = None -> log_records y2 = [])
    /\ (y2 <> [] -> line_start (x ++ y1)).
Proof.
  intros Hps Hrs Hne. destruct (page_of_spec page_size x y Hps)
    as (z1 & z2 & Hy & Hlines & Hpage & Hnext & Hfull & Hle & _ & _).
  assert (Hrecs : log_records y = log_records z1 ++ log_records z2)
    by (unfold log_records; by rewrite Hlines, omap_app).
  assert (Hyne : y <> []) by (intros ->; unfold page_of in Hrs; by destruct taken).
  assert (Hcut := Hrs). unfold page_of in Hcut. rewrite decide_False in Hcut by done.
  pose proof (collect_cut page_size (lines y) (zlen x) (zlen x + zlen y) [] taken left_) as Hc.
  destruct (collect page_size (lines y) (zlen x) (zlen x + zlen y) []) as [rs stop] eqn:Hcol.
  cbn [fst snd HistoryPage.records] in Hcut, Hc.
  destruct Hc as (ls1 & ls2 & item & Hls & Hls1 & Hrec & Hlast & Hpos & Hstop); [done|done|].
  assert (Hcat : y = concat ls1 ++ concat ls2) by by rewrite <- concat_app, <- Hls, lines_concat.
  assert (Hc1 : concat ls1 <> []).
  { pose proof (lines_nonempty y) as Hall. rewrite Hls in Hall. apply Forall_app in Hall as [Hall _].
    destruct ls1 as [|l ls1]; [done|]. apply Forall_cons_1 in Hall as [Hl _]. cbn. by destruct l. }
  assert (Hcuts : log_records y = log_records (concat ls1) ++ log_records (concat ls2)
    /\ log_records (concat ls1) = omap line_record ls1
    /\ (concat ls2 <> [] -> line_start (x ++ concat ls1))).
  { unfold log_records. destruct (decide (ls2 = [])) as [->|Hne2].
    - rewrite !app_nil_r in *. subst ls1. rewrite lines_concat. cbn [concat lines omap list_omap].
      by split_and!.
    - destruct (lines_cut y ls1 ls2 Hls Hne2) as (-> & -> & Hend). rewrite Hls, omap_app.
      split_and!; [done|done|]. intros _. destruct Hend as [|Hend]; [done|]. right.
      rewrite last_app. by rewrite Hend. }
  destruct Hcuts as (Hl12 & Hl1 & Hstart).
  exists (concat ls1), (concat ls2), item. split_and!; try done.
  - by rewrite Hl1, Hrec.
  - rewrite Hpos. unfold position_of. rewrite zlen_app. f_equal. rewrite Hcat at 1. rewrite zlen_app. lia.
  - intros Hmore Hnil. rewrite Hnil, app_nil_r in Hcat. destruct Hmore as [Hleft|Hnx].
    + rewrite Hrs, fmap_app in Hpage. rewrite <- Hrec, <- Hl1, <- Hcat, Hrecs in Hpage.
      apply (f_equal length) in Hpage. rewrite !length_app, length_fmap in Hpage.
      destruct left_; [done|]. cbn in Hpage. lia.
    + assert (Hz2 : z2 <> []) by (intros ->; by rewrite Hnext in Hnx).
      destruct Hfull as [|Hfull]; [done|]. rewrite Hnext, decide_False in Hnx by done.
      assert (left_ = []) as ->.
      { destruct left_ as [|i left_]; [done|]. exfalso.
        rewrite Hrs, fmap_app in Hpage. rewrite <- Hrec, <- Hl1, <- Hcat, Hrecs in Hpage.
        apply (f_equal length) in Hpage. rewrite !length_app, length_fmap in Hpage. cbn in Hpage. lia. }
      rewrite Hrs, app_nil_r in Hpage. rewrite <- Hpage in Hfull. unfold zlen in Hfull. rewrite length_fmap in Hfull.
      assert (Hst : stop = zlen x + zlen (concat ls1)) by (apply Hstop; [done|]; unfold zlen; cbn; lia).
      unfold page_of in Hnext. rewrite decide_False, Hcol, decide_False in Hnext by done.
      cbn [HistoryPage.next] in Hnext. rewrite Hst, <- Hcat, Z.ltb_irrefl in Hnext. done.
  - intros -> Hnx. rewrite app_nil_r in Hrs. rewrite Hnext in Hnx. destruct (decide (z2 = [])) as [->|]; [|done].
    rewrite Hrs in Hpage. rewrite Hrecs, <- Hpage, Hl1, Hrec in Hl12. cbn in Hl12.
    symmetry in Hl12. rewrite app_nil_r in Hl12. rewrite <- (app_nil_r (_ <$> taken)) in Hl12 at 2. by apply app_inv_head in Hl12.
Qed.

Context (p : path) (u : nat).

Lemma open_history_snapshot_quiet d c missing :
  dget d p = Some (Regular c) ->
  open_history_snapshot p missing (World d [] u) = (Done (Some (zlen c)), World d [] u).
Proof.
  intros Hp. unfold open_history_snapshot.
  erewrite bind_done by (apply attempt_done; by eapply open_file_quiet).
  cbn beta iota. erewrite bind_done by by rewrite metadata_quiet, Hp. done.
Qed.

(** Reading at a cursor: only the snapshot matters, not what follows it. *)
Lemma read_page_at d x y post limit page_size :
  dget d p = Some (Regular (x ++ y ++ post)) -> line_start x -> 0 < page_size ->
  read_page p (Some (position_of x y)) limit page_size (World d [] u)
  = (Done (page_of page_size x y), World d [] u).
Proof.
  intros Hp Hx Hps. unfold read_page. destruct (Z.eqb_spec page_size 0); [lia|].
  erewrite bind_done by by apply open_history_snapshot_quiet. cbn beta iota.
  erewrite (bind_done _ _ _ (zlen x, zlen x + zlen y)) by done. cbn beta iota.
  apply read_snapshot_page_quiet; [done|]. right. done.
Qed.

(** Reading from the start. *)
Lemma read_page_start d c page_size :
  dget d p = Some (Regular c) -> 0 < page_size ->
  read_page p None None page_size (World d [] u) = (Done (page_of page_size [] c), World d [] u).
Proof.
  intros Hp Hps. unfold read_page. destruct (Z.eqb_spec page_size 0); [lia|].
  erewrite bind_done by by apply open_history_snapshot_quiet. cbn beta iota.
  erewrite (bind_done _ _ _ (0, zlen c)) by done. cbn beta iota.
  pose proof (read_snapshot_page_quiet p d u [] c [] page_size None) as Hr.
  rewrite app_nil_r in Hr. apply Hr; [done|by left].
Qed.

(** Reading the newest records. *)
Lemma read_page_recent d c limit page_size :
  dget d p = Some (Regular c) -> boundary_free c -> 0 < limit -> 0 < page_size ->
  exists x y, c = x ++ y /\ (line_start x \/ y = [])
    /\ read_page p None (Some limit) page_size (World d [] u)
       = (Done (page_of page_size x y), World d [] u)
    /\ log_records y = drop (length (log_records c) - Z.to_nat limit) (log_records c).
Proof.
  intros Hp Hbf Hlim Hps.
  destruct (recent_start_quiet p d u c limit Hp Hbf Hlim) as (x & y & Hc & Hx & Hrun & Hrec).
  exists x, y. split; [done|]. split; [unfold line_start; tauto|]. split; [|done].
  unfold read_page. destruct (Z.eqb_spec page_size 0); [lia|].
  erewrite bind_done by by apply open_history_snapshot_quiet. cbn beta iota.
  erewrite (bind_done _ _ _ (zlen x, zlen c)).
  2:{ unfold page_offsets. destruct (Z.eqb_spec limit 0); [lia|].
      erewrite bind_done by exact Hrun. done. }
  cbn beta iota. pose proof (read_snapshot_page_quiet p d u x y [] page_size None) as Hr.
  rewrite app_nil_r, <- Hc in Hr. rewrite Hc at 2. rewrite zlen_app. apply Hr; [done|by left].
Qed.

(** ** Following the cursors *)

(** Read pages until one has no successor. *)
Fixpoint drain (fuel : nat) (position : option HistoryPosition.t) (page_size : Z)
    (acc : list HistoryRecord.t) : M (list HistoryRecord.t) :=
  let* page := read_page p position None page_size in
  let acc := acc ++ (HistoryRecordAt.record <$> HistoryPage.records page) in
  match HistoryPage.next page with
  | None => ret acc
  | Some next =>
      match fuel with O => diverge | S fuel => drain fuel (Some next) page_size acc end
  end.

Lemma drain_from d c page_size : 0 < page_size -> dget d p = Some (Regular c) ->
  forall fuel position x y acc,
  c = x ++ y -> line_start x -> (length y <= fuel)%nat ->
  read_page p position None page_size (World d [] u)
  = (Done (page_of page_size x y), World d [] u) ->
  drain fuel position page_size acc (World d [] u) = (Done (acc ++ log_records y), World d [] u).
Proof.
  intros Hps Hp. induction fuel as [|fuel IH]; intros position x y acc Hc Hx Hfuel Hrun;
    (destruct (page_of_spec page_size x y Hps)
      as (y1 & y2 & Hy & Hlines & Hpage & Hnext & _ & _ & Hprog & Hstart));
    (assert (Hrecs : log_records y = log_records y1 ++ log_records y2)
      by (unfold log_records; by rewrite Hlines, omap_app));
    cbn [drain]; erewrite bind_done by exact Hrun; cbn zeta; rewrite Hnext, Hpage, Hrecs.
  - assert (y = []) as Hnil by (destruct y; simpl in *; [done|lia]).
    symmetry in Hy. rewrite Hnil in Hy. apply app_eq_nil in Hy as [-> ->]. simpl.
    by rewrite app_nil_r.
  - destruct (decide (y2 = [])) as [->|Hne]; [simpl; by rewrite app_nil_r|].
    assert (Hy1 : y1 <> []) by (apply Hprog; rewrite Hy; by destruct y1).
    rewrite (IH _ (x ++ y1) y2); [by rewrite <- app_assoc| | | |].
    + by rewrite Hc, Hy, <- app_assoc.
    + by apply Hstart.
    + rewrite Hy, length_app in Hfuel. destruct y1; simpl in *; [done|lia].
    + apply (read_page_at d (x ++ y1) y2 []); [|by apply Hstart|done].
      by rewrite app_nil_r, <- app_assoc, <- Hy, <- Hc.
Qed.
End pages.

(** * Results *)

(** C21: following the page cursors from the start returns every record of the
    log, once and in order, whatever the page size, and the loop ends within one
    page per byte of the log. *)
Theorem pages_return_every_record `{SerdeJson} `{!SerdeJsonOk} p d u c page_size :
  dget d p = Some (Regular c) -> 0 < page_size ->
  drain p (length c) None page_size [] (World d [] u) = (Done (log_records c), World d [] u).
Proof.
  intros Hp Hps. apply (drain_from p u d c page_size Hps Hp _ None [] c []); [done|by left|done|].
  by apply read_page_start.
Qed.

(** A page read at a cursor is the same before and after records are appended
    to the log: it is bounded by the snapshot the cursor carries. *)
Theorem pages_ignore_later_appends `{SerdeJson} `{!SerdeJsonOk} p d d' u x y more limit page_size :
  dget d p = Some (Regular (x ++ y)) -> dget d' p = Some (Regular (x ++ y ++ more)) ->
  line_start x -> 0 < page_size ->
  exists page,
    read_page p (Some (position_of x y)) limit page_size (World d [] u) = (Done page, World d [] u)
    /\ read_page p (Some (position_of x y)) limit page_size (World d' [] u)
       = (Done page, World d' [] u)
    /\ zlen (HistoryPage.records page) <= page_size.
Proof.
  intros Hp Hp' Hx Hps. exists (page_of page_size x y). split_and!.
  - apply (read_page_at p u d x y []); [by rewrite app_nil_r|done|done].
  - by apply (read_page_at p u d' x y more).
  - destruct (page_of_spec page_size x y Hps) as (y1 & y2 & _ & _ & Hr & _ & _ & Hle & _).
    rewrite <- Hr in Hle. unfold zlen in *. by rewrite length_fmap in Hle.
Qed.

(** Asking for the newest [limit] records, the reverse scan from the end of
    the file finds the line from which a forward read returns exactly the last
    [limit] records of the log. *)
Theorem recent_page_is_the_tail `{SerdeJson} `{!SerdeJsonOk} p d u c limit page_size :
  dget d p = Some (Regular c) -> boundary_free c -> 0 < limit <= page_size ->
  exists page, read_page p None (Some limit) page_size (World d [] u) = (Done page, World d [] u)
    /\ HistoryRecordAt.record <$> HistoryPage.records page
       = drop (length (log_records c) - Z.to_nat limit) (log_records c).
Proof.
  intros Hp Hbf Hlim.
  destruct (read_page_recent p u d c limit page_size Hp Hbf) as (x & y & Hc & _ & Hrun & Hrec);
    [lia|lia|].
  eexists. split; [exact Hrun|]. rewrite <- Hrec.
  destruct (page_of_spec page_size x y) as (y1 & y2 & Hy & Hl & Hpage & _ & Hfull & _ & _); [lia|].
  rewrite Hpage. assert (Hsplit : log_records y = log_records y1 ++ log_records y2)
    by (unfold log_records; by rewrite Hl, omap_app).
  destruct Hfull as [->|Hfull]; [by rewrite Hsplit, app_nil_r|].
  assert (Hlen : (length (log_records y) <= Z.to_nat limit)%nat)
    by (rewrite Hrec, length_drop; lia).
  rewrite Hsplit, length_app in Hlen. unfold zlen in Hfull.
  assert (Hnil : log_records y2 = []) by (apply nil_length_inv; lia).
  by rewrite Hsplit, Hnil, app_nil_r.
Qed.

(** C34: at the line limit the two scans disagree.  A record whose text has exactly the
    limit's length and a newline after it is found by the completion lookup, whose
    reverse scan does not count the newline, and is on no page of the history, whatever
    the page size, because [read_snapshot_line] counts it. *)
Theorem scans_disagree_at_the_limit `{SerdeJson} `{!SerdeJsonOk} p d u r b :
  record_typed r -> record_to_vec r = Some b -> HistoryRecord.success r = true ->
  zlen b = MAX_HISTORY_LINE_BYTES -> dget d p = Some (Regular (b ++ [NEWLINE])) ->
  latest_completion p (HistoryRecord.id r) None (World d [] u) = (Done (Some r), World d [] u)
  /\ forall page_size, 0 < page_size ->
       exists page, read_page p None None page_size (World d [] u) = (Done page, World d [] u)
         /\ HistoryPage.records page = [].
Proof.
  intros Hty Hb Hs Hlen Hp. pose proof (record_to_vec_line r b Hb) as Hnl. split.
  - apply (latest_completion_limit p d u r b); try done. apply record_piece; [done|done|lia].
  - intros page_size Hps. exists (page_of page_size [] (b ++ [NEWLINE])). split; [by apply read_page_start|].
    assert (Hnone : log_records (b ++ [NEWLINE]) = []).
    { unfold log_records. rewrite lines_single by done. cbn [omap list_omap]. unfold line_record.
      rewrite zlen_app. change (zlen [NEWLINE]) with 1.
      destruct (Z.leb_spec (zlen b + 1) MAX_HISTORY_LINE_BYTES); [lia|done]. }
    destruct (page_of_spec page_size [] (b ++ [NEWLINE]) Hps) as (y1 & y2 & _ & Hl & Hr & _).
    unfold log_records in Hnone. rewrite Hl, omap_app in Hnone. apply app_eq_nil in Hnone as [Hnone _].
    unfold log_records in Hr. rewrite Hnone in Hr. by apply fmap_nil_inv in Hr.
Qed.
