(* ===== verification/Append.v ===== *)
(** Durable appends to the history log ([store/history.rs], [append] and
    [append_once]): whatever call fails and wherever the process dies, the log
    keeps its records, and retrying adds the new record exactly once. *)

From S2P Require Import Prelude Text Protocol Disk Entry Order Bounds Scan History Lines Reverse.
From S2P Require Import Log Pages.

(** The text of the log; a missing file is an empty log. *)
Definition content (d : disk) (p : path) : bytes :=
  match dget d p with Some (Regular c) => c | _ => [] end.

(** What an append writes after the text [c]. *)
Definition separator (c : bytes) : bytes :=
  match last c with
  | None => []
  | Some b => if decide (b = NEWLINE) then [] else [NEWLINE]
  end.
Definition appended (c b : bytes) : bytes := separator c ++ b ++ [NEWLINE].

Lemma separator_cases c :
  (line_start c /\ separator c = [])
  \/ (c <> [] /\ last c <> Some NEWLINE /\ separator c = [NEWLINE]).
Proof.
  unfold separator, line_start. destruct (last c) as [b|] eqn:Hl.
  - destruct (decide (b = NEWLINE)) as [->|Hb]; [by left; auto|right].
    split; [by intros ->|]. split; [congruence|done].
  - apply last_None in Hl. left. auto.
Qed.

Lemma separator_closes c : line_start (c ++ separator c).
Proof.
  destruct (separator_cases c) as [[Hc ->]|(_ & _ & ->)]; [by rewrite app_nil_r|].
  right. apply last_snoc.
Qed.

(** The last line of a text that does not end with a newline. *)
Lemma lines_snoc c :
  c <> [] -> last c <> Some NEWLINE ->
  exists ls l, lines c = ls ++ [l] /\ (NEWLINE ∉ l) /\ lines (c ++ [NEWLINE]) = ls ++ [(l ++ [NEWLINE])].
Proof.
  induction c as [b Hb|x y Hx IH] using lines_ind; intros Hne Hl.
  - exists [], b. rewrite lines_plain, lines_newline by done.
    split; [by destruct b|]. done.
  - rewrite last_app, last_cons in Hl.
    destruct IH as (ls & l & H1 & H2 & H3).
    { by intros ->. }
    { by destruct (last y). }
    exists ((x ++ [NEWLINE]) :: ls), l. rewrite <- app_assoc. simpl.
    rewrite !lines_newline, H1, H3 by done. done.
Qed.

(** The unterminated last line is not of the length at which a newline makes it
    oversized. *)
Definition tail_ok (c : bytes) : Prop :=
  last c <> Some NEWLINE ->
  forall ls l, lines c = ls ++ [l] -> zlen l <> MAX_HISTORY_LINE_BYTES.

Lemma tail_ok_closed c : line_start c -> tail_ok c.
Proof. intros [->|Hc] Hl ls l; [intros Heq; by destruct ls|done]. Qed.

(** No line of the text is oversized. *)
Definition short (g : bytes) : Prop := Forall (fun l => zlen l <= MAX_HISTORY_LINE_BYTES) (lines g).

Lemma short_boundary_free g : short g -> boundary_free g.
Proof. intros Hg. eapply Forall_impl; [exact Hg|]. cbn. lia. Qed.

Section append.
Context `{SerdeJson} `{!SerdeJsonOk}.

(** A line of the log holds this attempt. *)
Definition has_attempt (attempt_id : string) (g : bytes) : bool :=
  existsb (line_has_attempt attempt_id) (lines g).

(** ** Closing the last line *)

Lemma log_records_separator c : tail_ok c -> log_records (c ++ separator c) = log_records c.
Proof.
  intros Hc. destruct (separator_cases c) as [[_ ->]|(Hne & Hl & ->)]; [by rewrite app_nil_r|].
  destruct (lines_snoc c Hne Hl) as (ls & l & H1 & H2 & H3).
  unfold log_records. rewrite H1, H3, !omap_app. f_equal. cbn [omap list_omap].
  by rewrite line_record_closed by exact (Hc Hl ls l H1).
Qed.

Lemma line_has_attempt_newline a l :
  zlen l <> MAX_HISTORY_LINE_BYTES ->
  line_has_attempt a (l ++ [NEWLINE]) = line_has_attempt a l.
Proof.
  intros Hl. unfold line_has_attempt. rewrite zlen_app. change (zlen [NEWLINE]) with 1.
  replace (zlen l + 1 <=? MAX_HISTORY_LINE_BYTES) with (zlen l <=? MAX_HISTORY_LINE_BYTES)
    by (destruct (Z.leb_spec (zlen l) MAX_HISTORY_LINE_BYTES),
        (Z.leb_spec (zlen l + 1) MAX_HISTORY_LINE_BYTES); try lia; done).
  f_equal. pose proof (record_from_slice_newline l) as Hx.
  destruct (record_from_slice (l ++ [NEWLINE])) as [m|r] eqn:E1,
    (record_from_slice l) as [m'|r'] eqn:E2; try done.
  - by destruct (Hx r') as [_ Hr]; specialize (Hr eq_refl).
  - by destruct (Hx r) as [Hr _]; specialize (Hr eq_refl).
  - destruct (Hx r) as [Hr _]. specialize (Hr eq_refl). by injection Hr as ->.
Qed.

Context (r : HistoryRecord.t) (b : bytes).
Context (Hty : record_typed r) (Hb : record_to_vec r = Some b)
  (Hlen : zlen b < MAX_HISTORY_LINE_BYTES).
Abbreviation attempt_id := (HistoryRecord.attempt_id r).

Lemma record_bytes_nonempty : b <> [].
Proof. intros Heq. pose proof (record_to_vec_object r b Hb) as Ho. by rewrite Heq in Ho. Qed.

Lemma record_bytes_line : NEWLINE ∉ b.
Proof. by apply record_to_vec_line in Hb. Qed.

Lemma record_from_empty : exists message, record_from_slice [] = Err message.
Proof.
  destruct (record_from_slice_prefix r b 0 Hty Hb) as [m Hm]; [|by exists m].
  pose proof (zlen_pos b record_bytes_nonempty). unfold zlen in *. lia.
Qed.

(** A torn record is not a record. *)
Lemma torn_line k :
  (k < length b)%nat ->
  line_record (take k b) = None /\ line_has_attempt attempt_id (take k b) = false.
Proof.
  intros Hk. destruct (record_from_slice_prefix r b k Hty Hb Hk) as [m Hm].
  unfold line_record, line_has_attempt, parse_line. rewrite Hm. split.
  - destruct (_ <=? _); [|done]. by destruct (forallb _ _).
  - apply andb_false_r.
Qed.

Lemma whole_line :
  line_record b = Some r /\ line_has_attempt attempt_id b = true
  /\ line_record (b ++ [NEWLINE]) = Some r
  /\ line_has_attempt attempt_id (b ++ [NEWLINE]) = true.
Proof.
  rewrite line_record_closed, line_has_attempt_newline by lia.
  assert (line_record b = Some r /\ line_has_attempt attempt_id b = true) as [-> ->]; [|done].
  pose proof (record_to_vec_object r b Hb) as Hobj.
  unfold line_record, line_has_attempt, parse_line.
  rewrite (record_round_trip r b Hty Hb).
  destruct (Z.leb_spec (zlen b) MAX_HISTORY_LINE_BYTES); [|lia].
  rewrite bool_decide_true by done. split; [|done].
  replace (forallb is_ascii_whitespace b) with false; [done|].
  symmetry. revert Hobj. clear. destruct b as [|x b']; [done|]. by intros [= ->].
Qed.

(** ** The log between the start of an append and its success *)

Definition pending (c0 c : bytes) : Prop :=
  exists g, c = c0 ++ g /\ (has_attempt attempt_id g = false /\ short g)
    /\ log_records c = log_records c0 /\ log_records g = [] /\ tail_ok c /\ tail_ok g.
Definition logged (c0 c : bytes) : Prop :=
  exists g, c = c0 ++ g /\ (has_attempt attempt_id g = true /\ short g)
    /\ log_records c = log_records c0 ++ [r] /\ log_records g = [r] /\ tail_ok c.

Lemma pending_start c0 : tail_ok c0 -> pending c0 c0.
Proof.
  intros Hc. exists []. rewrite app_nil_r. split_and!; try done; [constructor|]. apply tail_ok_closed. by left.
Qed.

Lemma short_separator c0 g : short g -> tail_ok g -> short (g ++ separator (c0 ++ g)).
Proof.
  intros Hg Ht. destruct (separator_cases (c0 ++ g)) as [[_ ->]|(_ & Hl & ->)]; [by rewrite app_nil_r|].
  destruct (decide (g = [])) as [->|Hne]; [by apply Forall_singleton|].
  assert (Hlg : last g <> Some NEWLINE) by (intros Heq; apply Hl; by rewrite last_app, Heq).
  destruct (lines_snoc g Hne Hlg) as (ls & l & H1 & _ & H3). unfold short in *. rewrite H1 in Hg. rewrite H3.
  apply Forall_app in Hg as [Hls [Hl1 _]%Forall_cons_1]. apply Forall_app. split; [done|]. apply Forall_singleton.
  pose proof (Ht Hlg ls l H1) as Hn. rewrite zlen_app. change (zlen [NEWLINE]) with 1. lia.
Qed.

(** Closing the line of an unfinished append does not make it a record. *)
Lemma has_attempt_separator c0 g :
  has_attempt attempt_id g = false -> log_records g = [] -> tail_ok g ->
  has_attempt attempt_id (g ++ separator (c0 ++ g)) = false
  /\ log_records (g ++ separator (c0 ++ g)) = []
  /\ line_start (g ++ separator (c0 ++ g)).
Proof.
  intros Hg Hrg Htail. destruct (separator_cases (c0 ++ g)) as [[Hc ->]|(Hne & Hl & ->)].
  - rewrite app_nil_r. split; [done|]. split; [done|]. destruct g as [|x g]; [by left|]. right.
    destruct Hc as [Hc|Hc]; [by destruct c0|]. rewrite last_app, last_cons in Hc.
    rewrite last_cons. by destruct (last g).
  - enough (has_attempt attempt_id (g ++ [NEWLINE]) = false
            /\ log_records (g ++ [NEWLINE]) = [])
      by (split_and!; [tauto|tauto|right; apply last_snoc]).
    destruct (decide (g = [])) as [->|Hgne].
    { split; [|done]. destruct record_from_empty as [m Hm]. unfold has_attempt. simpl.
      pose proof (record_from_slice_newline []) as Hx. simpl in Hx.
      unfold line_has_attempt. destruct (record_from_slice [NEWLINE]) as [m'|r'].
      - by rewrite andb_false_r.
      - destruct (Hx r') as [Hr _]. specialize (Hr eq_refl). congruence. }
    assert (Hlg : last g <> Some NEWLINE).
    { intros Heq. apply Hl. by rewrite last_app, Heq. }
    destruct (lines_snoc g Hgne Hlg) as (ls & l & H1 & H2 & H3).
    unfold has_attempt in *. rewrite H1 in Hg. rewrite H3. rewrite existsb_app in *.
    simpl in *. pose proof (Htail Hlg ls l H1) as Hlen'.
    rewrite line_has_attempt_newline by done. split; [done|].
    unfold log_records in *. rewrite H1, omap_app in Hrg. rewrite H3, omap_app.
    cbn [omap list_omap] in *. by rewrite line_record_closed.
Qed.

(** A torn line after a closed text. *)
Lemma tail_ok_torn c x :
  line_start c -> (NEWLINE ∉ x) -> zlen x < MAX_HISTORY_LINE_BYTES -> tail_ok (c ++ x).
Proof.
  intros Hc Hx Hlx. destruct (decide (x = [])) as [->|Hne].
  { rewrite app_nil_r. by apply tail_ok_closed. }
  intros _ ls l Hl. rewrite (lines_app c x Hc), (lines_plain x) in Hl by done. destruct x as [|a x]; [done|].
  apply app_inj_tail in Hl as [_ <-]. lia.
Qed.

Lemma take_no_newline k : NEWLINE ∉ take k b.
Proof.
  intros Hin. apply record_bytes_line. rewrite <- (take_drop k b). set_solver.
Qed.

(** The pieces of an append: nothing yet, a torn record, the whole record, the
    whole record and its newline. *)
Lemma take_appended c k :
  take k (appended c b) = []
  \/ (exists j, (j < length b)%nat /\ take k (appended c b) = separator c ++ take j b)
  \/ take k (appended c b) = separator c ++ b
  \/ take k (appended c b) = appended c b.
Proof.
  unfold appended. destruct (decide (k < length (separator c))%nat) as [Hk|Hk].
  { left. destruct (separator_cases c) as [[_ Hs]|(_ & _ & Hs)]; rewrite Hs in *;
      simpl in Hk; destruct k; try lia; done. }
  rewrite take_app_ge by lia. set (j := (k - length (separator c))%nat).
  destruct (decide (j < length b)%nat) as [Hj|Hj].
  { right; left. exists j. split; [done|]. by rewrite take_app_le by lia. }
  right; right. rewrite take_app_ge by lia.
  destruct (j - length b)%nat as [|n] eqn:Hn; [left; by rewrite app_nil_r|right].
  by rewrite (take_ge [NEWLINE]) by (simpl; lia).
Qed.

(** A line added to a closed text adds its record and its attempt. *)
Lemma add_line c0 g c x l :
  c = c0 ++ g -> short g -> zlen l <= MAX_HISTORY_LINE_BYTES -> has_attempt attempt_id g = false -> log_records c = log_records c0 ->
  log_records g = [] -> tail_ok c -> tail_ok g -> lines x = [l] ->
  exists g', c ++ separator c ++ x = c0 ++ g'
    /\ has_attempt attempt_id g' = line_has_attempt attempt_id l
    /\ log_records (c ++ separator c ++ x) = log_records c0 ++ option_list (line_record l)
    /\ log_records g' = option_list (line_record l)
    /\ g' = (g ++ separator c) ++ x /\ line_start (g ++ separator c) /\ short g'.
Proof.
  intros Hc Hsh Hlen' Hg Hrec Hrg Htc Htg Hl.
  destruct (has_attempt_separator c0 g Hg Hrg Htg) as (Hsep & Hrs & Hst).
  rewrite <- Hc in Hsep, Hrs, Hst.
  exists ((g ++ separator c) ++ x). split_and!; try done.
  - rewrite Hc at 1. by rewrite <- !app_assoc.
  - unfold has_attempt. rewrite lines_app, Hl, existsb_app by done.
    unfold has_attempt in Hsep. rewrite Hsep. simpl. apply orb_false_r.
  - rewrite app_assoc. unfold log_records. rewrite lines_app, omap_app, Hl
      by apply separator_closes.
    fold (log_records (c ++ separator c)). rewrite log_records_separator, Hrec by done.
    done.
  - unfold log_records. rewrite lines_app, omap_app, Hl by done.
    fold (log_records (g ++ separator c)). by rewrite Hrs.
  - unfold short. rewrite lines_app, Hl by done. apply Forall_app. split; [|by apply Forall_singleton].
    rewrite Hc. by apply short_separator.
Qed.

(** Every prefix of an append leaves the log pending or logged. *)
Lemma append_progress c0 c k :
  pending c0 c ->
  let c' := c ++ take k (appended c b) in
  (take k (appended c b) = appended c b -> logged c0 c') /\ (pending c0 c' \/ logged c0 c').
Proof.
  intros (g & Hc & (Hg & Hsh) & Hrec & Hrg & Htc & Htg) c'.
  assert (Hfull : logged c0 (c ++ appended c b)).
  { destruct (add_line c0 g c (b ++ [NEWLINE]) (b ++ [NEWLINE]))
      as (g' & H1 & H2 & H3 & H4 & _ & _ & H5); try done.
    { rewrite zlen_app. change (zlen [NEWLINE]) with 1. lia. }
    { apply lines_single, record_bytes_line. }
    destruct whole_line as (_ & _ & Hr & Ha). exists g'. rewrite Ha in H2. rewrite Hr in H3, H4.
    split_and!; try done. apply tail_ok_closed. right. unfold appended. rewrite !app_assoc.
    apply last_snoc. }
  split; [unfold c'; by intros ->|]. unfold c'.
  destruct (take_appended c k) as [->|[(j & Hj & ->)|[->| ->]]]; [| | |by right].
  - left. rewrite app_nil_r. exists g. done.
  - left. destruct (decide (j = 0%nat)) as [->|Hj0].
    + rewrite take_0, app_nil_r.
      destruct (has_attempt_separator c0 g Hg Hrg Htg) as (Hsep & Hrs & Hst).
      rewrite <- Hc in Hsep, Hrs, Hst. exists (g ++ separator c).
      split; [rewrite Hc at 1; by rewrite <- app_assoc|]. split; [split; [done|rewrite Hc; by apply short_separator]|].
      rewrite log_records_separator by done. split; [done|]. split; [done|].
      split; [apply tail_ok_closed, separator_closes|by apply tail_ok_closed].
    + destruct (torn_line j Hj) as [Hr Ha].
      assert (Hzl : zlen (take j b) < MAX_HISTORY_LINE_BYTES)
        by (unfold zlen in *; rewrite length_take; lia).
      destruct (add_line c0 g c (take j b) (take j b))
        as (g' & H1 & H2 & H3 & H4 & -> & Hst & H5); try done; [lia|..].
      { rewrite lines_plain by apply take_no_newline.
        pose proof (f_equal length (eq_refl (take j b))) as Hn. rewrite length_take in Hn at 1.
        destruct (take j b); simpl in Hn; [lia|done]. }
      rewrite Ha in H2. rewrite Hr in H3, H4. simpl in H3. rewrite app_nil_r in H3.
      eexists. split_and!; [exact H1|done|done|done|done| |].
      * rewrite app_assoc. apply tail_ok_torn; [apply separator_closes|apply take_no_newline|done].
      * apply tail_ok_torn; [done|apply take_no_newline|done].
  - right. destruct (add_line c0 g c b b) as (g' & H1 & H2 & H3 & H4 & _ & _ & H5); try done; [lia|..].
    { rewrite lines_plain by apply record_bytes_line.
      pose proof record_bytes_nonempty. by destruct b. }
    destruct whole_line as (Hr & Ha & _). exists g'. rewrite Ha in H2.
    rewrite Hr in H3, H4. split_and!; try done. rewrite app_assoc.
    apply tail_ok_torn; [apply separator_closes|apply record_bytes_line|done].
Qed.

(** ** Runs *)

Context (p : path).

(** Two disks that agree outside the log, which stays a file. *)
Definition log_only (d d' : disk) : Prop :=
  (forall q, q <> p -> dget d' q = dget d q) /\ dget d' p <> Some Directory.

Lemma append_bytes_content d x :
  is_Some (dget d p) -> dget d p <> Some Directory ->
  content (append_bytes p x d) p = content d p ++ x
  /\ log_only d (append_bytes p x d) /\ is_Some (dget (append_bytes p x d) p).
Proof.
  intros Hs Hd. unfold append_bytes, content, log_only.
  destruct (dget d p) as [[c|]|] eqn:E; [|done|by destruct Hs].
  rewrite dget_dput_same. split; [done|]. split; [|done]. split; [|done].
  intros q Hq. by rewrite dget_dput_other.
Qed.

Lemma log_only_trans d d1 d2 : log_only d d1 -> log_only d1 d2 -> log_only d d2.
Proof. intros [H1 _] [H2 H3]. split; [|done]. intros q Hq. by rewrite H2, H1. Qed.

(** Writing [x] at the end of the log: all of it, or a prefix. *)
Lemma runs_write_all d x (Q : outcome unit -> disk -> Prop) :
  is_Some (dget d p) -> dget d p <> Some Directory ->
  (forall d', log_only d d' -> is_Some (dget d' p) -> content d' p = content d p ++ x ->
     Q (Done tt) d') ->
  (forall o d' n, o <> Done tt -> o <> Diverged -> log_only d d' ->
     content d' p = content d p ++ take n x -> Q o d') ->
  runs (write_all p x) Q d.
Proof.
  intros Hs Hd Hok Hbad. apply runs_syscall.
  - intros [] d' [= <-]. destruct (append_bytes_content d x Hs Hd) as (? & ? & ?). by apply Hok.
  - by intros.
  - intros e n _. destruct (append_bytes_content d (take n x) Hs Hd) as (? & ? & _).
    by eapply Hbad.
  - intros n. destruct (append_bytes_content d (take n x) Hs Hd) as (? & ? & _).
    by eapply Hbad.
Qed.

(** Under faults an append leaves a prefix of its text, all of it on success. *)
Definition append_post (d : disk) (o : outcome unit) (d' : disk) : Prop :=
  log_only d d' /\ o <> Diverged
  /\ exists k, content d' p = content d p ++ take k (appended (content d p) b)
     /\ (o = Done tt -> take k (appended (content d p) b) = appended (content d p) b).

Lemma append_post_nothing d d' o :
  log_only d d' -> content d' p = content d p -> o <> Done tt -> o <> Diverged ->
  append_post d o d'.
Proof.
  intros Hl Hc Ho Hdv. split_and!; [done|done|]. exists 0%nat. rewrite take_0, app_nil_r. done.
Qed.

Lemma has_final_newline_reads n : reads (has_final_newline p n).
Proof.
  unfold has_final_newline, read_exact_at. apply reads_bind; [|auto with reads].
  apply reads_bind; [auto with reads|intros []]. apply reads_bind; [auto with reads|].
  intros x. destruct (_ <? _); auto with reads.
Qed.

Lemma has_final_newline_quiet d c u :
  dget d p = Some (Regular c) -> 0 < zlen c ->
  has_final_newline p (zlen c) (World d [] u)
  = (Done (bool_decide (separator c = [])), World d [] u).
Proof.
  intros Hp Hc. destruct c as [|x c _] using rev_ind; [done|].
  rewrite zlen_app. change (zlen [x]) with 1. unfold has_final_newline.
  replace (zlen c + 1 - 1) with (zlen c) by lia.
  erewrite bind_done.
  2:{ pose proof (read_exact_at_quiet p d u c [x] []) as Hr. rewrite app_nil_r in Hr. by apply Hr. }
  unfold separator. rewrite last_snoc. unfold ret. do 2 f_equal.
  apply bool_decide_ext. destruct (decide (x = NEWLINE)) as [->|Hx]; [done|].
  split; [congruence|done].
Qed.

(** The last two steps of an append: the line and its durability. *)
Lemma append_line_end d d0 :
  log_only d0 d -> is_Some (dget d p) -> dget d p <> Some Directory ->
  content d p = content d0 p ++ separator (content d0 p) ->
  runs (write_all p (b ++ [NEWLINE]) ;; sync) (append_post d0) d.
Proof.
  intros Hlo Hs Hd Hc.
  assert (Hfull : forall o d', log_only d d' -> o <> Diverged ->
    content d' p = content d p ++ b ++ [NEWLINE] -> append_post d0 o d').
  { intros o d' Hl Ho Hc'. split_and!; [by eapply log_only_trans|done|].
    exists (length (appended (content d0 p) b)). rewrite take_ge by lia.
    split; [|done]. by rewrite Hc', Hc, <- app_assoc. }
  apply runs_bind, runs_write_all; [done|done| |].
  - intros d' Hl Hs' Hc'. apply runs_sync; [by apply Hfull|intros e; by apply Hfull|by apply Hfull].
  - intros o d' n Ho Hdv Hl Hc'.
    assert (Hpost : append_post d0 o d').
    { split_and!; [by eapply log_only_trans|done|].
      exists (length (separator (content d0 p)) + n)%nat.
      unfold appended. rewrite take_app_add. split; [|done].
      by rewrite Hc', Hc, <- app_assoc. }
    by destruct o as [[]|e| |].
Qed.

Lemma append_runs d :
  dget d p <> Some Directory -> runs (append p r) (append_post d) d.
Proof.
  intros Hd. unfold append. rewrite Hb.
  assert (Hself : log_only d d) by done.
  apply runs_bind, runs_ret. apply runs_bind, runs_syscall.
  2-4: intros; apply append_post_nothing; try done; destruct (dget d p) as [[]|]; by simplify_eq.
  intros [] d1 Hd1.
  assert (log_only d d1 /\ content d1 p = content d p
          /\ dget d1 p = Some (Regular (content d p))) as (Hl1 & Hc1 & Hp1).
  { unfold content, log_only. destruct (dget d p) as [[c|]|] eqn:E; simplify_eq.
    - rewrite E. done.
    - rewrite dget_dput_same. split_and!; try done. intros q Hq. by rewrite dget_dput_other. }
  set (c := content d p) in *.
  apply runs_bind, (runs_reads _ (Done (true, zlen c))); [apply reads_query| | | |].
  { intros u. by rewrite metadata_quiet, Hp1. }
  2: intros; by apply append_post_nothing.
  2: by apply append_post_nothing.
  apply runs_bind. unfold append_line. apply (runs_mono _ (append_post d)).
  - apply runs_bind. destruct (Z.ltb_spec 0 (zlen c)) as [Hpos|Hz].
    + apply runs_bind, (runs_reads _ (Done (bool_decide (separator c = []))));
        [apply has_final_newline_reads| | | |].
      { intros u. by apply has_final_newline_quiet. }
      2: intros; by apply append_post_nothing.
      2: by apply append_post_nothing.
      case_bool_decide as Hsep.
      * apply runs_ret, append_line_end; [done|by rewrite Hp1|by rewrite Hp1|].
        fold c. by rewrite Hc1, Hsep, app_nil_r.
      * assert (Hs1 : separator c = [NEWLINE]).
        { destruct (separator_cases c) as [[_ ?]|(_ & _ & ?)]; done. }
        apply runs_write_all; [by rewrite Hp1|by rewrite Hp1| |].
        -- intros d2 Hl2 Hs2 Hc2. apply append_line_end; [by eapply log_only_trans|done|apply Hl2|].
           fold c. by rewrite Hc2, Hc1, Hs1.
        -- intros o d2 n Ho Hdv Hl2 Hc2.
           assert (Hpost : append_post d o d2).
           { split_and!; [by eapply log_only_trans|done|]. exists (Nat.min n 1).
             unfold appended. fold c. rewrite Hs1, take_app_le by (simpl; lia).
             rewrite Hc2, Hc1. split; [|done].
             by destruct n as [|[|n]]. }
           by destruct o as [[]|e| |].
    + apply runs_ret, append_line_end; [done|by rewrite Hp1|by rewrite Hp1|].
      assert (c = []) as Hnil by (apply zlen_zero; pose proof (zlen_nonneg c); lia).
      rewrite Hc1. fold c. by rewrite Hnil.
  - intros o d2 Hpost. destruct o as [[]|e| |]; try done.
    destruct Hpost as (Hl2 & _ & k & Hk & Hfull).
    assert (Hany : forall o, o <> Diverged -> append_post d o d2)
      by (intros o Ho; split_and!; [done|done|]; exists k; auto).
    destruct (zlen c =? 0); [|by apply runs_ret, Hany].
    unfold sync_parent_directory. apply runs_bind, runs_open_dir;
      [apply runs_sync|intros e|]; try (intros e); by apply Hany.
Qed.

(** ** Idempotence *)

Lemma open_history_snapshot_reads missing : reads (open_history_snapshot p missing).
Proof.
  apply reads_attempt; [apply reads_query| | |].
  - intros _. apply reads_bind; [apply reads_query|]. intros [? len]. apply reads_ret.
  - intros []; try apply reads_throw. destruct (_ && _); [apply reads_ret|apply reads_throw].
  - intros e w (x & -> & Hx). simpl. rewrite bool_decide_false by done. by rewrite andb_false_r.
Qed.

Lemma fill_buf_reads rd : reads (fill_buf p rd).
Proof.
  unfold fill_buf. destruct (r_buf rd); [|apply reads_ret].
  apply reads_bind; [apply reads_query|intros x; apply reads_ret].
Qed.

Lemma read_snapshot_line_reads fuel : forall rd current end_ line oversized,
  reads (read_snapshot_line fuel p rd current end_ line oversized).
Proof.
  induction fuel as [|fuel IH]; intros; simpl; (destruct (_ <? _); [|apply reads_ret]);
    [apply reads_diverge|].
  apply reads_bind; [apply fill_buf_reads|]. intros rd'.
  destruct (r_buf rd'); [apply reads_throw|]. cbn zeta.
  destruct (newline_index _); [apply reads_ret|apply IH].
Qed.

Lemma contains_loop_reads fuel : forall rd current end_ a,
  reads (contains_loop fuel p rd current end_ a).
Proof.
  induction fuel as [|fuel IH]; intros; simpl; (destruct (_ <? _); [|apply reads_ret]);
    [apply reads_diverge|].
  apply reads_bind; [apply read_snapshot_line_reads|]. intros [[[rd' cur] line] over].
  destruct over; [apply IH|]. destruct (record_from_slice line); [apply IH|].
  case_decide; [apply reads_ret|apply IH].
Qed.

Lemma contains_attempt_reads a from : reads (contains_attempt p a from).
Proof.
  apply reads_bind; [apply open_history_snapshot_reads|]. intros [len|]; [|apply reads_ret].
  apply reads_bind; [|intros rd; apply contains_loop_reads].
  apply reads_bind; [apply reads_query|intros; apply reads_ret].
Qed.

(** The search from the end of [c0] sees what was appended since. *)
Lemma contains_attempt_quiet d c0 g u :
  dget d p <> Some Directory -> content d p = c0 ++ g ->
  contains_attempt p attempt_id (zlen c0) (World d [] u)
  = (Done (has_attempt attempt_id g), World d [] u).
Proof.
  intros Hd Hc. unfold contains_attempt, content in *.
  destruct (dget d p) as [[c|]|] eqn:Hp; [|done|].
  - subst c. erewrite bind_done by by apply open_history_snapshot_quiet. cbn beta iota.
    pose proof (zlen_nonneg g). rewrite zlen_app, Z.min_l by lia.
    erewrite (bind_done _ _ _ (Reader (zlen c0) [])) by done.
    apply contains_loop_quiet; [unfold line_fuel, zlen; lia|done|]. split; [done|]. by exists g.
  - symmetry in Hc. apply app_eq_nil in Hc as [-> ->].
    erewrite (bind_done _ _ _ None); [done|]. unfold open_history_snapshot.
    erewrite bind_done by (apply attempt_failed; unfold open_file; by rewrite query_quiet, Hp).
    done.
Qed.

(** Retrying an append, under faults: the record is in the log exactly once when
    the call succeeds, and at most once otherwise. *)
Lemma append_once_runs c0 d :
  dget d p <> Some Directory -> pending c0 (content d p) \/ logged c0 (content d p) ->
  runs (append_once p r (zlen c0)) (fun o d' =>
    log_only d d' /\ o <> Diverged
    /\ (logged c0 (content d' p)
        \/ o <> Done tt /\ pending c0 (content d' p) /\ pending c0 (content d p))) d.
Proof.
  intros Hd Hstate. assert (Hself : log_only d d) by done.
  assert (Hsame : forall o, o <> Done tt -> o <> Diverged ->
    log_only d d /\ o <> Diverged
    /\ (logged c0 (content d p) \/ o <> Done tt /\ pending c0 (content d p) /\ pending c0 (content d p)))
    by (intros o Ho Hdv; split_and!; [done|done|]; destruct Hstate; auto).
  apply runs_bind. destruct Hstate as [Hp|Hl].
  - pose proof Hp as (g & Hc & (Hg & _) & _).
    apply (runs_reads _ (Done false)); [apply contains_attempt_reads| | |intros; by apply Hsame|by apply Hsame].
    { intros u. rewrite (contains_attempt_quiet d c0 g) by done. by rewrite Hg. }
    apply (runs_mono _ (append_post d)); [by apply append_runs|].
    intros o d' (Hlo & Hdv & k & Hk & Hfull). split_and!; [done|done|].
    destruct (append_progress c0 (content d p) k Hp) as [Hdone Hany]. rewrite Hk.
    destruct o as [[]|e| |]; [left; by apply Hdone, Hfull|..]; destruct Hany; auto.
  - pose proof Hl as (g & Hc & (Hg & _) & _).
    apply (runs_reads _ (Done true)); [apply contains_attempt_reads| | |intros; by apply Hsame|by apply Hsame].
    { intros u. rewrite (contains_attempt_quiet d c0 g) by done. by rewrite Hg. }
    apply runs_ret. split_and!; auto.
Qed.

(** Without faults the append returns. *)
Lemma append_succeeds d : dget d p <> Some Directory -> succeeds (append p r) (fun _ _ => True) d.
Proof.
  intros Hd. unfold append. rewrite Hb. apply succeeds_bind, succeeds_ret.
  assert (exists d1 c, (match dget d p with
      | Some Directory => (Err (os_error IsADirectory), d)
      | Some (Regular _) => (Ok tt, d)
      | None => (Ok tt, dput p (Regular []) d)
      end) = (Ok tt, d1) /\ dget d1 p = Some (Regular c)) as (d1 & c & Hd1 & Hc).
  { destruct (dget d p) as [[c|]|] eqn:E; [by exists d, c|done|].
    eexists _, []. split; [done|]. apply dget_dput_same. }
  apply succeeds_bind, (succeeds_syscall _ _ tt d d1); [exact Hd1|].
  apply succeeds_bind, (succeeds_quiet _ (true, zlen c)).
  { intros u. by rewrite metadata_quiet, Hc. }
  assert (Hwrite : forall x d, succeeds (write_all p x) (fun _ _ => True) d)
    by (intros x d2; by eapply succeeds_syscall).
  assert (Hsync : forall d, succeeds sync (fun _ _ => True) d)
    by (intros d2; by eapply succeeds_syscall).
  assert (Hend : forall d2, succeeds (if zlen c =? 0 then sync_parent_directory else ret tt)
                              (fun _ _ => True) d2).
  { intros d2. destruct (_ =? _); [|by apply succeeds_ret].
    by apply succeeds_bind, (succeeds_syscall _ _ tt d2 d2). }
  apply succeeds_bind. unfold append_line. apply succeeds_bind.
  assert (Hline : forall d2, succeeds (write_all p (b ++ [NEWLINE]) ;; sync)
    (fun _ d3 => succeeds (if zlen c =? 0 then sync_parent_directory else ret tt)
                   (fun _ _ => True) d3) d2).
  { intros d2. apply succeeds_bind. eapply succeeds_syscall; [done|].
    eapply succeeds_syscall; [done|apply Hend]. }
  destruct (Z.ltb_spec 0 (zlen c)); [|by apply succeeds_ret].
  apply succeeds_bind, (succeeds_quiet _ (bool_decide (separator c = []))).
  { intros u. by apply has_final_newline_quiet. }
  case_bool_decide; [by apply succeeds_ret|]. by eapply succeeds_syscall.
Qed.

Lemma append_once_succeeds c0 d :
  dget d p <> Some Directory -> pending c0 (content d p) \/ logged c0 (content d p) ->
  succeeds (append_once p r (zlen c0)) (fun _ _ => True) d.
Proof.
  intros Hd Hstate.
  assert (exists g, content d p = c0 ++ g) as [g Hg]
    by (destruct Hstate as [(g & Hg & _)|(g & Hg & _)]; eauto).
  apply succeeds_bind, (succeeds_quiet _ (has_attempt attempt_id g)).
  { intros u. by apply contains_attempt_quiet. }
  destruct (has_attempt attempt_id g); [by apply succeeds_ret|by apply append_succeeds].
Qed.
End append.

(** * Result *)

(** C18: appending a completion record is idempotent and safe under faults.  From
    a log that ends anywhere, even inside a torn line, [append_once] adds exactly
    one record when it succeeds; when it fails or the process dies, the log holds
    the old records with or without the new one, and running it again from that
    state, as often as it takes, still ends with exactly one copy. *)
Theorem append_once_adds_one_record `{SerdeJson} `{!SerdeJsonOk} p r b c0 d fs u o w' :
  record_typed r -> record_to_vec r = Some b -> zlen b < MAX_HISTORY_LINE_BYTES ->
  dget d p <> Some Directory -> pending r c0 (content d p) \/ logged r c0 (content d p) ->
  genuine fs ->
  append_once p r (zlen c0) (World d fs u) = (o, w') ->
  (o = Done tt -> log_records (content (w_disk w') p) = log_records c0 ++ [r])
  /\ (pending r c0 (content (w_disk w') p)
       /\ log_records (content (w_disk w') p) = log_records c0
      \/ logged r c0 (content (w_disk w') p)
         /\ log_records (content (w_disk w') p) = log_records c0 ++ [r])
  /\ forall q, q <> p -> dget (w_disk w') q = dget d q.
Proof.
  intros Hty Hb Hlen Hd Hst Hfs Hrun.
  destruct (append_once_runs r b Hty Hb Hlen p c0 d Hd Hst fs u Hfs) as [Hpost _].
  rewrite Hrun in Hpost. cbn [fst snd] in Hpost. destruct Hpost as ([Hq _] & _ & Hlog).
  destruct Hlog as [Hl|(Ho & Hp & _)].
  - pose proof Hl as (g & _ & _ & Hrec & _). split_and!; auto.
  - pose proof Hp as (g & _ & _ & Hrec & _). split_and!; [done|by left|done].
Qed.
