(* ===== verification/Recovery.v ===== *)
(** Recovery of the store ([store.rs]: [reclaim_claims], [recover_worker_state],
    [open] and [reconcile_await_deletions]) and the failure records the worker
    appends: what a restart leaves of the queue. *)

From S2P Require Import Prelude Text Protocol Disk Entry Order Bounds Scan Capacity Writes Schedule.
From S2P Require Import History Store DiskState Claims Edits Lines Reverse Log Append.

Import StoredEntry.

Section recovery.
Context `{Platform} `{!PlatformOk} `{SerdeJson} `{!SerdeJsonOk}.
Implicit Types d : disk.

Abbreviation queue d := (entries_of (d_entries d)).

(** An entry and what recovery makes of it: the claim is dropped, a legacy entry
    gets an incarnation, nothing else changes. *)
Definition reclaimed (e e' : t) : Prop :=
  claim_token e' = None /\ incarnation e' <> ""
  /\ (incarnation e <> "" -> incarnation e' = incarnation e)
  /\ order e' = order e /\ same_body e e'.

Lemma reclaimed_id e e' : reclaimed e e' -> id e' = id e.
Proof. intros (_ & _ & _ & _ & (Hid & _)). done. Qed.

(** What the loop writes for [e], drawing from the UUIDs after [u]. *)
Definition reclaim_entry (e : t) (u : nat) : t :=
  if decide (incarnation e = "") then with_incarnation (new_v4 u) (with_claim None e)
  else with_claim None e.

Lemma reclaim_entry_spec e u : entry_ok e ->
  reclaimed e (reclaim_entry e u) /\ update_of e (reclaim_entry e u).
Proof.
  intros Hok. unfold reclaim_entry. case_decide as Hi.
  - split; [|by apply reclaim_update]. repeat split; try done. apply new_v4_nonempty.
  - split; [by repeat split|]. by apply with_claim_update.
Qed.

(** One turn of the loop: the rewritten entry is what the queue holds after it. *)
Lemma reclaim_turn d u e done_ rest :
  disk_wf d -> queue d = done_ ++ e :: rest ->
  exists d' u' e', reclaimed e e' /\ disk_wf d' /\ queue d' = done_ ++ e' :: rest
    /\ d_root d' = d_root d /\ d_deletions d' = d_deletions d
    /\ reclaim_loop (e :: rest) (World d [] u) = reclaim_loop rest (World d' [] u').
Proof.
  intros Hwf Hq. assert (He : e ∈ queue d) by (rewrite Hq; set_solver).
  destruct (reclaim_entry_spec e u (wf_entry_ok d e Hwf He)) as [Hre Hup].
  assert (Hord : order (reclaim_entry e u) = order e) by apply Hre.
  destruct (write_same_key d (if decide (incarnation e = "") then S u else u) e
              (reclaim_entry e u) Hwf He Hup Hord) as (d' & Hrun & Hwf' & Hq' & Hr & Hd).
  assert (Hnd : NoDup (id <$> queue d)) by apply entries_of_NoDup.
  assert (Hplace : queue d' = done_ ++ reclaim_entry e u :: rest).
  { rewrite Hq', Hq. rewrite Hq, fmap_app, fmap_cons in Hnd.
    apply NoDup_app in Hnd as (_ & Hdis & Hnd). apply NoDup_cons in Hnd as [Hnin _].
    apply replace_entry_split; [by apply reclaimed_id|..]; apply Forall_forall; intros x Hx Heq.
    - apply (Hdis (id x)); [by apply list_elem_of_fmap_2|]. rewrite Heq. left.
    - apply Hnin. rewrite <- Heq. by apply list_elem_of_fmap_2. }
  cbn [reclaim_loop]. unfold reclaim_entry in *. cbn [incarnation with_claim].
  destruct (decide (incarnation e = "")) as [Hi|Hi].
  - rewrite (bool_decide_true (incarnation e = "")) by done. exists d', (S u), (with_incarnation (new_v4 u) (with_claim None e)).
    split_and!; try done.
    erewrite bind_done by (unfold bind, fresh_uuid; simpl; done).
    rewrite orb_true_r. by erewrite bind_done by exact Hrun.
  - rewrite (bool_decide_false (incarnation e = "")) by done. rewrite orb_false_r.
    erewrite bind_done by done. case_bool_decide as Hc.
    + exists d', u, (with_claim None e). split_and!; try done.
      by erewrite bind_done by exact Hrun.
    + assert (claim_token e = None) by (destruct (claim_token e); [by destruct Hc|done]).
      by exists d, u, e; split_and!.
Qed.

Lemma reclaim_loop_quiet rest : forall d u done_,
  disk_wf d -> queue d = done_ ++ rest ->
  exists d' u' rest', reclaim_loop rest (World d [] u) = (Done tt, World d' [] u')
    /\ disk_wf d' /\ queue d' = done_ ++ rest' /\ Forall2 reclaimed rest rest'
    /\ d_root d' = d_root d /\ d_deletions d' = d_deletions d.
Proof.
  induction rest as [|e rest IH]; intros d u done_ Hwf Hq.
  { exists d, u, []. by split_and!. }
  destruct (reclaim_turn d u e done_ rest Hwf Hq) as (d1 & u1 & e1 & Hre & Hwf1 & Hq1 & Hr1 & Hd1 & ->).
  destruct (IH d1 u1 (done_ ++ [e1])) as (d2 & u2 & rest2 & Hrun & Hwf2 & Hq2 & Hf2 & Hr2 & Hd2);
    [done|by rewrite <- app_assoc|].
  exists d2, u2, (e1 :: rest2). split_and!; try congruence.
  - by rewrite Hq2, <- app_assoc.
  - by constructor.
Qed.

Lemma reclaim_claims_quiet d u :
  disk_wf d ->
  exists d' u', reclaim_claims (World d [] u) = (Done tt, World d' [] u')
    /\ disk_wf d' /\ Forall2 reclaimed (queue d) (queue d')
    /\ d_root d' = d_root d /\ d_deletions d' = d_deletions d.
Proof.
  intros Hwf. unfold reclaim_claims.
  destruct (reclaim_loop_quiet (queue d) d u [] Hwf eq_refl)
    as (d' & u' & es & Hrun & Hwf' & Hq & Hf & Hr & Hd).
  exists d', u'. erewrite bind_done by by apply entries_wf. rewrite Hrun, Hq. split_and!; done.
Qed.

Lemma reclaimed_unclaimed d d' : Forall2 reclaimed (queue d) (queue d') -> claims d' = [].
Proof.
  unfold claims. induction 1 as [|e e' l l' (Hc & _) _ IH]; [done|].
  rewrite filter_cons_False; [done|]. unfold claimed. rewrite Hc. by case_bool_decide.
Qed.

Lemma reconcile_nothing d u :
  dget d COMPLETION_FILE = None -> reconcile_completion (World d [] u) = (Done tt, World d [] u).
Proof.
  intros Hc. unfold reconcile_completion.
  assert (Hr : read_to_string COMPLETION_FILE (World d [] u)
               = (Failed (Io (os_error NotFound)), World d [] u)).
  { unfold read_to_string. apply bind_failed. by rewrite read_quiet, Hc. }
  by erewrite bind_done by (apply attempt_failed, Hr).
Qed.

Lemma validate_existing_quiet d u :
  store_wf (d_entries d) -> validate_existing_limits (World d [] u) = (Done tt, World d [] u).
Proof.
  intros Hwf. unfold validate_existing_limits.
  erewrite bind_done by by apply entries_with_usage_quiet, store_wf_fits.
  cbn beta iota. unfold ensure_queue_bytes, usage_of. cbn [used_bytes headroom_bytes].
  pose proof (wf_budget _ Hwf) as Hb.
  destruct (Z.ltb_spec MAX_QUEUE_BYTES
    (sat_add (zsum (sizes (d_entries d))) (zsum (entry_headroom <$> valid_entries (d_entries d)))));
    [unfold sat_add in *; lia|done].
Qed.

(** A worker that starts on a store without an interrupted completion. *)
Lemma recover_quiet d u :
  disk_wf d -> dget d COMPLETION_FILE = None ->
  exists d' u', recover_worker_state (World d [] u) = (Done tt, World d' [] u')
    /\ disk_wf d' /\ Forall2 reclaimed (queue d) (queue d')
    /\ d_root d' = d_root d /\ d_deletions d' = d_deletions d.
Proof.
  intros Hwf Hc. unfold recover_worker_state.
  erewrite bind_done by by apply reconcile_nothing. by apply reclaim_claims_quiet.
Qed.

(** ** Deletion markers *)

(** The markers without those of queued entries. *)
Definition cleared (es : list t) (m : gmap string node) : gmap string node :=
  foldr (fun e m => delete (id e) m) m es.

Lemma cleared_lookup es m k :
  cleared es m !! k = if decide (k ∈ id <$> es) then None else m !! k.
Proof.
  induction es as [|e es IH]; [by rewrite decide_False by set_solver|].
  cbn [cleared foldr]. rewrite lookup_delete. fold (cleared es m). rewrite IH.
  rewrite fmap_cons. destruct (decide (id e = k)) as [->|Hne].
  { by rewrite decide_True by left. }
  destruct (decide (k ∈ id <$> es)); [by rewrite decide_True by by right|].
  rewrite decide_False; [done|]. by intros [|]%elem_of_cons.
Qed.

Lemma clear_markers_quiet es : forall d u removed,
  disk_wf d -> Forall (fun e => is_valid_id (id e) = true) es ->
  exists removed' d', clear_markers es removed (World d [] u) = (Done removed', World d' [] u)
    /\ disk_wf d' /\ d_entries d' = d_entries d /\ d_root d' = d_root d
    /\ d_deletions d' = cleared (reverse es) (d_deletions d).
Proof.
  induction es as [|e es IH]; intros d u removed Hwf Hv.
  { exists removed, d. by split_and!. }
  apply Forall_cons_1 in Hv as [He Hv]. cbn [clear_markers].
  erewrite bind_done by (unfold await_deletion_path; by rewrite He).
  assert (Hrev : forall m, cleared (reverse (e :: es)) m = cleared (reverse es) (delete (id e) m)).
  { intros m. rewrite reverse_cons. unfold cleared. by rewrite foldr_app. }
  rewrite Hrev. pose proof (wf_deletions d Hwf (id e)) as Hnd.
  destruct (d_deletions d !! id e) as [[c|]|] eqn:Hm; [|done|].
  - erewrite bind_done by (apply attempt_done; rewrite read_quiet; unfold dget; simpl; by rewrite Hm).
    cbn beta iota. set (d1 := ddel (AwaitDeletions, id e) d).
    assert (Hrm : remove_file (AwaitDeletions, id e) (World d [] u) = (Done tt, World d1 [] u)).
    { unfold remove_file, syscall. simpl. unfold dget. simpl. by rewrite Hm. }
    erewrite bind_done by exact Hrm.
    assert (Hwf1 : disk_wf d1).
    { destruct Hwf. constructor; try done. intros k. subst d1. simpl.
      rewrite lookup_delete. by case_decide. }
    destruct (IH d1 u true Hwf1 Hv) as (r & d2 & Hrun & Hwf2 & He2 & Hr2 & Hd2).
    exists r, d2. by split_and!.
  - erewrite bind_done by (apply attempt_failed; rewrite read_quiet; unfold dget; simpl; by rewrite Hm).
    cbn beta iota. rewrite decide_True by done.
    destruct (IH d u removed Hwf Hv) as (r & d2 & Hrun & Hwf2 & He2 & Hr2 & Hd2).
    exists r, d2. split_and!; try done. by rewrite Hd2, delete_id.
Qed.

Lemma reconcile_await_deletions_quiet d u :
  disk_wf d ->
  exists d', reconcile_await_deletions (World d [] u) = (Done tt, World d' [] u)
    /\ disk_wf d' /\ d_entries d' = d_entries d /\ d_root d' = d_root d
    /\ forall k, d_deletions d' !! k
         = if decide (k ∈ id <$> queue d) then None else d_deletions d !! k.
Proof.
  intros Hwf. unfold reconcile_await_deletions. erewrite bind_done by by apply entries_wf.
  destruct (clear_markers_quiet (queue d) d u false Hwf)
    as (r & d' & Hrun & Hwf' & He & Hr & Hd).
  { apply Forall_forall. intros e He. by apply (wf_entry_ok d e Hwf He). }
  exists d'. erewrite bind_done by exact Hrun. split_and!; try done.
  - by destruct r.
  - intros k. rewrite Hd, cleared_lookup, fmap_reverse. repeat case_decide; try done;
      by (rewrite elem_of_reverse in * ).
Qed.

(** ** Failure records *)

Lemma append_quiet d u p r b :
  record_to_vec r = Some b -> dget d p <> Some Directory ->
  exists d' v, append p r (World d [] u) = (Done tt, World d' [] v) /\ log_only p d d'
    /\ content d' p = content d p ++ appended (content d p) b.
Proof.
  intros Hb Hp. destruct (append_succeeds r b Hb p d Hp u) as ([] & d' & v & Hrun & _).
  exists d', v. split; [done|].
  destruct (append_runs r b Hb p d Hp [] u) as [(Hlo & _ & k & Hc & Hfull) _]; [constructor|].
  rewrite Hrun in Hlo, Hc, Hfull. cbn [fst snd w_disk] in *. split; [done|]. rewrite Hc. by rewrite Hfull.
Qed.

(** Changing the log alone changes nothing the schedule reads. *)
Lemma log_only_wf d d' : log_only HISTORY_FILE d d' -> disk_wf d ->
  disk_wf d' /\ d_entries d' = d_entries d /\ d_deletions d' = d_deletions d
  /\ activity d' = activity d /\ dget d' COMPLETION_FILE = dget d COMPLETION_FILE.
Proof.
  intros [Hq Hh] Hwf.
  assert (He : d_entries d' = d_entries d)
    by (apply map_eq; intros k; apply (Hq (Entries, k)); done).
  assert (Hd : d_deletions d' = d_deletions d)
    by (apply map_eq; intros k; apply (Hq (AwaitDeletions, k)); done).
  split_and!; try done.
  - destruct Hwf as [Hw Hp Ha Hr Hdel]. constructor.
    + by rewrite He.
    + unfold marker_wf. by rewrite Hq.
    + unfold marker_wf. by rewrite Hq.
    + intros k. change (d_root d' !! k) with (dget d' (Root, k)).
      destruct (decide ((Root, k) = HISTORY_FILE)) as [->|Hne]; [done|]. rewrite Hq by done. apply Hr.
    + intros k. by rewrite Hd.
  - unfold activity, marker. by rewrite !Hq.
  - by apply Hq.
Qed.

Lemma reclaimed_ids (es es' : list t) : Forall2 reclaimed es es' -> id <$> es' = id <$> es.
Proof. induction 1 as [|e e' l l' Hre _ IH]; [done|]. by rewrite !fmap_cons, IH, (reclaimed_id e e' Hre). Qed.

(** Opening the store, from what the reconciliation of a completion leaves. *)
Lemma open_store_from d u d1 u1 :
  reconcile_completion (World d [] u) = (Done tt, World d1 [] u1) -> disk_wf d1 ->
  exists d' u', open_store (World d [] u) = (Done tt, World d' [] u')
    /\ disk_wf d' /\ claims d' = []
    /\ Forall2 reclaimed (entries_of (d_entries d1)) (entries_of (d_entries d'))
    /\ d_root d' = d_root d1
    /\ forall k, d_deletions d' !! k
         = if decide (k ∈ id <$> entries_of (d_entries d1)) then None else d_deletions d1 !! k.
Proof.
  intros Hrec Hwf. unfold open_store.
  do 2 erewrite bind_done by done. erewrite bind_done by exact Hrec.
  erewrite bind_done by (apply validate_existing_quiet; apply Hwf).
  destruct (reclaim_claims_quiet d1 u1 Hwf) as (d2 & u2 & Hrun & Hwf1 & Hf & Hr & Hd).
  erewrite bind_done by exact Hrun.
  destruct (reconcile_await_deletions_quiet d2 u2 Hwf1) as (d3 & Hrun2 & Hwf2 & He2 & Hr2 & Hd2).
  exists d3, u2. rewrite He2, Hr2. split_and!; try done.
  - unfold claims. rewrite He2. by eapply (reclaimed_unclaimed d1 d2).
  - intros k. rewrite Hd2, Hd.
    by rewrite (reclaimed_ids _ _ Hf).
Qed.
End recovery.

(** * Results *)

(** A worker that starts, or restarts after a crash outside a completion,
    releases every claim and changes nothing else: the queue keeps its entries,
    their order and their content, every entry has an incarnation afterwards, and
    the cooldown markers and deletion markers are untouched. *)
Theorem recovery_releases_claims `{Platform} `{!PlatformOk} `{SerdeJson} `{!SerdeJsonOk} d u :
  disk_wf d -> dget d COMPLETION_FILE = None ->
  exists d' u', recover_worker_state (World d [] u) = (Done tt, World d' [] u')
    /\ disk_wf d' /\ claims d' = []
    /\ Forall2 reclaimed (entries_of (d_entries d)) (entries_of (d_entries d'))
    /\ d_root d' = d_root d /\ d_deletions d' = d_deletions d.
Proof.
  intros Hwf Hc. destruct (recover_quiet d u Hwf Hc) as (d' & u' & Hrun & Hwf' & Hf & Hr & Hd).
  exists d', u'. split_and!; try done. by eapply reclaimed_unclaimed.
Qed.

(** Opening the store clears exactly the deletion markers of entries that are
    still queued, so that a deletion interrupted before the entry was removed does
    not hide that entry's later post. *)
Theorem open_clears_stale_markers `{Platform} `{!PlatformOk} `{SerdeJson} `{!SerdeJsonOk} d u :
  disk_wf d -> dget d COMPLETION_FILE = None ->
  exists d' u', open_store (World d [] u) = (Done tt, World d' [] u')
    /\ disk_wf d' /\ claims d' = []
    /\ Forall2 reclaimed (entries_of (d_entries d)) (entries_of (d_entries d'))
    /\ forall k, d_deletions d' !! k
         = if decide (k ∈ id <$> entries_of (d_entries d)) then None else d_deletions d !! k.
Proof.
  intros Hwf Hc. destruct (open_store_from d u d u) as (d' & u' & Hrun & Hwf' & Hcl & Hf & _ & Hd);
    [by apply reconcile_nothing|done|]. exists d', u'. by split_and!.
Qed.
