(* ===== verification/Completion.v ===== *)
(** Completing a post ([store/completion.rs]): once the completion record is
    durable, every failure or crash is repaired by running the reconciliation
    again, and the result is the same: one history record, the entry removed,
    the last-post marker set. *)

From S2P Require Import Prelude Text Protocol Disk Entry Order Bounds Scan Capacity Writes Schedule.
From S2P Require Import History Store DiskState Claims Edits Sound Lines Reverse Log Pages Append.

Import StoredEntry.

(** * Readers of the store *)

Section readers.
Context `{Platform} `{SerdeJson}.

Lemma reads_lift {A} (r : result StoreError A) : reads (lift r).
Proof. destruct r; [apply reads_throw|apply reads_ret]. Qed.
Lemma reads_serde_ok {A} (r : result string A) : reads (serde_ok r).
Proof. destruct r; [apply reads_throw|apply reads_ret]. Qed.

Lemma read_reads p : reads (read p).
Proof. apply reads_bind; [apply reads_query|intros; apply reads_query]. Qed.

Lemma read_to_string_reads p : reads (read_to_string p).
Proof.
  apply reads_bind; [apply read_reads|]. intros x.
  destruct (utf8_decode x); [apply reads_ret|apply reads_throw].
Qed.

Lemma read_entry_reads p : reads (read_entry p).
Proof.
  apply reads_bind; [apply reads_query|]. intros [is_file len].
  destruct (negb is_file); [apply reads_throw|].
  apply reads_bind; [apply reads_lift|intros []].
  apply reads_bind; [apply reads_query|intros []].
  apply reads_bind; [apply reads_query|intros c].
  apply reads_bind; [apply reads_lift|intros []]. apply reads_serde_ok.
Qed.

Lemma find_reads wanted : reads (find wanted).
Proof.
  apply reads_bind; [apply reads_lift|intros p]. apply reads_attempt; [apply read_entry_reads|..].
  - intros e. case_decide; [apply reads_ret|apply reads_throw].
  - intros []; try apply reads_throw. case_decide; apply reads_throw.
  - intros e w (x & -> & Hx). by rewrite decide_False.
Qed.
End readers.

(** Disks that differ in the queue directory itself only. *)
Definition root_only (d d' : disk) : Prop :=
  d_entries d' = d_entries d /\ d_deletions d' = d_deletions d.

Lemma root_only_of (d d' : disk) p :
  p.1 = Root -> (forall q, q <> p -> dget d' q = dget d q) -> root_only d d'.
Proof.
  intros Hp Hq. split; apply map_eq; intros k.
  - apply (Hq (Entries, k)). by intros <-.
  - apply (Hq (AwaitDeletions, k)). by intros <-.
Qed.

Section completion.
Context `{Platform} `{!PlatformOk} `{SerdeJson} `{!SerdeJsonOk}.

(** What the store holds under an identifier. *)
Definition slot (d : disk) (wanted : string) (held : option t) : Prop :=
  match held with
  | Some x => x ∈ entries_of (d_entries d) /\ id x = wanted
  | None => d_entries d !! (wanted +:+ ".json") = None
  end.

(** Whether what is held is the completed entry, by its claim. *)
Definition same_claim (e : t) (held : option t) : bool :=
  match held with
  | Some x =>
      match claim_token e with
      | None => true
      | Some token => bool_decide (claim_token x = Some token)
      end
  | None => false
  end.

(** Whether what is held is in the lifetime of the completed entry. *)
Definition same_lifetime (e : t) (held : option t) : bool :=
  match held with Some x => bool_decide (incarnation x = incarnation e) | None => false end.

(** Whether the deletion marker, if there is one, is of the completed lifetime or
    precedes the one that is queued. *)
Definition marker_of_lifetime (d : disk) (e : t) (held : option t) : bool :=
  match d_deletions d !! id e with
  | Some (Regular x) =>
      match deletion_from_slice x with
      | Ok m => bool_decide (AwaitDeletionRecord.incarnation m = incarnation e) || same_lifetime e held
      | Err _ => true
      end
  | _ => true
  end.

(** An entry that was claimed from a well-formed store, what the store holds under
    its identifier now (the entry, possibly reordered; nothing, when it was deleted;
    or a replacement), the history record of its post and the completion record
    that was made durable; and whether that record may still be missing. *)
Context (d0 : disk) (e : t) (held : option t) (r : HistoryRecord.t) (b js : bytes) (posted_at : Z)
  (missing : bool).
Abbreviation c0 := (content d0 HISTORY_FILE).
Definition completion_record : CompletionRecord.t :=
  {| CompletionRecord.id := id e;
     CompletionRecord.posted_at := posted_at;
     CompletionRecord.claim_token := claim_token e;
     CompletionRecord.history := Some r;
     CompletionRecord.history_offset := Some (zlen c0) |}.

Record completing : Prop := {
  co_deletions : forall k, d_deletions d0 !! k <> Some Directory;
  co_entry : entry_ok e;
  co_held : slot d0 (id e) held;
  co_posted : is_u64 posted_at;
  co_typed : record_typed r;
  co_vec : record_to_vec r = Some b;
  co_size : zlen b < MAX_HISTORY_LINE_BYTES;
  co_incarnation : HistoryRecord.incarnation r = incarnation e;
  co_log : is_u64 (zlen c0);
  co_tail : tail_ok c0;
  co_json : completion_to_vec completion_record = Some js;
  co_marker : forall x, d_deletions d0 !! id e = Some (Regular x) ->
    exists m, deletion_from_slice x = Ok m;
}.
Context (Hco : completing).

(** The files outside the log, the entry and the markers. *)
Definition entry_removed (d : disk) : Prop :=
  d_entries d = if same_claim e held then delete (id e +:+ ".json") (d_entries d0) else d_entries d0.
Definition marker_cleared (d : disk) : Prop :=
  d_deletions d
  = if marker_of_lifetime d0 e held then delete (id e) (d_deletions d0) else d_deletions d0.

(** Between the durable completion record and the end of the reconciliation. *)
Record recovering (d : disk) : Prop := {
  re_file : dget d COMPLETION_FILE = Some (Regular js);
  re_entry : d_entries d = d_entries d0 /\ (d_deletions d = d_deletions d0 \/ marker_cleared d)
    \/ entry_removed d /\ marker_cleared d;
  re_log : missing = true /\ pending r c0 (content d HISTORY_FILE)
    \/ logged r c0 (content d HISTORY_FILE);
  re_post : dget d LAST_POST_FILE = dget d0 LAST_POST_FILE
    \/ dget d LAST_POST_FILE = Some (Regular (u64_to_bytes posted_at));
  re_attempt : dget d LAST_ATTEMPT_FILE = dget d0 LAST_ATTEMPT_FILE;
  re_root : forall k, d_root d !! k <> Some Directory;
}.

(** After the reconciliation. *)
Record completed (d : disk) : Prop := {
  cd_file : dget d COMPLETION_FILE = None;
  cd_entry : entry_removed d;
  cd_marker : marker_cleared d;
  cd_log : logged r c0 (content d HISTORY_FILE);
  cd_post : dget d LAST_POST_FILE = Some (Regular (u64_to_bytes posted_at));
  cd_attempt : dget d LAST_ATTEMPT_FILE = dget d0 LAST_ATTEMPT_FILE;
  cd_root : forall k, d_root d !! k <> Some Directory;
}.

Lemma entry_valid_id : is_valid_id (id e) = true.
Proof. apply (co_entry Hco). Qed.

Lemma completion_typed_record : completion_typed completion_record.
Proof.
  pose proof (co_entry Hco) as ((Hid & _ & _ & _ & _ & _ & Hc & _) & _).
  unfold completion_typed. simpl. split_and!; try done; apply Hco.
Qed.

(** What a lookup of the identifier answers. *)
Definition answer (x : option t) : outcome t :=
  match x with Some x => Done x | None => Failed (UnknownId (id e)) end.

Lemma find_held d u :
  d_entries d = d_entries d0 -> find (id e) (World d [] u) = (answer held, World d [] u).
Proof.
  intros Hd. pose proof (co_held Hco) as Hh. destruct held as [x|]; cbn [slot answer] in *.
  - destruct Hh as [Hx <-]. apply find_valid. rewrite Hd. by apply entries_of_elem.
  - apply find_missing; [apply entry_valid_id|]. unfold dget. simpl. by rewrite Hd.
Qed.
Lemma find_removed d u :
  entry_removed d -> same_claim e held = true ->
  find (id e) (World d [] u) = (answer None, World d [] u).
Proof.
  intros Hd Hs. apply find_missing; [apply entry_valid_id|]. unfold dget. simpl. rewrite Hd, Hs.
  apply lookup_delete_eq.
Qed.

(** A change of the log alone keeps the state. *)
Lemma recovering_log d d' :
  recovering d -> log_only HISTORY_FILE d d' ->
  missing = true /\ pending r c0 (content d' HISTORY_FILE)
  \/ logged r c0 (content d' HISTORY_FILE) -> recovering d'.
Proof.
  intros Hre [Hq Hnd] Hlog. destruct (root_only_of d d' HISTORY_FILE eq_refl Hq) as [He Hdl].
  destruct Hre. constructor; unfold entry_removed, marker_cleared in *.
  - by rewrite Hq.
  - by rewrite He, Hdl.
  - done.
  - by rewrite !Hq.
  - by rewrite Hq.
  - intros k. destruct (decide (k = "history.jsonl")) as [->|Hk]; [exact Hnd|].
    pose proof (Hq (Root, k)) as Hk'. unfold dget in Hk'. simpl in Hk'. rewrite Hk'; [done|].
    unfold HISTORY_FILE. congruence.
Qed.

(** The result of the reconciliation, and of one of its steps. *)
Definition settled (o : outcome unit) (d : disk) : Prop :=
  o <> Diverged /\ (completed d \/ o <> Done tt /\ recovering d).
Definition stage (P : disk -> Prop) (o : outcome unit) (d : disk) : Prop :=
  o <> Diverged /\ recovering d /\ (o = Done tt -> P d).

Lemma runs_stage (m k : M unit) P d :
  runs m (stage P) d -> (forall d', recovering d' -> P d' -> runs k settled d') ->
  runs (m ;; k) settled d.
Proof.
  intros Hm Hk. apply runs_bind. eapply runs_mono; [exact Hm|].
  intros o d' (Hdv & Hre & HP). destruct o as [[]|x| |]; [by apply Hk; auto|..];
    (split; [done|right; by split]).
Qed.

Abbreviation log_done d := (logged r c0 (content d HISTORY_FILE)).

Lemma recovering_file d p : recovering d -> p.1 = Root -> dget d p <> Some Directory.
Proof. intros Hre Hp. unfold dget. rewrite Hp. apply (re_root d Hre). Qed.

(** The lookup during the reconciliation: what was held, or nothing any more. *)
Lemma find_slot d :
  recovering d ->
  exists h, (forall u, find (id e) (World d [] u) = (answer h, World d [] u))
    /\ (h = held /\ d_entries d = d_entries d0
        \/ h = None /\ entry_removed d /\ marker_cleared d /\ same_claim e held = true).
Proof.
  intros Hre. destruct (re_entry d Hre) as [[He _]|[He Hm]].
  - exists held. split; [|by left]. intros u. by apply find_held.
  - destruct (same_claim e held) eqn:Hs.
    + exists None. split; [|by right]. intros u. by apply find_removed.
    + exists held. unfold entry_removed in He. rewrite Hs in He. split; [|by left].
      intros u. by apply find_held.
Qed.

Lemma append_stage d :
  recovering d ->
  runs (append_once HISTORY_FILE r (zlen c0)) (stage (fun d' => log_done d')) d.
Proof.
  intros Hre. eapply runs_mono.
  - apply (append_once_runs r b); try apply Hco; [by apply recovering_file|].
    destruct (re_log d Hre) as [[_ ?]|?]; auto.
  - intros o d' (Hlo & Hdv & Hlog). split_and!; [done| |].
    + eapply recovering_log; [done|done|]. destruct Hlog as [?|(_ & ? & Hp)]; [by right|].
      destruct (re_log d Hre) as [[? _]|Hl]; [by left|].
      destruct Hp as (g & Hc & (Hg & _) & _), Hl as (g' & Hc' & (Hg' & _) & _).
      assert (g = g') as -> by (rewrite Hc in Hc'; by apply app_inv_head in Hc'). congruence.
    + intros ->. by destruct Hlog as [?|[? _]].
Qed.

(** Nothing but the deletion marker changes. *)
Lemma recovering_cleared d :
  recovering d -> marker_of_lifetime d0 e held = true ->
  recovering (ddel (deletion_file (id e)) d) /\
  marker_cleared (ddel (deletion_file (id e)) d).
Proof.
  intros Hre Hl. assert (Hm : marker_cleared (ddel (deletion_file (id e)) d)).
  { unfold marker_cleared. simpl. destruct (re_entry d Hre) as [[_ [Hd|Hd]]|[_ Hd]];
      unfold marker_cleared in *; rewrite Hl in *; rewrite Hd; by rewrite ?delete_delete_eq. }
  split; [|done]. destruct Hre as [? Hent ? ? ? ?]. constructor; try done.
  destruct Hent as [[He _]|[He _]]; [left|right]; split; auto.
Qed.

Lemma marker_absent d :
  recovering d -> d_deletions d !! id e = None -> marker_cleared d.
Proof.
  intros Hre Hn. destruct (re_entry d Hre) as [[_ [Hd|Hd]]|[_ Hd]]; try done.
  unfold marker_cleared, marker_of_lifetime. rewrite Hd in *. rewrite Hn. by rewrite delete_id.
Qed.

(** A marker that is there was there before; a reconciliation that clears it has
    not removed the entry yet. *)
Lemma marker_present d x :
  recovering d -> d_deletions d !! id e = Some (Regular x) ->
  d_deletions d0 !! id e = Some (Regular x) /\ (exists m, deletion_from_slice x = Ok m)
  /\ (marker_of_lifetime d0 e held = true -> d_entries d = d_entries d0)
  /\ (marker_of_lifetime d0 e held = false -> marker_cleared d).
Proof.
  intros Hre Hx.
  assert (d_deletions d = d_deletions d0
    /\ (marker_of_lifetime d0 e held = true -> d_entries d = d_entries d0)) as [Hd He].
  { destruct (re_entry d Hre) as [[He [Hd|Hd]]|[_ Hd]]; [done|..]; unfold marker_cleared in Hd;
      destruct (marker_of_lifetime d0 e held); try done; by rewrite Hd, lookup_delete_eq in Hx. }
  rewrite Hd in Hx. split_and!; [done|by apply (co_marker Hco)|done|].
  intros Hl. unfold marker_cleared. by rewrite Hl.
Qed.

(** The test that keeps a marker gives the same answer before and after the entry
    is removed. *)
Lemma keeps_marker d x m h :
  recovering d -> d_deletions d !! id e = Some (Regular x) -> deletion_from_slice x = Ok m ->
  h = held /\ d_entries d = d_entries d0
  \/ h = None /\ entry_removed d /\ marker_cleared d /\ same_claim e held = true ->
  negb (bool_decide (AwaitDeletionRecord.incarnation m = incarnation e)) && negb (same_lifetime e h)
  = negb (marker_of_lifetime d0 e held).
Proof.
  intros Hre Hx Hm Hh. destruct (marker_present d x Hre Hx) as (Hx0 & _ & _ & _).
  assert (Hl : marker_of_lifetime d0 e held
    = bool_decide (AwaitDeletionRecord.incarnation m = incarnation e) || same_lifetime e held)
    by (unfold marker_of_lifetime; by rewrite Hx0, Hm).
  destruct Hh as [[-> _]|(-> & _ & Hc & _)]; [by rewrite Hl, negb_orb|].
  destruct (marker_of_lifetime d0 e held) eqn:Hml.
  - unfold marker_cleared in Hc. rewrite Hml in Hc. by rewrite Hc, lookup_delete_eq in Hx.
  - symmetry in Hl. apply orb_false_iff in Hl as [-> _]. done.
Qed.

Lemma deletions_file d k : recovering d -> d_deletions d !! k <> Some Directory.
Proof.
  intros Hre. pose proof (co_deletions Hco k).
  destruct (re_entry d Hre) as [[_ [Hd|Hd]]|[_ Hd]]; rewrite Hd; try done;
    destruct (marker_of_lifetime d0 e held); try done; rewrite lookup_delete; by case_decide.
Qed.

Lemma clear_stage d :
  recovering d -> log_done d ->
  runs (clear_await_deletion (id e) (HistoryRecord.incarnation r))
    (stage (fun d' => log_done d' /\ marker_cleared d')) d.
Proof.
  intros Hre Hlog. unfold clear_await_deletion, await_deletion_path. rewrite entry_valid_id.
  assert (Hkeep : forall o, o <> Done tt -> o <> Diverged ->
    stage (fun d' => log_done d' /\ marker_cleared d') o d) by (intros; by split_and!).
  apply runs_bind, runs_ret, runs_bind, runs_attempt.
  destruct (d_deletions d !! id e) as [[x|]|] eqn:Hx; [|by apply deletions_file in Hx|].
  2:{ apply (runs_reads _ (Failed (Io (os_error NotFound)))); [apply read_reads| | | |by apply Hkeep].
      - intros u. rewrite read_quiet. unfold dget. simpl. by rewrite Hx.
      - apply runs_ret. split_and!; try done. intros _. split; [done|]. by apply marker_absent.
      - intros x (y & -> & Hy) _. rewrite decide_False by done. apply runs_throw. by apply Hkeep. }
  destruct (marker_present d x Hre Hx) as (Hx0 & [m Hm] & Hent & Hnot).
  apply (runs_reads _ (Done x)); [apply read_reads| | | |by apply Hkeep].
  { intros u. rewrite read_quiet. unfold dget. simpl. by rewrite Hx. }
  2:{ intros y (z & -> & Hz) _. rewrite decide_False by done. apply runs_throw. by apply Hkeep. }
  rewrite Hm. apply runs_bind, runs_ret, runs_bind, runs_attempt.
  destruct (find_slot d Hre) as (h & Hfind & Hh).
  apply (runs_reads _ (answer h)); [apply find_reads|exact Hfind| | |by apply Hkeep].
  2:{ intros y (z & -> & Hz) _. apply runs_bind, runs_throw. by apply Hkeep. }
  pose proof (keeps_marker d x m h Hre Hx Hm Hh) as Hkm. rewrite <- (co_incarnation Hco) in Hkm.
  enough (runs (if negb (marker_of_lifetime d0 e held) then ret tt
                else remove_file (deletion_file (id e)) ;; open_dir ;; sync)
            (stage (fun d' => log_done d' /\ marker_cleared d')) d)
    by (destruct h as [y|]; cbn [answer same_lifetime] in *; apply runs_bind, runs_ret;
        rewrite ?(co_incarnation Hco) in *; by rewrite Hkm).
  destruct (marker_of_lifetime d0 e held) eqn:Hl; cbn [negb].
  2:{ apply runs_ret. split_and!; try done. intros _. split; [done|]. by apply Hnot. }
  destruct (recovering_cleared d Hre Hl) as [Hre' Hcl].
  apply runs_bind, runs_syscall; try (intros; by apply Hkeep); fold (deletion_file (id e)).
  2:{ intros err d' Hd'. unfold dget in Hd'. simpl in Hd'. by rewrite Hx in Hd'. }
  intros [] d' Hd'. assert (d' = ddel (deletion_file (id e)) d) as ->.
  { unfold dget in Hd'. simpl in Hd'. rewrite Hx in Hd'. by simplify_eq. }
  assert (Hany : forall o, o <> Diverged ->
    stage (fun d' => log_done d' /\ marker_cleared d') o (ddel (deletion_file (id e)) d)) by done.
  apply runs_bind, runs_open_dir; [|intros; by apply Hany|by apply Hany].
  apply runs_sync; [by apply Hany|intros; by apply Hany|by apply Hany].
Qed.

(** Nothing but the entry's file changes. *)
Lemma recovering_removed d :
  recovering d -> marker_cleared d -> same_claim e held = true ->
  recovering (ddel (entry_file (id e)) d) /\ entry_removed (ddel (entry_file (id e)) d)
  /\ marker_cleared (ddel (entry_file (id e)) d).
Proof.
  intros Hre Hm Hs. assert (He : entry_removed (ddel (entry_file (id e)) d)).
  { unfold entry_removed. simpl. destruct (re_entry d Hre) as [[He _]|[He _]];
      unfold entry_removed in *; rewrite Hs in *; rewrite He; by rewrite ?delete_delete_eq. }
  split_and!; [|done|done]. destruct Hre. constructor; try done. by right.
Qed.

Abbreviation removed d := (log_done d /\ marker_cleared d /\ entry_removed d).

Lemma owns_claimed x : owns_entry completion_record x = same_claim e (Some x).
Proof. reflexivity. Qed.

Lemma held_file x : held = Some x -> exists c, d_entries d0 !! (id e +:+ ".json") = Some (Regular c).
Proof.
  intros Hx. pose proof (co_held Hco) as Hh. rewrite Hx in Hh. destruct Hh as [Hin <-].
  apply entries_of_elem, valid_entries_elem in Hin as (c & Hc & _). by exists c.
Qed.

Lemma not_owned d : recovering d -> same_claim e held = false -> entry_removed d.
Proof.
  intros Hre Hs. unfold entry_removed. rewrite Hs.
  destruct (re_entry d Hre) as [[He _]|[He _]]; [done|]. unfold entry_removed in He. by rewrite Hs in He.
Qed.

Lemma remove_stage d :
  recovering d -> log_done d -> marker_cleared d ->
  runs (remove_owned completion_record (entry_file (id e))) (stage (fun d' => removed d')) d.
Proof.
  intros Hre Hlog Hm.
  assert (Hkeep : forall o, o <> Done tt -> o <> Diverged -> stage (fun d' => removed d') o d)
    by (intros; by split_and!).
  apply runs_bind, runs_attempt. destruct (find_slot d Hre) as (h & Hfind & Hh).
  apply (runs_reads _ (answer h)); [apply find_reads|exact Hfind| | |by apply Hkeep].
  2:{ intros y (z & -> & Hz) _. apply runs_bind, runs_throw. by apply Hkeep. }
  destruct h as [x|]; cbn [answer]; apply runs_bind, runs_ret.
  - destruct Hh as [[Hx He]|[? _]]; [|done]. rewrite owns_claimed. rewrite Hx.
    destruct (same_claim e held) eqn:Hs; [|apply runs_ret; split_and!; try done; by intros _; split_and!; [..|by apply not_owned]].
    apply runs_bind, runs_attempt, runs_syscall; [| | |intros; by apply Hkeep].
    + intros [] d' Hd'. destruct (recovering_removed d Hre Hm Hs) as (Hre' & He' & Hm').
      assert (d' = ddel (entry_file (id e)) d) as ->
        by (destruct (dget d _) as [[]|]; by simplify_eq).
      apply runs_ret. by split_and!.
    + intros y d' Hd'. exfalso. destruct (held_file x (eq_sym Hx)) as [c Hc].
      unfold dget, entry_file in Hd'. simpl in Hd'. by rewrite He, Hc in Hd'.
    + intros y n Hy. rewrite decide_False by done. apply runs_throw. by apply Hkeep.
  - apply runs_ret. split_and!; try done. intros _. split_and!; try done.
    destruct Hh as [[Hx _]|(_ & He & _)]; [|done]. apply not_owned; [done|]. by rewrite <- Hx.
Qed.

(** Rewriting the last-post marker, as far as it gets. *)
Lemma recovering_post d d' :
  recovering d ->
  (d' = replaced LAST_POST_FILE (u64_to_bytes posted_at) d
   \/ (forall q, q <> tmp_path LAST_POST_FILE -> dget d' q = dget d q)
      /\ (dget d (tmp_path LAST_POST_FILE) <> Some Directory ->
          dget d' (tmp_path LAST_POST_FILE) <> Some Directory)) ->
  recovering d' /\ root_only d d' /\ dget d' HISTORY_FILE = dget d HISTORY_FILE.
Proof.
  intros Hre Hd'.
  assert (Hq : forall q, q <> LAST_POST_FILE -> q <> tmp_path LAST_POST_FILE ->
                         dget d' q = dget d q).
  { intros q H1' H2'. destruct Hd' as [->|[Hq _]]; [|by apply Hq].
    unfold replaced. by rewrite dget_dput_other, dget_ddel_other. }
  assert (Hro : root_only d d').
  { destruct Hd' as [->|[Hq' _]]; [done|].
    by apply (root_only_of d d' (tmp_path LAST_POST_FILE) eq_refl). }
  pose proof Hro as [He Hdl]. split_and!; [|done|by apply Hq].
  assert (Hlog : content d' HISTORY_FILE = content d HISTORY_FILE)
    by (unfold content; by rewrite Hq).
  pose proof (re_root d Hre) as Hroot. destruct Hre as [Hf Hent Hl Hp Ha _].
  constructor; unfold entry_removed, marker_cleared in *.
  - by rewrite Hq.
  - by rewrite He, Hdl.
  - by rewrite Hlog.
  - destruct Hd' as [->|[Hq' _]]; [right; apply dget_dput_same|]. by rewrite Hq'.
  - by rewrite Hq.
  - intros k. change (d_root d' !! k) with (dget d' (Root, k)).
    specialize (Hroot k). change (d_root d !! k) with (dget d (Root, k)) in Hroot.
    destruct (decide ((Root, k) = tmp_path LAST_POST_FILE)) as [Hk|Hk].
    + rewrite Hk in *. destruct Hd' as [->|[_ Hnd]]; [|by apply Hnd].
      unfold replaced. rewrite dget_dput_other by done. by rewrite dget_ddel_same.
    + destruct (decide ((Root, k) = LAST_POST_FILE)) as [Hk'|Hk']; [|by rewrite Hq].
      rewrite Hk' in *. destruct Hd' as [->|[Hq' _]]; [|by rewrite Hq'].
      unfold replaced. by rewrite dget_dput_same.
Qed.

Abbreviation posted d :=
  (removed d /\ dget d LAST_POST_FILE = Some (Regular (u64_to_bytes posted_at))).

Lemma removed_root_only d d' :
  root_only d d' -> dget d' HISTORY_FILE = dget d HISTORY_FILE -> removed d -> removed d'.
Proof.
  intros [He Hd] Hh (H1' & H2' & H3'). unfold marker_cleared, entry_removed, content in *.
  by rewrite He, Hd, Hh.
Qed.

Lemma post_stage d :
  recovering d -> removed d ->
  runs (write_atomic LAST_POST_FILE (u64_to_bytes posted_at)) (stage (fun d' => posted d')) d.
Proof.
  intros Hre Hrem. eapply runs_mono.
  { apply runs_and; [by apply write_atomic_runs|apply write_atomic_ends]. }
  intros o d' [Hd' Hdv]. destruct (recovering_post d d' Hre) as (Hre' & Hro & Hh).
  { destruct Hd' as [->|(_ & Hd')]; [by left|by right]. }
  pose proof (removed_root_only d d' Hro Hh Hrem) as Hrem'.
  split_and!; [done|done|]. intros ->. split; [done|].
  destruct Hd' as [->|[Hd' _]]; [apply dget_dput_same|done].
Qed.

Lemma recovering_utf8 : exists cs, utf8_decode js = Some cs.
Proof. destruct (completion_to_vec_utf8 completion_record js) as [cs Hcs];
  [apply completion_typed_record|apply Hco|]. by exists cs. Qed.

Lemma read_completion d u :
  recovering d ->
  exists cs, read_to_string COMPLETION_FILE (World d [] u) = (Done (js, cs), World d [] u).
Proof.
  intros Hre. destruct recovering_utf8 as [cs Hcs]. exists cs. unfold read_to_string.
  erewrite bind_done by (rewrite read_quiet, (re_file d Hre); done). by rewrite Hcs.
Qed.

(** Removing the completion record ends the reconciliation. *)
Lemma finish_stage d :
  recovering d -> posted d ->
  runs (remove_file COMPLETION_FILE ;; open_dir ;; sync) settled d.
Proof.
  intros Hre ((Hlog & Hm & He) & Hp).
  assert (Hdone : completed (ddel COMPLETION_FILE d)).
  { assert (Hq : forall q, q <> COMPLETION_FILE -> dget (ddel COMPLETION_FILE d) q = dget d q)
      by (intros q Hq; by rewrite dget_ddel_other).
    constructor; [apply dget_ddel_same|exact He|exact Hm| | | |].
    - unfold content. by rewrite Hq.
    - by rewrite Hq.
    - rewrite Hq by done. apply Hre.
    - intros k. simpl. rewrite lookup_delete. case_decide; [done|]. apply Hre. }
  assert (Hkeep : forall o, o <> Done tt -> o <> Diverged -> settled o d)
    by (intros; split; [done|right; by split]).
  apply runs_bind, runs_syscall; try (intros; by apply Hkeep).
  2:{ intros y d' Hd'. by rewrite (re_file d Hre) in Hd'. }
  intros [] d' Hd'. rewrite (re_file d Hre) in Hd'. injection Hd' as <-.
  assert (Hany : forall o, o <> Diverged -> settled o (ddel COMPLETION_FILE d))
    by (intros; split; auto).
  apply runs_bind, runs_open_dir; [|intros; by apply Hany|by apply Hany].
  apply runs_sync; [by apply Hany|intros; by apply Hany|by apply Hany].
Qed.

(** The history part: the record, then the deletion marker. *)
Lemma history_stage d :
  recovering d ->
  runs (append_once HISTORY_FILE r (zlen c0) ;;
        clear_await_deletion (id e) (HistoryRecord.incarnation r))
    (stage (fun d' => log_done d' /\ marker_cleared d')) d.
Proof.
  intros Hre. apply runs_bind. eapply runs_mono; [by apply append_stage|].
  intros o d1 (Hdv & Hre1 & Hl). destruct o as [[]|y| |]; try by split_and!.
  apply clear_stage; auto.
Qed.

(** One run of the reconciliation, under faults. *)
Lemma reconcile_runs d : recovering d -> runs reconcile_completion settled d.
Proof.
  intros Hre. destruct recovering_utf8 as [cs Hcs].
  assert (Hkeep : forall o, o <> Done tt -> o <> Diverged -> settled o d)
    by (intros; split; [done|right; by split]).
  apply runs_bind, runs_attempt, (runs_reads _ (Done (js, cs)));
    [apply read_to_string_reads| | | |by apply Hkeep].
  { intros u. unfold read_to_string.
    erewrite bind_done by (rewrite read_quiet, (re_file d Hre); done). by rewrite Hcs. }
  2:{ intros y (z & -> & Hz) _. rewrite decide_False by done. apply runs_throw. by apply Hkeep. }
  rewrite (completion_round_trip completion_record) by (apply completion_typed_record || apply Hco).
  apply runs_bind, runs_ret. unfold entry_path. cbn [CompletionRecord.id completion_record].
  rewrite entry_valid_id. apply runs_bind, runs_ret. cbn [completion_record
    CompletionRecord.history CompletionRecord.history_offset default CompletionRecord.posted_at].
  fold completion_record.
  apply (runs_stage _ _ (fun d' => log_done d' /\ marker_cleared d')); [by apply history_stage|].
  intros d1 Hre1 [Hl1 Hm1].
  apply (runs_stage _ _ (fun d' => removed d')); [by apply remove_stage|].
  intros d2 Hre2 Hrem2.
  apply (runs_stage _ _ (fun d' => posted d')); [by apply post_stage|].
  intros d3 Hre3 Hp3. by apply finish_stage.
Qed.

(** ** A run without faults finishes *)

Definition found (h : option t) : result StoreError t :=
  match h with Some x => Ok x | None => Err (UnknownId (id e)) end.
Lemma attempt_find d h u :
  (forall u, find (id e) (World d [] u) = (answer h, World d [] u)) ->
  attempt (find (id e)) (World d [] u) = (Done (found h), World d [] u).
Proof. intros Hf. destruct h; [by apply attempt_done|by apply attempt_failed]. Qed.

Lemma clear_succeeds d :
  recovering d ->
  succeeds (clear_await_deletion (id e) (HistoryRecord.incarnation r)) (fun _ _ => True) d.
Proof.
  intros Hre. unfold clear_await_deletion, await_deletion_path. rewrite entry_valid_id.
  apply succeeds_bind, succeeds_ret, succeeds_bind.
  destruct (d_deletions d !! id e) as [[x|]|] eqn:Hx; [|by apply deletions_file in Hx|].
  2:{ apply (succeeds_attempt _ (Err (Io (os_error NotFound)))); [|by apply succeeds_ret].
      intros u. apply attempt_failed. rewrite read_quiet. unfold dget. simpl. by rewrite Hx. }
  destruct (marker_present d x Hre Hx) as (_ & [m Hm] & _).
  apply (succeeds_attempt _ (Ok x)).
  { intros u. apply attempt_done. rewrite read_quiet. unfold dget. simpl. by rewrite Hx. }
  destruct (find_slot d Hre) as (h & Hfind & _).
  rewrite Hm. apply succeeds_bind, succeeds_ret, succeeds_bind, (succeeds_attempt _ (found h)).
  { intros u. by apply attempt_find. }
  destruct h; apply succeeds_bind, succeeds_ret; (destruct (_ && _); [by apply succeeds_ret|]);
    (apply succeeds_bind; eapply succeeds_syscall; [unfold dget; simpl; rewrite Hx; done|]);
    (apply succeeds_bind; eapply succeeds_syscall; [done|]; by eapply succeeds_syscall).
Qed.

Lemma remove_succeeds d :
  recovering d ->
  succeeds (remove_owned completion_record (entry_file (id e))) (fun _ _ => True) d.
Proof.
  intros Hre. apply succeeds_bind. destruct (find_slot d Hre) as (h & Hfind & Hh).
  apply (succeeds_attempt _ (found h)); [intros u; by apply attempt_find|].
  destruct h as [x|]; cbn [found]; apply succeeds_bind, succeeds_ret; [|by apply succeeds_ret].
  destruct (owns_entry _ _); [|by apply succeeds_ret].
  destruct Hh as [[Hx He]|[? _]]; [|done]. destruct (held_file x (eq_sym Hx)) as [c Hc].
  rewrite <- He in Hc. apply succeeds_bind. intros u.
  exists (Ok tt), (ddel (entry_file (id e)) d), u. split; [|by apply succeeds_ret].
  apply attempt_done. unfold remove_file, syscall, dget, entry_file. simpl. by rewrite Hc.
Qed.

(** A stage that returns continues from the state it reaches. *)
Lemma succeeds_stage (m k : M unit) P d (Q : unit -> disk -> Prop) :
  succeeds m (fun _ _ => True) d -> runs m (stage P) d ->
  (forall d', recovering d' -> P d' -> succeeds k Q d') -> succeeds (m ;; k) Q d.
Proof.
  intros Hm Hr Hk. apply succeeds_bind. eapply succeeds_runs; [exact Hm|exact Hr|].
  intros [] d' (_ & Hre & HP). auto.
Qed.

Lemma reconcile_succeeds d :
  recovering d -> succeeds reconcile_completion (fun _ d' => completed d') d.
Proof.
  intros Hre. destruct recovering_utf8 as [cs Hcs].
  eapply succeeds_runs; [|by apply reconcile_runs|].
  2:{ intros [] d' [_ [?|[? _]]]; done. }
  apply succeeds_bind, (succeeds_attempt _ (Ok (js, cs))).
  { intros u. apply attempt_done. unfold read_to_string.
    erewrite bind_done by (rewrite read_quiet, (re_file d Hre); done). by rewrite Hcs. }
  rewrite (completion_round_trip completion_record) by (apply completion_typed_record || apply Hco).
  apply succeeds_bind, succeeds_ret. unfold entry_path. cbn [CompletionRecord.id completion_record].
  rewrite entry_valid_id. apply succeeds_bind, succeeds_ret. cbn [completion_record
    CompletionRecord.history CompletionRecord.history_offset default CompletionRecord.posted_at].
  fold completion_record.
  apply (succeeds_stage _ _ (fun d' => log_done d' /\ marker_cleared d'));
    [|by apply history_stage|].
  { apply (succeeds_stage _ _ (fun d' => log_done d')); [|by apply append_stage|].
    - apply (append_once_succeeds r b); try apply Hco; [by apply recovering_file|].
      destruct (re_log d Hre) as [[_ ?]|?]; auto.
    - intros d1 Hre1 _. by apply clear_succeeds. }
  intros d1 Hre1 [Hl1 Hm1].
  apply (succeeds_stage _ _ (fun d' => removed d'));
    [by apply remove_succeeds|by apply remove_stage|].
  intros d2 Hre2 Hrem2.
  apply (succeeds_stage _ _ (fun d' => posted d')); [|by apply post_stage|].
  { intros u. eexists tt, _, u. split; [|done].
    apply write_atomic_quiet; [done| |]; by apply recovering_file. }
  intros d3 Hre3 Hp3. apply succeeds_bind. eapply succeeds_syscall.
  { by rewrite (re_file d3 Hre3). }
  apply succeeds_bind. eapply succeeds_syscall; [done|]. by eapply succeeds_syscall.
Qed.

(** ** Crashes and restarts *)

(** After the reconciliation another one changes nothing. *)
Lemma reconcile_completed d u :
  completed d -> reconcile_completion (World d [] u) = (Done tt, World d [] u).
Proof.
  intros Hcd. unfold reconcile_completion.
  by erewrite bind_done by (apply attempt_failed; apply read_to_string_missing, Hcd).
Qed.

(** Runs of the reconciliation that fail or die, one after another. *)
Inductive interrupted : disk -> disk -> Prop :=
| interrupted_nil d : interrupted d d
| interrupted_run d d' fs u w' o :
    interrupted d d' -> genuine fs ->
    reconcile_completion (World d' fs u) = (o, w') -> interrupted d (w_disk w').

Lemma interrupted_completed d d' : interrupted d d' -> completed d -> completed d'.
Proof.
  induction 1 as [|d d' fs u w' o _ IH Hfs Hrun]; intros Hcd0; [done|].
  specialize (IH Hcd0).
  assert (Hr : runs reconcile_completion (fun _ d2 => d2 = d') d').
  { apply runs_bind, runs_attempt, (runs_reads _ (Failed (Io (os_error NotFound))));
      [apply read_to_string_reads| | | |done].
    - intros v. by apply read_to_string_missing, IH.
    - by apply runs_ret.
    - intros y (z & -> & Hz) _. rewrite decide_False by done. by apply runs_throw. }
  destruct (Hr fs u Hfs) as [Heq _]. rewrite Hrun in Heq. simpl in Heq. by rewrite Heq.
Qed.

Lemma interrupted_state d d' :
  interrupted d d' -> recovering d -> recovering d' \/ completed d'.
Proof.
  induction 1 as [|d d' fs u w' o _ IH Hfs Hrun]; intros Hre; [by left|].
  destruct (IH Hre) as [Hre'|Hcd].
  - destruct (reconcile_runs d' Hre' fs u Hfs) as [[_ Hs] _]. rewrite Hrun in Hs. simpl in Hs.
    destruct Hs as [?|[_ ?]]; auto.
  - right. eapply interrupted_completed; [|exact Hcd]. eapply interrupted_run; [|done|done].
    constructor.
Qed.
End completion.

(** * Completing a claimed post *)

Section complete_claim.
Context `{Platform} `{!PlatformOk} `{SerdeJson} `{!SerdeJsonOk}.

(** The history record of a successful post, with the UUID it draws. *)
Definition posted_record (e : t) (token_hash : string) (now : Z) (url : option string) (u : nat)
    : HistoryRecord.t :=
  {| HistoryRecord.attempt_id := new_v4 u;
     HistoryRecord.id := id e;
     HistoryRecord.posted_at := now;
     HistoryRecord.success := true;
     HistoryRecord.error := None;
     HistoryRecord.token_hash := token_hash;
     HistoryRecord.comment_url := url;
     HistoryRecord.incarnation := incarnation e;
     HistoryRecord.request := request e |}.

(** What the queue holds under an identifier. *)
Definition held_as (d : disk) (wanted : string) : option t :=
  head (filter (fun x => id x = wanted) (entries_of (d_entries d))).

(** In a sound store the lookup sees what the file holds. *)
Lemma held_as_slot d wanted :
  disk_sound d -> is_valid_id wanted = true -> slot d wanted (held_as d wanted).
Proof.
  intros Hd Hv. pose proof (sd_entries d Hd) as Hs. unfold slot, held_as.
  destruct (filter _ _) as [|x l] eqn:Hf.
  - destruct (d_entries d !! (wanted +:+ ".json")) as [[c|]|] eqn:Hm; [exfalso| |done].
    2:{ by apply (ss_regular _ Hs) in Hm. }
    destruct (ss_readable _ Hs wanted c Hv Hm) as [x Hx].
    assert (Hid : id x = wanted).
    { apply entry_at_spec in Hx as (_ & _ & _ & Hx). cbn [fst] in Hx. rewrite <- Hx.
      by apply valid_json_name. }
    assert (x ∈ filter (fun x => id x = wanted) (entries_of (d_entries d))) as Hin.
    { apply list_elem_of_filter. split; [done|]. apply queue_elem. exists c. by rewrite Hid. }
    rewrite Hf in Hin. by apply elem_of_nil in Hin.
  - cbn [head]. assert (Hx : x ∈ filter (fun x => id x = wanted) (entries_of (d_entries d)))
      by (rewrite Hf; apply list_elem_of_here).
    by apply list_elem_of_filter in Hx as [? ?].
Qed.

(** The queue without the entry that still carries the claim of [e]. *)
Definition unclaimed_by (e : t) (es : list t) : list t :=
  filter (fun x => ~ (id x = id e /\ claim_token x = claim_token e)) es.

(** What a completion needs: a sound store, an entry that was claimed (it may have
    been reordered, deleted or replaced since), a record that fits in a line of
    the log, and a log that does not end in a line of the boundary length. *)
Record completable (d : disk) (e : t) (token_hash : string) (now : Z) (url : option string)
    : Prop := {
  cl_sound : disk_sound d;
  cl_entry : entry_ok e;
  cl_claim : claim_token e <> None;
  cl_now : is_u64 now;
  cl_hash : utf8 token_hash;
  cl_url : utf8_opt url;
  cl_log : is_u64 (zlen (content d HISTORY_FILE));
  cl_tail : tail_ok (content d HISTORY_FILE);
  cl_size : forall u b, record_to_vec (posted_record e token_hash now url u) = Some b ->
    zlen b < MAX_HISTORY_LINE_BYTES;
}.

Lemma runs_fresh {A} {calm : bool} (k : string -> M A) Q d :
  (forall u, runs_in calm (k (new_v4 u)) Q d) -> runs_in calm (bind fresh_uuid k) Q d.
Proof. intros Hk fs u Hfs. apply (Hk u fs (S u) Hfs). Qed.

(** Nothing the store reads has changed, and nothing was put in the place of a file. *)
Definition unchanged (d d' : disk) : Prop :=
  root_only d d' /\ (forall k, d_root d' !! k = Some Directory -> d_root d !! k = Some Directory)
  /\ dget d' HISTORY_FILE = dget d HISTORY_FILE
  /\ dget d' LAST_POST_FILE = dget d LAST_POST_FILE
  /\ dget d' LAST_ATTEMPT_FILE = dget d LAST_ATTEMPT_FILE
  /\ dget d' COMPLETION_FILE = dget d COMPLETION_FILE.

Context (d : disk) (e : t) (token_hash : string) (now : Z) (url : option string).
Context (Hcl : completable d e token_hash now url).
Abbreviation record := (posted_record e token_hash now url).
Abbreviation held := (held_as d (id e)).

Lemma slot_held : slot d (id e) held.
Proof. apply held_as_slot; [apply Hcl|apply (cl_entry _ _ _ _ _ Hcl)]. Qed.

(** What the reconciliation leaves of the queue. *)
Lemma removed_queue d' :
  entry_removed d e held d' ->
  store_sound (d_entries d') /\ (budget (d_entries d) -> budget (d_entries d'))
  /\ entries_of (d_entries d') = unclaimed_by e (entries_of (d_entries d)).
Proof.
  intros ->. pose proof slot_held as Hs.
  pose proof (sd_entries d (cl_sound _ _ _ _ _ Hcl)) as Hwf.
  assert (Hid : forall x y, x ∈ entries_of (d_entries d) -> y ∈ entries_of (d_entries d) ->
    id x = id y -> x = y) by (intros x y; apply NoDup_id_inj, entries_of_NoDup).
  pose proof (cl_claim _ _ _ _ _ Hcl) as Hc. unfold same_claim, slot in *.
  destruct held as [x|].
  - destruct Hs as [Hx Hxid]. destruct (claim_token e) as [token|] eqn:Ht; [|done].
    destruct (bool_decide (claim_token x = Some token)) eqn:Hb.
    + apply bool_decide_eq_true in Hb. rewrite <- Hxid.
      split; [by apply store_sound_delete|]. split; [apply budget_delete|].
      rewrite (queue_removed _ x Hwf Hx). unfold others, unclaimed_by. apply filter_agree.
      intros y Hy. rewrite Ht, <- Hxid. split; [tauto|]. intros Hn Heq. apply Hn.
      by rewrite (Hid y x Hy Hx Heq).
    + apply bool_decide_eq_false in Hb. split; [done|]. split; [done|]. symmetry.
      apply filter_keeps. intros y Hy [Hyid Hyt]. rewrite <- Hxid in Hyid.
      rewrite (Hid y x Hy Hx Hyid), Ht in Hyt. done.
  - split; [done|]. split; [done|]. symmetry. apply filter_keeps. intros y Hy [Hyid _].
    apply queue_elem in Hy as (c & Hcc & _). by rewrite Hyid, Hs in Hcc.
Qed.

Lemma completing_record u :
  exists b js, completing d e held (record u) b js now.
Proof.
  pose proof Hcl as [Hwf He _ Hnow Hh Hurl Hlog Htail Hsize].
  pose proof He as ((Hid & Hinc & _ & _ & _ & _ & Hc & Hreq) & _).
  assert (Hty : record_typed (record u)).
  { unfold record_typed. simpl. split_and!; try done. apply new_v4_utf8. }
  destruct (record_to_vec_total (record u) Hty) as [b Hb].
  assert (Hcty : completion_typed (completion_record d e (record u) now))
    by (unfold completion_typed; simpl; by split_and!).
  destruct (completion_to_vec_total _ Hcty) as [js Hjs].
  exists b, js. constructor; try done; [apply Hwf|apply slot_held|by eapply Hsize|].
  intros x. apply (sd_markers d Hwf), He.
Qed.

(** The completion record is not durable yet, or the post is being completed. *)
Definition complete_post (o : outcome unit) (d' : disk) : Prop :=
  o <> Diverged
  /\ (o <> Done tt /\ unchanged d d'
      \/ exists u b js, completing d e held (record u) b js now
         /\ (completed d e held (record u) now d'
             \/ o <> Done tt /\ recovering d e held (record u) js now true d')).

Lemma history_end_reads : reads history_end.
Proof.
  apply reads_attempt; [apply reads_query| | |].
  - intros [? len]. apply reads_ret.
  - intros []; try apply reads_throw. case_decide; [apply reads_ret|apply reads_throw].
  - intros x w (y & -> & Hy). by rewrite decide_False.
Qed.

Lemma history_end_quiet u :
  history_end (World d [] u) = (Done (zlen (content d HISTORY_FILE)), World d [] u).
Proof.
  unfold history_end, content. pose proof (sd_root d (cl_sound _ _ _ _ _ Hcl) "history.jsonl") as Hnd.
  change (d_root d !! _) with (dget d HISTORY_FILE) in Hnd.
  destruct (dget d HISTORY_FILE) as [[c|]|] eqn:Hp; [|done|].
  - by erewrite bind_done by (apply attempt_done; by rewrite metadata_quiet, Hp).
  - by erewrite bind_done by (apply attempt_failed; by rewrite metadata_quiet, Hp).
Qed.

(** The durable record, or a leftover temporary file. *)
Lemma completion_written b js u d' :
  completing d e held (record u) b js now -> d' = replaced COMPLETION_FILE js d ->
  recovering d e held (record u) js now true d'.
Proof.
  intros Hco ->. assert (Hq : forall q, q <> COMPLETION_FILE -> q <> tmp_path COMPLETION_FILE ->
    dget (replaced COMPLETION_FILE js d) q = dget d q).
  { intros q H1' H2'. unfold replaced. by rewrite dget_dput_other, dget_ddel_other. }
  constructor.
  - apply dget_dput_same.
  - left. split; [done|by left].
  - left. replace (content (replaced COMPLETION_FILE js d) HISTORY_FILE)
      with (content d HISTORY_FILE) by (unfold content; by rewrite Hq).
    split; [done|]. apply pending_start, Hcl.
  - left. by apply Hq.
  - by apply Hq.
  - intros k. change (d_root (replaced COMPLETION_FILE js d) !! k)
      with (dget (replaced COMPLETION_FILE js d) (Root, k)).
    pose proof (sd_root d (cl_sound _ _ _ _ _ Hcl) k) as Hk.
    change (d_root d !! k) with (dget d (Root, k)) in Hk.
    destruct (decide ((Root, k) = COMPLETION_FILE)) as [->|Hk1];
      [unfold replaced; by rewrite dget_dput_same|].
    destruct (decide ((Root, k) = tmp_path COMPLETION_FILE)) as [->|Hk2]; [|by rewrite Hq].
    unfold replaced. rewrite dget_dput_other by done. by rewrite dget_ddel_same.
Qed.

Lemma complete_claim_runs :
  runs (complete_claim_with_token e token_hash now url) complete_post d.
Proof.
  assert (Hsame : unchanged d d) by done.
  assert (Hkeep : forall o, o <> Done tt -> o <> Diverged -> complete_post o d)
    by (intros; split; [done|]; by left).
  unfold complete_claim_with_token. rewrite decide_False by apply Hcl.
  apply runs_bind, runs_ret.
  apply runs_bind, (runs_reads _ (Done (zlen (content d HISTORY_FILE))));
    [apply history_end_reads|apply history_end_quiet| |intros; by apply Hkeep|by apply Hkeep].
  unfold record_success. apply runs_bind, runs_fresh. intros u. apply runs_ret.
  fold (record u). destruct (completing_record u) as (b & js & Hco).
  fold (completion_record d e (record u) now). rewrite (co_json _ _ _ _ _ _ _ Hco).
  apply runs_bind, runs_ret, runs_bind. eapply runs_mono.
  { apply runs_and; [apply (write_atomic_runs COMPLETION_FILE js d); done|apply write_atomic_ends]. }
  intros o d' [Hd' Hdv]. destruct Hd' as [Hd'|(Ho & Hq & Ht)].
  - pose proof (completion_written b js u d' Hco Hd') as Hre.
    destruct o as [[]|x| |]; [|by split; [|right; eauto 10]..].
    eapply runs_mono; [by eapply reconcile_runs|].
    intros o d2 [Hdv2 Hs]. split; [done|]. right. eauto 10.
  - assert (Hun : unchanged d d').
    { split; [by apply (root_only_of d d' (tmp_path COMPLETION_FILE) eq_refl)|].
      split; [|by rewrite !Hq]. intros k Hk. change (dget d' (Root, k) = Some Directory) in Hk.
      change (dget d (Root, k) = Some Directory).
      destruct (decide ((Root, k) = tmp_path COMPLETION_FILE)) as [Heq|Hne]; [|by rewrite <- Hq].
      rewrite Heq in *. exfalso. apply Ht; [|done].
      apply (sd_root d (cl_sound _ _ _ _ _ Hcl) "completion.tmp"). }
    destruct o as [[]|x| |]; [done|..]; (split; [done|]; by left).
Qed.

(** Without faults the completion finishes. *)
Lemma complete_claim_succeeds :
  succeeds (complete_claim_with_token e token_hash now url)
    (fun _ d' => exists u, completed d e held (record u) now d') d.
Proof.
  unfold complete_claim_with_token. rewrite decide_False by apply Hcl.
  apply succeeds_bind, succeeds_ret.
  apply succeeds_bind, (succeeds_quiet _ (zlen (content d HISTORY_FILE)));
    [apply history_end_quiet|].
  apply succeeds_bind. intros u. exists (record u), d, (S u). split; [done|].
  destruct (completing_record u) as (b & js & Hco).
  fold (completion_record d e (record u) now). rewrite (co_json _ _ _ _ _ _ _ Hco).
  apply succeeds_bind, succeeds_ret, succeeds_bind. intros v.
  exists tt, (replaced COMPLETION_FILE js d), v. split.
  { pose proof (sd_root d (cl_sound _ _ _ _ _ Hcl)) as Hr.
    apply write_atomic_quiet; [done|apply Hr|apply Hr]. }
  pose proof (completion_written b js u _ Hco eq_refl) as Hre.
  intros v'. destruct (reconcile_succeeds _ _ _ _ _ _ _ true Hco _ Hre v') as (a & d' & v2 & Hrun & Hcd).
  exists a, d', v2. split; [done|]. by exists u.
Qed.
End complete_claim.

(** * Waiting for a completed post *)

Section await.
Context `{Platform} `{!PlatformOk} `{SerdeJson} `{!SerdeJsonOk}.

(** The log of a store with a completed post ends with its record. *)
Lemma completed_log d e held token_hash now url k d' :
  completed d e held (posted_record e token_hash now url k) now d' ->
  exists g, dget d' HISTORY_FILE = Some (Regular (content d HISTORY_FILE ++ g))
    /\ log_records (content d HISTORY_FILE ++ g)
       = log_records (content d HISTORY_FILE) ++ [posted_record e token_hash now url k]
    /\ log_records g = [posted_record e token_hash now url k] /\ boundary_free g.
Proof.
  intros [_ _ _ (g & Hc & (_ & Hsh%short_boundary_free) & Hrec & Hg & _) _ _ _]. exists g.
  assert (Hne : g <> []) by (by intros ->).
  unfold content in Hc at 1.
  destruct (dget d' HISTORY_FILE) as [[c|]|] eqn:Hp.
  - subst c. rewrite <- Hrec. unfold content at 4. by rewrite Hp.
  - symmetry in Hc. by apply app_eq_nil in Hc as [_ ?].
  - symmetry in Hc. by apply app_eq_nil in Hc as [_ ?].
Qed.

Lemma posted_completes e token_hash now url k cursor :
  (forall c, cursor = Some c -> AwaitCursor.incarnation c = incarnation e) ->
  completes (id e) cursor (posted_record e token_hash now url k) = true.
Proof.
  intros Hc. unfold completes. simpl. rewrite bool_decide_true by done. simpl.
  destruct cursor as [c|]; [|done]. apply bool_decide_true. by rewrite (Hc c).
Qed.

(** The lookup in a log that ends with the record of the post. *)
Lemma await_posted d e token_hash now url k cursor x y v :
  is_valid_id (id e) = true -> (cursor = None -> d_deletions d !! id e = None) ->
  dget d HISTORY_FILE = Some (Regular (x ++ y)) -> zlen x = cursor_offset cursor ->
  boundary_free y ->
  (forall c, cursor = Some c -> AwaitCursor.incarnation c = incarnation e) ->
  last (log_records y) = Some (posted_record e token_hash now url k) ->
  resolve_await_completion (id e) cursor (World d [] v)
  = (Done (Posted url now), World d [] v).
Proof.
  intros Hid Hdel Hp Hx Hbf Hc [l Hl]%last_Some. unfold resolve_await_completion.
  erewrite (bind_done _ _ _ false).
  2:{ case_decide; [|done]. unfold await_lifetime_was_deleted, await_deletion_path. rewrite Hid.
      erewrite bind_done by done.
      erewrite bind_done by (apply attempt_failed; rewrite read_quiet; unfold dget; simpl;
        by rewrite Hdel). done. }
  erewrite bind_done by by eapply latest_completion_quiet.
  rewrite Hl, filter_app, filter_cons, decide_True by by apply posted_completes.
  by rewrite filter_nil, last_snoc.
Qed.
(** A marker hides the posts of an identifier from lookups without a cursor. *)
Lemma await_deleted d wanted v :
  is_valid_id wanted = true -> (exists x, d_deletions d !! wanted = Some (Regular x)) ->
  resolve_await_completion wanted None (World d [] v) = (Done Unknown, World d [] v).
Proof.
  intros Hid [x Hx]. unfold resolve_await_completion. rewrite decide_True by done.
  erewrite (bind_done _ _ _ true); [done|].
  unfold await_lifetime_was_deleted, await_deletion_path. rewrite Hid.
  erewrite bind_done by done.
  by erewrite bind_done by (apply attempt_done; rewrite read_quiet; unfold dget; simpl; by rewrite Hx).
Qed.
End await.

(** * After interruptions *)

(** The completion record never became durable, or a reconciliation completes the
    post after any number of interrupted ones. *)
Lemma completion_settles `{Platform} `{!PlatformOk} `{SerdeJson} `{!SerdeJsonOk}
    d e token_hash now url fs u o w1 :
  completable d e token_hash now url -> genuine fs ->
  complete_claim_with_token e token_hash now url (World d fs u) = (o, w1) ->
  (o <> Done tt /\ unchanged d (w_disk w1))
  \/ exists k, forall d2 v, interrupted (w_disk w1) d2 ->
       exists d3 v', reconcile_completion (World d2 [] v) = (Done tt, World d3 [] v')
         /\ completed d e (held_as d (id e)) (posted_record e token_hash now url k) now d3.
Proof.
  intros Hcl Hfs Hrun.
  destruct (complete_claim_runs d e token_hash now url Hcl fs u Hfs) as [[_ Hpost] _].
  rewrite Hrun in Hpost. destruct Hpost as [?|(k & b & js & Hco & Hstate)]; [by left|right].
  exists k. intros d2 v Hint. set (r := posted_record e token_hash now url k) in *.
  set (held := held_as d (id e)) in *.
  assert (recovering d e held r js now true d2 \/ completed d e held r now d2) as Hd2.
  { destruct Hstate as [Hcd|[_ Hre]]; [|by eapply interrupted_state].
    right. by eapply interrupted_completed. }
  destruct Hd2 as [Hre|Hcd].
  - destruct (reconcile_succeeds _ _ _ _ _ _ _ true Hco d2 Hre v) as ([] & d3 & v' & ? & ?). eauto.
  - exists d2, v. split; [by eapply reconcile_completed|done].
Qed.

(** * Results *)

(** C1: completing a claimed post happens once, whatever fails, wherever the
    process dies and whatever clients did to the entry while it was posted.
    Either the completion record never became durable and nothing the store reads
    has changed (the claim stays and the post is retried), or, after any number of
    interrupted reconciliations, one that runs to its end removes the entry if it
    is still queued under this claim, and no other (an entry that replaced it
    stays), adds exactly one history record, sets the last-post marker to the
    time of the post and drops the completion record. *)
Theorem completion_exactly_once `{Platform} `{!PlatformOk} `{SerdeJson} `{!SerdeJsonOk}
    d e token_hash now url fs u o w1 :
  completable d e token_hash now url -> genuine fs ->
  complete_claim_with_token e token_hash now url (World d fs u) = (o, w1) ->
  (o <> Done tt /\ unchanged d (w_disk w1))
  \/ exists k, forall d2 v, interrupted (w_disk w1) d2 ->
       exists d3 v', reconcile_completion (World d2 [] v) = (Done tt, World d3 [] v')
         /\ entries_of (d_entries d3) = unclaimed_by e (entries_of (d_entries d))
         /\ log_records (content d3 HISTORY_FILE)
            = log_records (content d HISTORY_FILE) ++ [posted_record e token_hash now url k]
         /\ marker d3 LAST_POST_FILE = Some now
         /\ dget d3 COMPLETION_FILE = None.
Proof.
  intros Hcl Hfs Hrun.
  destruct (completion_settles d e token_hash now url fs u o w1 Hcl Hfs Hrun) as [?|(k & Hk)]; [by left|right].
  exists k. intros d2 v Hint. destruct (Hk d2 v Hint) as (d3 & v' & Hrun3 & Hcd).
  exists d3, v'. destruct Hcd as [Hf He _ (g & _ & _ & Hlog & _) Hp _ _].
  destruct (removed_queue d e token_hash now url Hcl d3 He) as (_ & _ & Hq).
  split_and!; try done. apply marker_value; [apply Hcl|done].
Qed.

(** A client that waits for a comment learns of its post: after the
    completion, a lookup with the cursor that was taken while the entry was queued
    reports the URL and the time of the post, and so does one without a cursor,
    unless the identifier has since been deleted in another lifetime. *)
Theorem waiters_see_the_post `{Platform} `{!PlatformOk} `{SerdeJson} `{!SerdeJsonOk} d e token_hash now url u o w' v :
  completable d e token_hash now url ->
  complete_claim_with_token e token_hash now url (World d [] u) = (o, w') ->
  boundary_free (content (w_disk w') HISTORY_FILE) ->
  resolve_await_completion (id e) None (World (w_disk w') [] v)
  = (Done (if marker_of_lifetime d e (held_as d (id e)) then Posted url now else Unknown),
     World (w_disk w') [] v)
  /\ resolve_await_completion (id e)
       (Some (AwaitCursor.mk (zlen (content d HISTORY_FILE)) (incarnation e)))
       (World (w_disk w') [] v)
     = (Done (Posted url now), World (w_disk w') [] v).
Proof.
  intros Hcl Hrun Hbf.
  destruct (complete_claim_succeeds d e token_hash now url Hcl u) as (a & d' & v' & Hrun' & k & Hcd).
  rewrite Hrun in Hrun'. injection Hrun' as _ ->. cbn [w_disk] in *.
  destruct (completed_log d e _ token_hash now url k d' Hcd) as (g & Hp & Hrec & Hg & Hbg).
  pose proof (cl_entry _ _ _ _ _ Hcl) as (_ & Hid & _).
  assert (Hcont : content d' HISTORY_FILE = content d HISTORY_FILE ++ g)
    by (unfold content at 1; by rewrite Hp).
  rewrite Hcont in Hbf. split.
  - pose proof (cd_marker _ _ _ _ _ _ Hcd) as Hm. unfold marker_cleared in Hm.
    destruct (marker_of_lifetime d e _) eqn:Hl.
    + apply (await_posted d' e token_hash now url k None [] (content d HISTORY_FILE ++ g)); try done.
      * intros _. rewrite Hm. apply lookup_delete_eq.
      * by rewrite Hrec, last_snoc.
    + apply await_deleted; [done|]. rewrite Hm. unfold marker_of_lifetime in Hl.
      destruct (d_deletions d !! id e) as [[x|]|]; [by exists x|done..].
  - apply (await_posted d' e token_hash now url k _ (content d HISTORY_FILE) g); try done.
    + by intros c [= <-].
    + by rewrite Hg.
Qed.
