(* ===== verification/Frame.v ===== *)
(** The log through a completion: which parts of [complete_claim_with_token]
    ([store/completion.rs]) leave the history file alone, and what a run without faults
    makes of it. *)

From S2P Require Import Prelude Text Disk Entry Order Bounds Scan Capacity Writes History Store Readers.
From S2P Require Import DiskState Sound Lines Reverse Log Append Completion.
Import StoredEntry.

(** * Work that leaves a file alone *)

Section frame.
Context (p : path).

(** Without faults [m] ends and the file is as it was. *)
Definition leaves {A} (m : M A) : Prop :=
  forall d u, exists o d' u', m (World d [] u) = (o, World d' [] u') /\ dget d' p = dget d p.

Lemma leaves_outcome {A} (f : world -> outcome A) : leaves (fun w => (f w, w)).
Proof. intros d u. by eexists _, d, u. Qed.
Lemma leaves_ret {A} (a : A) : leaves (ret a).
Proof. apply leaves_outcome. Qed.
Lemma leaves_throw {A} e : leaves (@throw A e).
Proof. apply leaves_outcome. Qed.

Lemma leaves_bind {A B} (m : M A) (k : A -> M B) : leaves m -> (forall a, leaves (k a)) -> leaves (bind m k).
Proof.
  intros Hm Hk d u. destruct (Hm d u) as (o & d1 & u1 & Hrun & Heq). unfold bind. rewrite Hrun.
  destruct o as [a|e| |]; [|by eexists _, d1, u1..].
  destruct (Hk a d1 u1) as (o & d2 & u2 & Hrun2 & Heq2). exists o, d2, u2. split; [done|congruence].
Qed.

Lemma leaves_attempt {A} (m : M A) : leaves m -> leaves (attempt m).
Proof.
  intros Hm d u. destruct (Hm d u) as (o & d1 & u1 & Hrun & Heq). unfold attempt. rewrite Hrun.
  destruct o; by eexists _, d1, u1.
Qed.

Lemma leaves_reads {A} (m : M A) : reads m -> leaves m.
Proof.
  intros Hm d u. pose proof (Hm d [] u (Forall_nil_2 _)) as Hr. destruct (m (World d [] u)) as [o w'] eqn:Hrun.
  destruct Hr as (Hd & Hfs & Hu & _). exists o, d, u. split; [|done]. destruct w' as [d' fs' u']. cbn in *.
  specialize (Hfs (fun _ => False) (Forall_nil_2 _)). destruct fs' as [|f fs']; [congruence|].
  by apply Forall_inv in Hfs.
Qed.

(** A system call that touches other files. *)
Lemma leaves_syscall {A} (run : disk -> result io_error A * disk) torn :
  (forall d, dget (run d).2 p = dget d p) -> leaves (syscall run torn).
Proof.
  intros Hrun d u. unfold syscall. cbn. specialize (Hrun d). destruct (run d) as [[e|a] d']; by eexists _, d', u.
Qed.

Lemma leaves_query {A} (f : disk -> result io_error A) : leaves (query f).
Proof. by apply leaves_syscall. Qed.

Lemma leaves_write_all q b : q <> p -> leaves (write_all q b).
Proof.
  intros Hq. apply leaves_syscall. intros d. cbn. unfold append_bytes.
  destruct (dget d q) as [[c|]|]; [|done..]. by rewrite dget_dput_other.
Qed.

Lemma leaves_create q : q <> p -> leaves (create q).
Proof.
  intros Hq. apply leaves_syscall. intros d. cbn.
  destruct (dget d q) as [[c|]|]; cbn; [|done|]; by rewrite dget_dput_other.
Qed.

Lemma leaves_remove q : q <> p -> leaves (remove_file q).
Proof.
  intros Hq. apply leaves_syscall. intros d. cbn.
  destruct (dget d q) as [[c|]|]; cbn; [|done..]. by rewrite dget_ddel_other.
Qed.

Lemma leaves_rename q q' : q <> p -> q' <> p -> leaves (rename q q').
Proof.
  intros Hq Hq'. apply leaves_syscall. intros d. cbn.
  destruct (dget d q) as [[c|]|]; cbn; [| |done]; destruct (dget d q') as [[]|]; cbn;
    try done; by rewrite dget_dput_other, dget_ddel_other.
Qed.
End frame.

Create HintDb leaves.
#[export] Hint Resolve leaves_ret leaves_throw leaves_bind leaves_attempt leaves_query leaves_write_all
  leaves_create leaves_remove leaves_rename : leaves.

(** * The text of the log after an append *)

Lemma appended_lines c b :
  boundary_free c -> tail_ok c -> (NEWLINE ∉ b) -> zlen b < MAX_HISTORY_LINE_BYTES ->
  boundary_free (c ++ appended c b) /\ tail_ok (c ++ appended c b)
  /\ zlen (c ++ appended c b) <= zlen c + MAX_HISTORY_LINE_BYTES + 1.
Proof.
  intros Hc Ht Hb Hlen. unfold appended.
  assert (Hsep : boundary_free (c ++ separator c) /\ zlen (c ++ separator c) <= zlen c + 1).
  { rewrite zlen_app. destruct (separator_cases c) as [[_ ->]|(Hne & Hl & ->)].
    { rewrite app_nil_r. split; [done|]. rewrite zlen_nil. lia. }
    split; [|change (zlen [NEWLINE]) with 1; lia].
    destruct (lines_snoc c Hne Hl) as (ls & l & H1 & _ & H3). unfold boundary_free in *.
    rewrite H1 in Hc. rewrite H3. apply Forall_app in Hc as [Hls _]. apply Forall_app. split; [done|].
    apply Forall_singleton. pose proof (Ht Hl ls l H1). rewrite zlen_app. change (zlen [NEWLINE]) with 1. lia. }
  destruct Hsep as [Hbf Hz]. rewrite app_assoc. split_and!.
  - unfold boundary_free. rewrite lines_app, lines_single by (apply separator_closes || done).
    apply Forall_app. split; [done|]. apply Forall_singleton. rewrite zlen_app. change (zlen [NEWLINE]) with 1. lia.
  - apply tail_ok_closed. right. rewrite !app_assoc. apply last_snoc.
  - rewrite !zlen_app in *. change (zlen [NEWLINE]) with 1. lia.
Qed.

(** * Completions *)

Section completion.
Context `{Platform} `{!PlatformOk} `{SerdeJson} `{!SerdeJsonOk}.
Abbreviation log_alone := (leaves HISTORY_FILE).

Lemma leaves_write_atomic q b : q <> HISTORY_FILE -> tmp_path q <> HISTORY_FILE -> log_alone (write_atomic q b).
Proof.
  intros Hq Ht. unfold write_atomic, sync, open_dir.
  repeat (apply leaves_bind; [auto with leaves|intros []]). auto with leaves.
Qed.

Lemma leaves_lift {A B} (r : result StoreError A) (k : A -> M B) :
  (forall a, r = Ok a -> log_alone (k a)) -> log_alone (bind (lift r) k).
Proof. intros Hk. destruct r as [e|a]; [apply (leaves_throw _ e)|by apply Hk]. Qed.

Lemma leaves_serde {A} (r : result string A) : log_alone (serde_ok r).
Proof. apply leaves_reads, reads_serde_ok. Qed.

Lemma leaves_clear wanted lifetime : log_alone (clear_await_deletion wanted lifetime).
Proof.
  apply leaves_lift. intros q Hq. unfold await_deletion_path in Hq.
  destruct (is_valid_id wanted); [|done]. injection Hq as <-.
  apply leaves_bind; [apply leaves_attempt, leaves_reads, read_reads|intros r].
  destruct r as [[]|b]; auto with leaves; [case_decide; auto with leaves|].
  apply leaves_bind; [apply leaves_serde|intros marker].
  apply leaves_bind; [apply leaves_attempt, leaves_reads, find_reads|intros f].
  apply leaves_bind; [destruct f as [[]|x]; auto with leaves|intros matches].
  destruct (_ && _); [auto with leaves|]. unfold open_dir, sync.
  repeat (apply leaves_bind; [auto with leaves|intros []]). auto with leaves.
Qed.

Lemma leaves_remove_owned record name : log_alone (remove_owned record (Entries, name)).
Proof.
  apply leaves_bind; [apply leaves_attempt, leaves_reads, find_reads|intros f].
  apply leaves_bind; [destruct f as [[]|x]; auto with leaves|intros []]; [|auto with leaves].
  apply leaves_bind; [auto with leaves|intros r]. destruct r as [[]|[]]; auto with leaves.
  case_decide; auto with leaves.
Qed.

(** What follows the append in a reconciliation. *)
Lemma leaves_settling record name posted_at :
  log_alone (remove_owned record (Entries, name) ;;
    write_atomic LAST_POST_FILE (u64_to_bytes posted_at) ;;
    remove_file COMPLETION_FILE ;; open_dir ;; sync).
Proof.
  apply leaves_bind; [apply leaves_remove_owned|intros []].
  apply leaves_bind; [by apply leaves_write_atomic|intros []]. unfold open_dir, sync.
  repeat (apply leaves_bind; [auto with leaves|intros []]). auto with leaves.
Qed.

(** An append of a new record, without faults. *)
Lemma append_once_content r b d u :
  record_to_vec r = Some b -> dget d HISTORY_FILE <> Some Directory ->
  exists d' u', append_once HISTORY_FILE r (zlen (content d HISTORY_FILE)) (World d [] u)
      = (Done tt, World d' [] u')
    /\ content d' HISTORY_FILE = content d HISTORY_FILE ++ appended (content d HISTORY_FILE) b.
Proof.
  intros Hb Hd. unfold append_once.
  erewrite bind_done by (apply (contains_attempt_quiet r _ _ _ []); [done|by rewrite app_nil_r]).
  destruct (append_succeeds r b Hb HISTORY_FILE d Hd u) as ([] & d' & u' & Hrun & _). exists d', u'.
  split; [exact Hrun|]. pose proof (append_runs r b Hb HISTORY_FILE d Hd [] u (Forall_nil_2 _)) as [Hpost _].
  rewrite Hrun in Hpost. destruct Hpost as (_ & _ & k & Hc & Hfull). cbn in Hc, Hfull. rewrite Hc. by rewrite Hfull.
Qed.

(** A reconciliation that finds the log as it was when the post was recorded. *)
Lemma reconcile_content d0 e held r b js posted_at d u d' u' :
  completing d0 e held r b js posted_at -> recovering d0 e held r js posted_at true d ->
  content d HISTORY_FILE = content d0 HISTORY_FILE ->
  reconcile_completion (World d [] u) = (Done tt, World d' [] u') ->
  content d' HISTORY_FILE = content d0 HISTORY_FILE ++ appended (content d0 HISTORY_FILE) b.
Proof.
  intros Hco Hre Hc Hrun. unfold reconcile_completion in Hrun.
  destruct (read_completion d0 e held r b js posted_at true Hco d u Hre) as [cs Hread].
  erewrite bind_done in Hrun by (apply attempt_done; exact Hread). cbn beta iota in Hrun.
  rewrite (completion_round_trip (completion_record d0 e r posted_at)) in Hrun
    by (apply (completion_typed_record d0 e held r b js) || apply Hco; done).
  erewrite bind_done in Hrun by done. unfold entry_path in Hrun. cbn [CompletionRecord.id completion_record] in Hrun.
  rewrite (entry_valid_id d0 e held r b js posted_at Hco) in Hrun. erewrite bind_done in Hrun by done.
  change (((append_once HISTORY_FILE r (zlen (content d0 HISTORY_FILE)) ;;
      clear_await_deletion (id e) (HistoryRecord.incarnation r)) ;;
    remove_owned (completion_record d0 e r posted_at) (Entries, id e +:+ ".json") ;;
    write_atomic LAST_POST_FILE (u64_to_bytes posted_at) ;;
    remove_file COMPLETION_FILE ;; open_dir ;; sync) (World d [] u) = (Done tt, World d' [] u')) in Hrun.
  destruct (append_once_content r b d u (co_vec _ _ _ _ _ _ _ Hco)) as (d1 & u1 & Hap & Hc1);
    [by eapply recovering_file|].
  rewrite Hc in Hap, Hc1.
  destruct (leaves_clear (id e) (HistoryRecord.incarnation r) d1 u1) as (o & d2 & u2 & Hcl & Hd2).
  unfold bind at 1 2 in Hrun. rewrite Hap, Hcl in Hrun.
  destruct o as [[]|x| |]; try done.
  destruct (leaves_settling (completion_record d0 e r posted_at) (id e +:+ ".json") posted_at d2 u2)
    as (o & d3 & u3 & Hset & Hd3). rewrite Hset in Hrun. injection Hrun as -> -> ->.
  unfold content at 1. rewrite Hd3, Hd2. exact Hc1.
Qed.

(** A completion without faults adds its record and one line end to the log. *)
Lemma complete_claim_content d e token_hash now url u :
  completable d e token_hash now url ->
  exists b d' u', record_to_vec (posted_record e token_hash now url u) = Some b
    /\ zlen b < MAX_HISTORY_LINE_BYTES
    /\ complete_claim_with_token e token_hash now url (World d [] u) = (Done tt, World d' [] u')
    /\ completed d e (held_as d (id e)) (posted_record e token_hash now url u) now d'
    /\ content d' HISTORY_FILE = content d HISTORY_FILE ++ appended (content d HISTORY_FILE) b.
Proof.
  intros Hcl. unfold complete_claim_with_token. rewrite decide_False by apply Hcl.
  erewrite bind_done by done. erewrite bind_done by by eapply history_end_quiet.
  erewrite (bind_done _ _ _ (posted_record e token_hash now url u) (World d [] (S u))) by done.
  destruct (completing_record d e token_hash now url Hcl u) as (b & js & Hco).
  fold (completion_record d e (posted_record e token_hash now url u) now).
  rewrite (co_json _ _ _ _ _ _ _ Hco). erewrite bind_done by done.
  pose proof (sd_root d (cl_sound _ _ _ _ _ Hcl)) as Hr.
  erewrite bind_done by (apply write_atomic_quiet; [done|apply Hr|apply Hr]).
  pose proof (completion_written d e token_hash now url Hcl b js u _ Hco eq_refl) as Hre.
  destruct (reconcile_succeeds _ _ _ _ _ _ _ true Hco _ Hre (S u)) as ([] & d' & u' & Hrun & Hcd).
  exists b, d', u'. split_and!; [apply Hco|apply Hco|exact Hrun|exact Hcd|].
  eapply reconcile_content; [exact Hco|exact Hre| |exact Hrun].
  unfold content, replaced. by rewrite dget_dput_other, dget_ddel_other.
Qed.
End completion.
