(* ===== verification/Faults.v ===== *)
(** The store under failures and crashes: what each operation of the daemon can
    leave behind when any of its system calls fails or the process dies in it.

    [calm] schedules only kill the process; the others also refuse calls.  The
    scan of the queue skips an entry whose read is refused, so an operation may
    work on part of the queue: it is sound all the same, but the byte budget and
    the exclusion of a second claim hold for calm schedules only. *)

From S2P Require Import Prelude Text Protocol Disk Entry Order Bounds Scan Capacity Writes Schedule.
From S2P Require Import History Store DiskState Claims Edits Sound Enqueue Lines Reverse Log Pages.
From S2P Require Import Append Recovery Completion.

Import StoredEntry.

(** * Readers that survive crashes

    Unless the process dies, the run is the one without faults. *)
Definition repeats {A} (m : M A) : Prop :=
  forall d fs u, crashes fs ->
    let '(r, w') := m (World d fs u) in
    w_disk w' = d /\ remains fs (w_faults w')
    /\ (r = Crashed \/ w_uuids w' = u /\ m (World d [] u) = (r, World d [] u)).

Section repeats_rules.
Context {A B : Type}.

Lemma repeats_ret (a : A) : repeats (ret a).
Proof. intros d fs u Hfs. simpl. auto using remains_refl. Qed.
Lemma repeats_throw e : repeats (throw e : M A).
Proof. intros d fs u Hfs. simpl. auto using remains_refl. Qed.
Lemma repeats_query f : repeats (query f : M A).
Proof.
  intros d fs u Hfs. unfold query, syscall. simpl.
  destruct Hfs as [|[[e n|n]|] fs Hf Hfs]; simpl; [|by destruct Hf|by auto using remains_tail|];
    destruct (f d); simpl; auto using remains_tail, remains_refl.
Qed.
Lemma repeats_bind (m : M A) (k : A -> M B) :
  repeats m -> (forall a, repeats (k a)) -> repeats (bind m k).
Proof.
  intros Hm Hk d fs u Hfs. specialize (Hm d fs u Hfs). unfold bind.
  destruct (m (World d fs u)) as [r [d1 fs1 u1]]; simpl in *; destruct Hm as (-> & Hg & [->|[-> Hm]]);
    [by auto|]. rewrite Hm. destruct r as [a|e| |]; simpl; auto.
  specialize (Hk a d fs1 u (Hg _ Hfs)). destruct (k a (World d fs1 u)) as [r w'].
  destruct Hk as (? & ? & ?). split_and!; [done|by transitivity fs1|done].
Qed.
Lemma repeats_attempt (m : M A) : repeats m -> repeats (attempt m).
Proof.
  intros Hm d fs u Hfs. specialize (Hm d fs u Hfs). unfold attempt.
  destruct (m (World d fs u)) as [r [d1 fs1 u1]]; simpl in *; destruct Hm as (-> & Hg & [->|[-> Hm]]);
    [by auto|]. rewrite Hm. destruct r; simpl; auto.
Qed.
Lemma repeats_lift r : repeats (lift r : M A).
Proof. destruct r; [apply repeats_throw|apply repeats_ret]. Qed.

Lemma runs_repeats (m : M A) r d (Q : outcome A -> disk -> Prop) :
  repeats m -> (forall u, m (World d [] u) = (r, World d [] u)) -> Q r d -> Q Crashed d ->
  runs_in true m Q d.
Proof.
  intros Hm Hq Hr Hc fs u Hfs. specialize (Hm d fs u Hfs).
  destruct (m (World d fs u)) as [r' [d' fs' u']]. simpl in *.
  destruct Hm as (-> & Hg & [->|[_ Hm]]); [done|]. rewrite Hq in Hm. by simplify_eq.
Qed.
End repeats_rules.

(** A reader whose result without faults is known up to the UUIDs drawn before. *)
Lemma runs_reads_any {A} {calm : bool} (m : M A) d (Q : outcome A -> disk -> Prop) :
  reads m -> (forall u, exists r, m (World d [] u) = (r, World d [] u) /\ Q r d) ->
  (forall e, injected e -> calm = false -> Q (Failed e) d) -> Q Crashed d -> runs_in calm m Q d.
Proof.
  intros Hm Hq Hi Hc fs u Hfs. specialize (Hm d fs u (tolerated_genuine calm fs Hfs)).
  destruct (m (World d fs u)) as [r' [d' fs' u']]. simpl in *.
  destruct Hm as (-> & Hg & _ & Hres). split; [|done]. destruct (Hq u) as (r & Hr & HQ).
  destruct r' as [a|e| |]; [| |done|].
  - rewrite Hres in Hr. by simplify_eq.
  - destruct Hres as [Hres|[Hres Hnc]]; [rewrite Hres in Hr; by simplify_eq|].
    apply Hi; [done|]. by destruct calm.
  - rewrite Hres in Hr. by simplify_eq.
Qed.

Create HintDb repeats.
#[export] Hint Resolve repeats_ret repeats_throw repeats_query repeats_lift repeats_bind
  repeats_attempt : repeats.

Ltac repeats_step :=
  match goal with
  | |- forall _, _ => intros ?
  | |- repeats (bind _ _) => apply repeats_bind
  | |- repeats (attempt _) => apply repeats_attempt
  | |- repeats (match ?x with _ => _ end) => destruct x
  | |- repeats (let '(_, _) := ?x in _) => destruct x
  | |- _ => solve [auto with repeats]
  end.
Ltac repeats := repeat repeats_step.

(** * The scan of the queue *)

Section scan.
Context `{Platform} `{!PlatformOk} `{SerdeJson}.
Implicit Types d : disk.

Abbreviation queue d := (entries_of (d_entries d)).

Lemma read_entry_repeats p : repeats (read_entry p).
Proof. unfold read_entry, metadata, open_file, read_all, serde_ok. repeats. Qed.

Lemma scan_loop_repeats names : forall paths total, repeats (scan_loop names paths total).
Proof.
  induction names as [|name names IH]; intros; cbn [scan_loop]; unfold metadata; repeats; apply IH.
Qed.

Lemma read_loop_repeats files : forall es headroom, repeats (read_loop files es headroom).
Proof.
  induction files as [|name files IH]; intros; cbn [read_loop]; unfold metadata;
    repeats; first [apply read_entry_repeats|apply IH].
Qed.

Lemma entries_with_usage_repeats : repeats entries_with_usage.
Proof.
  unfold entries_with_usage, scan_entry_files, read_dir. repeats;
    first [apply scan_loop_repeats|apply read_loop_repeats].
Qed.

(** What a scan returns: entries of the queue, the exact count and bytes of the
    files, and the whole queue with its reservations when no read was refused. *)
Definition scanned (calm : bool) d (es : list t) (usage : QueueUsage) : Prop :=
  Forall (fun e => e ∈ queue d) es /\ NoDup (id <$> es)
  /\ count usage = zlen (json_files (d_entries d)) /\ used_bytes usage = zsum (sizes (d_entries d))
  /\ 0 <= headroom_bytes usage
  /\ (calm = true -> es = queue d /\ usage = usage_of (d_entries d)).

Lemma scan_loop_reads names : forall paths total, reads (scan_loop names paths total).
Proof.
  induction names as [|name names IH]; intros; cbn [scan_loop]; [apply reads_ret|].
  apply reads_bind; [apply reads_query|intros []]. destruct (bool_decide _); [|apply IH].
  apply reads_bind; [apply reads_query|intros [f ?]]. destruct (negb f); [apply IH|].
  destruct (_ =? _); [apply reads_throw|].
  apply reads_bind; [apply reads_query|intros [? n]].
  apply reads_bind; [apply reads_lift|intros []]. apply IH.
Qed.

Definition read_post d (o : outcome (list t * Z)) d' : Prop :=
  d' = d /\ o <> Diverged /\ forall es h, o = Done (es, h) ->
    Forall (fun e => e ∈ queue d) es /\ NoDup (id <$> es) /\ 0 <= h.

(** The loop keeps entries of the queue, whichever reads are refused. *)
Lemma read_loop_runs d files : forall es headroom,
  Forall (fun name => exists c, d_entries d !! name = Some (Regular c) /\ extension name = Some "json") files ->
  Forall (fun e => e ∈ queue d) es -> NoDup (id <$> es) -> NoDup files ->
  Forall (fun e => (id e +:+ ".json") ∉ files) es -> 0 <= headroom ->
  runs (read_loop files es headroom) (read_post d) d.
Proof.
  induction files as [|name files IH]; intros es headroom Hf Hes Hnd Hfs Hout Hh; cbn [read_loop].
  { apply runs_ret. split_and!; try done. by intros ? ? [= <- <-]. }
  apply Forall_cons_1 in Hf as [(c & Hc & Hx) Hf]. apply NoDup_cons in Hfs as [Hname Hfs].
  assert (Hout' : Forall (fun e => (id e +:+ ".json") ∉ files) es).
  { eapply Forall_impl; [exact Hout|]. intros x Hnx Hin. apply Hnx. by right. }
  assert (Hskip : runs (read_loop files es headroom) (read_post d) d) by by apply IH.
  assert (Hget : dget d (Entries, name) = Some (Regular c)) by done.
  assert (exists r, (forall u, read_entry (Entries, name) (World d [] u) = (r, World d [] u))
    /\ r <> Diverged /\ forall e, r = Done e -> zlen c <= MAX_ENTRY_BYTES /\ entry_from_slice c = Ok e)
    as (r & Hr & Hndv & Hdone).
  { destruct (Z.leb_spec (zlen c) MAX_ENTRY_BYTES) as [Hle|Hgt].
    - destruct (entry_from_slice c) as [m|e] eqn:He; eexists; (split_and!;
        [intros u; rewrite (read_entry_quiet _ _ _ c), He; done|done|]); [done|].
      intros x [= <-]. done.
    - eexists. split_and!; [intros u; by apply read_entry_oversized|done|done]. }
  apply runs_bind, runs_attempt, (runs_reads _ r); [apply read_entry_reads|done| |by intros|done].
  destruct r as [e|err| |]; [|done..].
  destruct (Hdone e eq_refl) as [Hle He]. destruct (is_valid_id (id e)) eqn:Hv; [|done]. cbn [negb].
  destruct (path_matches_id name (id e)) eqn:Hp; [|done].
  assert (Hn : name = id e +:+ ".json").
  { apply bool_decide_eq_true in Hp. rewrite <- Hp. by apply json_extension_name. }
  assert (Hin : e ∈ queue d).
  { apply queue_elem. exists c. rewrite <- Hn. split; [done|]. apply entry_at_spec.
    apply bool_decide_eq_true in Hp. done. }
  apply runs_bind, runs_attempt, runs_query; [|done|done].
  intros [is_file n] Hm. destruct (_ <? _); [by apply runs_throw|].
  apply IH; [done|apply Forall_app; split; [done|by constructor]| |done| |].
  - rewrite fmap_app. apply NoDup_app. split_and!; [done| |apply NoDup_singleton].
    intros i (x & -> & Hxe)%list_elem_of_fmap. cbn. rewrite list_elem_of_singleton. intros Heq.
    rewrite Forall_forall in Hout. apply (Hout x Hxe). rewrite Heq, <- Hn. by left.
  - apply Forall_app. split; [done|]. constructor; [|constructor]. by rewrite <- Hn.
  - pose proof (entry_headroom_range e). machine.
Qed.

(** The files the scan lists. *)
Lemma scan_entry_files_quiet d u :
  store_sound (d_entries d) ->
  scan_entry_files (World d [] u)
  = (Done ((jsons (d_entries d) (dir_order (map_to_list (d_entries d)).*1)).*1,
           Usage (zlen (json_files (d_entries d))) (zsum (sizes (d_entries d))) 0), World d [] u).
Proof.
  intros Hs. set (m := d_entries d). set (names := dir_order (map_to_list m).*1).
  assert (Hperm : jsons m names ≡ₚ json_files m) by apply jsons_listing.
  assert (Htotal : total_size (jsons m names) = zsum (sizes m))
    by (unfold total_size, sizes; by rewrite Hperm).
  unfold scan_entry_files.
  erewrite (bind_done _ _ _ names) by (unfold read_dir; by rewrite query_quiet).
  erewrite bind_done.
  2:{ rewrite scan_loop_quiet; fold m; [done|lia| | |].
      - rewrite zlen_nil, Hperm. apply Hs.
      - rewrite Htotal. apply Hs.
      - apply Forall_forall. intros name Hin. unfold names in Hin.
        rewrite (dir_order_perm _) in Hin. apply list_elem_of_fmap in Hin as ([k n] & -> & Hin).
        apply elem_of_map_to_list in Hin. eauto. }
  unfold ret. rewrite Htotal, Z.add_0_l. cbn [app]. do 3 f_equal.
  unfold zlen. rewrite length_fmap. fold (zlen (jsons m names)). by rewrite Hperm.
Qed.

Lemma scan_runs calm d :
  store_sound (d_entries d) ->
  runs_in calm entries_with_usage (fun o d' =>
    d' = d /\ o <> Diverged /\ forall es usage, o = Done (es, usage) -> scanned calm d es usage) d.
Proof.
  intros Hs. destruct calm.
  - eapply runs_repeats; [apply entries_with_usage_repeats| | |by split_and!].
    + intros u. by apply entries_with_usage_quiet, store_sound_fits.
    + split_and!; try done. intros es usage [= <- <-]. split_and!; try done;
        [by apply Forall_forall|apply entries_of_NoDup|apply zsum_headroom_nonneg].
  - unfold entries_with_usage. apply runs_bind.
    eapply runs_reads; [|intros u; by apply scan_entry_files_quiet| |by intros|done].
    { unfold scan_entry_files. apply reads_bind; [apply reads_query|]. intros names.
      apply reads_bind; [apply scan_loop_reads|]. intros []. apply reads_ret. }
    apply runs_bind. eapply runs_mono; [apply read_loop_runs|].
    + apply Forall_fmap, Forall_forall. intros [name c] [Hm Hj]%jsons_elem. simpl in *.
      apply json_files_elem in Hj as [_ Hx]. eauto.
    + constructor.
    + constructor.
    + rewrite (fmap_Permutation fst _ _ (jsons_listing (d_entries d))). apply json_files_NoDup.
    + constructor.
    + done.
    + intros o d' (-> & Hnd & Hes). destruct o as [[es h]|e| |]; try done. apply runs_ret.
      split_and!; try done. intros es' usage [= <- <-].
      destruct (Hes _ _ eq_refl) as (Hall & Hids & Hh). split_and!; try done.
      * apply Forall_forall. intros e He. rewrite sort_entries_perm in He.
        rewrite Forall_forall in Hall. by apply Hall.
      * by rewrite sort_entries_perm.
Qed.

Lemma entries_runs calm d :
  store_sound (d_entries d) ->
  runs_in calm entries (fun o d' =>
    d' = d /\ o <> Diverged /\ forall es, o = Done es ->
      Forall (fun e => e ∈ queue d) es /\ NoDup (id <$> es) /\ (calm = true -> es = queue d)) d.
Proof.
  intros Hs. apply runs_bind. eapply runs_mono; [by apply scan_runs|].
  intros o d' (-> & Hnd & Hsc). destruct o as [[es usage]|e| |]; try done. apply runs_ret.
  split_and!; try done. intros es' [= <-]. destruct (Hsc _ _ eq_refl) as (Hall & Hids & _ & _ & _ & Hex).
  split_and!; [done|done|]. intros Hc. by apply Hex.
Qed.
End scan.

(** * Writing an entry *)

Section write.
Context `{Platform} `{!PlatformOk} `{SerdeJson} `{!SerdeJsonOk}.
Implicit Types d : disk.

Abbreviation queue d := (entries_of (d_entries d)).

(** The store as it was: nothing that is read has changed. *)
Definition same_store (calm : bool) d d' : Prop :=
  intact calm d' /\ entries_of (d_entries d') = entries_of (d_entries d)
  /\ d_root d' = d_root d /\ d_deletions d' = d_deletions d.

(** One entry was written. *)
Definition wrote (calm : bool) (e' : t) d d' : Prop :=
  intact calm d' /\ (forall x, x ∈ queue d' <-> x = e' \/ x ∈ queue d /\ id x <> id e')
  /\ d_root d' = d_root d /\ d_deletions d' = d_deletions d.

Definition written (calm : bool) (e' : t) d (o : outcome unit) d' : Prop :=
  o <> Diverged /\ (wrote calm e' d d' \/ o <> Done tt /\ same_store calm d d').

Lemma same_store_refl calm d : intact calm d -> same_store calm d d.
Proof. done. Qed.

Lemma written_nothing calm e' d o :
  intact calm d -> o <> Done tt -> o <> Diverged -> written calm e' d o d.
Proof. intros Hi Ho Hd. split; [done|]. by right. Qed.

Lemma lift_runs {A} calm (r : result StoreError A) d (Q : outcome A -> disk -> Prop) :
  (forall a, r = Ok a -> Q (Done a) d) -> (forall e, r = Err e -> Q (Failed e) d) ->
  runs_in calm (lift r) Q d.
Proof. destruct r; intros Hok Herr; [by apply runs_throw, Herr|by apply runs_ret, Hok]. Qed.

(** The atomic write of an entry file, from a directory in which it would be sound. *)
Lemma write_file_runs calm d e' c' :
  intact calm d -> stored (id e' +:+ ".json", c') e' ->
  intact calm (replaced (entry_file (id e')) c' d) ->
  runs_in calm (write_atomic (entry_file (id e')) c') (written calm e' d) d.
Proof.
  intros Hi Hst Hi'. assert (Hv : is_valid_id (id e') = true) by apply Hst.
  apply runs_calm. eapply runs_mono.
  { apply runs_and; [apply write_atomic_runs; by apply tmp_entry_file_ne|apply write_atomic_ends]. }
  intros o d' [Hd' Hnd]. split; [done|]. destruct Hd' as [->|(Ho & Hl)].
  - left. split; [done|]. split; [|done]. intros x. rewrite replaced_entries by done.
    rewrite queue_insert by done. rewrite (same_files_queue (d_entries d)); [done|].
    intros k Hk. apply lookup_delete_ne. intros <-.
    destruct (valid_tmp_name (id e') Hv) as [_ Hx]. congruence.
  - right. split; [done|]. destruct (intact_leftover calm (id e') d d' Hv Hl Hi) as (? & ? & ? & ?).
    by split_and!.
Qed.

(** The file of a queued entry. *)
Lemma queue_file d e :
  store_sound (d_entries d) -> e ∈ queue d ->
  exists c, dget d (entry_file (id e)) = Some (Regular c) /\ stored (id e +:+ ".json", c) e
    /\ zsum (sizes (d_entries d))
       = zlen c + zsum (sizes (delete (id e +:+ ".json") (d_entries d)))
    /\ zlen (json_files (d_entries d))
       = 1 + zlen (json_files (delete (id e +:+ ".json") (d_entries d))).
Proof.
  intros Hs He. pose proof (queue_valid _ e He) as Hv. apply queue_elem in He as (c & Hm & He).
  assert (Hst : stored (id e +:+ ".json", c) e).
  { apply (ss_stored _ Hs); [|done]. apply json_files_elem. split; [done|]. by apply valid_json_name. }
  exists c. destruct (stored_split (d_entries d) e c Hm Hst) as (Hj & _ & Hz).
  split_and!; try done. by rewrite Hj, zlen_cons.
Qed.

(** Changes of the temporary file do not matter to a directory that is written. *)
Lemma delete_tmp_files d wanted :
  is_valid_id wanted = true ->
  same_files (d_entries d) (delete (wanted +:+ ".tmp") (d_entries d)).
Proof.
  intros Hv k Hk. apply lookup_delete_ne. intros <-.
  destruct (valid_tmp_name wanted Hv) as [_ Hx]. congruence.
Qed.

Lemma json_sizes_tmp d wanted k :
  is_valid_id wanted = true ->
  json_files (delete k (delete (wanted +:+ ".tmp") (d_entries d))) ≡ₚ json_files (delete k (d_entries d)).
Proof.
  intros Hv. apply same_files_perm. intros k' Hk'. rewrite !lookup_delete. case_decide; [done|].
  rewrite decide_False; [done|]. intros <-. destruct (valid_tmp_name wanted Hv) as [_ Hx]. congruence.
Qed.

Lemma replaced_sound d e c :
  disk_sound d -> stored (id e +:+ ".json", c) e ->
  zlen (json_files (delete (id e +:+ ".json") (d_entries d))) < MAX_QUEUE_ENTRIES ->
  zlen c + zsum (sizes (delete (id e +:+ ".json") (d_entries d))) <= MAX_QUEUE_BYTES ->
  disk_sound (replaced (entry_file (id e)) c d).
Proof.
  intros Hs Hst Hc Hb. assert (Hv : is_valid_id (id e) = true) by apply Hst.
  pose proof (json_sizes_tmp d (id e) (id e +:+ ".json") Hv) as Hp.
  apply (disk_sound_parts d); [done| |done|done]. rewrite replaced_entries by done.
  apply store_sound_insert; [apply store_sound_delete, Hs|done|by rewrite Hp|].
  unfold sizes in *. by rewrite Hp.
Qed.

Lemma replaced_budget d e c :
  stored (id e +:+ ".json", c) e ->
  zlen c + zsum (sizes (delete (id e +:+ ".json") (d_entries d)))
  + (entry_headroom e
     + zsum (entry_headroom <$> valid_entries (delete (id e +:+ ".json") (d_entries d))))
  <= MAX_QUEUE_BYTES -> budget (d_entries (replaced (entry_file (id e)) c d)).
Proof.
  intros Hst Hb. assert (Hv : is_valid_id (id e) = true) by apply Hst.
  pose proof (json_sizes_tmp d (id e) (id e +:+ ".json") Hv) as Hp.
  rewrite replaced_entries by done. apply budget_insert; [done|].
  rewrite (valid_entries_proper _ _ Hp). unfold sizes in *. by rewrite Hp.
Qed.

(** The budget check bounds the bytes of the files that result. *)
Lemma ensure_bytes_bound total c used requested :
  ensure_queue_bytes (sat_sub total c) requested = Ok tt ->
  0 <= c <= total -> total <= MAX_QUEUE_BYTES -> used <= requested ->
  total - c + used <= MAX_QUEUE_BYTES.
Proof.
  unfold ensure_queue_bytes. destruct (Z.ltb_spec MAX_QUEUE_BYTES (sat_add (sat_sub total c) requested));
    [done|]. intros _ ? ? ?. capacity.
Qed.

Lemma sat_requested a b c : 0 <= a <= U64_MAX -> 0 <= b -> 0 <= c -> a <= sat_add (sat_add a b) c.
Proof. intros. capacity. Qed.

(** An updated entry fits where the old one was. *)
Lemma updated_stored e e' c c' :
  stored (id e +:+ ".json", c) e -> update_of e e' -> entry_to_vec_pretty e' = Some c' ->
  stored (id e' +:+ ".json", c') e' /\ id e' = id e
  /\ zlen c' + entry_headroom e' = zlen c + entry_headroom e.
Proof.
  intros Hst Hup Hvec. destruct (update_size e e' c c') as [Hh Hg]; [apply Hst|done|apply Hst|done|].
  split_and!; [|symmetry; apply Hup|done]. split; [done|]. split; [done|]. split; [apply Hup|].
  cbn [snd]. rewrite Hg. apply Hst.
Qed.

Lemma updated_intact calm d e e' c c' :
  intact calm d -> e ∈ queue d -> update_of e e' -> entry_to_vec_pretty e' = Some c' ->
  dget d (entry_file (id e)) = Some (Regular c) ->
  zsum (sizes (d_entries d)) - zlen c + zlen c' <= MAX_QUEUE_BYTES ->
  intact calm (replaced (entry_file (id e')) c' d).
Proof.
  intros [Hs Hb] He Hup Hvec Hget Hbytes.
  destruct (queue_file d e (sd_entries d Hs) He) as (c0 & Hget0 & Hst & Hz & Hn).
  rewrite Hget in Hget0. injection Hget0 as <-.
  destruct (updated_stored e e' c c' Hst Hup Hvec) as (Hst' & Hid & Hh).
  split.
  - apply replaced_sound; [done|done| |]; rewrite Hid; [|lia].
    pose proof (ss_count _ (sd_entries d Hs)). lia.
  - intros Hc. specialize (Hb Hc). apply replaced_budget; [done|]. rewrite Hid.
    destruct (stored_split (d_entries d) e c Hget Hst) as (_ & Hv & _).
    unfold budget in Hb. rewrite Hv, fmap_cons in Hb. simpl in Hb. lia.
Qed.

Lemma previous_size_reads p : reads (previous_size p).
Proof.
  apply reads_attempt; [apply reads_query|..].
  - intros [[] ?]; [apply reads_ret|apply reads_throw].
  - intros []; try apply reads_throw. case_decide; [apply reads_ret|apply reads_throw].
  - intros x w (y & -> & Hy). by rewrite decide_False.
Qed.

Lemma previous_size_quiet d u p :
  dget d p <> Some Directory ->
  previous_size p (World d [] u)
  = (Done (match dget d p with Some (Regular c) => Some (zlen c) | _ => None end), World d [] u).
Proof.
  intros Hd. unfold previous_size. destruct (dget d p) as [[c|]|] eqn:Hp; [|done|].
  - by erewrite bind_done by (apply attempt_done; by rewrite metadata_quiet, Hp).
  - by erewrite bind_done by (apply attempt_failed; by rewrite metadata_quiet, Hp).
Qed.

Lemma read_entry_stored d u e c :
  dget d (entry_file (id e)) = Some (Regular c) -> stored (id e +:+ ".json", c) e ->
  read_entry (entry_file (id e)) (World d [] u) = (Done e, World d [] u).
Proof.
  intros Hget Hst. pose proof (stored_entry_at _ e Hst) as Hat.
  apply entry_at_spec in Hat as (Hle & Hs & _). cbn [fst snd] in *.
  by rewrite (read_entry_quiet _ _ _ c), Hs.
Qed.

(** Writing an update of a queued entry, after any scan. *)
Lemma write_update_usage calm d e e' es usage :
  intact calm d -> e ∈ queue d -> update_of e e' -> scanned calm d es usage ->
  runs_in calm (write_entry_with_usage e' usage) (written calm e' d) d.
Proof.
  intros Hi He Hup (_ & _ & Hcount & Hused & _). pose proof Hi as [Hs _].
  destruct (queue_file d e (sd_entries d Hs) He) as (c & Hget & Hst & Hz & Hn).
  assert (Hbad : forall o, o <> Done tt -> o <> Diverged -> written calm e' d o d)
    by (intros; by apply written_nothing).
  assert (Hid : id e' = id e) by (symmetry; apply Hup).
  assert (Hv : is_valid_id (id e) = true) by apply Hst.
  destruct (entry_to_vec_total e') as [c' Hvec]; [apply Hup|].
  destruct (updated_stored e e' c c' Hst Hup Hvec) as (Hst' & _ & Hh).
  unfold write_entry_with_usage. rewrite Hvec, Hid. unfold entry_path. rewrite Hv.
  do 2 apply runs_bind, runs_ret. fold (entry_file (id e)).
  apply runs_bind, (runs_reads _ (Done (Some (zlen c))));
    [apply previous_size_reads| | |by intros; apply Hbad|by apply Hbad].
  { intros u. rewrite previous_size_quiet; rewrite Hget; done. }
  rewrite bool_decide_false by done. destruct (_ <? _); [by apply runs_throw, Hbad|].
  apply runs_bind, lift_runs; [|by intros; apply Hbad]. intros [] _. cbn [default].
  apply runs_bind, runs_bind, (runs_reads _ (Done e));
    [apply read_entry_reads|intros u; by eapply read_entry_stored| |
     by intros; apply Hbad|by apply Hbad].
  apply runs_ret, runs_bind, lift_runs; [|by intros; apply Hbad]. intros [] Hfit.
  rewrite <- Hid. apply write_file_runs; [done|done|].
  apply (updated_intact calm d e e' c c'); try done.
  rewrite Hused in Hfit. pose proof (ss_bytes _ (sd_entries d Hs)).
  pose proof (zlen_nonneg c). pose proof (zlen_nonneg c'). pose proof (entry_headroom_range e').
  pose proof (entry_headroom_range e).
  pose proof (zsum_sizes_nonneg (delete (id e +:+ ".json") (d_entries d))).
  assert (zlen c <= MAX_ENTRY_BYTES) by (apply stored_entry_at, entry_at_spec in Hst; apply Hst).
  eapply ensure_bytes_bound; [exact Hfit|lia|done|]. apply sat_requested; [|capacity|lia].
  unfold MAX_ENTRY_BYTES in *. capacity.
Qed.

Lemma write_update_runs calm d e e' :
  intact calm d -> e ∈ queue d -> update_of e e' ->
  runs_in calm (write_entry e') (written calm e' d) d.
Proof.
  intros Hi He Hup. apply runs_bind. eapply runs_mono; [apply scan_runs, Hi|].
  intros o d' (-> & Hnd & Hsc). destruct o as [[es usage]|x| |]; try by apply written_nothing.
  by eapply write_update_usage; [..|by apply Hsc].
Qed.

(** Writing an entry under an identifier that is free. *)
Lemma write_new_usage calm d e es usage :
  intact calm d -> entry_ok e -> claim_token e = None -> incarnation e <> "" ->
  d_entries d !! (id e +:+ ".json") = None -> scanned calm d es usage ->
  runs_in calm (write_entry_with_usage e usage) (written calm e d) d.
Proof.
  intros Hi Hok Hnone Hinc Hm (_ & _ & Hcount & Hused & Hhead & Hex). pose proof Hi as [Hs Hb].
  assert (Hbad : forall o, o <> Done tt -> o <> Diverged -> written calm e d o d)
    by (intros; by apply written_nothing).
  pose proof Hok as (Hty & Hv & _).
  destruct (entry_to_vec_total e) as [c Hvec]; [apply Hty|].
  unfold write_entry_with_usage. rewrite Hvec. unfold entry_path. rewrite Hv.
  do 2 apply runs_bind, runs_ret. fold (entry_file (id e)).
  apply runs_bind, (runs_reads _ (Done None));
    [apply previous_size_reads| | |by intros; apply Hbad|by apply Hbad].
  { intros u. rewrite previous_size_quiet; unfold dget; simpl; rewrite Hm; done. }
  rewrite bool_decide_true by done.
  destruct (Z.ltb_spec MAX_QUEUE_ENTRIES (count usage + 1)) as [|Hc]; [by apply runs_throw, Hbad|].
  apply runs_bind, lift_runs; [|by intros; apply Hbad]. intros [] Hsize. cbn [default].
  apply runs_bind, runs_ret, runs_bind, lift_runs; [|by intros; apply Hbad]. intros [] Hfit.
  assert (admit_checks e c usage = Ok tt) as Hadm.
  { unfold admit_checks. destruct (Z.ltb_spec MAX_QUEUE_ENTRIES (count usage + 1)); [lia|].
    by rewrite Hsize. }
  destruct (admit_checks_ok e c usage Hadm) as (_ & Hsz & Hbud);
    [rewrite Hused; apply zsum_sizes_nonneg|done|apply entry_headroom_range|].
  assert (Ho : is_i64 (order e)) by apply Hty.
  assert (Hst : stored (id e +:+ ".json", c) e).
  { split; [done|]. split; [done|]. split; [done|]. cbn [snd].
    pose proof (new_growth e Ho Hnone Hinc). lia. }
  apply write_file_runs; [done|done|]. pose proof (entry_headroom_range e). split.
  - apply replaced_sound; [done|done| |]; rewrite delete_id by done; lia.
  - intros Hcalm. destruct (Hex Hcalm) as [_ ->]. apply replaced_budget; [done|].
    rewrite delete_id by done. cbn [usage_of used_bytes headroom_bytes] in Hbud. lia.
Qed.
End write.

(** * Client operations *)

Section operations.
Context `{Platform} `{!PlatformOk} `{SerdeJson} `{!SerdeJsonOk}.
Implicit Types d : disk.

Abbreviation queue d := (entries_of (d_entries d)).

(** The same request in the same lifetime: its place and its claim may differ. *)
Definition evolved (e e' : t) : Prop :=
  same_body e e' /\ (incarnation e <> "" -> incarnation e' = incarnation e).

Lemma update_evolved e e' : update_of e e' -> evolved e e'.
Proof.
  intros (Hb & _ & [Hi|(Hi & _)]); (split; [done|]); intros Hne; [done|]. by rewrite Hi in Hne.
Qed.
#[local] Instance evolved_preorder : PreOrder evolved.
Proof.
  split.
  - intros e. by split.
  - intros e1 e2 e3 [(Ha & Hb & Hc & Hd & He) Hi] [(Ha' & Hb' & Hc' & Hd' & He') Hi'].
    split; [unfold same_body; by rewrite Ha, Hb, Hc, Hd, He|].
    intros Hne. rewrite Hi'; [by apply Hi|]. by rewrite Hi.
Qed.

(** At most one entry is claimed. *)
Definition single d : Prop :=
  forall x y, x ∈ queue d -> y ∈ queue d -> claimed x = true -> claimed y = true -> x = y.

(** What an operation leaves: a directory that is intact, in which every entry is
    still queued but the ones it may remove, and, in calm runs, no second claim. *)
Record after (calm : bool) (gone : t -> Prop) d d' : Prop := {
  af_intact : intact calm d';
  af_kept : forall e, e ∈ queue d -> gone e \/ exists e', e' ∈ queue d' /\ evolved e e';
  af_single : calm = true -> single d -> single d';
}.

Lemma after_queue calm gone d d' :
  intact calm d' -> queue d' = queue d -> after calm gone d d'.
Proof.
  intros Hi Hq. constructor; [done| |].
  - intros e He. right. exists e. rewrite Hq. by split.
  - intros _ Hs x y. rewrite Hq. apply Hs.
Qed.

Lemma after_same calm gone d d' : same_store calm d d' -> after calm gone d d'.
Proof. intros (Hi & Hq & _). by apply after_queue. Qed.

Lemma after_trans calm gone d1 d2 d3 :
  (forall e e', evolved e e' -> gone e' -> gone e) ->
  after calm gone d1 d2 -> after calm gone d2 d3 -> after calm gone d1 d3.
Proof.
  intros Hg [_ Hk1 Hs1] [Hi Hk2 Hs2]. constructor; [done| |auto].
  intros e He. destruct (Hk1 e He) as [?|(e' & He' & Hev)]; [by left|].
  destruct (Hk2 e' He') as [?|(e2 & He2 & Hev2)]; [left; eauto|right].
  exists e2. split; [done|]. by transitivity e'.
Qed.

(** An update of one entry. *)
Lemma after_update calm gone e e' d d' :
  wrote calm e' d d' -> e ∈ queue d -> update_of e e' ->
  (calm = true -> claimed e' = true -> claimed e = true \/ forall x, x ∈ queue d -> claimed x = false) ->
  after calm gone d d'.
Proof.
  intros (Hi & Hq & _) He Hup Hcl. assert (Hid : id e' = id e) by (symmetry; apply Hup).
  assert (Hinj : forall x, x ∈ queue d -> id x = id e -> x = e)
    by (intros x Hx; by apply (NoDup_id_inj (queue d)), He; [apply entries_of_NoDup|]).
  constructor; [done| |].
  - intros x Hx. right. destruct (decide (id x = id e)) as [Heq|Hne].
    + rewrite (Hinj x Hx Heq). exists e'. split; [|by apply update_evolved]. apply Hq. by left.
    + exists x. split; [|done]. apply Hq. right. by rewrite Hid.
  - intros Hc Hs x y Hx%Hq Hy%Hq Hcx Hcy. rewrite Hid in *.
    destruct Hx as [->|[Hx Hxid]], Hy as [->|[Hy Hyid]]; [done|..|by apply Hs].
    + destruct (Hcl Hc Hcx) as [Hce|Hnone]; [|by rewrite Hnone in Hcy].
      by rewrite (Hs e y He Hy Hce Hcy) in Hyid.
    + destruct (Hcl Hc Hcy) as [Hce|Hnone]; [|by rewrite Hnone in Hcx].
      by rewrite (Hs e x He Hx Hce Hcx) in Hxid.
Qed.

(** A new entry. *)
Lemma after_new calm gone e d d' :
  wrote calm e d d' -> claim_token e = None -> (forall x, x ∈ queue d -> id x <> id e) ->
  after calm gone d d'.
Proof.
  intros (Hi & Hq & _) Hnone Hfresh. constructor; [done| |].
  - intros x Hx. right. exists x. split; [|done]. apply Hq. right. split; [done|]. by apply Hfresh.
  - assert (claimed e = false) as Hce by (unfold claimed; by rewrite Hnone).
    intros _ Hs x y [->|[Hx _]]%Hq [->|[Hy _]]%Hq; rewrite ?Hce; try done. by apply Hs.
Qed.

(** ** Lookups *)

Lemma find_runs calm d wanted :
  store_sound (d_entries d) ->
  runs_in calm (find wanted) (fun o d' => d' = d /\ o <> Diverged
    /\ (forall e, o = Done e -> e ∈ queue d /\ id e = wanted)
    /\ (forall x, o = Failed (UnknownId x) -> d_entries d !! (wanted +:+ ".json") = None)) d.
Proof.
  intros Hs. apply runs_reads_any; [apply find_reads| | |by split_and!].
  2:{ intros e (x & -> & _) _. by split_and!. }
  intros u. destruct (find_cases d u wanted (ss_regular _ Hs)) as [(e & Hf & He & Hid)|(err & Hf & Hun)].
  - exists (Done e). split_and!; try done; by intros ? [= <-].
  - exists (Failed err). split_and!; try done. intros x [= ->]. by eapply Hun.
Qed.

Lemma last_marker_reads p f :
  reads (let* r := attempt (read_to_string p) in
    match r with
    | Ok (_, text) =>
        match parse_u64 (trim text) with Ok n => ret (Some n) | Err e => throw (f e) end
    | Err (Io e) => if decide (kind e = NotFound) then ret None else throw (Io e)
    | Err e => throw e
    end).
Proof.
  apply reads_attempt; [apply read_to_string_reads|..].
  - intros [? text]. destruct (parse_u64 (trim text)); [apply reads_throw|apply reads_ret].
  - intros []; try apply reads_throw. case_decide; [apply reads_ret|apply reads_throw].
  - intros e w (x & -> & Hx). by rewrite decide_False.
Qed.

Lemma previous_activity_reads : reads previous_activity.
Proof.
  apply reads_bind; [apply last_marker_reads|]. intros post.
  apply reads_bind; [apply last_marker_reads|]. intros failed. apply reads_ret.
Qed.

Lemma previous_activity_sound d u :
  disk_sound d -> previous_activity (World d [] u) = (Done (activity d), World d [] u).
Proof.
  intros Hs. unfold previous_activity. erewrite bind_done by apply last_post_quiet, Hs.
  by erewrite bind_done by apply last_attempt_quiet, Hs.
Qed.

(** ** Enqueue *)

Lemma resolve_entry_id_reads fuel request now : forall salt,
  reads (resolve_entry_id fuel request now salt).
Proof.
  induction fuel as [|fuel IH]; intros salt; cbn [resolve_entry_id];
    (apply reads_attempt; [apply find_reads|..]).
  - intros e. case_decide; [apply reads_ret|apply reads_diverge].
  - intros []; try apply reads_throw. apply reads_ret.
  - intros e w (x & -> & Hx). done.
  - intros e. case_decide; [apply reads_ret|apply IH].
  - intros []; try apply reads_throw. apply reads_ret.
  - intros e w (x & -> & Hx). done.
Qed.

(** A request that was answered with an entry is in the queue. *)
Definition put_post (calm : bool) d (o : outcome (t * Z)) d' : Prop :=
  after calm (fun _ => False) d d' /\ d_root d' = d_root d
  /\ forall e eta, o = Done (e, eta) -> e ∈ queue d'.

Lemma put_runs calm d fuel request options now :
  intact calm d -> is_u64 now -> request_typed request -> options_typed options ->
  Z.of_nat fuel < U64_MAX ->
  runs_in calm (put_with_eta fuel request options now) (put_post calm d) d.
Proof.
  intros Hi Hnow Hr Ho Hfuel. pose proof Hi as [Hs _].
  assert (Hbad : forall o, (forall x, o <> Done x) -> put_post calm d o d).
  { intros o Hno. split_and!; [by apply after_queue|done|]. intros e eta ->. by destruct (Hno (e, eta)). }
  unfold put_with_eta. apply runs_bind, runs_reads_any;
    [apply resolve_entry_id_reads| |by intros; apply Hbad|by apply Hbad].
  intros u. destruct (resolve_cases d u request now fuel (ss_regular _ (sd_entries d Hs)) 0)
    as [(n & r & Hn & Hfu & Hrun)|(o & Hno & Hrun)]; [lia|lia| |].
  2:{ exists o. split; [exact Hrun|]. destruct o as [x|err| |]; [by destruct (Hno x)|..]; by apply Hbad. }
  exists (Done (candidate request now n, r)). split; [exact Hrun|]. clear u Hrun.
  apply runs_bind. eapply runs_mono; [apply scan_runs, Hs|].
  intros o d' (-> & Hnd & Hsc). destruct o as [[es usage]|err| |]; try by apply Hbad.
  specialize (Hsc _ _ eq_refl).
  apply runs_bind, (runs_reads _ (Done (activity d))); [apply previous_activity_reads|
    intros u; by apply previous_activity_sound| |by intros; apply Hbad|by apply Hbad].
  destruct r as [e|].
  { apply runs_ret. split_and!; [by apply after_queue|done|]. intros ? ? [= <- _].
    destruct Hfu as (_ & _ & Hv). by inversion Hv. }
  destruct (first_usable_fresh d request now n Hfu) as [Hm Hfresh].
  destruct (_ <=? _); [by apply runs_throw, Hbad|]. apply runs_fresh. intros u.
  set (e := new_entry _ _ _ _ _ _).
  assert (Hok : entry_ok e) by (apply new_entry_ok; try done; apply entry_id_with_salt_valid).
  apply runs_bind. eapply runs_mono.
  { by apply (write_new_usage calm d e es usage); try done; apply new_v4_nonempty. }
  intros o d' (Hnd' & Hw).
  assert (after calm (fun _ => False) d d' /\ d_root d' = d_root d) as [Haf Hroot].
  { destruct Hw as [Hw|[_ Hw]]; (split; [|apply Hw]); [by apply (after_new _ _ e)|by apply after_same]. }
  destruct o as [[]|err| |]; try by split_and!. apply runs_ret. split_and!; try done.
  intros ? ? [= <- _]. destruct Hw as [(_ & Hq & _)|[? _]]; [|done]. apply Hq. by left.
Qed.

(** ** Reordering *)

Definition edit_post (calm : bool) (gone : t -> Prop) d (o : outcome unit) d' : Prop :=
  o <> Diverged /\ after calm gone d d' /\ d_root d' = d_root d.

Lemma edit_nothing calm gone d o : intact calm d -> o <> Diverged -> edit_post calm gone d o d.
Proof. intros Hi Ho. split_and!; [done|by apply after_queue|done]. Qed.

Lemma reorder_runs calm d wanted f :
  intact calm d ->
  (forall e es, e ∈ queue d -> Forall (fun x => x ∈ queue d) es -> is_i64 (f e es)) ->
  runs_in calm (reorder wanted f) (edit_post calm (fun _ => False) d) d.
Proof.
  intros Hi Hf. pose proof Hi as [Hs _]. apply runs_bind. eapply runs_mono; [apply entries_runs, Hs|].
  intros o d' (-> & Hnd & Hes). destruct o as [es|err| |]; try by apply edit_nothing.
  destruct (Hes _ eq_refl) as [Hall _]. apply runs_bind. eapply runs_mono; [apply find_runs, Hs|].
  intros o d' (-> & Hnd' & Hfind & _). destruct o as [e|err| |]; try by apply edit_nothing.
  destruct (Hfind _ eq_refl) as [He _]. pose proof (sound_entry_ok _ e (sd_entries d Hs) He) as Hok.
  assert (Hup : update_of e (with_order (f e es) e)) by (apply with_order_update; [done|by apply Hf]).
  eapply runs_mono; [by apply (write_update_runs calm d e)|].
  intros o d' (Hdv & Hw). split; [done|]. destruct Hw as [Hw|[_ Hw]]; (split; [|apply Hw]);
    [|by apply after_same]. apply (after_update _ _ e _ _ _ Hw He Hup). by left.
Qed.

Lemma sound_order d e : disk_sound d -> e ∈ queue d -> is_i64 (order e).
Proof. intros Hs He. destruct (sound_entry_ok _ e (sd_entries d Hs) He) as [(_ & _ & Ho & _) _]. done. Qed.

Lemma bump_runs calm d wanted :
  intact calm d -> runs_in calm (bump wanted) (edit_post calm (fun _ => False) d) d.
Proof.
  intros Hi. apply reorder_runs; [done|]. intros e es He Hes. pose proof Hi as [Hs _].
  pose proof (sound_order d e Hs He). unfold bump_order. destruct es as [|h es]; [done|]. cbn [head].
  apply Forall_cons_1 in Hes as [Hh _]. case_decide; [done|]. pose proof (sound_order d h Hs Hh). machine.
Qed.

Lemma bust_runs calm d wanted :
  intact calm d -> runs_in calm (bust wanted) (edit_post calm (fun _ => False) d) d.
Proof.
  intros Hi. apply reorder_runs; [done|]. intros e es He Hes. pose proof Hi as [Hs _].
  pose proof (sound_order d e Hs He). unfold bust_order. destruct (last es) as [x|] eqn:Hl; [|done].
  case_decide; [done|]. apply last_Some in Hl as [l ->]. apply Forall_app in Hes as [_ Hx].
  apply Forall_cons_1 in Hx as [Hx _]. pose proof (sound_order d x Hs Hx). machine.
Qed.

(** ** Deletion *)

Lemma after_removed calm (gone : t -> Prop) wanted d d' :
  intact calm d' -> d_entries d' = delete (wanted +:+ ".json") (d_entries d) ->
  (forall e, e ∈ queue d -> id e = wanted -> gone e) -> after calm gone d d'.
Proof.
  intros Hi He Hg. constructor; [done| |].
  - intros x Hx. destruct (decide (id x = wanted)) as [Heq|Hne]; [left; by apply Hg|right].
    exists x. split; [|done]. rewrite He. by apply queue_delete.
  - intros _ Hs x y. rewrite He. intros [Hx _]%queue_delete [Hy _]%queue_delete. by apply Hs.
Qed.

Lemma del_runs calm d wanted :
  intact calm d -> runs_in calm (del wanted) (edit_post calm (fun e => id e = wanted) d) d.
Proof.
  intros Hi. pose proof Hi as [Hs _]. apply runs_bind. eapply runs_mono; [apply find_runs, Hs|].
  intros o d' (-> & Hnd & Hfind & _). destruct o as [e|err| |]; try by apply edit_nothing.
  destruct (Hfind _ eq_refl) as [He Hid].
  pose proof (sound_entry_ok _ e (sd_entries d Hs) He) as (Hty & Hv & _). rewrite Hid in Hv.
  assert (Hinc : utf8 (incarnation e)) by apply Hty.
  destruct (deletion_to_vec_total (AwaitDeletionRecord.mk (incarnation e))) as [b Hb]; [done|].
  pose proof (deletion_round_trip (AwaitDeletionRecord.mk (incarnation e)) b Hinc Hb) as Hrt.
  unfold write_await_deletion, await_deletion_path. rewrite Hb, Hid, Hv. apply runs_bind.
  do 2 apply runs_bind, runs_ret. fold (deletion_file wanted). apply runs_calm. eapply runs_mono.
  { apply runs_and; [apply write_atomic_runs; by apply tmp_deletion_file_ne|apply write_atomic_ends]. }
  intros o d1 [Hd1 Hdv].
  assert (intact calm d1 /\ d_entries d1 = d_entries d /\ d_root d1 = d_root d) as (Hi1 & He1 & Hr1).
  { apply (intact_marked calm wanted b _ d d1 Hv Hrt Hi).
    destruct Hd1 as [->|(_ & Hl)]; [by right|left; exact Hl]. }
  assert (Hkeep : forall o : outcome unit, o <> Diverged -> edit_post calm (fun e => id e = wanted) d o d1).
  { intros o' Ho'. split_and!; [done|by apply after_queue; [|rewrite He1]|done]. }
  destruct o as [[]|err| |]; try by apply Hkeep.
  unfold entry_path. rewrite Hv. apply runs_bind, runs_ret. fold (entry_file wanted).
  apply runs_syscall; try (intros; by apply Hkeep).
  - intros [] d' Hd'. assert (d' = ddel (entry_file wanted) d1) as ->
      by (destruct (dget d1 (entry_file wanted)) as [[]|]; by simplify_eq).
    split_and!; [done| |done]. apply (after_removed _ _ wanted); [by apply intact_removed| |done].
    simpl. by rewrite He1.
  - intros x d' Hd'. assert (d' = d1) as ->
      by (destruct (dget d1 (entry_file wanted)) as [[]|]; by simplify_eq).
    by apply Hkeep.
Qed.
End operations.
