(* ===== verification/Resume.v ===== *)
(** The worker's operations under failures and crashes: claims, releases, failure
    records, completions and the recovery that resumes an interrupted one.

    [resume] describes a queue directory between a durable completion record and
    the end of the reconciliation, whatever clients have done to the entries
    since. *)

From S2P Require Import Prelude Text Protocol Disk Entry Order Bounds Scan Capacity Writes Schedule.
From S2P Require Import History Store DiskState Claims Edits Sound Enqueue Lines Reverse Log Pages.
From S2P Require Import Append Recovery Completion Faults Excerpt.

Import StoredEntry.

Section resume.
Context `{Platform} `{!PlatformOk} `{SerdeJson} `{!SerdeJsonOk}.
Implicit Types d : disk.

Abbreviation queue d := (entries_of (d_entries d)).

(** * Claims *)

(** A claimed entry is in the queue, and the cooldown and its flutter have passed
    since the latest activity. *)
Definition claim_post (calm : bool) (cooldown now : Z) d (o : outcome (option (t * Z))) d' : Prop :=
  o <> Diverged /\ after calm (fun _ => False) d d' /\ d_root d' = d_root d
  /\ forall e, o = Done (Some (e, 0)) ->
       e ∈ queue d' /\ claim_token e <> None
       /\ forall p, activity d = Some p -> sat_add (sat_add p cooldown) (flutter_seconds e) <= now.

Lemma due_spacing cooldown now p e :
  sat_sub (post_at cooldown now (Some p) e) now <= 0 ->
  sat_add (sat_add p cooldown) (flutter_seconds e) <= now.
Proof.
  intros Hw. pose proof (post_at_ge_now cooldown now (Some p) e) as Hge.
  assert (Hat : post_at cooldown now (Some p) e = now) by machine.
  unfold post_at, due in Hat. lia.
Qed.

Lemma claim_runs calm d cooldown now :
  intact calm d -> runs_in calm (claim_next_due cooldown now) (claim_post calm cooldown now d) d.
Proof.
  intros Hi. pose proof Hi as [Hs _].
  assert (Hbad : forall o, o <> Diverged -> (forall e, o <> Done (Some (e, 0))) ->
    claim_post calm cooldown now d o d).
  { intros o Ho Hne. split_and!; [done|by apply after_queue|done|]. intros e He. by destruct (Hne e). }
  unfold claim_next_due, next_due, schedule. apply runs_bind, runs_bind, runs_bind.
  eapply runs_mono; [apply entries_runs, Hs|].
  intros o d' (-> & Hnd & Hes). destruct o as [es|err| |]; try by apply Hbad.
  destruct (Hes _ eq_refl) as (Hall & _ & Hex). apply runs_bind, (runs_reads _ (Done (activity d)));
    [apply previous_activity_reads|intros u; by apply previous_activity_sound| |
     by intros; apply Hbad|by apply Hbad].
  apply runs_ret. rewrite projected_claims. destruct (existsb claimed es) eqn:Hcl.
  { apply runs_ret, runs_ret. by apply Hbad. }
  apply runs_ret. destruct es as [|e es]; cbn [projected_schedule head].
  { apply runs_ret. by apply Hbad. }
  destruct (Z.ltb_spec 0 (sat_sub (post_at cooldown now (activity d) e) now)) as [Hw|Hw].
  { apply runs_ret, Hbad; [done|]. intros x [= _ Hx]. lia. }
  apply Forall_cons_1 in Hall as [He _]. pose proof (sound_entry_ok _ e (sd_entries d Hs) He) as Hok.
  apply runs_fresh. intros u. set (e' := with_claim (Some (new_v4 u)) e).
  assert (Hup : update_of e e')
    by (apply with_claim_update; [done|apply new_v4_utf8|apply new_v4_claim_ok]).
  apply runs_bind. eapply runs_mono; [by apply (write_update_runs calm d e)|].
  intros o d' (Hdv & Hwr).
  assert (after calm (fun _ => False) d d' /\ d_root d' = d_root d) as [Haf Hroot].
  { destruct Hwr as [Hwr|[_ Hwr]]; (split; [|apply Hwr]); [|by apply after_same].
    apply (after_update _ _ e e' _ _ Hwr He Hup). intros Hc _. right. intros x Hx.
    rewrite (Hex Hc) in Hcl. destruct (claimed x) eqn:Hcx; [|done].
    enough (existsb claimed (queue d) = true) by congruence.
    apply existsb_exists. exists x. by rewrite <- list_elem_of_In. }
  destruct o as [[]|err| |]; try by split_and!. apply runs_ret. split_and!; try done.
  intros x [= <-]. destruct Hwr as [(_ & Hq & _)|[? _]]; [|done].
  split_and!; [apply Hq; by left|done|]. intros p Hp. rewrite Hp in Hw. by apply due_spacing.
Qed.

(** * Releasing a claim *)

(** Only the last-attempt marker of the root may have changed, to the later of
    its value and the time of the attempt. *)
Definition attempt_root (now : Z) d d' : Prop :=
  (forall q, q.1 = Root -> q <> LAST_ATTEMPT_FILE -> q <> tmp_path LAST_ATTEMPT_FILE ->
     dget d' q = dget d q)
  /\ (dget d' LAST_ATTEMPT_FILE = dget d LAST_ATTEMPT_FILE
      \/ dget d' LAST_ATTEMPT_FILE
         = Some (Regular (u64_to_bytes (Z.max (default 0 (marker d LAST_ATTEMPT_FILE)) now)))).

Definition release_post (calm : bool) (now : Z) d (o : outcome unit) d' : Prop :=
  o <> Diverged /\ after calm (fun _ => False) d d' /\ attempt_root now d d'.

(** A claim that was still there when it was released. *)
Definition returned (wanted token : string) (now : Z) d (o : outcome unit) d' : Prop :=
  forall x, o = Done tt -> x ∈ queue d -> id x = wanted -> claim_token x = Some token ->
  dget d' LAST_ATTEMPT_FILE
  = Some (Regular (u64_to_bytes (Z.max (default 0 (marker d LAST_ATTEMPT_FILE)) now))).

Lemma release_nothing calm now d o :
  intact calm d -> o <> Diverged -> release_post calm now d o d.
Proof. intros Hi Ho. split_and!; [done|by apply after_queue|]. split; [done|by left]. Qed.

Lemma release_nothing_done calm wanted token now d o :
  intact calm d -> o <> Diverged -> o <> Done tt ->
  release_post calm now d o d /\ returned wanted token now d o d.
Proof. intros Hi Hdv Ho. split; [by apply release_nothing|]. by intros x ?. Qed.

Lemma latest_u64 d now : disk_sound d -> is_u64 now ->
  is_u64 (Z.max (default 0 (marker d LAST_ATTEMPT_FILE)) now).
Proof.
  intros Hs Hnow. destruct (marker d LAST_ATTEMPT_FILE) as [n|] eqn:Hm; simpl; [|machine].
  pose proof (marker_u64 _ _ _ (sd_last_attempt d Hs) Hm). machine.
Qed.

Lemma after_evolved (e e' : t) : evolved e e' -> (fun _ : t => False) e' -> (fun _ : t => False) e.
Proof. done. Qed.

(** The marker was written, or only its temporary file. *)
Lemma attempt_written calm d d1 now :
  intact calm d -> is_u64 now ->
  leftover LAST_ATTEMPT_FILE d d1
  \/ d1 = replaced LAST_ATTEMPT_FILE
            (u64_to_bytes (Z.max (default 0 (marker d LAST_ATTEMPT_FILE)) now)) d ->
  intact calm d1 /\ d_entries d1 = d_entries d /\ attempt_root now d d1.
Proof.
  intros Hi Hnow Hd1. pose proof Hi as [Hs _]. set (n := Z.max _ now) in *.
  assert (Hn : is_u64 n) by by apply latest_u64.
  assert (Hq : forall q, q <> LAST_ATTEMPT_FILE -> q <> tmp_path LAST_ATTEMPT_FILE -> dget d1 q = dget d q).
  { intros q H1' H2'. destruct Hd1 as [[Hq _]| ->]; [by apply Hq|].
    unfold replaced. by rewrite dget_dput_other, dget_ddel_other. }
  assert (Hatt : dget d1 LAST_ATTEMPT_FILE = dget d LAST_ATTEMPT_FILE
                 \/ dget d1 LAST_ATTEMPT_FILE = Some (Regular (u64_to_bytes n))).
  { destruct Hd1 as [[Hq' _]| ->]; [left; by apply Hq'|right; apply dget_dput_same]. }
  assert (He : d_entries d1 = d_entries d) by (apply map_eq; intros k; by apply (Hq (Entries, k))).
  assert (Hdel : d_deletions d1 = d_deletions d)
    by (apply map_eq; intros k; by apply (Hq (AwaitDeletions, k))).
  split_and!; [|done|by split; auto]. apply (intact_root calm d); try done.
  - unfold marker_wf. rewrite Hq by done. apply Hs.
  - destruct Hatt as [Ha|Ha]; [unfold marker_wf; rewrite Ha; apply Hs|right; eauto].
  - intros k. change (d_root d1 !! k) with (dget d1 (Root, k)).
    pose proof (sd_root d Hs k) as Hk. change (d_root d !! k) with (dget d (Root, k)) in Hk.
    destruct (decide ((Root, k) = LAST_ATTEMPT_FILE)) as [Hk1|Hk1].
    { rewrite Hk1 in *. destruct Hatt as [Ha|Ha]; rewrite Ha; [exact Hk|done]. }

    destruct (decide ((Root, k) = tmp_path LAST_ATTEMPT_FILE)) as [Hk2|Hk2]; [|by rewrite Hq].
    rewrite Hk2 in *. destruct Hd1 as [[_ Ht]| ->]; [by apply Ht|].
    unfold replaced. rewrite dget_dput_other by done. by rewrite dget_ddel_same.
Qed.

Lemma release_runs calm d wanted token now :
  intact calm d -> is_u64 now ->
  runs_in calm (release_claim wanted token now) (fun o d' =>
    release_post calm now d o d' /\ returned wanted token now d o d') d.
Proof.
  intros Hi Hnow. pose proof Hi as [Hs _]. unfold release_claim. apply runs_bind, runs_attempt.
  eapply runs_mono; [apply find_runs, Hs|].
  intros o d' (-> & Hnd & Hfind & Hun). destruct o as [e|err| |]; try by apply release_nothing_done.
  2:{ destruct err; try by apply runs_throw, release_nothing_done.
      apply runs_ret. split; [by apply release_nothing|]. intros x _ Hx Hid _.
      apply queue_elem in Hx as (c & Hc & _). by rewrite Hid, (Hun _ eq_refl) in Hc. }
  destruct (Hfind _ eq_refl) as [He Heid]. case_decide as Htok.
  2:{ apply runs_ret. split; [by apply release_nothing|]. intros x _ Hx Hid Hx'. destruct Htok.
      rewrite (NoDup_id_inj (queue d) e x); [done|apply entries_of_NoDup|done|done|by rewrite Hid]. }
  apply runs_bind, (runs_reads _ (Done (marker d LAST_ATTEMPT_FILE)));
    [apply last_marker_reads|intros u; apply last_attempt_quiet, Hs| |
     by intros; apply release_nothing_done|by apply release_nothing_done].
  apply runs_bind, runs_calm. eapply runs_mono.
  { apply runs_and; [by apply write_atomic_runs|apply write_atomic_ends]. }
  intros o d1 [Hd1 Hdv]. destruct (attempt_written calm d d1 now Hi Hnow) as (Hi1 & He1 & Ha1).
  { destruct Hd1 as [->|(_ & Hl)]; [by right|left; exact Hl]. }
  assert (Hkeep : forall o, o <> Diverged -> o <> Done tt ->
    release_post calm now d o d1 /\ returned wanted token now d o d1).
  { intros o' Ho' Hno. split; [|by intros x ?].
    split_and!; [done|by apply after_queue; [|rewrite He1]|done]. }
  destruct o as [[]|err| |]; try by apply Hkeep.
  pose proof (sound_entry_ok _ e (sd_entries d Hs) He) as Hok. rewrite <- He1 in He.
  assert (Hup : update_of e (with_claim None e)) by by apply with_claim_update.
  eapply runs_mono; [by apply (write_update_runs calm d1 e)|]. intros o d2 (Hdv2 & Hw).
  assert (after calm (fun _ => False) d1 d2 /\ d_root d2 = d_root d1) as [Haf Hroot].
  { destruct Hw as [Hw|[_ Hw]]; (split; [|apply Hw]); [|by apply after_same].
    by apply (after_update _ _ e _ _ _ Hw He Hup). }
  assert (Hr : forall q, q.1 = Root -> dget d2 q = dget d1 q)
    by (intros q Hq'; unfold dget; rewrite Hq'; simpl; by rewrite Hroot).
  split; [split_and!; [done| |]|].
  - apply (after_trans calm _ d d1 d2 after_evolved); [|done]. by apply after_queue; [|rewrite He1].
  - destruct Ha1 as [Hq Ha].
    split; [intros q H1' H2' H3'; rewrite Hr by done; by apply Hq|]. by rewrite Hr.
  - intros x _ _ _ _. rewrite Hr by done. destruct Hd1 as [->|(? & _)]; [apply dget_dput_same|done].
Qed.

(** * Completions *)

(** What a completion of [e] may remove: the entry that still carries its claim. *)
Definition owned (e x : t) : Prop := id x = id e /\ claim_token x = claim_token e.

(** A durable completion record and the log it belongs to. *)
Record resume (e : t) (p : Z) (c0 : bytes) (r : HistoryRecord.t) (b js : bytes) d : Prop := {
  rs_entry : entry_ok e;
  rs_claim : claim_token e <> None;
  rs_posted : is_u64 p;
  rs_typed : record_typed r;
  rs_vec : record_to_vec r = Some b;
  rs_size : zlen b < MAX_HISTORY_LINE_BYTES;
  rs_incarnation : HistoryRecord.incarnation r = incarnation e;
  rs_len : is_u64 (zlen c0);
  rs_tail : tail_ok c0;
  rs_json : completion_to_vec
    (CompletionRecord.mk (id e) p (claim_token e) (Some r) (Some (zlen c0))) = Some js;
  rs_file : dget d COMPLETION_FILE = Some (Regular js);
  rs_log : pending r c0 (content d HISTORY_FILE) \/ logged r c0 (content d HISTORY_FILE);
  rs_activity : forall x, activity d = Some x -> x <= p;
}.

(** The directory with the log as it was when the record was made. *)
Definition base (c0 : bytes) d : disk := dput HISTORY_FILE (Regular c0) d.

Lemma resume_completing e p c0 r b js d :
  disk_sound d -> resume e p c0 r b js d ->
  completing (base c0 d) e (held_as d (id e)) r b js p
  /\ exists missing, recovering (base c0 d) e (held_as d (id e)) r js p missing d
     /\ (missing = true -> log_records (content d HISTORY_FILE) = log_records c0)
     /\ (missing = false -> log_records (content d HISTORY_FILE) = log_records c0 ++ [r]).
Proof.
  intros Hs Hrs. assert (Hc0 : content (base c0 d) HISTORY_FILE = c0)
    by (unfold content, base; by rewrite dget_dput_same).
  assert (Hv : is_valid_id (id e) = true) by apply (rs_entry _ _ _ _ _ _ _ Hrs).
  split.
  - pose proof Hrs as []. constructor; rewrite ?Hc0; try done; [apply Hs|exact (held_as_slot d (id e) Hs Hv)| |].
    + unfold completion_record. by rewrite Hc0.
    + intros x. by apply (sd_markers d Hs).
  - assert (Hre : forall missing, (missing = true /\ pending r c0 (content d HISTORY_FILE)
        \/ logged r c0 (content d HISTORY_FILE)) ->
      recovering (base c0 d) e (held_as d (id e)) r js p missing d).
    { intros missing Hlog. constructor; [apply Hrs| |by rewrite Hc0| | |apply Hs].
      - left. split; [done|by left].
      - left. unfold base. by rewrite dget_dput_other.
      - unfold base. by rewrite dget_dput_other. }
    destruct (rs_log _ _ _ _ _ _ _ Hrs) as [Hp|Hl].
    + exists true. pose proof Hp as (g & _ & _ & Hrec & _). split_and!; [by auto|done|done].
    + exists false. pose proof Hl as (g & _ & _ & Hrec & _). split_and!; [by auto|done|done].
Qed.

Lemma resume_root e p c0 r b js d d' :
  resume e p c0 r b js d -> d_root d' = d_root d -> resume e p c0 r b js d'.
Proof.
  intros Hrs Hr. assert (Hq : forall q, q.1 = Root -> dget d' q = dget d q)
    by (intros q Hq; unfold dget; rewrite Hq; simpl; by rewrite Hr).
  destruct Hrs. constructor; try done.
  - by rewrite Hq.
  - unfold content. by rewrite Hq.
  - by rewrite (activity_same_root d d' Hr).
Qed.

(** ** What a completion leaves of the entries *)

Section settling.
Context (calm : bool) (d0 d : disk) (e : t) (r : HistoryRecord.t) (b js : bytes) (p : Z).
Context (Hi : intact calm d) (Hclaim : claim_token e <> None) (Hp : is_u64 p).
Context (Hent0 : d_entries d0 = d_entries d) (Hdel0 : d_deletions d0 = d_deletions d).
Context (Hpost0 : dget d0 LAST_POST_FILE = dget d LAST_POST_FILE).
Context (Hatt0 : dget d0 LAST_ATTEMPT_FILE = dget d LAST_ATTEMPT_FILE).
Abbreviation held := (held_as d (id e)).

Lemma owned_removed d' :
  is_valid_id (id e) = true -> intact calm d' ->
  d_entries d' = d_entries d0 \/ entry_removed d0 e held d' -> after calm (owned e) d d'.
Proof.
  intros Hv Hi' Hent. destruct Hent as [He|He].
  { apply after_queue; [done|]. by rewrite He, Hent0. }
  unfold entry_removed in He. destruct (same_claim e held) eqn:Hs.
  2:{ apply after_queue; [done|]. by rewrite He, Hent0. }
  rewrite Hent0 in He. apply (after_removed _ _ (id e)); [done|done|].
  intros x Hx Hid. split; [done|]. unfold same_claim in Hs.
  destruct held as [y|] eqn:Hheld; [|done].
  pose proof (held_as_slot d (id e) (proj1 Hi) Hv) as Hslot. rewrite Hheld in Hslot.
  destruct Hslot as [Hy Hyid]. assert (x = y) as ->.
  { by apply (NoDup_id_inj (queue d)); [apply entries_of_NoDup|..|rewrite Hid]. }
  destruct (claim_token e); [|done]. by apply bool_decide_eq_true in Hs.
Qed.

(** The directory stays intact. *)
Lemma settling_intact d' :
  d_entries d' = d_entries d0 \/ entry_removed d0 e held d' ->
  d_deletions d' = d_deletions d0 \/ marker_cleared d0 e held d' ->
  dget d' LAST_POST_FILE = dget d0 LAST_POST_FILE
  \/ dget d' LAST_POST_FILE = Some (Regular (u64_to_bytes p)) ->
  dget d' LAST_ATTEMPT_FILE = dget d0 LAST_ATTEMPT_FILE ->
  (forall k, d_root d' !! k <> Some Directory) -> intact calm d'.
Proof.
  intros Hent Hdel Hpost Hatt Hroot. pose proof Hi as [Hs Hb].
  assert (Hes : d_entries d' = d_entries d \/ d_entries d' = delete (id e +:+ ".json") (d_entries d)).
  { rewrite Hent0 in Hent. destruct Hent as [?|He]; [by left|]. unfold entry_removed in He.
    rewrite Hent0 in He. destruct (same_claim _ _); auto. }
  assert (Hds : d_deletions d' = d_deletions d \/ d_deletions d' = delete (id e) (d_deletions d)).
  { rewrite Hdel0 in Hdel. destruct Hdel as [?|Hd]; [by left|]. unfold marker_cleared in Hd.
    rewrite Hdel0 in Hd. destruct (marker_of_lifetime _ _ _); auto. }
  split; [|destruct Hes as [->| ->]; [done|intros Hc; by apply budget_delete, Hb]].
  constructor.
  - destruct Hes as [->| ->]; [apply Hs|apply store_sound_delete, Hs].
  - destruct Hpost as [Hq|Hq]; [unfold marker_wf; rewrite Hq, Hpost0; apply Hs|right; eauto].
  - unfold marker_wf. rewrite Hatt, Hatt0. apply Hs.
  - done.
  - intros k. destruct Hds as [->| ->]; [apply Hs|]. rewrite lookup_delete. case_decide; [done|apply Hs].
  - intros wanted x Hw. destruct Hds as [->| ->]; [by apply Hs|].
    intros [_ Hx]%lookup_delete_Some. by apply (sd_markers d Hs wanted x).
Qed.

(** The markers move to the time of the post, or stay. *)
Lemma settling_activity d' :
  (forall x, activity d = Some x -> x <= p) ->
  dget d' LAST_POST_FILE = dget d0 LAST_POST_FILE
  \/ dget d' LAST_POST_FILE = Some (Regular (u64_to_bytes p)) ->
  dget d' LAST_ATTEMPT_FILE = dget d0 LAST_ATTEMPT_FILE ->
  activity d' = activity d \/ activity d' = Some p.
Proof.
  intros Hle Hpost Hatt. unfold activity in *. rewrite (marker_same d d' LAST_ATTEMPT_FILE) by congruence.
  destruct Hpost as [Hq|Hq]; [left; by rewrite (marker_same d d') by congruence|right].
  rewrite (marker_value d' _ p) by done.
  destruct (marker d LAST_POST_FILE), (marker d LAST_ATTEMPT_FILE); cbn [max_option] in *; try done;
    specialize (Hle _ eq_refl); f_equal; lia.
Qed.
End settling.

(** ** Runs *)

(** The history keeps its records, and a torn last line does not hide the next. *)
Definition log_kept d d' : Prop :=
  log_records (content d HISTORY_FILE) `prefix_of` log_records (content d' HISTORY_FILE)
  /\ tail_ok (content d' HISTORY_FILE).

Lemma log_kept_same d d' :
  tail_ok (content d HISTORY_FILE) -> dget d' HISTORY_FILE = dget d HISTORY_FILE -> log_kept d d'.
Proof. intros Ht Hq. unfold log_kept, content. by rewrite Hq. Qed.

Lemma max_some_le (a b : option Z) p :
  (forall x, max_option a b = Some x -> x <= p)
  <-> (forall x, a = Some x -> x <= p) /\ (forall x, b = Some x -> x <= p).
Proof.
  destruct a as [a|], b as [b|]; cbn [max_option]; split.
  all: try (intros Hx; split; intros x Hy; try done; injection Hy as <-; specialize (Hx _ eq_refl); lia).
  all: intros [Ha Hb] x Hy; try done; injection Hy as <-;
    try specialize (Ha _ eq_refl); try specialize (Hb _ eq_refl); lia.
Qed.

(** What a completion of [e] at time [p] leaves, finished or not. *)
Record settling (calm : bool) (e : t) (p : Z) d (o : outcome unit) d' : Prop := {
  st_ends : o <> Diverged;
  st_after : after calm (owned e) d d';
  st_activity : activity d' = activity d \/ activity d' = Some p;
  st_log : log_kept d d';
  st_file : dget d' COMPLETION_FILE = None /\ activity d' = Some p
    \/ o <> Done tt /\ exists c0 r b js, resume e p c0 r b js d';
}.

Section steps.
Context (calm : bool) (d0 d : disk) (e : t) (r : HistoryRecord.t) (b js : bytes) (p : Z).
Context (Hi : intact calm d) (Hclaim : claim_token e <> None).
Context (Hent0 : d_entries d0 = d_entries d) (Hdel0 : d_deletions d0 = d_deletions d).
Context (Hpost0 : dget d0 LAST_POST_FILE = dget d LAST_POST_FILE).
Context (Hatt0 : dget d0 LAST_ATTEMPT_FILE = dget d LAST_ATTEMPT_FILE).
Context (Hact : forall x, activity d = Some x -> x <= p).
Context (Hco : completing d0 e (held_as d (id e)) r b js p).
Abbreviation c0 := (content d0 HISTORY_FILE).
Context (Hlog : log_records (content d HISTORY_FILE) `prefix_of` log_records c0 ++ [r]).

Lemma settling_completed d' o :
  o <> Diverged -> completed d0 e (held_as d (id e)) r p d' -> settling calm e p d o d'.
Proof.
  intros Ho [Hf Hent Hm (g & Hc & _ & Hrec & _ & Ht) Hpost Hatt Hroot].
  pose proof (co_posted _ _ _ _ _ _ _ Hco) as Hp.
  assert (Hv : is_valid_id (id e) = true) by apply (co_entry _ _ _ _ _ _ _ Hco).
  assert (Hactp : activity d' = Some p).
  { unfold activity in *. rewrite (marker_value d' LAST_POST_FILE p) by done.
    rewrite (marker_same d d' LAST_ATTEMPT_FILE) by congruence.
    destruct (marker d LAST_ATTEMPT_FILE) as [y|]; [|done]. cbn [max_option].
    pose proof (proj2 (proj1 (max_some_le _ _ _) Hact) y eq_refl). f_equal. lia. }
  constructor; [done| | | |by left].
  - apply (owned_removed calm d0 d e); try done; [|by right].
    apply (settling_intact calm d0 d e p); auto.
  - by right.
  - split; [|done]. by rewrite Hrec.
Qed.

Lemma settling_recovering d' o missing :
  (missing = true -> log_records (content d HISTORY_FILE) `prefix_of` log_records c0) ->
  o <> Diverged -> o <> Done tt -> recovering d0 e (held_as d (id e)) r js p missing d' ->
  settling calm e p d o d'.
Proof.
  intros Hmiss Ho Hno [Hf Hent Hl Hpost Hatt Hroot].
  pose proof (co_posted _ _ _ _ _ _ _ Hco) as Hp.
  assert (Hv : is_valid_id (id e) = true) by apply (co_entry _ _ _ _ _ _ _ Hco).
  assert (Hent' : d_entries d' = d_entries d0 \/ entry_removed d0 e (held_as d (id e)) d') by tauto.
  assert (Hdel' : d_deletions d' = d_deletions d0 \/ marker_cleared d0 e (held_as d (id e)) d') by tauto.
  assert (Hi' : intact calm d') by (apply (settling_intact calm d0 d e p); auto).
  pose proof (settling_activity d0 d p Hp Hpost0 Hatt0 d' Hact Hpost Hatt) as Hact'.
  constructor; [done|by apply (owned_removed calm d0 d e)|done| |].
  - destruct Hl as [[Hm (g & _ & _ & Hrec & _ & Ht & _)]|(g & _ & _ & Hrec & _ & Ht)];
      (split; [rewrite Hrec|done]); auto.
  - right. split; [done|]. pose proof Hco as [_ He _ _ Hty Hb Hsz Hinc Hlen Htl Hjs _].
    exists c0, r, b, js. constructor; try done; [by destruct Hl as [[_ ?]|?]; auto|].
    intros x Hx. destruct Hact' as [Ha|Ha]; rewrite Ha in Hx; [by apply Hact|]. by injection Hx as <-.
Qed.
End steps.

Lemma reconcile_resume calm e p c0 r b js d :
  intact calm d -> resume e p c0 r b js d ->
  runs_in calm reconcile_completion (settling calm e p d) d.
Proof.
  intros Hi Hrs. destruct (resume_completing e p c0 r b js d (proj1 Hi) Hrs)
    as (Hco & missing & Hre & Hmt & Hmf).
  assert (Hc0 : content (base c0 d) HISTORY_FILE = c0)
    by (unfold content, base; by rewrite dget_dput_same).
  assert (Hq : forall q, q <> HISTORY_FILE -> dget (base c0 d) q = dget d q)
    by (intros q Hq; unfold base; by rewrite dget_dput_other).
  assert (Hlog : log_records (content d HISTORY_FILE)
                 `prefix_of` log_records (content (base c0 d) HISTORY_FILE) ++ [r]).
  { rewrite Hc0. destruct missing; [rewrite Hmt by done; by eexists|by rewrite Hmf]. }
  apply runs_calm. eapply runs_mono; [apply (reconcile_runs _ _ _ _ _ _ _ missing Hco d Hre)|].
  intros o d' [Hdv Hs]. pose proof (rs_claim _ _ _ _ _ _ _ Hrs) as Hcl.
  pose proof (rs_activity _ _ _ _ _ _ _ Hrs) as Hact.
  destruct Hs as [Hcd|[Hno Hre']].
  - apply (settling_completed calm (base c0 d) d e r b js p); try done; by apply Hq.
  - apply (settling_recovering calm (base c0 d) d e r b js p) with (missing := missing); try done.
    { by apply Hq. }
    { by apply Hq. }
    intros Hm. by rewrite Hc0, Hmt.
Qed.

Lemma reconcile_absent calm d :
  dget d COMPLETION_FILE = None ->
  runs_in calm reconcile_completion (fun o d' => d' = d /\ o <> Diverged) d.
Proof.
  intros Hn. apply runs_bind, runs_attempt, (runs_reads _ (Failed (Io (os_error NotFound))));
    [apply read_to_string_reads| | | |done].
  - intros u. by apply read_to_string_missing.
  - by apply runs_ret.
  - intros y (z & -> & Hz) _. rewrite decide_False by done. by apply runs_throw.
Qed.

(** The completion record never became durable, or the completion is settling. *)
Lemma complete_runs calm d e token_hash now url :
  completable d e token_hash now url -> intact calm d -> dget d COMPLETION_FILE = None ->
  (forall x, activity d = Some x -> x <= now) ->
  runs_in calm (complete_claim_with_token e token_hash now url) (fun o d' =>
    o <> Diverged /\ (o <> Done tt /\ unchanged d d' \/ settling calm e now d o d')) d.
Proof.
  intros Hcl Hi Hf Hact. apply runs_calm. eapply runs_mono; [by apply complete_claim_runs|].
  intros o d' [Hdv Hpost]. pose proof (cl_claim _ _ _ _ _ Hcl) as Hclaim. split; [done|].
  destruct Hpost as [?|(u & b & js & Hco & Hstate)]; [by left|right].
  set (r := posted_record e token_hash now url u) in *.
  assert (Hlog : log_records (content d HISTORY_FILE)
                 `prefix_of` log_records (content d HISTORY_FILE) ++ [r]) by by eexists.
  destruct Hstate as [Hcd|[Hno Hre]].
  - by apply (settling_completed calm d d e r b js now).
  - by apply (settling_recovering calm d d e r b js now) with (missing := true).
Qed.

Lemma unchanged_after calm d d' :
  intact calm d -> unchanged d d' ->
  after calm (fun _ => False) d d' /\ activity d' = activity d
  /\ dget d' HISTORY_FILE = dget d HISTORY_FILE /\ dget d' COMPLETION_FILE = dget d COMPLETION_FILE.
Proof.
  intros Hi ((He & Hd) & Hdir & Hh & Hp & Ha & Hc). pose proof Hi as [Hs _]. split_and!; [| |done|done].
  - apply after_queue; [|by rewrite He].
    apply (intact_root calm d); try done; [unfold marker_wf; rewrite Hp; apply Hs|
      unfold marker_wf; rewrite Ha; apply Hs|].
    intros k Hk. by apply Hdir, (sd_root d Hs) in Hk.
  - unfold activity. by rewrite !(marker_same d d').
Qed.

(** * Recovery *)

(** The loop over scanned entries adds no claim, and what it has passed is unclaimed. *)
Definition reclaim_post (calm : bool) (es : list t) d (o : outcome unit) d' : Prop :=
  o <> Diverged /\ after calm (fun _ => False) d d' /\ d_root d' = d_root d
  /\ forall x, x ∈ queue d' -> claimed x = true -> x ∈ queue d /\ (o = Done tt -> id x ∉ id <$> es).

Lemma reclaim_nothing calm es d (o : outcome unit) :
  intact calm d -> o <> Done tt -> o <> Diverged -> reclaim_post calm es d o d.
Proof. intros Hi Ho Hdv. split_and!; [done|by apply after_queue|done|done]. Qed.

(** The rest of the loop, from what one turn leaves. *)
Lemma reclaim_rest calm e es d d1 :
  (forall d, intact calm d -> Forall (fun e => e ∈ queue d) es -> NoDup (id <$> es) ->
     runs_in calm (reclaim_loop es) (reclaim_post calm es d) d) ->
  NoDup (id <$> es) -> Forall (fun x => x ∈ queue d1) es ->
  after calm (fun _ => False) d d1 -> d_root d1 = d_root d ->
  (forall x, x ∈ queue d1 -> claimed x = true -> x ∈ queue d /\ id x <> id e) ->
  runs_in calm (reclaim_loop es) (reclaim_post calm (e :: es) d) d1.
Proof.
  intros IH Hnd Hes Haf Hr Hcl. eapply runs_mono; [by apply IH; [apply Haf|..]|].
  intros o d2 (Hdv & Haf2 & Hr2 & Hdone). split_and!; [done|by eapply after_trans|congruence|].
  intros x Hx Hcx. destruct (Hdone x Hx Hcx) as [Hx1 Hout]. destruct (Hcl x Hx1 Hcx) as [Hxd Hid].
  split; [done|]. intros Ho. rewrite fmap_cons. apply not_elem_of_cons. auto.
Qed.

Lemma reclaim_loop_runs calm es : forall d,
  intact calm d -> Forall (fun e => e ∈ queue d) es -> NoDup (id <$> es) ->
  runs_in calm (reclaim_loop es) (reclaim_post calm es d) d.
Proof.
  induction es as [|e es IH]; intros d Hi Hes Hnd; cbn [reclaim_loop].
  { apply runs_ret. split_and!; [done|by apply after_queue|done|].
    intros x Hx _. split; [done|]. intros _ []%not_elem_of_nil. }
  apply Forall_cons_1 in Hes as [He Hes]. rewrite fmap_cons in Hnd. apply NoDup_cons in Hnd as [Hfresh Hnd].
  pose proof (sound_entry_ok _ e (sd_entries d (proj1 Hi)) He) as Hok.
  assert (Hinj : forall x, x ∈ queue d -> id x = id e -> x = e)
    by (intros x Hx; by apply (NoDup_id_inj (queue d)), He; [apply entries_of_NoDup|]).
  cut (forall e', reclaimed e e' -> update_of e e' ->
    runs_in calm ((if bool_decide (claim_token e <> None) || bool_decide (incarnation e = "")
                   then write_entry e' else ret tt) ;; reclaim_loop es) (reclaim_post calm (e :: es) d) d).
  { intros Hrest. cbn [incarnation with_claim].
    destruct (decide (incarnation e = "")) as [Hinc|Hinc];
      [rewrite (bool_decide_true (incarnation e = "")) in * by done
      |rewrite (bool_decide_false (incarnation e = "")) in * by done]; apply runs_bind.
    - apply runs_fresh. intros u. apply runs_ret.
      destruct (reclaim_entry_spec e u Hok) as [Hre Hup]. unfold reclaim_entry in *.
      rewrite decide_True in Hre, Hup by done. by apply Hrest.
    - apply runs_ret. destruct (reclaim_entry_spec e 0 Hok) as [Hre Hup]. unfold reclaim_entry in *.
      rewrite decide_False in Hre, Hup by done. by apply Hrest. }
  intros e' Hre Hup. assert (Hid : id e' = id e) by by apply reclaimed_id.
  assert (Hnc : claimed e' = false) by (unfold claimed; by rewrite (proj1 Hre)).
  apply runs_bind. destruct (_ || _) eqn:Hneed.
  - eapply runs_mono; [by apply (write_update_runs calm d e)|]. intros o d1 (Hdv & Hw).
    destruct Hw as [Hw|[Hno Hsame]].
    + pose proof Hw as (Hi1 & Hq & Hr & _).
      assert (Haf : after calm (fun _ => False) d d1)
        by (apply (after_update _ _ e e' _ _ Hw He Hup); intros _; by rewrite Hnc).
      assert (Hcl : forall x, x ∈ queue d1 -> claimed x = true -> x ∈ queue d /\ id x <> id e).
      { intros x [->|[Hx Hxid]]%Hq Hcx; [by rewrite Hnc in Hcx|]. by rewrite Hid in Hxid. }
      destruct o as [[]|err| |]; try (split_and!; [done|done|done|];
        intros x Hx Hcx; split; [by apply Hcl|done]).
      apply reclaim_rest; try done. rewrite Forall_forall in *. intros x Hx. apply Hq. right.
      split; [by apply Hes|]. rewrite Hid. intros Heq. apply Hfresh. rewrite <- Heq.
      by apply list_elem_of_fmap_2.
    + destruct o as [[]|err| |]; [done|..]; destruct Hsame as (Hi1 & Hq & Hr & _);
        (split_and!; [done|by apply after_queue|done|]; intros x; rewrite Hq; done).
  - apply orb_false_iff in Hneed as [Hc _]. apply bool_decide_eq_false in Hc.
    apply runs_ret, reclaim_rest; try done; [by apply after_queue|].
    intros x Hx Hcx. split; [done|]. intros Heq. rewrite (Hinj x Hx Heq) in Hcx.
    unfold claimed in Hcx. by apply bool_decide_eq_true in Hcx.
Qed.

Lemma reclaim_runs calm d :
  intact calm d ->
  runs_in calm reclaim_claims (fun o d' => o <> Diverged /\ after calm (fun _ => False) d d'
    /\ d_root d' = d_root d
    /\ (calm = true -> o = Done tt -> forall x, x ∈ queue d' -> claimed x = false)) d.
Proof.
  intros Hi. assert (Hbad : forall o : outcome unit, o <> Diverged -> o <> Done tt ->
    o <> Diverged /\ after calm (fun _ => False) d d /\ d_root d = d_root d
    /\ (calm = true -> o = Done tt -> forall x, x ∈ queue d -> claimed x = false))
    by (intros; split_and!; [done|by apply after_queue|done|done]).
  apply runs_bind. eapply runs_mono; [apply entries_runs, Hi|].
  intros o d' (-> & Hnd & Hes). destruct o as [es|err| |]; try by apply Hbad.
  destruct (Hes _ eq_refl) as (Hall & Hids & Hex).
  eapply runs_mono; [by apply reclaim_loop_runs|].
  intros o d' (Hdv & Haf & Hr & Hdone). split_and!; try done. intros Hc Ho x Hx.
  destruct (claimed x) eqn:Hcx; [|done]. destruct (Hdone x Hx Hcx) as [Hxd Hout].
  destruct (Hout Ho). rewrite (Hex Hc). by apply list_elem_of_fmap_2.
Qed.

(** * Steps *)

(** What every step keeps: entries other than those of [ids], the cooldown anchor,
    the clock above every recorded time, and the history. *)
Definition among (ids : list string) (x : t) : Prop := id x ∈ ids.

Record evolves (calm : bool) (ids : list string) (clock : Z) d d' : Prop := {
  ev_after : after calm (among ids) d d';
  ev_anchor : anchored d d';
  ev_clock : (forall x, activity d = Some x -> x <= clock) ->
    forall x, activity d' = Some x -> x <= clock;
  ev_log : tail_ok (content d HISTORY_FILE) -> log_kept d d';
}.

Lemma after_weaken calm (gone gone' : t -> Prop) d d' :
  (forall x, gone x -> gone' x) -> after calm gone d d' -> after calm gone' d d'.
Proof.
  intros Hg [Hi Hk Hs]. constructor; [done| |done]. intros e He. destruct (Hk e He); auto.
Qed.

Lemma evolves_trans calm ids clock d1 d2 d3 :
  evolves calm ids clock d1 d2 -> evolves calm ids clock d2 d3 -> evolves calm ids clock d1 d3.
Proof.
  intros [Ha1 Hb1 Hc1 Hl1] [Ha2 Hb2 Hc2 Hl2]. constructor; [|..|].
  - eapply after_trans; [|done|done]. intros e e' [(Hid & _) _]. unfold among. by rewrite Hid.
  - intros p Hp. destruct (Hb1 p Hp) as (q & Hq & Hle). destruct (Hb2 q Hq) as (q' & Hq' & Hle').
    exists q'. split; [done|lia].
  - auto.
  - intros Ht. destruct (Hl1 Ht) as [Hp1 Ht1]. destruct (Hl2 Ht1) as [Hp2 Ht2].
    split; [|done]. by etrans.
Qed.

Lemma evolves_root calm (gone : t -> Prop) ids clock d d' :
  (forall x, gone x -> among ids x) -> after calm gone d d' -> d_root d' = d_root d ->
  evolves calm ids clock d d'.
Proof.
  intros Hg Haf Hr. constructor.
  - by eapply after_weaken.
  - by apply anchored_same_root.
  - by rewrite (activity_same_root d d' Hr).
  - intros Ht. apply log_kept_same; [done|]. unfold dget. simpl. by rewrite Hr.
Qed.

Lemma evolves_settling calm e p ids clock d o d' :
  settling calm e p d o d' -> (forall x, activity d = Some x -> x <= p) -> p <= clock ->
  id e ∈ ids -> evolves calm ids clock d d'.
Proof.
  intros [_ Haf Hact Hlog _] Hle Hp Hid. constructor; [|..|done].
  - eapply after_weaken; [|done]. intros x [Hx _]. unfold among. by rewrite Hx.
  - intros x Hx. destruct Hact as [Ha|Ha]; rewrite Ha; [exists x; split; [done|lia]|].
    exists p. split; [done|]. by apply Hle.
  - intros Hc x. destruct Hact as [Ha|Ha]; rewrite Ha; [apply Hc|]. intros [= <-]. lia.
Qed.

(** A release moves the attempt marker forward, up to the time of the attempt. *)
Lemma evolves_release calm now ids d o d' :
  release_post calm now d o d' -> is_u64 now -> disk_sound d -> evolves calm ids now d d'.
Proof.
  intros (_ & Haf & Hq & Hatt) Hnow Hs.
  assert (Hpost : marker d' LAST_POST_FILE = marker d LAST_POST_FILE) by (apply marker_same; by apply Hq).
  assert (Hcase : marker d' LAST_ATTEMPT_FILE = marker d LAST_ATTEMPT_FILE
    \/ marker d' LAST_ATTEMPT_FILE = Some (Z.max (default 0 (marker d LAST_ATTEMPT_FILE)) now)).
  { destruct Hatt as [Ha|Ha]; [left; by apply marker_same|right].
    apply marker_value; [by apply latest_u64|done]. }
  constructor.
  - by apply (after_weaken _ (fun _ => False)).
  - intros x Hx. unfold activity in *. rewrite Hpost. destruct Hcase as [->| ->];
      [exists x; split; [done|lia]|].
    destruct (marker d LAST_POST_FILE), (marker d LAST_ATTEMPT_FILE); simpl in *;
      try injection Hx as <-; try done; eexists; (split; [done|]); lia.
  - unfold activity. rewrite !max_some_le, Hpost. intros [Hp Ha]. split; [done|].
    intros x. destruct Hcase as [->| ->]; [apply Ha|]. intros [= <-].
    destruct (marker d LAST_ATTEMPT_FILE) as [y|]; simpl; [specialize (Ha y eq_refl)|]; machine.
  - intros Ht. apply log_kept_same; [done|]. by apply Hq.
Qed.

(** ** Interrupted completions *)

(** No completion is open, or one of an entry among [ids] can be resumed. *)
Definition pausing (ids : list string) (clock : Z) d : Prop :=
  dget d COMPLETION_FILE = None
  \/ exists e p c0 r b js, id e ∈ ids /\ p <= clock /\ resume e p c0 r b js d.

Lemma pausing_root ids clock d d' :
  pausing ids clock d -> d_root d' = d_root d -> pausing ids clock d'.
Proof.
  intros [Hn|(e & p & c0 & r & b & js & Hid & Hp & Hrs)] Hr.
  - left. unfold dget in *. simpl in *. by rewrite Hr.
  - right. exists e, p, c0, r, b, js. split_and!; [done|done|]. by eapply resume_root.
Qed.

(** An attempt at time [x], or a later one, is on the disk: in the markers or in the
    completion record. *)
Definition committed (x : Z) d : Prop :=
  (exists p, activity d = Some p /\ x <= p)
  \/ exists e p c0 r b js, x <= p /\ resume e p c0 r b js d.

Lemma committed_root x d d' : committed x d -> d_root d' = d_root d -> committed x d'.
Proof.
  intros [(p & Hp & Hle)|(e & p & c0 & r & b & js & Hle & Hrs)] Hr.
  - left. exists p. by rewrite (activity_same_root d d' Hr).
  - right. exists e, p, c0, r, b, js. split; [done|]. by eapply resume_root.
Qed.

Lemma committed_closed x d :
  dget d COMPLETION_FILE = None -> committed x d -> exists p, activity d = Some p /\ x <= p.
Proof.
  intros Hn [?|(e & p & c0 & r & b & js & _ & Hrs)]; [done|].
  by rewrite (rs_file _ _ _ _ _ _ _ Hrs) in Hn.
Qed.

Lemma committed_anchored x d d' :
  dget d COMPLETION_FILE = None -> anchored d d' -> committed x d -> committed x d'.
Proof.
  intros Hn Ha Hc. destruct (committed_closed x d Hn Hc) as (p & Hp & Hle).
  destruct (Ha p Hp) as (q & Hq & Hpq). left. exists q. split; [done|lia].
Qed.

(** The completion record names the time of its post. *)
Lemma resume_time e p c0 r b js e' p' c0' r' b' js' d :
  resume e p c0 r b js d -> resume e' p' c0' r' b' js' d -> p' = p.
Proof.
  intros Hr Hr'. pose proof (rs_file _ _ _ _ _ _ _ Hr) as Hf. rewrite (rs_file _ _ _ _ _ _ _ Hr') in Hf.
  injection Hf as ->.
  assert (Hty : forall e p c0 r b, resume e p c0 r b js d -> completion_typed
    (CompletionRecord.mk (id e) p (claim_token e) (Some r) (Some (zlen c0)))).
  { intros e1 p1 c1 r1 b1 Hrs. destruct (rs_entry _ _ _ _ _ _ _ Hrs) as ((Hid & _ & _ & _ & _ & _ & Hc & _) & _).
    unfold completion_typed. cbn. split_and!; try done; apply Hrs. }
  pose proof (completion_round_trip _ _ (Hty _ _ _ _ _ Hr) (rs_json _ _ _ _ _ _ _ Hr)) as H1'.
  pose proof (completion_round_trip _ _ (Hty _ _ _ _ _ Hr') (rs_json _ _ _ _ _ _ _ Hr')) as H2'.
  rewrite H1' in H2'. by injection H2' as _ -> _ _.
Qed.

Definition recovery_post (calm : bool) ids clock d (o : outcome unit) d' : Prop :=
  o <> Diverged /\ evolves calm ids clock d d' /\ pausing ids clock d'
  /\ (o = Done tt -> dget d' COMPLETION_FILE = None)
  /\ (forall x, committed x d -> committed x d').

Lemma reconcile_pausing calm ids clock d :
  intact calm d -> pausing ids clock d ->
  runs_in calm reconcile_completion (recovery_post calm ids clock d) d.
Proof.
  intros Hi [Hn|(e & p & c0 & r & b & js & Hid & Hp & Hrs)].
  - eapply runs_mono; [by apply reconcile_absent|]. intros o d' [-> Hdv].
    split_and!; [done| |by left|done|done].
    apply (evolves_root _ (fun _ => False)); [done|by apply after_queue|done].
  - eapply runs_mono; [by eapply reconcile_resume|]. intros o d' Hst.
    pose proof (rs_activity _ _ _ _ _ _ _ Hrs) as Hact.
    split_and!; [apply Hst|by eapply evolves_settling| | |].
    + destruct (st_file _ _ _ _ _ _ Hst) as [[? _]|(_ & c1 & r1 & b1 & js1 & Hrs1)]; [by left|right].
      exists e, p, c1, r1, b1, js1. done.
    + intros Ho. destruct (st_file _ _ _ _ _ _ Hst) as [[? _]|[? _]]; done.
    + intros x Hx. assert (x <= p) as Hxp.
      { destruct Hx as [(q & Hq & Hle)|(e' & q & c1 & r1 & b1 & js1 & Hle & Hrs1)];
          [apply Hact in Hq; lia|]. by rewrite (resume_time _ _ _ _ _ _ _ _ _ _ _ _ _ Hrs Hrs1) in Hle. }
      destruct (st_file _ _ _ _ _ _ Hst) as [[_ Ha]|(_ & c1 & r1 & b1 & js1 & Hrs1)].
      * left. by exists p.
      * right. exists e, p, c1, r1, b1, js1. done.
Qed.

Lemma recover_runs calm ids clock d :
  intact calm d -> pausing ids clock d ->
  runs_in calm recover_worker_state (fun o d' => recovery_post calm ids clock d o d'
    /\ (calm = true -> o = Done tt -> forall x, x ∈ queue d' -> claimed x = false)) d.
Proof.
  intros Hi Hp. apply runs_bind. eapply runs_mono; [by apply reconcile_pausing|].
  intros o d1 (Hdv & Hev & Hp1 & Hnone & Hcm). destruct o as [[]|err| |]; try by split_and!.
  specialize (Hnone eq_refl).
  eapply runs_mono; [apply reclaim_runs, (af_intact _ _ _ _ (ev_after _ _ _ _ _ Hev))|].
  intros o d2 (Hdv2 & Haf & Hr & Hcl). split; [|done]. split_and!; [done| | | |].
  - eapply evolves_trans; [done|]. by apply (evolves_root _ (fun _ => False)).
  - by eapply pausing_root.
  - intros _. unfold dget in *. simpl in *. by rewrite Hr.
  - intros x Hx. eapply committed_root; [by apply Hcm|done].
Qed.

(** ** Failure records *)

(** The history record of a failed post, with the UUID it draws. *)
Definition failed_record (e : t) (token_hash : string) (now : Z) (error : string) (u : nat)
    : HistoryRecord.t :=
  {| HistoryRecord.attempt_id := new_v4 u;
     HistoryRecord.id := id e;
     HistoryRecord.posted_at := now;
     HistoryRecord.success := false;
     HistoryRecord.error := Some (bounded_error error);
     HistoryRecord.token_hash := token_hash;
     HistoryRecord.comment_url := None;
     HistoryRecord.incarnation := incarnation e;
     HistoryRecord.request := request e |}.

(** A failure that can be recorded: text arguments, and a record that fits in a
    line of the log. *)
Definition recordable (e : t) (token_hash : string) (now : Z) (error : string) : Prop :=
  entry_ok e /\ is_u64 now /\ utf8 token_hash /\ utf8 error
  /\ forall u b, record_to_vec (failed_record e token_hash now error u) = Some b ->
       zlen b < MAX_HISTORY_LINE_BYTES.

Lemma log_only_evolves calm ids clock d d' :
  intact calm d -> log_only HISTORY_FILE d d' ->
  (tail_ok (content d HISTORY_FILE) -> log_kept d d') -> evolves calm ids clock d d'.
Proof.
  intros Hi [Hq Hnd] Hlog. pose proof Hi as [Hs _].
  destruct (root_only_of d d' HISTORY_FILE eq_refl Hq) as [He Hd].
  assert (Hact : activity d' = activity d)
    by (unfold activity; by rewrite !(marker_same d d') by by apply Hq).
  constructor; [| | |done].
  - apply after_queue; [|by rewrite He]. apply (intact_root calm d); try done.
    + unfold marker_wf. rewrite Hq by done. apply Hs.
    + unfold marker_wf. rewrite Hq by done. apply Hs.
    + intros k. destruct (decide (k = "history.jsonl")) as [->|Hk]; [exact Hnd|].
      pose proof (Hq (Root, k)) as Hk'. unfold dget in Hk'. simpl in Hk'.
      rewrite Hk'; [apply Hs|]. unfold HISTORY_FILE. congruence.
  - intros p Hp. exists p. rewrite Hact. split; [done|lia].
  - by rewrite Hact.
Qed.

Lemma fail_runs calm ids clock d e token_hash now error :
  intact calm d -> recordable e token_hash now error ->
  runs_in calm (let* record := record_failure e token_hash now error in append HISTORY_FILE record)
    (fun o d' => o <> Diverged /\ evolves calm ids clock d d'
       /\ dget d' COMPLETION_FILE = dget d COMPLETION_FILE) d.
Proof.
  intros Hi (Hok & Hnow & Hh & Hu & Hsz). apply runs_bind, runs_fresh. intros u.
  apply runs_ret. fold (failed_record e token_hash now error u).
  assert (Hty : record_typed (failed_record e token_hash now error u)).
  { destruct Hok as ((Hid & Hinc & _ & _ & _ & _ & _ & Hreq) & _). unfold record_typed. simpl.
    split_and!; try done; [apply new_v4_utf8|by apply bounded_error_text]. }
  destruct (record_to_vec_total _ Hty) as [b Hb].
  apply runs_calm. eapply runs_mono; [apply (append_runs _ b Hb)|].
  { apply (sd_root d (proj1 Hi)). }
  intros o d' (Hlo & Hdv & k & Hk & _). split_and!; [done| |by apply Hlo].
  apply log_only_evolves; [done|done|]. intros Ht. unfold log_kept. rewrite Hk.
  pose proof (append_progress _ b Hty Hb (Hsz u b Hb) (content d HISTORY_FILE) (content d HISTORY_FILE) k
    (pending_start _ _ Ht)) as [_ [(g & _ & _ & -> & _ & Htl & _)|(g & _ & _ & -> & _ & Htl)]];
    (split; [|done]); [done|by eexists].
Qed.

(** ** Opening the store *)

Lemma clear_markers_runs calm es : forall removed d,
  intact calm d ->
  runs_in calm (clear_markers es removed) (fun o d' => o <> Diverged
    /\ intact calm d' /\ d_entries d' = d_entries d /\ d_root d' = d_root d) d.
Proof.
  induction es as [|e es IH]; intros removed d Hi; cbn [clear_markers]; [by apply runs_ret|].
  unfold await_deletion_path. destruct (is_valid_id (id e)); [|by apply runs_bind, runs_throw].
  apply runs_bind, runs_ret, runs_bind, runs_attempt. fold (deletion_file (id e)).
  assert (Hnext : forall r d1, intact calm d1 -> d_entries d1 = d_entries d -> d_root d1 = d_root d ->
    runs_in calm (clear_markers es r) (fun o d' => o <> Diverged
      /\ intact calm d' /\ d_entries d' = d_entries d /\ d_root d' = d_root d) d1).
  { intros r d1 Hi1 He1 Hr1. eapply runs_mono; [by apply IH|].
    intros o d' (? & ? & ? & ?). split_and!; [done|done|congruence|congruence]. }
  apply runs_reads_any; [apply read_reads| | |done].
  2:{ intros x (y & -> & Hy) _. rewrite decide_False by done. by apply runs_throw. }
  intros u. pose proof (read_quiet (deletion_file (id e)) d u) as Hread.
  destruct (dget d (deletion_file (id e))) as [[c|]|] eqn:Hx; (eexists; split; [exact Hread|]).
  - apply runs_bind, runs_syscall; try done; [|by rewrite Hx].
    intros [] d' Hd'. rewrite Hx in Hd'. injection Hd' as <-. apply Hnext; [by apply intact_unmarked|done|done].
  - by apply runs_throw.
  - by apply Hnext.
Qed.

Lemma open_runs calm ids clock d :
  intact calm d -> pausing ids clock d ->
  runs_in calm open_store (fun o d' => recovery_post calm ids clock d o d'
    /\ (calm = true -> o = Done tt -> forall x, x ∈ queue d' -> claimed x = false)) d.
Proof.
  intros Hi Hp. assert (Hself : forall o : outcome unit, o <> Diverged -> o <> Done tt ->
    recovery_post calm ids clock d o d /\ (calm = true -> o = Done tt -> forall x, x ∈ queue d -> claimed x = false)).
  { intros o Hdv Ho. split; [|done]. split_and!; [done| |done|done|done].
    by apply (evolves_root _ (fun _ => False)); [|apply after_queue|]. }
  unfold open_store. do 2 (apply runs_bind, runs_query; [intros [] _|by intros; apply Hself|by apply Hself]).
  apply runs_bind. eapply runs_mono; [by apply reconcile_pausing|].
  intros o d1 (Hdv & Hev & Hp1 & Hnone & Hcm). destruct o as [[]|err| |]; try by split_and!.
  specialize (Hnone eq_refl). pose proof (af_intact _ _ _ _ (ev_after _ _ _ _ _ Hev)) as Hi1.
  assert (Hkeep : forall (o : outcome unit) d2, after calm (fun _ => False) d1 d2 -> d_root d2 = d_root d1 ->
    o <> Diverged -> recovery_post calm ids clock d o d2).
  { intros o d2 Haf Hr Ho. split_and!; [done| |by eapply pausing_root| |].
    - eapply evolves_trans; [done|]. by apply (evolves_root _ (fun _ => False)).
    - intros _. unfold dget in *. simpl in *. by rewrite Hr.
    - intros x Hx. eapply committed_root; [by apply Hcm|done]. }
  assert (Hbad : forall (o : outcome unit) d2, after calm (fun _ => False) d1 d2 -> d_root d2 = d_root d1 ->
    o <> Diverged -> o <> Done tt -> recovery_post calm ids clock d o d2
      /\ (calm = true -> o = Done tt -> forall x, x ∈ queue d2 -> claimed x = false))
    by (intros; split; [by apply Hkeep|done]).
  apply runs_bind, runs_bind. eapply runs_mono; [apply scan_runs, Hi1|].
  intros o d' (-> & Hnd & _). pose proof (after_queue calm (fun _ => False) d1 d1 Hi1 eq_refl) as Hrefl.
  destruct o as [[es usage]|err| |]; try by apply Hbad.
  apply lift_runs; [intros [] _|by intros; apply Hbad].
  apply runs_bind. eapply runs_mono; [by apply reclaim_runs|].
  intros o d2 (Hdv2 & Haf & Hr & Hcl). destruct o as [[]|err| |]; try by apply Hbad.
  pose proof (af_intact _ _ _ _ Haf) as Hi2.
  (* what follows changes deletion markers only *)
  assert (Htail : forall (o : outcome unit) d3, o <> Diverged -> intact calm d3 -> d_entries d3 = d_entries d2 ->
    d_root d3 = d_root d2 -> recovery_post calm ids clock d o d3
      /\ (calm = true -> o = Done tt -> forall x, x ∈ queue d3 -> claimed x = false)).
  { intros o d3 Ho Hi3 He3 Hr3. split.
    - apply Hkeep; [|congruence|done]. eapply after_trans; [done|exact Haf|].
      apply after_queue; [done|by rewrite He3].
    - intros Hc _ x. rewrite He3. by apply Hcl. }
  unfold reconcile_await_deletions. apply runs_bind. eapply runs_mono; [apply entries_runs, Hi2|].
  intros o d' (-> & Hnd2 & _). destruct o as [es'|err| |]; try by apply Htail.
  apply runs_bind. eapply runs_mono; [by apply clear_markers_runs|].
  intros o d3 (Hdv3 & Hi3 & He3 & Hr3). destruct o as [removed|err| |]; try by apply Htail.
  destruct removed; [|by apply runs_ret, Htail].
  apply runs_bind, runs_open_dir; [|by intros; apply Htail|by apply Htail].
  apply runs_sync; [by apply Htail|by intros; apply Htail|by apply Htail].
Qed.
End resume.
