(* ===== verification/Life.v ===== *)
(** The life of a queue directory: client requests, the worker and restarts of
    the worker and of the process, in any order, with I/O failures and crashes in
    any system call.

    The daemon answers client requests while it runs.  The worker recovers the
    store before it claims; it claims only when it holds nothing, completes or
    releases what it holds, and goes down when an operation fails (the supervisor
    restarts it).  After a crash the store is opened again before anything else
    ([supervisor.rs], [worker.rs] [run_worker], [store.rs] [open]). *)

From S2P Require Import Prelude Text Protocol Disk Entry Order Bounds Scan Capacity Writes Schedule.
From S2P Require Import History Store DiskState Claims Edits Sound Enqueue Lines Reverse Log Pages.
From S2P Require Import Append Recovery Completion Faults Resume.

Import StoredEntry.

Section life.
Context `{Platform} `{!PlatformOk} `{SerdeJson} `{!SerdeJsonOk}.
Implicit Types d : disk.

Abbreviation queue d := (entries_of (d_entries d)).

(** * Steps *)

Inductive client :=
| Put (fuel : nat) (request : CommentRequest.t) (options : PutOptions.t)
| Bump (wanted : string)
| Bust (wanted : string)
| Del (wanted : string).

Definition serve (c : client) (now : Z) : M unit :=
  match c with
  | Put fuel request options => put_with_eta fuel request options now ;; ret tt
  | Bump wanted => bump wanted
  | Bust wanted => bust wanted
  | Del wanted => del wanted
  end.

(** Arguments as the listener passes them. *)
Definition acceptable (c : client) : Prop :=
  match c with
  | Put fuel request options =>
      request_typed request /\ options_typed options /\ Z.of_nat fuel < U64_MAX
  | _ => True
  end.

Definition removes (c : client) : list string := match c with Del wanted => [wanted] | _ => [] end.

(** The worker is not running, holds nothing, or holds a claimed entry. *)
Inductive phase := Down | Idle | Holding (e : t).

Record life := Life {
  l_disk : disk;
  l_clock : Z;
  l_up : bool;          (** the process runs *)
  l_worker : phase;
  l_ids : list string;  (** identifiers that were deleted, or whose post was to be completed *)
}.

Definition survived {A} (o : outcome A) : bool := match o with Crashed => false | _ => true end.

(** After an operation: a crash takes the worker down with the process. *)
Definition proceed {A} (o : outcome A) (d : disk) (now : Z) (worker : phase) (ids : list string) : life :=
  Life d now (survived o) (if survived o then worker else Down) ids.

Definition after_claim (o : outcome (option (t * Z))) : phase :=
  match o with
  | Done (Some (e, wait)) => if wait =? 0 then Holding e else Idle
  | Done None => Idle
  | _ => Down
  end.
Definition after_work (o : outcome unit) : phase := match o with Done _ => Idle | _ => Down end.

Inductive step (calm : bool) (s : life) : life -> Prop :=
| step_serve c now fs u o w :
    l_up s = true -> l_clock s <= now -> is_u64 now -> acceptable c -> Forall (tolerated calm) fs ->
    serve c now (World (l_disk s) fs u) = (o, w) ->
    step calm s (proceed o (w_disk w) now (l_worker s) (removes c ++ l_ids s))
| step_recover now fs u o w :
    l_up s = true -> l_worker s = Down -> l_clock s <= now -> Forall (tolerated calm) fs ->
    recover_worker_state (World (l_disk s) fs u) = (o, w) ->
    step calm s (proceed o (w_disk w) now (after_work o) (l_ids s))
| step_claim cooldown now fs u o w :
    l_worker s = Idle -> l_clock s <= now -> Forall (tolerated calm) fs ->
    claim_next_due cooldown now (World (l_disk s) fs u) = (o, w) ->
    step calm s (proceed o (w_disk w) now (after_claim o) (l_ids s))
| step_complete e token_hash url now fs u o w :
    l_worker s = Holding e -> l_clock s <= now -> is_u64 now -> utf8 token_hash -> utf8_opt url ->
    is_u64 (zlen (content (l_disk s) HISTORY_FILE)) ->
    (forall k b, record_to_vec (posted_record e token_hash now url k) = Some b ->
       zlen b < MAX_HISTORY_LINE_BYTES) ->
    Forall (tolerated calm) fs ->
    complete_claim_with_token e token_hash now url (World (l_disk s) fs u) = (o, w) ->
    step calm s (proceed o (w_disk w) now (after_work o) (id e :: l_ids s))
| step_fail e token_hash error now fs u o w :
    l_worker s = Holding e -> l_clock s <= now -> recordable e token_hash now error ->
    Forall (tolerated calm) fs ->
    (let* record := record_failure e token_hash now error in append HISTORY_FILE record)
      (World (l_disk s) fs u) = (o, w) ->
    step calm s (proceed o (w_disk w) now (Holding e) (l_ids s))
| step_release e token now fs u o w :
    l_worker s = Holding e -> claim_token e = Some token -> l_clock s <= now -> is_u64 now ->
    Forall (tolerated calm) fs ->
    release_claim (id e) token now (World (l_disk s) fs u) = (o, w) ->
    step calm s (proceed o (w_disk w) now (after_work o) (l_ids s))
| step_open now fs u o w :
    l_up s = false -> l_clock s <= now -> Forall (tolerated calm) fs ->
    open_store (World (l_disk s) fs u) = (o, w) ->
    step calm s (Life (w_disk w) now (match o with Done _ => true | _ => false end) Down (l_ids s)).

Inductive lives (calm : bool) (s : life) : life -> Prop :=
| lives_refl : lives calm s s
| lives_step s1 s2 : lives calm s s1 -> step calm s1 s2 -> lives calm s s2.

(** * The invariant *)

Record sane (calm : bool) (s : life) : Prop := {
  sn_intact : intact calm (l_disk s);
  sn_single : calm = true -> single (l_disk s);
  sn_clock : forall p, activity (l_disk s) = Some p -> p <= l_clock s;
  sn_tail : tail_ok (content (l_disk s) HISTORY_FILE);
  sn_pausing : pausing (l_ids s) (l_clock s) (l_disk s);
  sn_worker : l_worker s <> Down -> dget (l_disk s) COMPLETION_FILE = None;
  sn_holding : forall e, l_worker s = Holding e -> entry_ok e /\ claim_token e <> None;
}.

Lemma pausing_weaken ids ids' clock clock' d :
  (forall i, i ∈ ids -> i ∈ ids') -> clock <= clock' -> pausing ids clock d -> pausing ids' clock' d.
Proof.
  intros Hids Hle [Hn|(e & p & c0 & r & b & js & Hid & Hp & Hrs)]; [by left|right].
  exists e, p, c0, r, b, js. split_and!; [by apply Hids|lia|done].
Qed.

(** From what a step does to the directory to the state after it. *)
Lemma sane_next calm s d' now up worker ids :
  sane calm s -> l_clock s <= now -> evolves calm ids now (l_disk s) d' ->
  pausing ids now d' -> (worker <> Down -> dget d' COMPLETION_FILE = None) ->
  (forall e, worker = Holding e -> entry_ok e /\ claim_token e <> None) ->
  sane calm (Life d' now up worker ids).
Proof.
  intros Hs Hle [Haf _ Hclk Hlog] Hp Hw Hh. constructor; cbn; try done.
  - apply Haf.
  - intros Hc. apply (af_single _ _ _ _ Haf Hc), (sn_single _ _ Hs Hc).
  - apply Hclk. intros x Hx. apply (sn_clock _ _ Hs) in Hx. lia.
  - apply Hlog, (sn_tail _ _ Hs).
Qed.

(** What a step keeps of the directory. *)
Definition keeps (calm : bool) (s s' : life) : Prop :=
  evolves calm (l_ids s') (l_clock s') (l_disk s) (l_disk s')
  /\ l_clock s <= l_clock s' /\ (forall i, i ∈ l_ids s -> i ∈ l_ids s')
  /\ (forall x, committed x (l_disk s) -> committed x (l_disk s')).

Lemma evolves_weaken calm ids ids' clock clock' d d' :
  (forall i, i ∈ ids -> i ∈ ids') -> clock <= clock' ->
  (forall x, activity d = Some x -> x <= clock) ->
  evolves calm ids clock d d' -> evolves calm ids' clock' d d'.
Proof.
  intros Hids Hle Hb [Haf Han Hclk Hlog]. constructor; [|done| |done].
  - eapply after_weaken; [|exact Haf]. intros x. apply Hids.
  - intros _ x Hx. specialize (Hclk Hb x Hx). lia.
Qed.

Lemma runs_of {A} calm (m : M A) Q d fs u o w :
  runs_in calm m Q d -> Forall (tolerated calm) fs -> m (World d fs u) = (o, w) -> Q o (w_disk w).
Proof. intros Hm Hfs Hrun. destruct (Hm fs u Hfs) as [HQ _]. by rewrite Hrun in HQ. Qed.

Lemma proceed_worker {A} (o : outcome A) worker :
  (if survived o then worker else Down) <> Down -> worker <> Down.
Proof. by destruct (survived o). Qed.
Lemma proceed_holding {A} (o : outcome A) worker e :
  (if survived o then worker else Down) = Holding e -> worker = Holding e.
Proof. by destruct (survived o). Qed.

(** * Every step keeps it *)

Lemma serve_runs calm d c now :
  intact calm d -> acceptable c -> is_u64 now ->
  runs_in calm (serve c now) (fun _ d' =>
    after calm (among (removes c)) d d' /\ d_root d' = d_root d) d.
Proof.
  intros Hi Hc Hnow. destruct c as [fuel request options|wanted|wanted|wanted]; cbn [serve removes].
  - destruct Hc as (Hr & Ho & Hf). apply runs_bind. eapply runs_mono; [by apply put_runs|].
    intros o d' (Haf & Hroot & _). apply (after_weaken _ _ (among [])) in Haf; [|done].
    destruct o; [by apply runs_ret|done..].
  - eapply runs_mono; [by apply bump_runs|]. intros o d' (_ & Haf & Hroot). split; [|done].
    by eapply after_weaken; [|exact Haf].
  - eapply runs_mono; [by apply bust_runs|]. intros o d' (_ & Haf & Hroot). split; [|done].
    by eapply after_weaken; [|exact Haf].
  - eapply runs_mono; [by apply del_runs|]. intros o d' (_ & Haf & Hroot). split; [|done].
    eapply after_weaken; [|exact Haf]. intros x Hx. unfold among. rewrite Hx. apply list_elem_of_here.
Qed.

Lemma holding_completable calm s e token_hash now url :
  sane calm s -> l_worker s = Holding e -> is_u64 now -> utf8 token_hash -> utf8_opt url ->
  is_u64 (zlen (content (l_disk s) HISTORY_FILE)) ->
  (forall k b, record_to_vec (posted_record e token_hash now url k) = Some b ->
     zlen b < MAX_HISTORY_LINE_BYTES) ->
  completable (l_disk s) e token_hash now url.
Proof.
  intros Hs Hw Hnow Hh Hu Hl Hsz. destruct (sn_holding _ _ Hs e Hw) as [Hok Hcl].
  constructor; try done; [apply (sn_intact _ _ Hs)|apply (sn_tail _ _ Hs)].
Qed.

Lemma sane_later calm s now :
  sane calm s -> l_clock s <= now -> forall x, activity (l_disk s) = Some x -> x <= now.
Proof. intros Hs Hle x Hx. apply (sn_clock _ _ Hs) in Hx. lia. Qed.

Lemma sane_closed calm s :
  sane calm s -> l_worker s <> Down -> dget (l_disk s) COMPLETION_FILE = None.
Proof. intros Hs. apply (sn_worker _ _ Hs). Qed.

(** A step that leaves the root of the directory alone. *)
Lemma root_step calm s d' now up worker ids (gone : t -> Prop) :
  sane calm s -> l_clock s <= now -> (forall i, i ∈ l_ids s -> i ∈ ids) ->
  after calm gone (l_disk s) d' -> (forall x, gone x -> among ids x) -> d_root d' = d_root (l_disk s) ->
  (worker <> Down -> l_worker s <> Down) ->
  (forall e, worker = Holding e -> entry_ok e /\ claim_token e <> None) ->
  sane calm (Life d' now up worker ids) /\ keeps calm s (Life d' now up worker ids).
Proof.
  intros Hs Hle Hids Haf Hg Hr Hw Hh.
  assert (Hev : evolves calm ids now (l_disk s) d') by by eapply evolves_root.
  split; [|split_and!; [done|done|done|]; intros x Hx; by eapply committed_root].
  eapply sane_next; try done.
  - eapply pausing_root; [|exact Hr]. by eapply pausing_weaken, (sn_pausing _ _ Hs).
  - intros Hd. unfold dget. simpl. rewrite Hr. by apply (sane_closed calm s Hs), Hw.
Qed.

Lemma claim_phase o e : after_claim o = Holding e -> o = Done (Some (e, 0)).
Proof.
  destruct o as [[[x wait]|]|err| |]; cbn; try done.
  destruct (Z.eqb_spec wait 0) as [->|]; [|done]. by intros [= ->].
Qed.

(** A step of a worker that holds a claim, from what it does to the directory. *)
Lemma held_step calm s d' now up worker ids e :
  sane calm s -> l_worker s = Holding e -> l_clock s <= now -> (forall i, i ∈ l_ids s -> i ∈ ids) ->
  evolves calm ids now (l_disk s) d' -> pausing ids now d' ->
  (worker <> Down -> dget d' COMPLETION_FILE = None) -> (forall x, worker = Holding x -> x = e) ->
  sane calm (Life d' now up worker ids) /\ keeps calm s (Life d' now up worker ids).
Proof.
  intros Hs Hhold Hle Hids Hev Hp Hf Hw. split.
  - eapply sane_next; try done. intros x Hx. rewrite (Hw x Hx). by apply (sn_holding _ _ Hs).
  - split_and!; [done|done|done|]. intros x. apply committed_anchored; [|apply Hev].
    apply (sane_closed calm s Hs). by rewrite Hhold.
Qed.

(** What a completion adds. *)
Lemma complete_step calm s e token_hash url now fs u o w :
  sane calm s -> l_worker s = Holding e -> l_clock s <= now ->
  completable (l_disk s) e token_hash now url -> Forall (tolerated calm) fs ->
  complete_claim_with_token e token_hash now url (World (l_disk s) fs u) = (o, w) ->
  let s' := proceed o (w_disk w) now (after_work o) (id e :: l_ids s) in
  sane calm s' /\ keeps calm s s'
  /\ (o <> Done tt /\ unchanged (l_disk s) (w_disk w) \/ committed now (w_disk w)).
Proof.
  intros Hs Hhold Hle Hcl Hfs Hrun s'.
  assert (Hn : dget (l_disk s) COMPLETION_FILE = None) by (apply (sane_closed calm s Hs); by rewrite Hhold).
  pose proof (runs_of _ _ _ _ _ _ _ _ (complete_runs calm _ e token_hash now url Hcl (sn_intact _ _ Hs) Hn
    (sane_later calm s now Hs Hle)) Hfs Hrun) as [Hdv Hst].
  assert (Hids : forall i, i ∈ l_ids s -> i ∈ id e :: l_ids s) by (intros i Hin; by right).
  assert (Hhere : id e ∈ id e :: l_ids s) by apply list_elem_of_here.
  assert (Hx : forall x, (if survived o then after_work o else Down) = Holding x -> x = e)
    by (intros x Hx%proceed_holding; by destruct o).
  apply and_assoc. destruct Hst as [[Hno Hun]|Hst].
  - destruct (unchanged_after calm _ _ (sn_intact _ _ Hs) Hun) as (Haf & Hact & Hh & Hf).
    split; [|by left]. apply (held_step calm s _ now _ _ _ e); try done.
    + constructor.
      * by apply (after_weaken _ (fun _ => False)).
      * intros p Hp. exists p. rewrite Hact. split; [done|lia].
      * by rewrite Hact.
      * intros Ht. by apply log_kept_same.
    + left. by rewrite Hf.
    + intros Hw%proceed_worker. by destruct o as [[]|err| |].
  - split.
    + apply (held_step calm s _ now _ _ _ e); try done.
      * eapply evolves_settling; [done| |done|done]. by apply (sane_later calm s).
      * destruct (st_file _ _ _ _ _ _ Hst) as [[? _]|(_ & c0 & r & b & js & Hrs)]; [by left|right].
        exists e, now, c0, r, b, js. done.
      * intros Hw%proceed_worker. destruct (st_file _ _ _ _ _ _ Hst) as [[? _]|[Hno _]]; [done|].
        by destruct o as [[]|err| |].
    + right. destruct (st_file _ _ _ _ _ _ Hst) as [[_ Ha]|(_ & c0 & r & b & js & Hrs)].
      * left. by exists now.
      * right. exists e, now, c0, r, b, js. done.
Qed.

Lemma step_sane calm s s' :
  step calm s s' -> sane calm s -> sane calm s' /\ keeps calm s s'.
Proof.
  intros Hstep Hs. pose proof (sn_intact _ _ Hs) as Hi. pose proof (sn_pausing _ _ Hs) as Hp.
  destruct Hstep as [c now fs u o w Hup Hle Hnow Hc Hfs Hrun
    |now fs u o w Hup Hdown Hle Hfs Hrun
    |cooldown now fs u o w Hidle Hle Hfs Hrun
    |e token_hash url now fs u o w Hhold Hle Hnow Hh Hu Hl Hsz Hfs Hrun
    |e token_hash error now fs u o w Hhold Hle Hrec Hfs Hrun
    |e token now fs u o w Hhold Htok Hle Hnow Hfs Hrun
    |now fs u o w Hup Hle Hfs Hrun].
  - destruct (runs_of _ _ _ _ _ _ _ _ (serve_runs calm _ c now Hi Hc Hnow) Hfs Hrun) as [Haf Hr].
    eapply root_step; try done; [by intros i Hin; apply elem_of_app; right| | |].
    + intros x Hx. apply elem_of_app. by left.
    + apply proceed_worker.
    + intros e He%proceed_holding. by apply (sn_holding _ _ Hs).
  - assert (Hp' : pausing (l_ids s) now (l_disk s)) by by eapply pausing_weaken, Hp.
    destruct (runs_of _ _ _ _ _ _ _ _ (recover_runs calm (l_ids s) now _ Hi Hp') Hfs Hrun)
      as [(Hdv & Hev & Hp2 & Hnone & Hcm) _].
    split; [|by split_and!]. eapply sane_next; try done.
    + intros Hw%proceed_worker. apply Hnone. by destruct o as [[]|err| |].
    + intros e He%proceed_holding. by destruct o.
  - destruct (runs_of _ _ _ _ _ _ _ _ (claim_runs calm _ cooldown now Hi) Hfs Hrun)
      as (Hdv & Haf & Hr & Hclaim).
    eapply (root_step _ _ _ _ _ _ _ (fun _ => False)); try done; [by rewrite Hidle|].
    intros e He%proceed_holding%claim_phase. destruct (Hclaim e He) as (Hin & Hcl & _).
    split; [|done]. apply (sound_entry_ok (d_entries (w_disk w))); [|done]. apply (af_intact _ _ _ _ Haf).
  - pose proof (holding_completable calm s e token_hash now url Hs Hhold Hnow Hh Hu Hl Hsz) as Hcl.
    by destruct (complete_step calm s e token_hash url now fs u o w Hs Hhold Hle Hcl Hfs Hrun) as (? & ? & _).
  - destruct (runs_of _ _ _ _ _ _ _ _ (fail_runs calm (l_ids s) now _ e token_hash now error Hi Hrec) Hfs Hrun)
      as (Hdv & Hev & Hf).
    assert (Hn : dget (l_disk s) COMPLETION_FILE = None) by (apply (sane_closed calm s Hs); by rewrite Hhold).
    rewrite Hn in Hf. apply (held_step calm s _ now _ _ _ e); try done; [by left|].
    intros x Hx%proceed_holding. by injection Hx.
  - pose proof (runs_of _ _ _ _ _ _ _ _ (release_runs calm _ (id e) token now Hi Hnow) Hfs Hrun) as [Hpost _].
    assert (Hf : dget (w_disk w) COMPLETION_FILE = None).
    { destruct Hpost as (_ & _ & Hq & _). rewrite Hq by done.
      apply (sane_closed calm s Hs). by rewrite Hhold. }
    apply (held_step calm s _ now _ _ _ e); try done; [|by left|].
    + by apply (evolves_release calm now (l_ids s) _ _ _ Hpost Hnow (proj1 Hi)).
    + intros x Hx%proceed_holding. by destruct o.
  - assert (Hp' : pausing (l_ids s) now (l_disk s)) by by eapply pausing_weaken, Hp.
    destruct (runs_of _ _ _ _ _ _ _ _ (open_runs calm (l_ids s) now _ Hi Hp') Hfs Hrun)
      as [(Hdv & Hev & Hp2 & Hnone & Hcm) _].
    split; [|by split_and!]. by eapply sane_next.
Qed.

Lemma lives_sane calm s s' :
  lives calm s s' -> sane calm s -> sane calm s' /\ keeps calm s s'.
Proof.
  induction 1 as [|s1 s2 _ IH Hstep]; intros Hs.
  { split; [done|]. split_and!; [|done|done|done].
    apply (evolves_root _ (fun _ => False)); [done|by apply after_queue; [apply Hs|]|done]. }
  destruct (IH Hs) as [Hs1 (Hev1 & Hle1 & Hids1 & Hcm1)]. destruct (step_sane calm s1 s2 Hstep Hs1)
    as [Hs2 (Hev2 & Hle2 & Hids2 & Hcm2)]. split; [done|]. split_and!; [|lia|auto|auto].
  eapply evolves_trans; [|exact Hev2]. eapply evolves_weaken; [exact Hids2|exact Hle2| |exact Hev1].
  by apply (sane_later calm s).
Qed.

(** * Reopening after crashes *)

Lemma single_claims d : single d -> (length (claims d) <= 1)%nat.
Proof.
  intros Hs. unfold claims. assert (Hnd : NoDup (id <$> queue d)) by apply entries_of_NoDup.
  apply (NoDup_fmap_1 id) in Hnd. apply (NoDup_filter (fun e => claimed e = true)) in Hnd.
  destruct (filter (fun e => claimed e = true) (queue d)) as [|x [|y l]] eqn:Hf; [simpl; lia..|].
  assert (Hin : forall z, z ∈ x :: y :: l -> z ∈ queue d /\ claimed z = true)
    by (intros z; rewrite <- Hf; rewrite list_elem_of_filter; tauto).
  destruct (Hin x) as [Hx Hcx]; [by left|]. destruct (Hin y) as [Hy Hcy]; [by right; left|].
  rewrite (Hs x y Hx Hy Hcx Hcy) in Hnd. apply NoDup_cons in Hnd as [[] _]. by left.
Qed.

(** Without further faults a reconciliation finishes, and so does the opening. *)
Lemma reconcile_finishes d ids clock u :
  disk_sound d -> pausing ids clock d ->
  exists d' u', reconcile_completion (World d [] u) = (Done tt, World d' [] u').
Proof.
  intros Hs [Hn|(e & p & c0 & r & b & js & _ & _ & Hrs)].
  - exists d, u. by apply reconcile_nothing.
  - destruct (resume_completing e p c0 r b js d Hs Hrs) as (Hco & missing & Hre & _).
    destruct (reconcile_succeeds _ _ _ _ _ _ _ missing Hco d Hre u) as ([] & d' & u' & Hrun & _). eauto.
Qed.

Lemma open_finishes s u :
  sane true s ->
  exists d' u', open_store (World (l_disk s) [] u) = (Done tt, World d' [] u')
    /\ disk_wf d' /\ claims d' = [] /\ dget d' COMPLETION_FILE = None
    /\ evolves true (l_ids s) (l_clock s) (l_disk s) d'
    /\ (forall x, committed x (l_disk s) -> exists p, activity d' = Some p /\ x <= p).
Proof.
  intros Hs. pose proof (sn_intact _ _ Hs) as Hi. pose proof (sn_pausing _ _ Hs) as Hp.
  destruct (reconcile_finishes _ _ _ u (proj1 Hi) Hp) as (d1 & u1 & Hrec).
  pose proof (runs_of _ _ _ _ [] u _ _ (reconcile_pausing true _ _ _ Hi Hp) (Forall_nil_2 _) Hrec)
    as (_ & Hev1 & _).
  assert (Hwf1 : disk_wf d1) by apply intact_wf, (af_intact _ _ _ _ (ev_after _ _ _ _ _ Hev1)).
  destruct (open_store_from _ u d1 u1 Hrec Hwf1) as (d' & u' & Hrun & Hwf & Hcl & _).
  destruct (runs_of _ _ _ _ [] u _ _ (open_runs true _ _ _ Hi Hp) (Forall_nil_2 _) Hrun)
    as [(_ & Hev & _ & Hnone & Hcm) _].
  exists d', u'. specialize (Hnone eq_refl). split_and!; try done.
  intros x Hx. by apply committed_closed, Hcm.
Qed.
End life.

(** * Results *)

(** C6: postings are spaced, whatever fails.  Take any life of the queue directory:
    client requests, worker steps, restarts of the worker and of the process, with
    I/O errors and crashes in any system call.  When an attempt at time [p] is on
    the disk (in a marker, or in a completion record that a crash left behind), a
    later claim is made no earlier than the cooldown and the claimed entry's
    flutter after [p]. *)
Theorem postings_are_spaced `{Platform} `{!PlatformOk} `{SerdeJson} `{!SerdeJsonOk}
    s s' p cooldown now fs u e w :
  sane false s -> committed p (l_disk s) -> lives false s s' -> l_worker s' = Idle -> genuine fs ->
  claim_next_due cooldown now (World (l_disk s') fs u) = (Done (Some (e, 0)), w) ->
  sat_add (sat_add p cooldown) (flutter_seconds e) <= now.
Proof.
  intros Hs Hc Hl Hidle Hfs Hrun. destruct (lives_sane false s s' Hl Hs) as [Hs' (_ & _ & _ & Hcm)].
  destruct (committed_closed p (l_disk s')) as (q & Hq & Hle).
  { apply (sane_closed false s' Hs'). by rewrite Hidle. }
  { by apply Hcm. }
  destruct (runs_of _ _ _ _ _ _ _ _ (claim_runs false _ cooldown now (sn_intact _ _ Hs')) Hfs Hrun)
    as (_ & _ & _ & Hclaim).
  destruct (Hclaim e eq_refl) as (_ & _ & Hsp). specialize (Hsp q Hq).
  apply Z.le_trans with (sat_add (sat_add q cooldown) (flutter_seconds e)); [|done].
  by apply sat_add_mono, sat_add_mono.
Qed.

(** C8: an attempt is on the disk once it is over.  A completion under any
    failure or crash either leaves everything the store reads as it was, or has
    committed the time of the post; a release that succeeds while the entry still
    carries the claim has committed the time of the failed attempt. *)
Theorem attempts_are_committed `{Platform} `{!PlatformOk} `{SerdeJson} `{!SerdeJsonOk}
    s e token_hash token url now fs u o w :
  sane false s -> l_worker s = Holding e -> l_clock s <= now -> genuine fs ->
  (completable (l_disk s) e token_hash now url ->
   complete_claim_with_token e token_hash now url (World (l_disk s) fs u) = (o, w) ->
   o <> Done tt /\ unchanged (l_disk s) (w_disk w) \/ committed now (w_disk w))
  /\ (is_u64 now -> release_claim (id e) token now (World (l_disk s) fs u) = (Done tt, w) ->
      (exists x, x ∈ entries_of (d_entries (l_disk s)) /\ id x = id e /\ claim_token x = Some token) ->
      committed now (w_disk w)).
Proof.
  intros Hs Hhold Hle Hfs. split.
  - intros Hcl Hrun.
    by destruct (complete_step false s e token_hash url now fs u o w Hs Hhold Hle Hcl Hfs Hrun) as (_ & _ & ?).
  - intros Hnow Hrun (x & Hx & Hid & Htok). pose proof (sn_intact _ _ Hs) as Hi.
    destruct (runs_of _ _ _ _ _ _ _ _ (release_runs false _ (id e) token now Hi Hnow) Hfs Hrun)
      as [(_ & _ & Hq & _) Hret].
    specialize (Hret x eq_refl Hx Hid Htok). left. unfold activity.
    rewrite (marker_value _ _ _ (latest_u64 _ now (proj1 Hi) Hnow) Hret).
    destruct (marker (w_disk w) LAST_POST_FILE); cbn [max_option]; eexists; (split; [done|]); lia.
Qed.

(** C7: nothing is lost, whatever fails.  In any life of the queue directory with
    I/O errors and crashes, a queued comment stays queued, the same request in the
    same lifetime, until its identifier is deleted or its post is to be completed;
    the history only grows; and a [put] that is answered has its entry in the
    queue. *)
Theorem nothing_is_lost `{Platform} `{!PlatformOk} `{SerdeJson} `{!SerdeJsonOk} s s' :
  sane false s -> lives false s s' ->
  (forall e, e ∈ entries_of (d_entries (l_disk s)) ->
     id e ∈ l_ids s' \/ exists e', e' ∈ entries_of (d_entries (l_disk s')) /\ evolved e e')
  /\ log_records (content (l_disk s) HISTORY_FILE)
     `prefix_of` log_records (content (l_disk s') HISTORY_FILE)
  /\ forall fuel request options now fs u e eta w,
       is_u64 now -> acceptable (Put fuel request options) -> genuine fs ->
       put_with_eta fuel request options now (World (l_disk s') fs u) = (Done (e, eta), w) ->
       e ∈ entries_of (d_entries (w_disk w)).
Proof.
  intros Hs Hl. destruct (lives_sane false s s' Hl Hs) as [Hs' ([Haf _ _ Hlog] & _)].
  split_and!; [apply Haf|apply Hlog, (sn_tail _ _ Hs)|].
  intros fuel request options now fs u e eta w Hnow (Hr & Ho & Hf) Hfs Hrun.
  destruct (runs_of _ _ _ _ _ _ _ _ (put_runs false _ fuel request options now (sn_intact _ _ Hs')
    Hnow Hr Ho Hf) Hfs Hrun) as (_ & _ & Hput). by eapply Hput.
Qed.

(** C2: every crash can be recovered from.  In any life in which the process may die
    in any system call, the directory always keeps its invariant and at most one
    claim, and opening it always succeeds: no claim is left, an interrupted
    completion is finished with its time on the disk, the queued entries are kept
    and the history has only grown. *)
Theorem crashes_are_recoverable `{Platform} `{!PlatformOk} `{SerdeJson} `{!SerdeJsonOk} s s' u :
  sane true s -> lives true s s' ->
  disk_wf (l_disk s') /\ (length (claims (l_disk s')) <= 1)%nat
  /\ exists d' u', open_store (World (l_disk s') [] u) = (Done tt, World d' [] u')
     /\ disk_wf d' /\ claims d' = [] /\ dget d' COMPLETION_FILE = None
     /\ (forall p, committed p (l_disk s) -> exists q, activity d' = Some q /\ p <= q)
     /\ (forall e, e ∈ entries_of (d_entries (l_disk s)) ->
          id e ∈ l_ids s' \/ exists e', e' ∈ entries_of (d_entries d') /\ evolved e e')
     /\ log_records (content (l_disk s) HISTORY_FILE) `prefix_of` log_records (content d' HISTORY_FILE).
Proof.
  intros Hs Hl. destruct (lives_sane true s s' Hl Hs) as [Hs' (Hev & _ & _ & Hcm)].
  split_and!; [apply intact_wf, Hs'|by apply single_claims, (sn_single _ _ Hs')|].
  destruct (open_finishes s' u Hs') as (d' & u' & Hrun & Hwf & Hcl & Hn & Hev' & Hcm').
  exists d', u'. pose proof (evolves_trans _ _ _ _ _ _ Hev Hev') as [Haf _ _ Hlog].
  split_and!; [done|done|done|done|auto|apply Haf|apply Hlog, (sn_tail _ _ Hs)].
Qed.
