(* ===== verification/Trace.v ===== *)
(** Executions of the store: every operation of the daemon on the queue, in any
    order and with any result, as a step relation.  The invariant is that the
    directory is well formed and at most one entry is claimed; the cooldown
    anchor never moves back, so claims are spaced by the cooldown. *)

From S2P Require Import Prelude Text Protocol Disk Entry Order Bounds Scan Capacity Writes Schedule.
From S2P Require Import History Store DiskState Claims Edits Sound Enqueue Lines Reverse Log Pages.
From S2P Require Import Append Recovery Completion.

Import StoredEntry.

Section trace.
Context `{Platform} `{!PlatformOk} `{SerdeJson} `{!SerdeJsonOk}.
Implicit Types d : disk.

Abbreviation queue d := (entries_of (d_entries d)).

(** ** Claims *)

Lemma claims_replace d d' e :
  queue d' = replace_entry (with_claim None e) (queue d) -> e ∈ queue d ->
  (length (claims d') <= length (claims d))%nat.
Proof.
  intros Hq He. unfold claims. rewrite Hq. unfold replace_entry.
  clear. induction (queue d) as [|x l IH]; [done|]. rewrite fmap_cons, !filter_cons.
  destruct (decide (id x = id (with_claim None e))).
  - rewrite (decide_False (P := claimed (with_claim None e) = true)) by done.
    case_decide; cbn [length]; lia.
  - repeat case_decide; cbn [length]; try done; lia.
Qed.

Lemma claims_sort d d' l :
  queue d' = sort_entries l -> claims d' ≡ₚ filter (fun e => claimed e = true) l.
Proof. intros Hq. unfold claims. rewrite Hq. by rewrite sort_entries_perm. Qed.

Lemma claims_filter d d' (P : t -> Prop) `{!forall x, Decision (P x)} :
  queue d' = filter P (queue d) -> (length (claims d') <= length (claims d))%nat.
Proof.
  intros Hq. unfold claims. rewrite Hq. clear Hq.
  induction (queue d) as [|x l IH]; [done|]. rewrite !filter_cons.
  repeat (rewrite ?filter_cons; case_decide); cbn [length]; try done; lia.
Qed.

(** Reordering keeps the claims. *)
Lemma claims_reorder d d' e o :
  queue d' = sort_entries (with_order o e :: others (id e) (queue d)) -> e ∈ queue d ->
  length (claims d') = length (claims d).
Proof.
  intros Hq He. rewrite (claims_sort d d' _ Hq). unfold claims.
  destruct (NoDup_id_split e (queue d) (entries_of_NoDup _) He) as (l1 & l2 & Heq & H1' & H2').
  rewrite Heq, others_split by done. rewrite filter_cons, !filter_app, filter_cons.
  change (claimed (with_order o e)) with (claimed e). case_decide; cbn [length app];
    rewrite !length_app; cbn [length]; lia.
Qed.

(** ** Steps *)

Inductive op :=
| Put (fuel : nat) (request : CommentRequest.t) (options : PutOptions.t)
| Bump (wanted : string)
| Bust (wanted : string)
| Del (wanted : string)
| Claim (cooldown : Z)
| Release (wanted token : string)
| Complete (e : t) (token_hash : string) (url : option string)
| Fail (e : t) (token_hash error : string)
| Recover.

(** The store operation, at time [now]. *)
Definition perform (o : op) (now : Z) : M unit :=
  match o with
  | Put fuel request options => put_with_eta fuel request options now ;; ret tt
  | Bump wanted => bump wanted
  | Bust wanted => bust wanted
  | Del wanted => del wanted
  | Claim cooldown => claim_next_due cooldown now ;; ret tt
  | Release wanted token => release_claim wanted token now
  | Complete e token_hash url => complete_claim_with_token e token_hash now url
  | Fail e token_hash error =>
      let* record := record_failure e token_hash now error in append HISTORY_FILE record
  | Recover => recover_worker_state
  end.

(** Arguments a caller can pass; the worker completes a claim it holds, and it
    recovers the store when no completion was interrupted. *)
Definition allowed (d : disk) (now : Z) (o : op) : Prop :=
  is_u64 now /\
  match o with
  | Put fuel request options =>
      request_typed request /\ options_typed options /\ Z.of_nat fuel < U64_MAX
  | Complete e token_hash url => completable d e token_hash now url
  | Recover => dget d COMPLETION_FILE = None
  | _ => True
  end.

Record safe (d : disk) (clock : Z) : Prop := {
  safe_wf : disk_wf d;
  safe_claims : (length (claims d) <= 1)%nat;
  safe_clock : forall p, activity d = Some p -> p <= clock;
}.

(** A step that leaves the markers alone. *)
Lemma safe_same_root d d' clock :
  disk_wf d' -> d_root d' = d_root d -> (length (claims d') <= length (claims d))%nat ->
  safe d clock -> safe d' clock /\ anchored d d'.
Proof.
  intros Hwf Hr Hc [_ Hone Hclk]. split; [|by apply anchored_same_root]. constructor.
  - done.
  - lia.
  - intros p. rewrite (activity_same_root d d' Hr). apply Hclk.
Qed.

Lemma max_option_ge (a b : option Z) p :
  max_option a b = Some p -> (forall x, a = Some x -> x <= p) /\ (forall x, b = Some x -> x <= p).
Proof.
  destruct a, b; simpl; intros [= <-]; split; intros x; try done; intros [= <-]; lia.
Qed.

Lemma put_safe d u fuel request options now clock out w' :
  safe d clock -> is_u64 now -> request_typed request -> options_typed options ->
  Z.of_nat fuel < U64_MAX ->
  put_with_eta fuel request options now (World d [] u) = (out, w') ->
  w_faults w' = [] /\ safe (w_disk w') clock /\ anchored d (w_disk w').
Proof.
  intros Hs Hnow Hr Ho Hfuel Hrun. pose proof (safe_wf _ _ Hs) as Hwf.
  destruct (resolve_cases d u request now fuel (wf_regular _ (wf_entries d Hwf)) 0) as [(n & r & Hn & Hfu & _)|(o & Ho' & Hrun')];
    [lia|lia| |].
  2:{ unfold put_with_eta in Hrun. unfold bind at 1 in Hrun.
      change (@None Z) with (salt_of 0) in Hrun. rewrite Hrun' in Hrun.
      destruct o as [x|err| |]; [by destruct (Ho' x)|..]; injection Hrun as <- <-;
        (split; [done|]; split; [done|]; apply anchored_refl). }
  destruct r as [e|].
  { rewrite (put_queued d u fuel request options now n e) in Hrun by (done || lia).
    injection Hrun as <- <-. split; [done|]. split; [done|]. apply anchored_refl. }
  destruct (put_new d u fuel request options now n) as (c & Hc & Heq); try done.
  rewrite Hrun in Heq. destruct (_ <=? _).
  { injection Heq as -> ->. split; [done|]. split; [done|]. apply anchored_refl. }
  destruct (admit_checks _ _ _) as [err|[]] eqn:Hadm.
  { injection Heq as -> ->. split; [done|]. split; [done|]. apply anchored_refl. }
  injection Heq as -> ->. cbn [w_faults w_disk]. split; [done|].
  set (e := put_entry d u request options now n) in *.
  assert (Hok : entry_ok e) by (apply new_entry_ok; try done; apply entry_id_with_salt_valid).
  destruct (first_usable_fresh d request now n Hfu) as [Hm _].
  destruct (admitted_directory d e c) as (Hwf' & Hq & Hroot & Hdel); try done.
  { apply new_v4_nonempty. }
  change (id e) with (candidate request now n) in Hq.
  apply safe_same_root; [done|done| |done]. rewrite (claims_sort d _ _ Hq).
  by rewrite filter_cons, decide_False.
Qed.

Lemma reorder_safe d u wanted f clock out w' :
  safe d clock -> (forall e, e ∈ queue d -> is_i64 (f e (queue d))) ->
  reorder wanted f (World d [] u) = (out, w') ->
  w_faults w' = [] /\ safe (w_disk w') clock /\ anchored d (w_disk w').
Proof.
  intros Hs Hf Hrun. pose proof (safe_wf _ _ Hs) as Hwf.
  destruct (find_cases d u wanted (wf_regular _ (wf_entries d Hwf))) as [(e & _ & He & <-)|(err & Hfind & _)].
  - destruct (reorder_quiet d u e f Hwf He (Hf e He)) as (d' & Hrun' & Hwf' & Hq & Hr & Hd).
    rewrite Hrun in Hrun'. injection Hrun' as -> ->. split; [done|].
    apply safe_same_root; [done|done| |done].
    cbn [w_disk]. by rewrite (claims_reorder d d' e _ Hq He).
  - unfold reorder in Hrun. erewrite bind_done in Hrun by by apply entries_wf.
    rewrite (bind_failed _ _ _ _ _ Hfind) in Hrun. injection Hrun as <- <-.
    split; [done|]. split; [done|]. apply anchored_refl.
Qed.

Lemma del_safe d u wanted clock out w' :
  safe d clock -> del wanted (World d [] u) = (out, w') ->
  w_faults w' = [] /\ safe (w_disk w') clock /\ anchored d (w_disk w').
Proof.
  intros Hs Hrun. pose proof (safe_wf _ _ Hs) as Hwf.
  destruct (find_cases d u wanted (wf_regular _ (wf_entries d Hwf))) as [(e & _ & He & <-)|(err & Hfind & _)].
  - destruct (del_quiet d u e Hwf He) as (b & d' & _ & Hrun' & Hwf' & Hq & Hr & _).
    rewrite Hrun in Hrun'. injection Hrun' as -> ->. split; [done|].
    apply safe_same_root; [done|done| |done]. by eapply claims_filter.
  - unfold del in Hrun. rewrite (bind_failed _ _ _ _ _ Hfind) in Hrun. injection Hrun as <- <-.
    split; [done|]. split; [done|]. apply anchored_refl.
Qed.

Lemma claim_safe d u cooldown now clock out w' :
  safe d clock -> claim_next_due cooldown now (World d [] u) = (out, w') ->
  w_faults w' = [] /\ safe (w_disk w') clock /\ anchored d (w_disk w').
Proof.
  intros Hs Hrun. destruct (claim_next_due_quiet d u cooldown now (safe_wf _ _ Hs))
    as (r & w & Hrun' & Hout). rewrite Hrun in Hrun'. injection Hrun' as -> ->.
  destruct r as [[e wait]|].
  2:{ destruct Hout as [-> _]. split; [done|]. split; [done|]. apply anchored_refl. }
  destruct Hout as (Hnone & e0 & rest & Hq & [(_ & _ & _ & ->)|
    (_ & _ & -> & Hf & _ & Hwf' & Hq' & Hr & _)]).
  { split; [done|]. split; [done|]. apply anchored_refl. }
  split; [done|]. split; [|by apply anchored_same_root]. constructor; [done| |].
  - unfold claims. rewrite Hq', filter_cons. rewrite decide_True by done.
    unfold claims in Hnone. rewrite Hq, filter_cons in Hnone.
    destruct (decide (claimed e0 = true)); [done|]. by rewrite Hnone.
  - intros p. rewrite (activity_same_root d _ Hr). apply Hs.
Qed.

Lemma safe_later d clock now : clock <= now -> safe d clock -> safe d now.
Proof. intros Hle [Hwf Hc Hk]. constructor; [done|done|]. intros p Hp. specialize (Hk p Hp). lia. Qed.

Lemma activity_bound d p q :
  activity d = Some p -> (forall x, marker d LAST_POST_FILE = Some x -> x <= q) ->
  (forall x, marker d LAST_ATTEMPT_FILE = Some x -> x <= q) -> p <= q.
Proof.
  unfold activity. destruct (marker d LAST_POST_FILE), (marker d LAST_ATTEMPT_FILE); simpl;
    intros [= <-] H1' H2'; try specialize (H1' _ eq_refl); try specialize (H2' _ eq_refl); lia.
Qed.

Lemma safe_markers d clock x :
  safe d clock ->
  (marker d LAST_POST_FILE = Some x -> x <= clock)
  /\ (marker d LAST_ATTEMPT_FILE = Some x -> x <= clock).
Proof.
  intros [_ _ Hk]. unfold activity in Hk.
  destruct (marker d LAST_POST_FILE), (marker d LAST_ATTEMPT_FILE); simpl in Hk;
    split; intros [= <-]; specialize (Hk _ eq_refl); lia.
Qed.

Lemma release_safe d u wanted token now clock out w' :
  safe d clock -> is_u64 now ->
  release_claim wanted token now (World d [] u) = (out, w') ->
  w_faults w' = [] /\ safe (w_disk w') (Z.max clock now) /\ anchored d (w_disk w').
Proof.
  intros Hs Hnow Hrun. pose proof (safe_wf _ _ Hs) as Hwf.
  assert (Hsame : w' = World d [] u ->
    w_faults w' = [] /\ safe (w_disk w') (Z.max clock now) /\ anchored d (w_disk w')).
  { intros ->. split; [done|]. split; [apply (safe_later _ clock); [lia|done]|]. apply anchored_refl. }
  destruct (find_cases d u wanted (wf_regular _ (wf_entries d Hwf))) as [(e & _ & He & <-)|(err & Hfind & _)].
  2:{ apply Hsame. unfold release_claim in Hrun.
      rewrite (bind_done _ _ _ _ _ (attempt_failed _ _ _ _ Hfind)) in Hrun. cbn beta iota in Hrun.
      by destruct err; injection Hrun as <- <-. }
  destruct (decide (claim_token e = Some token)) as [Htok|Htok].
  2:{ apply Hsame. rewrite release_claim_stale in Hrun by done. by injection Hrun as <- <-. }
  destruct (release_claim_quiet d u e token now Hwf He Htok Hnow)
    as (d' & Hrun' & Hwf' & Hq & Hpost & Hatt & _).
  rewrite Hrun in Hrun'. injection Hrun' as -> ->. cbn [w_faults w_disk].
  split; [done|]. split; [constructor|].
  - done.
  - pose proof (claims_replace d d' e Hq He). pose proof (safe_claims _ _ Hs). lia.
  - intros p Hp. apply (activity_bound d' p (Z.max clock now) Hp).
    + intros x. rewrite Hpost. intros Hx. apply (safe_markers d clock x Hs) in Hx. lia.
    + intros x. rewrite Hatt. intros [= <-].
      destruct (marker d LAST_ATTEMPT_FILE) as [y|] eqn:Hy; simpl; [|machine].
      apply (safe_markers d clock y Hs) in Hy. lia.
  - intros p Hp. unfold activity in *. rewrite Hpost, Hatt.
    destruct (marker d LAST_POST_FILE), (marker d LAST_ATTEMPT_FILE); simpl in *;
      injection Hp as <- || done; eexists; (split; [done|]); lia.
Qed.

(** The store after a completed post. *)
Lemma completed_safe d e token_hash now url clock u d' :
  safe d clock -> completable d e token_hash now url ->
  completed d e (held_as d (id e)) (posted_record e token_hash now url u) now d' ->
  safe d' (Z.max clock now) /\ (clock <= now -> anchored d d') /\ activity d' = Some (Z.max now (default now (marker d LAST_ATTEMPT_FILE)))
  /\ queue d' = unclaimed_by e (queue d).
Proof.
  intros Hs Hcl [_ Hent Hmark _ Hpost Hatt Hroot].
  pose proof (safe_wf _ _ Hs) as Hwf. pose proof (cl_now _ _ _ _ _ Hcl) as Hnow.
  destruct (removed_queue d e token_hash now url Hcl d' Hent) as (Hs1 & Hb1 & Hq1).
  pose proof (store_sound_wf _ Hs1 (Hb1 (wf_budget _ (wf_entries d Hwf)))) as Hwf1.
  assert (Hmp : marker d' LAST_POST_FILE = Some now) by by apply marker_value.
  assert (Hma : marker d' LAST_ATTEMPT_FILE = marker d LAST_ATTEMPT_FILE) by by apply marker_same.
  assert (Hact : activity d' = Some (Z.max now (default now (marker d LAST_ATTEMPT_FILE)))).
  { unfold activity. rewrite Hmp, Hma. destruct (marker d LAST_ATTEMPT_FILE); simpl; [done|].
    f_equal. lia. }
  assert (Hb : now <= Z.max now (default now (marker d LAST_ATTEMPT_FILE)) <= Z.max clock now).
  { destruct (marker d LAST_ATTEMPT_FILE) as [y|] eqn:Hy; simpl; [|lia].
    apply (safe_markers d clock y Hs) in Hy. lia. }
  split_and!; try done.
  - constructor.
    + constructor; [done| | |done|].
      * right. exists now. done.
      * unfold marker_wf. rewrite Hatt. apply Hwf.
      * intros k. rewrite Hmark. destruct (marker_of_lifetime _ _ _); [|apply Hwf].
        rewrite lookup_delete. case_decide; [done|]. apply Hwf.
    + pose proof (claims_filter d d' _ Hq1). pose proof (safe_claims _ _ Hs). lia.
    + intros p. rewrite Hact. intros [= <-]. lia.
  - intros Hle p Hp. eexists. split; [exact Hact|]. apply Hs in Hp. lia.
Qed.

Lemma complete_safe d u e token_hash now url clock out w' :
  safe d clock -> completable d e token_hash now url ->
  complete_claim_with_token e token_hash now url (World d [] u) = (out, w') ->
  w_faults w' = [] /\ safe (w_disk w') (Z.max clock now) /\ (clock <= now -> anchored d (w_disk w')).
Proof.
  intros Hs Hcl Hrun.
  destruct (complete_claim_succeeds d e token_hash now url Hcl u) as (a & d' & v & Hrun' & w & Hcd).
  rewrite Hrun in Hrun'. injection Hrun' as -> ->. split; [done|].
  by edestruct completed_safe as (? & ? & _).
Qed.

(** A failure record changes the log and nothing else. *)
Lemma fail_quiet d u e token_hash error now out w' :
  disk_wf d -> perform (Fail e token_hash error) now (World d [] u) = (out, w') ->
  w_faults w' = [] /\ disk_wf (w_disk w') /\ d_entries (w_disk w') = d_entries d
  /\ activity (w_disk w') = activity d.
Proof.
  intros Hwf Hrun. cbn [perform] in Hrun.
  unfold record_failure in Hrun. unfold bind in Hrun at 1 2. cbn [fresh_uuid ret] in Hrun.
  set (r := {| HistoryRecord.attempt_id := _ |}) in Hrun.
  destruct (record_to_vec r) as [b|] eqn:Hb.
  2:{ unfold append, bind in Hrun. rewrite Hb in Hrun. by injection Hrun as <- <-. }
  destruct (append_quiet d (S u) HISTORY_FILE r b Hb) as (d' & v & Hrun' & Hlo & _);
    [apply (wf_root d Hwf)|].
  cbn in Hrun. rewrite Hrun' in Hrun. injection Hrun as <- <-. cbn [w_disk w_faults].
  destruct (log_only_wf d d' Hlo Hwf) as (Hwf' & He & _ & Ha & _). done.
Qed.

Lemma fail_safe d u e token_hash error now clock out w' :
  safe d clock -> perform (Fail e token_hash error) now (World d [] u) = (out, w') ->
  w_faults w' = [] /\ safe (w_disk w') clock /\ anchored d (w_disk w').
Proof.
  intros Hs Hrun. destruct (fail_quiet _ _ _ _ _ _ _ _ (safe_wf _ _ Hs) Hrun) as (Hf & Hwf' & He & Ha).
  split; [done|]. split.
  - destruct Hs as [_ Hc Hk]. constructor; [done| |by rewrite Ha]. unfold claims in *. by rewrite He.
  - intros p Hp. exists p. rewrite Ha. split; [done|lia].
Qed.

Lemma recover_safe d u clock out w' :
  safe d clock -> dget d COMPLETION_FILE = None ->
  recover_worker_state (World d [] u) = (out, w') ->
  w_faults w' = [] /\ safe (w_disk w') clock /\ anchored d (w_disk w').
Proof.
  intros Hs Hc Hrun. destruct (recover_quiet d u (safe_wf _ _ Hs) Hc)
    as (d' & u' & Hrun' & Hwf' & Hf & Hr & _).
  rewrite Hrun in Hrun'. injection Hrun' as -> ->. split; [done|].
  apply safe_same_root; [done|done| |done]. cbn [w_disk].
  rewrite (reclaimed_unclaimed d d' Hf). simpl. lia.
Qed.

(** Every operation, with any result, keeps the store safe.  A caller reads the clock
    before it takes the lock, so its time may be behind that of the store. *)
Lemma perform_safe_at d u o now clock out w' :
  safe d clock -> allowed d now o -> perform o now (World d [] u) = (out, w') ->
  w_faults w' = [] /\ safe (w_disk w') (Z.max clock now) /\ (clock <= now -> anchored d (w_disk w')).
Proof.
  intros Hs [Hnow Hal] Hrun. pose proof (safe_wf _ _ Hs) as Hwf.
  assert (Hkeep : w_faults w' = [] /\ safe (w_disk w') clock /\ anchored d (w_disk w') ->
    w_faults w' = [] /\ safe (w_disk w') (Z.max clock now) /\ (clock <= now -> anchored d (w_disk w'))).
  { intros (Hf & Hs' & Ha). split_and!; [done|apply (safe_later _ clock); [lia|done]|done]. }
  destruct o as [fuel request options|wanted|wanted|wanted|cooldown|wanted token|e th url
                |e th err|].
  8: by eapply Hkeep, fail_safe.
  all: cbn [perform] in Hrun.
  - destruct Hal as (Hr & Ho & Hf). unfold bind in Hrun.
    destruct (put_with_eta fuel request options now (World d [] u)) as [out0 w0] eqn:E.
    assert (w' = w0) as -> by (destruct out0; by injection Hrun as <- <-). by eapply Hkeep, put_safe.
  - eapply Hkeep, reorder_safe; [done| |exact Hrun]. intros e He. by apply bump_order_i64.
  - eapply Hkeep, reorder_safe; [done| |exact Hrun]. intros e He. by apply bust_order_i64.
  - by eapply Hkeep, del_safe.
  - unfold bind in Hrun. destruct (claim_next_due cooldown now (World d [] u)) as [out0 w0] eqn:E.
    assert (w' = w0) as -> by (destruct out0; by injection Hrun as <- <-). by eapply Hkeep, claim_safe.
  - destruct (release_safe d u wanted token now clock out w' Hs Hnow Hrun) as (? & ? & ?). by split_and!.
  - by eapply complete_safe.
  - by eapply Hkeep, recover_safe.
Qed.

Lemma perform_safe d u o now clock out w' :
  safe d clock -> clock <= now -> allowed d now o ->
  perform o now (World d [] u) = (out, w') ->
  w_faults w' = [] /\ safe (w_disk w') now /\ anchored d (w_disk w').
Proof.
  intros Hs Hle Hal Hrun. destruct (perform_safe_at d u o now clock out w' Hs Hal Hrun) as (Hf & Hs' & Ha).
  rewrite Z.max_r in Hs' by done. auto.
Qed.

(** ** Failures

    Without I/O faults an operation that does not finish has changed nothing. *)

Lemma put_unfinished d u fuel request options now out w' :
  disk_wf d -> is_u64 now -> request_typed request -> options_typed options ->
  Z.of_nat fuel < U64_MAX -> (forall a, out <> Done a) ->
  put_with_eta fuel request options now (World d [] u) = (out, w') -> w_disk w' = d.
Proof.
  intros Hwf Hnow Hr Ho Hfuel Hout Hrun.
  destruct (resolve_cases d u request now fuel (wf_regular _ (wf_entries d Hwf)) 0) as [(n & r & Hn & Hfu & _)|(o & Ho' & Hrun')];
    [lia|lia| |].
  2:{ unfold put_with_eta in Hrun. unfold bind at 1 in Hrun.
      change (@None Z) with (salt_of 0) in Hrun. rewrite Hrun' in Hrun.
      destruct o as [x|e| |]; [by destruct (Ho' x)|..]; by injection Hrun as <- <-. }
  destruct r as [e|].
  { rewrite (put_queued d u fuel request options now n e) in Hrun by (done || lia).
    injection Hrun as <- _. by destruct (Hout _ eq_refl). }
  destruct (put_new d u fuel request options now n) as (c & Hc & Heq); try done.
  rewrite Hrun in Heq. destruct (_ <=? _); [by injection Heq as -> ->|].
  destruct (admit_checks _ _ _) as [e|[]]; [by injection Heq as -> ->|].
  injection Heq as -> _. by destruct (Hout _ eq_refl).
Qed.

Lemma reorder_unfinished d u wanted f out w' :
  disk_wf d -> (forall e, e ∈ queue d -> is_i64 (f e (queue d))) -> out <> Done tt ->
  reorder wanted f (World d [] u) = (out, w') -> w_disk w' = d.
Proof.
  intros Hwf Hf Hout Hrun.
  destruct (find_cases d u wanted (wf_regular _ (wf_entries d Hwf))) as [(e & _ & He & <-)|(x & Hfind & _)].
  - destruct (reorder_quiet d u e f Hwf He (Hf e He)) as (d' & Hrun' & _). congruence.
  - unfold reorder in Hrun. erewrite bind_done in Hrun by by apply entries_wf.
    rewrite (bind_failed _ _ _ _ _ Hfind) in Hrun. by injection Hrun as _ <-.
Qed.

Lemma release_unfinished d u wanted token now out w' :
  disk_wf d -> is_u64 now -> out <> Done tt ->
  release_claim wanted token now (World d [] u) = (out, w') -> w_disk w' = d.
Proof.
  intros Hwf Hnow Hout Hrun.
  destruct (find_cases d u wanted (wf_regular _ (wf_entries d Hwf))) as [(e & _ & He & <-)|(x & Hfind & _)].
  - destruct (decide (claim_token e = Some token)) as [Htok|Htok].
    + destruct (release_claim_quiet d u e token now Hwf He Htok Hnow) as (d' & Hrun' & _).
      congruence.
    + rewrite release_claim_stale in Hrun by done. by injection Hrun as <- _.
  - unfold release_claim in Hrun.
    rewrite (bind_done _ _ _ _ _ (attempt_failed _ _ _ _ Hfind)) in Hrun. cbn beta iota in Hrun.
    by destruct x; injection Hrun as _ <-.
Qed.

Lemma perform_unfinished d u o now out w' :
  disk_wf d -> allowed d now o -> out <> Done tt ->
  perform o now (World d [] u) = (out, w') -> w_disk w' = d.
Proof.
  intros Hwf [Hnow Hal] Hout Hrun.
  destruct o as [fuel request options|wanted|wanted|wanted|cooldown|wanted token|e th url
                |e th x|]; cbn [perform] in Hrun.
  - destruct Hal as (Hr & Ho & Hf). unfold bind in Hrun.
    destruct (put_with_eta _ _ _ _ _) as [[?|?| |] w0] eqn:E; injection Hrun as <- <-; [done|..];
      (refine (put_unfinished _ _ _ _ _ _ _ _ Hwf Hnow Hr Ho Hf _ E); done).
  - eapply reorder_unfinished; [done| |done|exact Hrun]. intros e He. by apply bump_order_i64.
  - eapply reorder_unfinished; [done| |done|exact Hrun]. intros e He. by apply bust_order_i64.
  - destruct (find_cases d u wanted (wf_regular _ (wf_entries d Hwf))) as [(e & _ & He & <-)|(x & Hfind & _)].
    + destruct (del_quiet d u e Hwf He) as (b & d' & _ & Hrun' & _). congruence.
    + unfold del in Hrun. rewrite (bind_failed _ _ _ _ _ Hfind) in Hrun. by injection Hrun as _ <-.
  - destruct (claim_next_due_quiet d u cooldown now Hwf) as (r & w & Hrun' & _).
    unfold bind in Hrun. rewrite Hrun' in Hrun. by injection Hrun as <- _.
  - by eapply release_unfinished.
  - destruct (complete_claim_succeeds d e th now url Hal u) as ([] & d' & v & Hrun' & _). congruence.
  - unfold record_failure in Hrun. unfold bind in Hrun at 1 2. cbn [fresh_uuid ret] in Hrun.
    set (r := {| HistoryRecord.attempt_id := _ |}) in Hrun.
    destruct (record_to_vec r) as [b|] eqn:Hb.
    + destruct (append_quiet d (S u) HISTORY_FILE r b Hb) as (d' & v & Hrun' & _);
        [apply (wf_root d Hwf)|]. cbn in Hrun. congruence.
    + unfold append, bind in Hrun. rewrite Hb in Hrun. by injection Hrun as _ <-.
  - destruct (recover_quiet d u Hwf Hal) as (d' & u' & Hrun' & _). congruence.
Qed.

(** ** Executions *)

Record moment := Moment { m_disk : disk; m_uuids : nat; m_clock : Z }.

Inductive step (s : moment) : op -> moment -> Prop :=
| step_perform o now out w' :
    m_clock s <= now -> allowed (m_disk s) now o ->
    perform o now (World (m_disk s) [] (m_uuids s)) = (out, w') ->
    step s o (Moment (w_disk w') (w_uuids w') now).

Inductive reachable (s : moment) : moment -> Prop :=
| reachable_refl : reachable s s
| reachable_step s1 o s2 : reachable s s1 -> step s1 o s2 -> reachable s s2.

Lemma step_safe s o s' :
  step s o s' -> safe (m_disk s) (m_clock s) ->
  safe (m_disk s') (m_clock s') /\ anchored (m_disk s) (m_disk s').
Proof.
  intros [o' now out w' Hle Hal Hrun] Hs.
  by destruct (perform_safe _ _ _ _ _ _ _ Hs Hle Hal Hrun) as (_ & ? & ?).
Qed.

Lemma reachable_safe s s' :
  reachable s s' -> safe (m_disk s) (m_clock s) ->
  safe (m_disk s') (m_clock s') /\ anchored (m_disk s) (m_disk s').
Proof.
  induction 1 as [|s1 o s2 _ IH Hstep]; intros Hs; [split; [done|apply anchored_refl]|].
  destruct (IH Hs) as [Hs1 Ha1]. destruct (step_safe _ _ _ Hstep Hs1) as [Hs2 Ha2].
  split; [done|]. intros p Hp. destruct (Ha1 p Hp) as (q & Hq & Hpq).
  destruct (Ha2 q Hq) as (q' & Hq' & Hqq). exists q'. split; [done|lia].
Qed.

(** A claim respects the anchor of every earlier moment. *)
Lemma claim_spacing s s' cooldown now u e w' p :
  safe (m_disk s) (m_clock s) -> reachable s s' -> activity (m_disk s) = Some p ->
  claim_next_due cooldown now (World (m_disk s') [] u) = (Done (Some (e, 0)), w') ->
  sat_add (sat_add p cooldown) (flutter_seconds e) <= now.
Proof.
  intros Hs Hr Hp Hrun. destruct (reachable_safe s s' Hr Hs) as [Hs' Ha].
  destruct (Ha p Hp) as (q & Hq & Hpq).
  destruct (claim_next_due_quiet (m_disk s') u cooldown now (safe_wf _ _ Hs'))
    as (r & w & Hrun' & Hout). rewrite Hrun in Hrun'. injection Hrun' as <- <-.
  destruct Hout as (_ & e0 & rest & _ & [(Hlt & _ & Hwait & _)|(Hat & _ & -> & _)]); [lia|].
  unfold post_at, due in Hat. rewrite Hq in Hat.
  apply Z.le_trans with (sat_add (sat_add q cooldown) (flutter_seconds e0)); [|lia].
  by apply sat_add_mono, sat_add_mono.
Qed.

(** A finished attempt anchors the cooldown. *)
Lemma attempt_anchored d u o now clock w' :
  safe d clock -> clock <= now -> allowed d now o ->
  match o with
  | Complete _ _ _ => True
  | Release wanted token => exists e, e ∈ entries_of (d_entries d) /\ id e = wanted
                                      /\ claim_token e = Some token
  | _ => False
  end ->
  perform o now (World d [] u) = (Done tt, w') ->
  exists p, activity (w_disk w') = Some p /\ now <= p.
Proof.
  intros Hs Hle [Hnow Hal] Ho Hrun. destruct o as [| | | | |wanted token|e th url| |]; try done.
  - destruct Ho as (e & He & <- & Htok).
    destruct (release_claim_quiet d u e token now (safe_wf _ _ Hs) He Htok Hnow)
      as (d' & Hrun' & _ & _ & _ & Hatt & _).
    cbn [perform] in Hrun. rewrite Hrun in Hrun'. injection Hrun' as ->. cbn [w_disk].
    unfold activity. rewrite Hatt. destruct (marker d' LAST_POST_FILE); simpl; eexists;
      (split; [done|]); lia.
  - destruct (complete_claim_succeeds d e th now url Hal u) as (a & d' & v & Hrun' & k & Hcd).
    cbn [perform] in Hrun. rewrite Hrun in Hrun'. injection Hrun' as _ ->.
    destruct (completed_safe d e th now url clock k d' Hs Hal Hcd) as (_ & _ & Hact & _).
    eexists. split; [exact Hact|]. lia.
Qed.
End trace.

(** * Results *)

(** Claims are spaced by the cooldown.  Take any execution of the store, with
    any operations, arguments and outcomes and a clock that does not run
    backwards.  An entry that is claimed at the end of it is claimed no earlier
    than the cooldown and the entry's own flutter after every post or failed
    attempt recorded at its beginning. *)
Theorem claims_are_spaced `{Platform} `{!PlatformOk} `{SerdeJson} `{!SerdeJsonOk} s s' cooldown now u e w' p :
  safe (m_disk s) (m_clock s) -> reachable s s' -> activity (m_disk s) = Some p ->
  claim_next_due cooldown now (World (m_disk s') [] u) = (Done (Some (e, 0)), w') ->
  sat_add (sat_add p cooldown) (flutter_seconds e) <= now.
Proof. apply claim_spacing. Qed.

(** Every execution of the store keeps its invariant: the entries directory
    within its count and byte limits with the reserved headroom, well-formed
    markers, no directory in the place of a file, and at most one claimed
    entry. *)
Theorem execution_invariant `{Platform} `{!PlatformOk} `{SerdeJson} `{!SerdeJsonOk} s s' :
  safe (m_disk s) (m_clock s) -> reachable s s' ->
  disk_wf (m_disk s') /\ (length (claims (m_disk s')) <= 1)%nat.
Proof.
  intros Hs Hr. destruct (reachable_safe s s' Hr Hs) as [[Hwf Hc _] _]. done.
Qed.

(** A post that completes at time [now], or a claim that is released at [now],
    anchors the cooldown: afterwards the recorded activity is at least [now]. *)
Theorem attempts_anchor_the_cooldown `{Platform} `{!PlatformOk} `{SerdeJson} `{!SerdeJsonOk} d u o now clock w' :
  safe d clock -> clock <= now -> allowed d now o ->
  match o with
  | Complete _ _ _ => True
  | Release wanted token => exists e, e ∈ entries_of (d_entries d) /\ id e = wanted
                                      /\ claim_token e = Some token
  | _ => False
  end ->
  perform o now (World d [] u) = (Done tt, w') ->
  exists p, activity (w_disk w') = Some p /\ now <= p.
Proof. apply attempt_anchored. Qed.
