(* ===== verification/Spec.v ===== *)
(** The abstract queue: what the store promises, without files, ordering keys and
    lifetimes.  Its state is the list of queued comments in posting order, the
    posting log and the times of the last post and the last failed attempt.

    Every execution of the store is an execution of the abstract queue with the same
    answers: [abs] reads the abstract state from a disk, and each operation of the
    store is a step of the abstract queue.  Ordering keys never run out within
    2^62 operations. *)

From S2P Require Import Prelude Text Protocol Disk Entry Order Bounds Scan Capacity Writes Schedule.
From S2P Require Import History Excerpt Store DiskState Claims Edits Sound Enqueue Lines Reverse Log Pages.
From S2P Require Import Append Recovery Completion Faults Resume Trace.

Import StoredEntry.

(** * The abstract queue *)

Record item := Item {
  i_id : string;
  i_request : CommentRequest.t;
  i_flutter : Z;
  i_not_before : Z;
  i_claim : option string;
}.

Definition with_token (token : option string) (i : item) : item :=
  Item (i_id i) (i_request i) (i_flutter i) (i_not_before i) token.

Record spec := Spec {
  sp_items : list item;
  sp_log : list HistoryRecord.t;
  sp_post : option Z;
  sp_attempt : option Z;
}.

Definition set_items (items : list item) (s : spec) : spec :=
  Spec items (sp_log s) (sp_post s) (sp_attempt s).

(** The last time anything was sent. *)
Definition sp_activity (s : spec) : option Z := max_option (sp_post s) (sp_attempt s).

(** The earliest time an item may be sent after [previous], and the waits of a queue. *)
Definition earliest (cooldown now : Z) (previous : option Z) (i : item) : Z :=
  Z.max (Z.max (match previous with
                | Some previous => sat_add (sat_add previous cooldown) (i_flutter i)
                | None => now
                end) (i_not_before i)) now.

Fixpoint waits (cooldown now : Z) (items : list item) (previous : option Z) : list Z :=
  match items with
  | [] => []
  | i :: rest =>
      let at_ := earliest cooldown now previous i in
      (at_ - now) :: waits cooldown now rest (Some at_)
  end.

Definition named (wanted : string) (items : list item) : list item :=
  filter (fun i => i_id i = wanted) items.
Definition not_named (wanted : string) (items : list item) : list item :=
  filter (fun i => i_id i <> wanted) items.

(** What a caller is told. *)
Inductive reply :=
| Accepted
| Queued (wanted : string) (eta : Z)
| Next (head : option (string * Z))
| Refused.

Inductive spec_step `{Platform} (now : Z) (s : spec) : op -> reply -> spec -> Prop :=
(** A new comment goes to the tail; one that is queued already is answered again. *)
| spec_put fuel request options i eta :
    i_id i ∉ i_id <$> sp_items s ->
    i_request i = request -> i_claim i = None -> i_flutter i = PutOptions.flutter_seconds options ->
    i_not_before i
      = (if PutOptions.immediate options then 0
         else sat_add (sat_add now (PutOptions.cooldown options)) (PutOptions.flutter_seconds options)) ->
    last (waits (PutOptions.cooldown options) now (sp_items s ++ [i]) (sp_activity s)) = Some eta ->
    spec_step now s (Put fuel request options) (Queued (i_id i) eta) (set_items (sp_items s ++ [i]) s)
| spec_put_again fuel request options k i eta :
    sp_items s !! k = Some i -> i_request i = request ->
    waits (PutOptions.cooldown options) now (sp_items s) (sp_activity s) !! k = Some eta ->
    spec_step now s (Put fuel request options) (Queued (i_id i) eta) s
| spec_put_refused fuel request options : spec_step now s (Put fuel request options) Refused s
(** Moving to the head and to the tail, and deleting, by name. *)
| spec_bump wanted :
    wanted ∈ i_id <$> sp_items s ->
    spec_step now s (Bump wanted) Accepted
      (set_items (named wanted (sp_items s) ++ not_named wanted (sp_items s)) s)
| spec_bust wanted :
    wanted ∈ i_id <$> sp_items s ->
    spec_step now s (Bust wanted) Accepted
      (set_items (not_named wanted (sp_items s) ++ named wanted (sp_items s)) s)
| spec_del wanted :
    wanted ∈ i_id <$> sp_items s ->
    spec_step now s (Del wanted) Accepted (set_items (not_named wanted (sp_items s)) s)
| spec_unknown wanted o :
    o = Bump wanted \/ o = Bust wanted \/ o = Del wanted -> wanted ∉ i_id <$> sp_items s ->
    spec_step now s o Refused s
(** The due head is claimed, unless a claim is out. *)
| spec_claim_none cooldown :
    sp_items s = [] \/ Exists (fun i => i_claim i <> None) (sp_items s) ->
    spec_step now s (Claim cooldown) (Next None) s
| spec_claim_wait cooldown i rest :
    Forall (fun i => i_claim i = None) (sp_items s) -> sp_items s = i :: rest ->
    now < earliest cooldown now (sp_activity s) i ->
    spec_step now s (Claim cooldown)
      (Next (Some (i_id i, earliest cooldown now (sp_activity s) i - now))) s
| spec_claim cooldown i rest token :
    Forall (fun i => i_claim i = None) (sp_items s) -> sp_items s = i :: rest ->
    earliest cooldown now (sp_activity s) i = now ->
    spec_step now s (Claim cooldown) (Next (Some (i_id i, 0))) (set_items (with_token (Some token) i :: rest) s)
(** A release by the holder sends the claim back and counts as an attempt. *)
| spec_release wanted token :
    Exists (fun i => i_id i = wanted /\ i_claim i = Some token) (sp_items s) ->
    spec_step now s (Release wanted token) Accepted
      (Spec ((fun i => if decide (i_id i = wanted) then with_token None i else i) <$> sp_items s)
         (sp_log s) (sp_post s) (Some (Z.max (default 0 (sp_attempt s)) now)))
| spec_release_stale wanted token r :
    Forall (fun i => ~ (i_id i = wanted /\ i_claim i = Some token)) (sp_items s) ->
    r = Accepted \/ r = Refused ->
    spec_step now s (Release wanted token) r s
(** A completed post leaves the queue, unless it was replaced, and is logged. *)
| spec_complete e token_hash url k :
    spec_step now s (Complete e token_hash url) Accepted
      (Spec (filter (fun i => ~ (i_id i = id e /\ i_claim i = claim_token e)) (sp_items s))
         (sp_log s ++ [posted_record e token_hash now url k]) (Some now) (sp_attempt s))
| spec_fail e token_hash error k :
    spec_step now s (Fail e token_hash error) Accepted
      (Spec (sp_items s) (sp_log s ++ [failed_record e token_hash now error k]) (sp_post s) (sp_attempt s))
(** A worker that starts gives every claim back. *)
| spec_recover :
    spec_step now s Recover Accepted (set_items (with_token None <$> sp_items s) s).

(** Executions with their answers. *)
Inductive spec_run `{Platform} : spec -> list (op * Z * reply) -> spec -> Prop :=
| spec_run_nil s : spec_run s [] s
| spec_run_cons s o now r s1 tr s2 :
    spec_step now s o r s1 -> spec_run s1 tr s2 -> spec_run s ((o, now, r) :: tr) s2.

(** * The store as an abstract queue *)

Section refinement.
Context `{Platform} `{!PlatformOk} `{SerdeJson} `{!SerdeJsonOk}.
Implicit Types d : disk.

Abbreviation queue d := (entries_of (d_entries d)).

Definition item_of (e : t) : item :=
  Item (id e) (request e) (flutter_seconds e) (not_before e) (claim_token e).

Definition abs d : spec :=
  Spec (item_of <$> queue d) (log_records (content d HISTORY_FILE))
    (marker d LAST_POST_FILE) (marker d LAST_ATTEMPT_FILE).

(** The operations with what their callers are told. *)
Definition answer (o : op) (now : Z) : M reply :=
  match o with
  | Put fuel request options =>
      let* r := put_with_eta fuel request options now in ret (Queued (id r.1) r.2)
  | Claim cooldown =>
      let* r := claim_next_due cooldown now in ret (Next ((fun x => (id x.1, x.2)) <$> r))
  | _ => perform o now ;; ret Accepted
  end.
Definition reply_of (out : outcome reply) : option reply :=
  match out with Done r => Some r | Failed _ => Some Refused | _ => None end.

(** ** Reading the abstract state *)

Lemma abs_same_root d d' :
  d_root d' = d_root d -> abs d' = set_items (item_of <$> queue d') (abs d).
Proof.
  intros Hr. unfold abs, set_items. cbn [sp_log sp_post sp_attempt].
  rewrite !(marker_same_root d d') by done. unfold content, dget. cbn. by rewrite Hr.
Qed.

Lemma ids_of (es : list t) : i_id <$> (item_of <$> es) = id <$> es.
Proof. by rewrite <- list_fmap_compose. Qed.

Lemma not_named_of wanted es : item_of <$> others wanted es = not_named wanted (item_of <$> es).
Proof.
  unfold others, not_named. induction es as [|e es IH]; [done|].
  rewrite fmap_cons, !filter_cons. case_decide as Hd; case_decide as Hd'; try done.
  by rewrite fmap_cons, IH.
Qed.

Lemma named_of e es : NoDup (id <$> es) -> e ∈ es -> named (id e) (item_of <$> es) = [item_of e].
Proof.
  intros Hnd He. destruct (NoDup_id_split e es Hnd He) as (l1 & l2 & -> & Hl1 & Hl2). unfold named.
  assert (Hnone : forall l, Forall (fun x => id x <> id e) l -> filter (fun i => i_id i = id e) (item_of <$> l) = []).
  { intros l. induction 1 as [|x l Hx _ IH]; [done|]. rewrite fmap_cons. by rewrite filter_cons_False. }
  rewrite fmap_app, fmap_cons, filter_app. rewrite (Hnone l1 Hl1), filter_cons_True by done.
  by rewrite (Hnone l2 Hl2).
Qed.

Lemma item_with_order o e : item_of (with_order o e) = item_of e.
Proof. by destruct e. Qed.

Lemma earliest_of cooldown now previous e :
  earliest cooldown now previous (item_of e) = post_at cooldown now previous e.
Proof. done. Qed.

Lemma waits_of cooldown now es : forall previous,
  waits cooldown now (item_of <$> es) previous = (projected_schedule cooldown now es previous).*2.
Proof.
  induction es as [|e es IH]; intros previous; [done|]. cbn [projected_schedule fmap list_fmap waits].
  rewrite earliest_of, IH. f_equal. pose proof (eta_absolute cooldown now previous e). cbn [snd]. lia.
Qed.

Lemma activity_of d : sp_activity (abs d) = activity d.
Proof. done. Qed.

(** The estimate of a queued entry is the wait at its place. *)
Lemma eta_of_place cooldown now es : forall previous k e,
  NoDup (id <$> es) -> es !! k = Some e ->
  (projected_schedule cooldown now es previous).*2 !! k
  = Some (eta_of (projected_schedule cooldown now es previous) (id e)).
Proof.
  induction es as [|x es IH]; intros previous k e Hnd Hk; [done|].
  rewrite fmap_cons in Hnd. apply NoDup_cons in Hnd as [Hx Hnd]. unfold eta_of. destruct k as [|k].
  - injection Hk as ->. cbn. by rewrite decide_True.
  - cbn [lookup list_lookup] in Hk. cbn [projected_schedule fmap list_fmap lookup list_lookup list_find fst].
    rewrite decide_False.
    2:{ intros Heq. apply Hx. rewrite Heq. apply list_elem_of_fmap. exists e. split; [done|].
        by eapply list_elem_of_lookup_2. }
    rewrite (IH _ k e Hnd Hk). unfold eta_of. by destruct (list_find _ _) as [[? [? ?]]|].
Qed.

(** ** Keys *)

(** Ordering keys between [-k] and [k]. *)
Definition spread (k : Z) d : Prop := forall e, e ∈ queue d -> - k <= order e <= k.

(** What an operation has to show: an abstract step, keys that moved by one at most,
    a log that can be appended to. *)
Definition simulates (k now : Z) d o r d' : Prop :=
  spec_step now (abs d) o r (abs d') /\ spread (k + 1) d' /\ tail_ok (content d' HISTORY_FILE).

Lemma simulates_same k now d o r :
  spread k d -> tail_ok (content d HISTORY_FILE) -> spec_step now (abs d) o r (abs d) ->
  simulates k now d o r d.
Proof. intros Hk Ht Hs. split_and!; [done| |done]. intros e He. specialize (Hk e He). lia. Qed.

Lemma simulates_queue k now d o r d' :
  d_root d' = d_root d -> spread (k + 1) d' -> tail_ok (content d HISTORY_FILE) ->
  spec_step now (abs d) o r (set_items (item_of <$> queue d') (abs d)) ->
  simulates k now d o r d'.
Proof.
  intros Hr Hk Ht Hs. split_and!; [by rewrite (abs_same_root d d' Hr)|done|].
  unfold content, dget in *. cbn in *. by rewrite Hr.
Qed.

(** ** Operations *)

Lemma answer_put fuel request options now w :
  answer (Put fuel request options) now w
  = match put_with_eta fuel request options now w with
    | (Done x, w) => (Done (Queued (id x.1) x.2), w)
    | (Failed e, w) => (Failed e, w)
    | (Crashed, w) => (Crashed, w)
    | (Diverged, w) => (Diverged, w)
    end.
Proof. cbn [answer]. unfold bind. by destruct (put_with_eta _ _ _ _ w) as [[?|?| |] ?]. Qed.

(** The answer of an operation without a result. *)
Lemma answer_unit (m : M unit) w out w' :
  (m ;; ret Accepted) w = (out, w') ->
  exists o, m w = (o, w')
    /\ forall r, reply_of out = Some r -> o = Done tt /\ r = Accepted \/ (exists e, o = Failed e) /\ r = Refused.
Proof.
  unfold bind. destruct (m w) as [[[]|e| |] w1]; intros [= <- <-]; eexists; (split; [done|]); intros r; cbn; try done;
    intros [= <-]; [by left|right; eauto].
Qed.

Lemma spread_added k d d' e :
  spread k d -> queue d' = queue d ++ [e] -> - (k + 1) <= order e <= k + 1 -> spread (k + 1) d'.
Proof.
  intros Hk Hq He x. rewrite Hq. intros [Hx|Hx%list_elem_of_singleton]%elem_of_app; [|by subst].
  specialize (Hk x Hx). lia.
Qed.

Lemma put_simulates k now d u fuel request options out w' r :
  disk_wf d -> allowed d now (Put fuel request options) -> tail_ok (content d HISTORY_FILE) ->
  spread k d -> 0 <= k < I64_MAX ->
  answer (Put fuel request options) now (World d [] u) = (out, w') -> reply_of out = Some r ->
  simulates k now d (Put fuel request options) r (w_disk w').
Proof.
  intros Hwf (Hnow & Hr & Ho & Hfuel) Ht Hk Hlim. rewrite answer_put.
  destruct (put_with_eta fuel request options now (World d [] u)) as [o1 w1] eqn:Hrun. intros Hans Hrep.
  assert (w1 = w') as -> by (destruct o1; by injection Hans).
  destruct o1 as [[e eta]|err| |]; injection Hans as <-; try done; cbn in Hrep; injection Hrep as <-.
  2:{ rewrite (put_unfinished d u fuel request options now (Failed err) w') by done.
      apply simulates_same; [done|done|constructor]. }
  destruct (resolve_cases d u request now fuel (wf_regular _ (wf_entries d Hwf)) 0) as [(n & r & Hn & Hfu & _)|(o & Ho' & Hrun')];
    [lia|lia| |].
  2:{ unfold put_with_eta in Hrun. unfold bind at 1 in Hrun.
      change (@None Z) with (salt_of 0) in Hrun. rewrite Hrun' in Hrun. by destruct o as [x| | |]; [destruct (Ho' x)|..]. }
  cbn [fst snd]. destruct r as [x|].
  - pose proof Hfu as (_ & _ & Hv). inversion Hv as [|? Hx Hid Hreq]; subst.
    rewrite (put_queued d u fuel (request x) options now n x) in Hrun by (done || lia).
    injection Hrun as <- <- <-. apply simulates_same; [done|done|]. cbn [w_disk].
    apply list_elem_of_lookup_1 in Hx as [j Hj]. apply (spec_put_again now (abs d) fuel (request x) options j (item_of x)).
    + cbn [abs sp_items]. by rewrite list_lookup_fmap, Hj.
    + done.
    + cbn [abs sp_items]. rewrite activity_of, waits_of. by apply eta_of_place; [apply entries_of_NoDup|].
  - assert (Hmax : forall tl, last (queue d) = Some tl -> tl ∈ queue d).
    { intros tl Hl. apply last_Some in Hl as [l ->]. apply elem_of_app. right. by left. }
    destruct (put_admitted d u fuel request options now n e eta w' Hwf Hfu) as (_ & Hq & He & Heta & Hroot & _);
      [lia|done..| |done|].
    { intros tl Hl. specialize (Hk tl (Hmax tl Hl)). lia. }
    assert (Hfresh : forall x, x ∈ queue d -> id x <> id e)
      by (destruct (first_usable_fresh d request now n Hfu) as [_ Hfr]; by rewrite He).
    apply simulates_queue; [done| |done|].
    + eapply spread_added; [done|exact Hq|]. rewrite He. unfold put_entry, new_entry. cbn [order].
      destruct (last (queue d)) as [tl|] eqn:Hl; [|lia]. specialize (Hk tl (Hmax tl eq_refl)). cbn. machine.
    + rewrite Hq, fmap_app. apply (spec_put now (abs d) fuel request options (item_of e) eta); try by rewrite He.
      * cbn [abs sp_items]. rewrite ids_of. intros (x & Hx & Hin)%list_elem_of_fmap. by apply (Hfresh x Hin).
      * cbn [abs sp_items]. rewrite activity_of. change [item_of e] with (item_of <$> [e]).
        rewrite <- fmap_app, waits_of, fmap_last, put_eta_last by done. by rewrite Heta.
Qed.

(** A name is found, or nothing is done. *)
Lemma find_named d u wanted :
  disk_wf d ->
  (exists e, e ∈ queue d /\ id e = wanted)
  \/ (wanted ∉ i_id <$> sp_items (abs d)) /\ exists err, find wanted (World d [] u) = (Failed err, World d [] u).
Proof.
  intros Hwf. destruct (find_cases d u wanted (wf_regular _ (wf_entries d Hwf))) as [(e & _ & He & Hid)|(err & Hf & _)].
  - left. eauto.
  - right. split; [|by exists err]. cbn [abs sp_items]. rewrite ids_of.
    intros (x & -> & Hx)%list_elem_of_fmap.
    rewrite (find_valid d u x) in Hf by by apply entries_of_elem. done.
Qed.

Lemma named_in d e : e ∈ queue d -> id e ∈ i_id <$> sp_items (abs d).
Proof. intros He. cbn [abs sp_items]. rewrite ids_of. apply list_elem_of_fmap. eauto. Qed.

Lemma others_spread k d wanted x : spread k d -> x ∈ others wanted (queue d) -> - (k + 1) <= order x <= k + 1.
Proof. intros Hk [_ Hx]%others_elem. specialize (Hk x Hx). lia. Qed.

Lemma reorder_simulates k now d u wanted (front : bool) out w' r :
  disk_wf d -> tail_ok (content d HISTORY_FILE) -> spread k d -> 0 <= k < I64_MAX ->
  let o := if front then Bump wanted else Bust wanted in
  answer o now (World d [] u) = (out, w') -> reply_of out = Some r ->
  simulates k now d o r (w_disk w').
Proof.
  intros Hwf Ht Hk Hlim o Hrun Hrep.
  assert (Hnamed : forall e, e ∈ queue d -> named (id e) (item_of <$> queue d) = [item_of e])
    by (intros e; apply named_of, entries_of_NoDup).
  assert (Hans : (perform o now ;; ret Accepted) (World d [] u) = (out, w')) by by destruct front.
  destruct (answer_unit _ _ _ _ Hans) as (o1 & Hp & Hr). clear Hans.
  destruct (find_named d u wanted Hwf) as [(e & He & <-)|[Hno [err Hf]]].
  2:{ assert (o1 = Failed err /\ w' = World d [] u) as [-> ->].
      { destruct front; cbn [o perform] in Hp; unfold bump, bust, reorder in Hp;
          erewrite bind_done in Hp by (by apply entries_wf); rewrite (bind_failed _ _ _ _ _ Hf) in Hp;
          by injection Hp as <- <-. }
      destruct (Hr r Hrep) as [[? _]|[_ ->]]; [done|]. apply simulates_same; [done|done|].
      apply (spec_unknown _ _ wanted); [unfold o; destruct front; auto|done]. }
  assert (Hin : forall h, h ∈ queue d -> I64_MIN < order h < I64_MAX)
    by (intros h Hh; specialize (Hk h Hh); unfold I64_MIN, I64_MAX in *; lia).
  assert (Hhead : forall h, head (queue d) = Some h -> h ∈ queue d)
    by (intros h; destruct (queue d); [done|]; intros [= ->]; left).
  assert (Hlast : forall tl, last (queue d) = Some tl -> tl ∈ queue d)
    by (intros tl [l ->]%last_Some; apply elem_of_app; right; by left).
  destruct front; cbn [o perform] in Hp.
  - destruct (bump_quiet d u e Hwf He) as (d' & Hb & _ & Hroot & _ & _ & Hq). rewrite Hb in Hp. injection Hp as <- <-.
    destruct (Hr r Hrep) as [[_ ->]|[[? ?] _]]; [|done]. specialize (Hq (fun h Hh => proj1 (Hin h (Hhead h Hh)))).
    apply simulates_queue; [done| |done|].
    + intros x. cbn [w_disk]. rewrite Hq. intros [Hx|Hx]%elem_of_cons; [subst x|by eapply others_spread].
      cbn [order with_order]. unfold bump_order. pose proof (Hk e He). destruct (head (queue d)) as [h|] eqn:Hh; [|lia].
      specialize (Hk h (Hhead h eq_refl)). case_decide; machine.
    + cbn [w_disk]. rewrite Hq, fmap_cons, not_named_of, item_with_order.
      change (item_of e :: ?l) with ([item_of e] ++ l). rewrite <- (Hnamed e He).
      apply spec_bump. by apply named_in.
  - destruct (bust_quiet d u e Hwf He) as (d' & Hb & _ & Hroot & _ & _ & Hq). rewrite Hb in Hp. injection Hp as <- <-.
    destruct (Hr r Hrep) as [[_ ->]|[[? ?] _]]; [|done]. specialize (Hq (fun tl Hl => proj2 (Hin tl (Hlast tl Hl)))).
    apply simulates_queue; [done| |done|].
    + intros x. cbn [w_disk]. rewrite Hq. intros [Hx|Hx%list_elem_of_singleton]%elem_of_app; [by eapply others_spread|subst x].
      cbn [order with_order]. unfold bust_order. pose proof (Hk e He). destruct (last (queue d)) as [tl|] eqn:Hl; [|lia].
      specialize (Hk tl (Hlast tl eq_refl)). case_decide; machine.
    + cbn [w_disk]. rewrite Hq, fmap_app, not_named_of. cbn [fmap list_fmap]. rewrite item_with_order, <- (Hnamed e He).
      apply spec_bust. by apply named_in.
Qed.

Lemma del_simulates k now d u wanted out w' r :
  disk_wf d -> tail_ok (content d HISTORY_FILE) -> spread k d ->
  answer (Del wanted) now (World d [] u) = (out, w') -> reply_of out = Some r ->
  simulates k now d (Del wanted) r (w_disk w').
Proof.
  intros Hwf Ht Hk Hans Hrep. destruct (answer_unit _ _ _ _ Hans) as (o1 & Hp & Hr). cbn [perform] in Hp.
  destruct (find_named d u wanted Hwf) as [(e & He & <-)|[Hno [err Hf]]].
  - destruct (del_quiet d u e Hwf He) as (b & d' & _ & Hd & _ & Hq & Hroot & _). rewrite Hd in Hp. injection Hp as <- <-.
    destruct (Hr r Hrep) as [[_ ->]|[[? ?] _]]; [|done]. apply simulates_queue; [done| |done|].
    + intros x. cbn [w_disk]. rewrite Hq. by apply others_spread.
    + cbn [w_disk]. rewrite Hq, not_named_of. apply spec_del. by apply named_in.
  - unfold del in Hp. rewrite (bind_failed _ _ _ _ _ Hf) in Hp. injection Hp as <- <-.
    destruct (Hr r Hrep) as [[? _]|[_ ->]]; [done|]. apply simulates_same; [done|done|].
    apply (spec_unknown _ _ wanted); auto.
Qed.

Lemma unclaimed_of d : claims d = [] <-> Forall (fun i => i_claim i = None) (sp_items (abs d)).
Proof.
  cbn [abs sp_items]. unfold claims. induction (queue d) as [|e es IH]; [done|].
  rewrite fmap_cons, Forall_cons, filter_cons. cbn [item_of i_claim].
  destruct (claimed e) eqn:Hc; unfold claimed in Hc.
  - apply bool_decide_eq_true in Hc. rewrite decide_True by done. split; [done|]. by intros [? _].
  - apply bool_decide_eq_false, dec_stable in Hc. rewrite decide_False by done. by rewrite IH, Hc; split; [|intros []].
Qed.

Lemma claim_simulates k now d u cooldown out w' r :
  disk_wf d -> tail_ok (content d HISTORY_FILE) -> spread k d ->
  answer (Claim cooldown) now (World d [] u) = (out, w') -> reply_of out = Some r ->
  simulates k now d (Claim cooldown) r (w_disk w').
Proof.
  intros Hwf Ht Hk Hans Hrep. destruct (claim_next_due_quiet d u cooldown now Hwf) as (x & w1 & Hrun & Hout).
  cbn [answer] in Hans. rewrite (bind_done _ _ _ _ _ Hrun) in Hans. injection Hans as <- <-.
  injection Hrep as <-. destruct x as [[e wait]|]; cbn [claim_outcome fmap option_fmap option_map fst snd] in Hout |- *.
  - destruct Hout as (Hcl & e0 & rest & Hq & Hcase). apply unclaimed_of in Hcl.
    assert (Hitems : sp_items (abs d) = item_of e0 :: (item_of <$> rest)) by (cbn [abs sp_items]; by rewrite Hq).
    destruct Hcase as [(Hlt & -> & -> & ->)|(Hat & -> & -> & _ & _ & _ & Hq' & Hroot & _)].
    + apply simulates_same; [done|done|]. by apply (spec_claim_wait now (abs d) cooldown (item_of e0) (item_of <$> rest)).
    + apply simulates_queue; [done| |done|].
      * intros x. rewrite Hq'. intros [Hx|Hx]%elem_of_cons; [subst x; specialize (Hk e0)|specialize (Hk x)];
          rewrite Hq in Hk; cbn [order with_claim].
        -- specialize (Hk ltac:(left)). lia.
        -- specialize (Hk ltac:(by right)). lia.
      * rewrite Hq', fmap_cons.
        by apply (spec_claim now (abs d) cooldown (item_of e0) (item_of <$> rest) (new_v4 u)).
  - destruct Hout as [-> Hnone]. cbn [w_disk]. apply simulates_same; [done|done|]. apply spec_claim_none.
    destruct Hnone as [Hnil|Hcl]; [left; cbn [abs sp_items]; by rewrite Hnil|right].
    apply not_Forall_Exists; [apply _|]. intros Hall. by apply Hcl, unclaimed_of.
Qed.

Lemma replaced_items e es :
  NoDup (id <$> es) -> e ∈ es ->
  item_of <$> replace_entry (with_claim None e) es
  = (fun i => if decide (i_id i = id e) then with_token None i else i) <$> (item_of <$> es).
Proof.
  intros Hnd He. unfold replace_entry. rewrite <- !list_fmap_compose. apply list_fmap_ext. intros j x Hx.
  cbn. case_decide as Hid; [|done].
  assert (x = e) as -> by (eapply NoDup_id_inj; [exact Hnd|by eapply list_elem_of_lookup_2|done|done]). done.
Qed.

Lemma holder_of d wanted token :
  Exists (fun i => i_id i = wanted /\ i_claim i = Some token) (sp_items (abs d))
  <-> exists e, e ∈ queue d /\ id e = wanted /\ claim_token e = Some token.
Proof.
  cbn [abs sp_items]. rewrite Exists_exists. split.
  - intros (i & (e & -> & He)%list_elem_of_fmap & Hi). by exists e.
  - intros (e & He & Hi). exists (item_of e). split; [|done]. apply list_elem_of_fmap. eauto.
Qed.

Lemma not_holder_of d wanted token :
  (forall e, e ∈ queue d -> id e = wanted -> claim_token e <> Some token) ->
  Forall (fun i => ~ (i_id i = wanted /\ i_claim i = Some token)) (sp_items (abs d)).
Proof.
  intros Hno. cbn [abs sp_items]. apply Forall_forall. intros i (e & -> & He)%list_elem_of_fmap [Hid Htok].
  by apply (Hno e).
Qed.

Lemma release_simulates k now d u wanted token out w' r :
  disk_wf d -> is_u64 now -> tail_ok (content d HISTORY_FILE) -> spread k d ->
  answer (Release wanted token) now (World d [] u) = (out, w') -> reply_of out = Some r ->
  simulates k now d (Release wanted token) r (w_disk w').
Proof.
  intros Hwf Hnow Ht Hk Hans Hrep. destruct (answer_unit _ _ _ _ Hans) as (o1 & Hp & Hr). cbn [perform] in Hp.
  assert (Hsame : w' = World d [] u ->
    (forall e, e ∈ queue d -> id e = wanted -> claim_token e <> Some token) ->
    simulates k now d (Release wanted token) r (w_disk w')).
  { intros -> Hno. apply simulates_same; [done|done|].
    apply spec_release_stale; [by apply not_holder_of|]. destruct (Hr r Hrep) as [[_ ->]|[_ ->]]; auto. }
  destruct (find_named d u wanted Hwf) as [(e & He & <-)|[Hno [err Hf]]].
  2:{ apply Hsame.
      - unfold release_claim in Hp. rewrite (bind_done _ _ _ _ _ (attempt_failed _ _ _ _ Hf)) in Hp.
        cbn beta iota in Hp. by destruct err; injection Hp as _ <-.
      - intros e He <-. destruct Hno. by apply named_in. }
  destruct (decide (claim_token e = Some token)) as [Htok|Htok].
  2:{ apply Hsame.
      - rewrite release_claim_stale in Hp by done. by injection Hp as _ <-.
      - intros x Hx Hid. assert (x = e) as -> by (eapply NoDup_id_inj; [apply entries_of_NoDup|done|done|done]). done. }
  destruct (release_claim_quiet d u e token now Hwf He Htok Hnow) as (d' & Hrun & _ & Hq & Hpost & Hatt & _ & Hlog & _).
  rewrite Hrun in Hp. injection Hp as <- <-. destruct (Hr r Hrep) as [[_ ->]|[[? ?] _]]; [|done]. cbn [w_disk].
  assert (Hc : content d' HISTORY_FILE = content d HISTORY_FILE) by (unfold content; by rewrite Hlog).
  split_and!; [| |by rewrite Hc].
  - unfold abs at 2. rewrite Hq, Hc, Hpost, Hatt, replaced_items by (done || apply entries_of_NoDup).
    apply (spec_release now (abs d) (id e) token), holder_of. by exists e.
  - intros x. rewrite Hq. unfold replace_entry. intros (y & -> & Hy)%list_elem_of_fmap.
    pose proof (Hk e He). pose proof (Hk y Hy). case_decide; cbn [order with_claim]; lia.
Qed.

Lemma unclaimed_items e es :
  item_of <$> unclaimed_by e es
  = filter (fun i => ~ (i_id i = id e /\ i_claim i = claim_token e)) (item_of <$> es).
Proof.
  unfold unclaimed_by. induction es as [|x es IH]; [done|].
  rewrite fmap_cons, !filter_cons. case_decide as Hd; case_decide as Hd'; try done. by rewrite fmap_cons, IH.
Qed.

Lemma complete_simulates k now d u e token_hash url out w' r :
  allowed d now (Complete e token_hash url) -> spread k d ->
  answer (Complete e token_hash url) now (World d [] u) = (out, w') -> reply_of out = Some r ->
  simulates k now d (Complete e token_hash url) r (w_disk w').
Proof.
  intros [Hnow Hcl] Hk Hans Hrep. destruct (answer_unit _ _ _ _ Hans) as (o1 & Hp & Hr). cbn [perform] in Hp.
  destruct (complete_claim_succeeds d e token_hash now url Hcl u) as ([] & d' & v & Hrun & w & Hcd).
  rewrite Hrun in Hp. injection Hp as <- <-. destruct (Hr r Hrep) as [[_ ->]|[[? ?] _]]; [|done]. cbn [w_disk].
  destruct Hcd as [_ Hent _ (g & _ & _ & Hlog & _ & Htail) Hpost Hatt _].
  destruct (removed_queue d e token_hash now url Hcl d' Hent) as (_ & _ & Hq). split_and!; [| |done].
  - unfold abs at 2. rewrite Hq, Hlog, unclaimed_items, (marker_same d d' LAST_ATTEMPT_FILE Hatt).
    rewrite (marker_value _ _ _ Hnow Hpost). apply (spec_complete now (abs d) e token_hash url w).
  - intros x. rewrite Hq. intros [_ Hx]%list_elem_of_filter. specialize (Hk x Hx). lia.
Qed.

Lemma fail_simulates k now d u e token_hash error out w' r :
  disk_wf d -> recordable e token_hash now error -> tail_ok (content d HISTORY_FILE) -> spread k d ->
  answer (Fail e token_hash error) now (World d [] u) = (out, w') -> reply_of out = Some r ->
  simulates k now d (Fail e token_hash error) r (w_disk w').
Proof.
  intros Hwf (Hok & Hnow & Hh & Hu & Hsz) Ht Hk Hans Hrep.
  destruct (answer_unit _ _ _ _ Hans) as (o1 & Hp & Hr). cbn [perform] in Hp.
  unfold record_failure in Hp. unfold bind in Hp at 1 2. cbn [fresh_uuid ret] in Hp.
  change (append HISTORY_FILE (failed_record e token_hash now error u) (World d [] (S u)) = (o1, w')) in Hp.
  assert (Hty : record_typed (failed_record e token_hash now error u)).
  { destruct Hok as ((Hid & Hinc & _ & _ & _ & _ & _ & Hreq) & _). unfold record_typed. simpl.
    split_and!; try done; [apply new_v4_utf8|by apply bounded_error_text]. }
  destruct (record_to_vec_total _ Hty) as [b Hb].
  destruct (append_quiet d (S u) HISTORY_FILE _ b Hb (wf_root d Hwf _)) as (d' & v & Hrun & Hlo & Hc).
  rewrite Hrun in Hp. injection Hp as <- <-. destruct (Hr r Hrep) as [[_ ->]|[[? ?] _]]; [|done]. cbn [w_disk].
  destruct (log_only_wf d d' Hlo Hwf) as (_ & He & _).
  destruct (append_progress _ b Hty Hb (Hsz u b Hb) (content d HISTORY_FILE) (content d HISTORY_FILE)
    (length (appended (content d HISTORY_FILE) b)) (pending_start _ _ Ht)) as [Hfull _].
  rewrite take_ge in Hfull by lia. destruct (Hfull eq_refl) as (g & _ & _ & Hlog & _ & Htail).
  rewrite <- Hc in Hlog, Htail. split_and!; [| |done].
  - unfold abs at 2. rewrite He, Hlog. rewrite !(marker_same d d') by by apply Hlo.
    apply (spec_fail now (abs d) e token_hash error u).
  - intros x. rewrite He. intros Hx. specialize (Hk x Hx). lia.
Qed.

Lemma recover_simulates k now d u out w' r :
  disk_wf d -> dget d COMPLETION_FILE = None -> tail_ok (content d HISTORY_FILE) -> spread k d ->
  answer Recover now (World d [] u) = (out, w') -> reply_of out = Some r ->
  simulates k now d Recover r (w_disk w').
Proof.
  intros Hwf Hc Ht Hk Hans Hrep. destruct (answer_unit _ _ _ _ Hans) as (o1 & Hp & Hr). cbn [perform] in Hp.
  destruct (recover_quiet d u Hwf Hc) as (d' & u' & Hrun & _ & Hf & Hroot & _).
  rewrite Hrun in Hp. injection Hp as <- <-. destruct (Hr r Hrep) as [[_ ->]|[[? ?] _]]; [|done]. cbn [w_disk].
  apply simulates_queue; [done| |done|].
  - intros x [j Hj]%list_elem_of_lookup_1. destruct (Forall2_lookup_r _ _ _ _ _ Hf Hj) as (y & Hy & Hre).
    destruct Hre as (_ & _ & _ & -> & _). specialize (Hk y ltac:(by eapply list_elem_of_lookup_2)). lia.
  - assert (Hitems : item_of <$> queue d' = with_token None <$> (item_of <$> queue d)).
    { clear -Hf. induction Hf as [|e e' es es' Hre _ IH]; [done|]. rewrite !fmap_cons, IH. f_equal.
      destruct Hre as (Hn & _ & _ & _ & (Hid & Hfl & _ & Hnb & Hreq)).
      unfold item_of, with_token. cbn. by rewrite Hid, Hfl, Hnb, Hreq, Hn. }
    rewrite Hitems. apply spec_recover.
Qed.

(** ** Executions *)

(** What a caller may ask: what [allowed] says, and a failure that fits in the log. *)
Definition ready d now o : Prop :=
  allowed d now o /\ match o with Fail e h x => recordable e h now x | _ => True end.

Lemma step_simulates k now d u o out w' r :
  disk_wf d -> ready d now o -> tail_ok (content d HISTORY_FILE) -> spread k d -> 0 <= k < I64_MAX ->
  answer o now (World d [] u) = (out, w') -> reply_of out = Some r ->
  simulates k now d o r (w_disk w').
Proof.
  intros Hwf [Hal Hx] Ht Hk Hlim Hans Hrep.
  destruct o as [fuel request options|wanted|wanted|wanted|cooldown|wanted token|e h url|e h x|].
  - by eapply put_simulates.
  - by apply (reorder_simulates k now d u wanted true out w' r).
  - by apply (reorder_simulates k now d u wanted false out w' r).
  - by eapply del_simulates.
  - by eapply claim_simulates.
  - eapply release_simulates; [done|apply Hal|done..].
  - by eapply complete_simulates.
  - by eapply fail_simulates.
  - eapply recover_simulates; [done|apply Hal|done..].
Qed.

(** The answers do not change what an operation does. *)
Lemma answer_perform o now w out w' :
  answer o now w = (out, w') -> exists o1, perform o now w = (o1, w').
Proof.
  destruct o; cbn [answer]; try (intros Hans; destruct (answer_unit _ _ _ _ Hans) as (o1 & Hp & _); by exists o1);
    cbn [perform]; unfold bind.
  - destruct (put_with_eta _ _ _ _ w) as [[?|?| |] ?]; intros [= <- <-]; eauto.
  - destruct (claim_next_due _ _ w) as [[?|?| |] ?]; intros [= <- <-]; eauto.
Qed.

(** Executions of the store with their answers, at increasing times and with
    arguments as callers pass them. *)
Inductive execution : moment -> list (op * Z * reply) -> moment -> Prop :=
| execution_nil s : execution s [] s
| execution_cons s o now out w' r tr s' :
    m_clock s <= now -> ready (m_disk s) now o ->
    answer o now (World (m_disk s) [] (m_uuids s)) = (out, w') -> reply_of out = Some r ->
    execution (Moment (w_disk w') (w_uuids w') now) tr s' ->
    execution s ((o, now, r) :: tr) s'.

Lemma execution_refines s tr s' : execution s tr s' -> forall k,
  safe (m_disk s) (m_clock s) -> tail_ok (content (m_disk s) HISTORY_FILE) ->
  spread k (m_disk s) -> 0 <= k -> k + zlen tr <= I64_MAX ->
  spec_run (abs (m_disk s)) tr (abs (m_disk s')).
Proof.
  induction 1 as [s|s o now out w' r tr s' Hle Hready Hans Hrep _ IH]; intros k Hs Ht Hk Hpos Hlim; [constructor|].
  rewrite zlen_cons in Hlim. pose proof (zlen_nonneg tr).
  destruct (answer_perform _ _ _ _ _ Hans) as [o1 Hp].
  destruct (perform_safe _ _ _ _ _ _ _ Hs Hle (proj1 Hready) Hp) as (_ & Hs' & _).
  destruct (step_simulates k now (m_disk s) (m_uuids s) o out w' r) as (Hstep & Hk' & Ht'); try done;
    [apply (safe_wf _ _ Hs)|lia|].
  econstructor; [exact Hstep|]. apply (IH (k + 1)); cbn; [done|done|done|lia|lia].
Qed.
End refinement.

(** * Result *)

(** C3: the store is the abstract queue.  Every execution of the store's operations,
    put, bump, bust, del, claim, release, completion, failure record and recovery, in
    any order and with any arguments, gives the answers of an execution of the
    abstract queue from the abstract state of the first disk to that of the last one:
    the list of comments with a tail to put on, a head to claim and names to move or
    delete, the log, and the two times the cooldown runs from.  The ordering keys of
    a store that starts within [2^62] do not run out in [2^62] operations. *)
Theorem store_refines_the_abstract_queue `{Platform} `{!PlatformOk} `{SerdeJson} `{!SerdeJsonOk} s tr s' :
  safe (m_disk s) (m_clock s) -> tail_ok (content (m_disk s) HISTORY_FILE) ->
  spread (2 ^ 62) (m_disk s) -> zlen tr < 2 ^ 62 -> execution s tr s' ->
  spec_run (abs (m_disk s)) tr (abs (m_disk s')).
Proof.
  intros Hs Ht Hk Hlen Hex. eapply execution_refines; [exact Hex|done|done|exact Hk|lia|].
  unfold I64_MAX. lia.
Qed.
