(* ===== verification/Returns.v ===== *)
(** The store always answers: without I/O faults every operation ends with a result or
    an error, given enough identifiers to try for a put. *)

From S2P Require Import Prelude Text Protocol Disk Entry Order Bounds Scan Capacity Writes Schedule.
From S2P Require Import History Excerpt Store DiskState Claims Edits Sound Enqueue Lines Reverse Log Pages.
From S2P Require Import Append Recovery Completion Faults Resume Trace Spec.

Definition returns {A} (m : M A) (w : world) : Prop :=
  (exists a w', m w = (Done a, w')) \/ (exists e w', m w = (Failed e, w')).

Section returns.
Context `{Platform} `{!PlatformOk} `{SerdeJson} `{!SerdeJsonOk}.
Implicit Types d : disk.

(** The identifiers tried are enough for this request. *)
Definition nameable d (now : Z) (o : op) : Prop :=
  match o with
  | Put fuel request _ => exists n r, first_usable d request now n r /\ (n <= fuel)%nat
  | _ => True
  end.

Lemma put_returns d u fuel request options now n r :
  disk_wf d -> first_usable d request now n r -> (n <= fuel)%nat -> request_typed request ->
  options_typed options -> is_u64 now ->
  returns (put_with_eta fuel request options now) (World d [] u)
  /\ forall e eta w', put_with_eta fuel request options now (World d [] u) = (Done (e, eta), w') ->
       StoredEntry.request e = request.
Proof.
  intros Hwf Hfu Hn Hr Ho Hnow. destruct r as [x|].
  - unfold returns. rewrite (put_queued d u fuel request options now n x) by done. split; [left; by eexists _, _|].
    intros e eta w' [= <- _ _]. destruct Hfu as (_ & _ & Hv). by inversion Hv.
  - destruct (put_new d u fuel request options now n) as (c & _ & Heq); try done. unfold returns. rewrite Heq.
    destruct (_ <=? _); [split; [right; by eexists _, _|done]|].
    destruct (admit_checks _ _ _) as [err|[]]; (split; [|by intros e eta w' [= <- _ _]]);
      [right|left]; by eexists _, _.
Qed.

Lemma edit_returns d u o now :
  disk_wf d -> match o with Bump _ | Bust _ | Del _ => True | _ => False end ->
  returns (perform o now) (World d [] u).
Proof.
  intros Hwf Ho. destruct o as [|wanted|wanted|wanted| | | | |]; try done; cbn [perform];
    destruct (find_named d u wanted Hwf) as [(e & He & <-)|[_ [err Hf]]].
  - destruct (bump_quiet d u e Hwf He) as (d' & Hrun & _). left. by eexists _, _.
  - right. exists err, (World d [] u). unfold bump, reorder. erewrite bind_done by by apply entries_wf.
    by apply bind_failed.
  - destruct (bust_quiet d u e Hwf He) as (d' & Hrun & _). left. by eexists _, _.
  - right. exists err, (World d [] u). unfold bust, reorder. erewrite bind_done by by apply entries_wf.
    by apply bind_failed.
  - destruct (del_quiet d u e Hwf He) as (b & d' & _ & Hrun & _). left. by eexists _, _.
  - right. exists err, (World d [] u). unfold del. by apply bind_failed.
Qed.

Lemma returns_done {A} (m : M A) w a w' : m w = (Done a, w') -> returns m w.
Proof. intros Hm. left. by eexists _, _. Qed.

Lemma returns_bind {A B} (m : M A) (f : A -> B) w : returns m w -> returns (bind m (fun a => ret (f a))) w.
Proof.
  intros [(a & w' & Hm)|(e & w' & Hm)]; unfold returns, bind; rewrite Hm; [left|right]; by eexists _, _.
Qed.

Lemma release_returns d u wanted token now :
  disk_wf d -> is_u64 now -> returns (release_claim wanted token now) (World d [] u).
Proof.
  intros Hwf Hnow. destruct (find_named d u wanted Hwf) as [(e & He & <-)|[_ [err Hf]]].
  - destruct (decide (StoredEntry.claim_token e = Some token)) as [Htok|Htok].
    + destruct (release_claim_quiet d u e token now Hwf He Htok Hnow) as (d' & Hrun & _). by eapply returns_done.
    + eapply returns_done. by apply release_claim_stale.
  - unfold returns, release_claim. rewrite (bind_done _ _ _ _ _ (attempt_failed _ _ _ _ Hf)). cbn beta iota.
    destruct err; ((left; by eexists _, _) || (right; by eexists _, _)).
Qed.

Lemma fail_returns d u e token_hash now error :
  disk_wf d -> returns (perform (Fail e token_hash error) now) (World d [] u).
Proof.
  intros Hwf. set (r := failed_record e token_hash now error u).
  change (returns (fun _ => append HISTORY_FILE r (World d [] (S u))) (World d [] u)).
  unfold returns. destruct (record_to_vec r) as [b|] eqn:Hb.
  - destruct (append_quiet d (S u) HISTORY_FILE r b Hb) as (d' & v & Hrun & _); [apply (wf_root d Hwf)|].
    left. eexists _, _. exact Hrun.
  - right. unfold append, bind. rewrite Hb. by eexists _, _.
Qed.

(** Every operation answers. *)
Lemma answer_returns d u now o :
  disk_wf d -> allowed d now o -> nameable d now o -> returns (Spec.answer o now) (World d [] u).
Proof.
  intros Hwf [Hnow Hal] Hname.
  destruct o as [fuel request options|wanted|wanted|wanted|cooldown|wanted token|e h url|e h x|];
    cbn [Spec.answer]; apply returns_bind.
  - destruct Hname as (n & r & Hfu & Hn), Hal as (Hr & Ho & _). by eapply put_returns.
  - by apply edit_returns.
  - by apply edit_returns.
  - by apply edit_returns.
  - destruct (claim_next_due_quiet d u cooldown now Hwf) as (r & w & Hrun & _). by eapply returns_done.
  - by apply release_returns.
  - cbn [perform]. destruct (complete_claim_succeeds d e h now url Hal u) as ([] & d' & v & Hrun & _). by eapply returns_done.
  - by apply fail_returns.
  - destruct (recover_quiet d u Hwf Hal) as (d' & u' & Hrun & _). by eapply returns_done.
Qed.
End returns.
