(* ===== verification/Queue.v ===== *)
(** Shared queue state ([queue.rs], [queue/store_access.rs], [queue/history.rs],
    [queue/await_lookup.rs]): the store with the await projection cache, the
    published state version and the worker's change permit, and the operations
    the listener and the worker call.

    Each operation runs under the store lock, so a state is what is seen between
    two lock acquisitions.  The wall clock is part of the state; the random
    flutter is an argument. *)

From S2P Require Import Prelude Text Protocol Disk Entry Order Bounds Schedule History Store.

Definition HISTORY_READ_PAGE_SIZE : Z := 64.

(** One projection shared by all waiters for a state version and clock second. *)
Record AwaitSchedule := Projection { built_at : Z; etas : gmap string Z }.

Record queue := Queue {
  q_world : world;
  await_schedule : option AwaitSchedule;
  state_version : Z;
  q_now : Z;         (** [clock.unix_now()] *)
  q_permit : bool;   (** the permit [Notify::notify_one] buffers for the worker *)
}.

(** Daemon configuration read by the queue and the worker. *)
Module Config.
Record t := mk {
  cooldown_period_seconds : Z;
  cooldown_flutter_seconds : Z;
  github_api_timeout_secs : Z;
}.
End Config.

(** * The two layers of state under the lock *)

(** [QueueState]: the store and the cached projection. *)
Definition CM (A : Type) : Type :=
  world * option AwaitSchedule -> outcome A * (world * option AwaitSchedule).

Definition cret {A} (a : A) : CM A := fun s => (Done a, s).
Definition cthrow {A} (e : StoreError) : CM A := fun s => (Failed e, s).
Definition cbind {A B} (m : CM A) (k : A -> CM B) : CM B := fun s =>
  match m s with
  | (Done a, s) => k a s
  | (Failed e, s) => (Failed e, s)
  | (Crashed, s) => (Crashed, s)
  | (Diverged, s) => (Diverged, s)
  end.
(** Work on the store alone. *)
Definition on_store {A} (m : M A) : CM A := fun s =>
  let '(o, w) := m s.1 in (o, (w, s.2)).
Definition set_cache (c : option AwaitSchedule) : CM unit := fun s => (Done tt, (s.1, c)).
Definition get_cache : CM (option AwaitSchedule) := fun s => (Done s.2, s).

(** [SharedQueue]. *)
Definition QM (A : Type) : Type := queue -> outcome A * queue.
Definition qret {A} (a : A) : QM A := fun q => (Done a, q).
Definition qthrow {A} (e : StoreError) : QM A := fun q => (Failed e, q).
Definition qbind {A B} (m : QM A) (k : A -> QM B) : QM B := fun q =>
  match m q with
  | (Done a, q) => k a q
  | (Failed e, q) => (Failed e, q)
  | (Crashed, q) => (Crashed, q)
  | (Diverged, q) => (Diverged, q)
  end.
(** Run [m], keeping its [Result] for inspection. *)
Definition qattempt {A} (m : QM A) : QM (result StoreError A) := fun q =>
  match m q with
  | (Done a, q) => (Done (Ok a), q)
  | (Failed e, q) => (Done (Err e), q)
  | (Crashed, q) => (Crashed, q)
  | (Diverged, q) => (Diverged, q)
  end.
Definition qlift {A} (r : result StoreError A) : QM A :=
  match r with Ok a => qret a | Err e => qthrow e end.
(** [self.clock.unix_now()]. *)
Definition unix_now : QM Z := fun q => (Done (q_now q), q).

Declare Scope queue_scope.
Delimit Scope queue_scope with queue.
Notation "'let>' x := m 'in' k" := (qbind m (fun x => k))
  (at level 10, x name, m at level 100, k at level 200) : queue_scope.
Notation "'let>' ( x , y ) := m 'in' k" := (qbind m (fun p => let '(x, y) := p in k))
  (at level 10, x name, y name, m at level 100, k at level 200) : queue_scope.
Notation "'let:' x := m 'in' k" := (cbind m (fun x => k))
  (at level 10, x name, m at level 100, k at level 200) : queue_scope.
Open Scope queue_scope.

(** Operations that can alter an await lookup or its projected schedule. *)
Definition is_state_mutation (operation : string) : bool :=
  existsb (String.eqb operation)
    ["put"; "bump"; "bust"; "del"; "claim_next_due"; "complete"; "release_claim";
     "recover_worker_state"].

(** [u64::wrapping_add]. *)
Definition wrapping_succ (v : Z) : Z := (v + 1) mod 2 ^ 64.

(** Run work under the lock; a mutation that succeeded drops the projection and
    publishes a new state version before the lock is released. *)
Definition with_state {A} (operation : string) (work : CM A) : QM A := fun q =>
  match work (q_world q, await_schedule q) with
  | (Done a, (w, c)) =>
      if is_state_mutation operation
      then (Done a, Queue w None (wrapping_succ (state_version q)) (q_now q) (q_permit q))
      else (Done a, Queue w c (state_version q) (q_now q) (q_permit q))
  | (Failed e, (w, c)) => (Failed e, Queue w c (state_version q) (q_now q) (q_permit q))
  | (Crashed, (w, c)) => (Crashed, Queue w c (state_version q) (q_now q) (q_permit q))
  | (Diverged, (w, c)) => (Diverged, Queue w c (state_version q) (q_now q) (q_permit q))
  end.
Definition with_store {A} (operation : string) (work : M A) : QM A :=
  with_state operation (on_store work).

(** [Notify::notify_one]. *)
Definition notify_one : QM unit := fun q =>
  (Done tt, Queue (q_world q) (await_schedule q) (state_version q) (q_now q) true).

(** * The clock and the flutter *)

(** Seconds since the epoch, when the clock is not before it. *)
Definition system_unix_now (since_epoch : option Z) : Z := default 0 since_epoch.

(** [RandomFlutterSampler::sample]; [drawn] is what [random_range(0..=maximum)] gives. *)
Definition sample_flutter (drawn maximum : Z) : Z := if maximum =? 0 then 0 else drawn.

(** A draw from its range is kept by the limit that [put] applies. *)
Lemma sample_flutter_within drawn maximum :
  0 <= maximum -> 0 <= drawn <= maximum ->
  0 <= sample_flutter drawn maximum <= maximum /\ Z.min (sample_flutter drawn maximum) maximum = sample_flutter drawn maximum.
Proof. unfold sample_flutter. destruct (Z.eqb_spec maximum 0); lia. Qed.

(** * Validation *)

Definition is_component_byte (c : ascii) : bool :=
  is_ascii_alphanumeric c || (code c =? 46) || (code c =? 95) || (code c =? 45).

(** Whether a GitHub owner or repository name is safe at this boundary. *)
Definition is_safe_repository_component (component : string) : bool :=
  negb (String.eqb component "") && negb (String.eqb component ".")
  && negb (String.eqb component "..") && forallb is_component_byte (bytes_of component).

Definition validate_request (request : CommentRequest.t) : result StoreError unit :=
  if negb (is_safe_repository_component (CommentRequest.owner request))
  then Err (InvalidRepositoryComponent "owner")
  else if negb (is_safe_repository_component (CommentRequest.repo request))
  then Err (InvalidRepositoryComponent "name")
  else Ok tt.

Module SharedQueue.
Section operations.
Context `{Platform} `{SerdeJson} (cfg : Config.t).

(** Refresh the gauges from persisted data; a failure is only logged. *)
Definition update_queue_gauges : QM unit :=
  let> _ := qattempt (with_store "queue_metrics_snapshot" queue_metrics_snapshot) in
  qret tt.

(** Run [m]; refresh the gauges when it succeeded. *)
Definition then_gauges {A} (m : QM A) : QM A :=
  let> a := m in
  let> _ := update_queue_gauges in
  qret a.

Definition mutation_finished : QM unit :=
  let> _ := update_queue_gauges in
  notify_one.

(** * Worker operations *)

Definition next_due : QM (option (StoredEntry.t * Z)) :=
  let> now := unix_now in
  with_store "next_due" (Store.next_due (Config.cooldown_period_seconds cfg) now).

Definition claim_next_due : QM (option (StoredEntry.t * Z)) :=
  let> now := unix_now in
  let> r := with_store "claim_next_due"
              (Store.claim_next_due (Config.cooldown_period_seconds cfg) now) in
  match r with
  | Some (_, wait) => if wait =? 0 then let> _ := update_queue_gauges in qret r else qret r
  | None => qret r
  end.

Definition recover_worker_state : QM unit :=
  then_gauges (with_store "recover_worker_state" Store.recover_worker_state).

Definition complete (entry : StoredEntry.t) (token_hash comment_url : string) : QM unit :=
  let> now := unix_now in
  then_gauges (with_store "complete"
    (complete_claim_with_token entry token_hash now (Some comment_url))).

Definition release_claim (id claim_token : string) : QM unit :=
  let> attempted_at := unix_now in
  then_gauges (with_store "release_claim" (Store.release_claim id claim_token attempted_at)).

(** * Client operations *)

(** [fuel] bounds the identifier collisions; [sampled] is what the flutter
    sampler returned. *)
Definition put (fuel : nat) (request : CommentRequest.t) (immediate : bool) (sampled : Z)
    : QM (StoredEntry.t * Z) :=
  let> _ := qlift (validate_request request) in
  let flutter_max := Config.cooldown_flutter_seconds cfg in
  let flutter_seconds := Z.min sampled flutter_max in
  let> now := unix_now in
  let> r := with_store "put"
    (put_with_eta fuel request
       (PutOptions.mk (Config.cooldown_period_seconds cfg) flutter_seconds immediate) now) in
  let> _ := mutation_finished in
  qret r.

Definition list : QM (list (StoredEntry.t * Z)) :=
  let> now := unix_now in
  with_store "list" (schedule (Config.cooldown_period_seconds cfg) now).

Definition mutate_entry (operation id : string) (mutate : string -> M unit) : QM unit :=
  let> r := with_store operation (mutate id) in
  let> _ := mutation_finished in
  qret r.

Definition bump (id : string) : QM unit := mutate_entry "bump" id Store.bump.
Definition bust (id : string) : QM unit := mutate_entry "bust" id Store.bust.
Definition del (id : string) : QM unit := mutate_entry "del" id Store.del.

(** * History *)

Definition append_history (record : HistoryRecord.t) : QM unit :=
  with_store "append_history" (append HISTORY_FILE record).

(** The record draws its UUID before the lock is taken. *)
Definition record_failure (entry : StoredEntry.t) (token_hash error : string) : QM unit :=
  let> now := unix_now in
  let> record := (fun q =>
    let '(o, w) := History.record_failure entry token_hash now error (q_world q) in
    (o, Queue w (await_schedule q) (state_version q) (q_now q) (q_permit q))) in
  append_history record.

(** Hash of the token used by the most recent posting attempt, if present. *)
Definition last_token_hash : QM (option string) :=
  with_store "latest_history_token"
    (let* page := read_page HISTORY_FILE None (Some 1) 1 in
     ret ((fun item => HistoryRecord.token_hash (HistoryRecordAt.record item))
            <$> last (HistoryPage.records page))).

Definition history_page (limit : option Z) (position : option HistoryPosition.t)
    : QM HistoryPage.t :=
  with_store "history" (read_page HISTORY_FILE position limit HISTORY_READ_PAGE_SIZE).

(** * Awaiting *)

(** The projected wait of [id], rebuilt at most once per clock second. *)
Definition cached_eta (id : string) (cooldown now : Z) : CM Z :=
  let: cache := get_cache in
  let: _ :=
    (if match cache with Some p => negb (built_at p =? now) | None => true end
     then
       let: s := on_store (schedule cooldown now) in
       set_cache (Some (Projection now
         (list_to_map (rev ((fun x => (StoredEntry.id x.1, x.2)) <$> s)))))
     else cret tt) in
  let: cache := get_cache in
  cret (match cache with
        | Some p => default 0 (etas p !! id)
        | None => 0
        end).

(** Resolve a matching queued lifetime without consulting the history log. *)
Definition resolve_await_pending_with_eta (wanted : string) (cursor : option AwaitCursor.t)
    (eta : StoredEntry.t -> CM Z) : CM (option AwaitState) :=
  let: f := on_store (attempt (find wanted)) in
  match f with
  | Ok entry =>
      if match cursor with
         | Some c => bool_decide (AwaitCursor.incarnation c = StoredEntry.incarnation entry)
         | None => true
         end
      then
        let: eta_seconds := eta entry in
        let: s := on_store (pending_await_state entry cursor eta_seconds) in
        cret (Some s)
      else cret None
  | Err (UnknownId _) => cret None
  | Err e => cthrow e
  end.

(** Resolve only the selected pending lifetime while the queue is locked. *)
Definition resolve_pending (id : string) (cursor : option AwaitCursor.t) (cooldown now : Z)
    : CM (option AwaitState) :=
  resolve_await_pending_with_eta id cursor
    (fun entry => cached_eta (StoredEntry.id entry) cooldown now).

(** The published version and the pending state, seen under one lock. *)
Definition observe_await_state (id : string) (cursor : option AwaitCursor.t)
    : QM (Z * option AwaitState) :=
  let> now := unix_now in
  let> generation := (fun q => (Done (state_version q), q)) in
  let> pending := with_state "resolve_await"
    (resolve_pending id cursor (Config.cooldown_period_seconds cfg) now) in
  qret (generation, pending).

(** The unlocked history scan; its result is inspected after the recheck. *)
Definition scan_await_history (id : string) (cursor : option AwaitCursor.t)
    : QM (result StoreError AwaitState) := fun q =>
  let '(o, w) := attempt (resolve_await_completion id cursor) (q_world q) in
  (o, Queue w (await_schedule q) (state_version q) (q_now q) (q_permit q)).

(** What other tasks do to the queue while the lock is free. *)
Definition interleave (f : queue -> queue) : QM unit := fun q => (Done tt, f q).

(** The loop of [resolve_await_store_with_history].  [turns] holds, for every
    turn, what happens before the scan and between the scan and the recheck;
    after the last one nothing else runs. *)
Fixpoint resolve_await_store (turns : Datatypes.list ((queue -> queue) * (queue -> queue)))
    (id : string) (cursor : option AwaitCursor.t) : QM AwaitState :=
  let> (observed, pending) := observe_await_state id cursor in
  match pending with
  | Some pending => qret pending
  | None =>
      let> _ := interleave (match turns with t :: _ => t.1 | [] => fun q => q end) in
      let> completed := scan_await_history id cursor in
      let> _ := interleave (match turns with t :: _ => t.2 | [] => fun q => q end) in
      let> (current, pending) := observe_await_state id cursor in
      match pending with
      | Some pending => qret pending
      | None =>
          if current =? observed then qlift completed
          else match turns with
               | _ :: turns => resolve_await_store turns id cursor
               | [] => fun q => (Diverged, q)
               end
      end
  end.

(** [AwaitOutcome] is [AwaitState] with the cursor wrapped as an opaque token;
    the error of a lookup is a bounded label. *)
Inductive AwaitError := InvalidIdentifier | QueueLookup (category : string).

Definition await_error (e : StoreError) : AwaitError :=
  match e with
  | InvalidId _ => InvalidIdentifier
  | other => QueueLookup (category other)
  end.

Definition resolve_await (turns : Datatypes.list ((queue -> queue) * (queue -> queue)))
    (id : string) (token : option AwaitCursor.t) : QM (result AwaitError AwaitState) :=
  let> r := qattempt (resolve_await_store turns id token) in
  qret (match r with Ok s => Ok s | Err e => Err (await_error e) end).
End operations.
End SharedQueue.

(** * Subscriptions *)

(** [StateSubscription]: a receiver of the published versions.  Every publication
    changes the version, so a receiver is a version it has seen. *)
Module StateSubscription.
Record t := mk { seen : Z }.

Definition subscribe_state : QM t := fun q => (Done (mk (state_version q)), q).

(** Mark the current version as observed before the first lookup. *)
Definition mark_seen (_ : t) : QM t := fun q => (Done (mk (state_version q)), q).

(** [changed] is ready when the published version is not the one seen, and marks it
    as seen. *)
Definition changed (s : t) : QM (option t) := fun q =>
  (Done (if state_version q =? seen s then None else Some (mk (state_version q))), q).
End StateSubscription.
