(* ===== verification/Waits.v ===== *)
(** The waits of the worker and its request to GitHub ([worker.rs],
    [wait_for_retry_deadline], [wait_for_scheduled_entry], [post_comment],
    [retry_deadline]) on a monotonic clock.

    A task runs when it is polled.  The polls of a wait say how much time has passed
    since the poll before, what other tasks did to the queue meanwhile and whether
    shutdown was signalled; a wait that is not over after the last of them is not
    observed any longer.  Within a poll no time passes.  Timers are tokio's: when a
    timer is ready is a parameter, with its documented laws. *)

From S2P Require Import Prelude Text Protocol Disk Queue.

(** * Instants *)

(** Nanoseconds on the monotonic clock. *)
Definition NANOS : Z := 10 ^ 9.
(** The first instant that does not fit: whole seconds are an [i64]. *)
Definition INSTANT_LIMIT : Z := 2 ^ 63 * NANOS.

(** [Instant::checked_add] with a duration in whole seconds. *)
Definition checked_add (now seconds : Z) : option Z :=
  let t := now + seconds * NANOS in
  if t <? INSTANT_LIMIT then Some t else None.

(** A century. *)
Definition RETRY_OVERFLOW_FALLBACK : Z := 100 * 365 * 24 * 60 * 60.

(** Calculate a retry deadline without panicking on an unrepresentable cooldown. *)
Definition retry_deadline (now cooldown : Z) : Z :=
  match checked_add now cooldown with
  | Some deadline => deadline
  | None => match checked_add now RETRY_OVERFLOW_FALLBACK with Some deadline => deadline | None => now end
  end.

(** [tokio::time]: whether a timer of [duration] nanoseconds that was set at
    [started] is ready at [now]. *)
Class Timer := { ready : Z -> Z -> Z -> bool }.

(** A timer is never early, for durations that fit; it is late by less than the
    resolution of the timer wheel, a millisecond; it takes time at all. *)
Class TimerOk `{Timer} := {
  ready_late : forall started duration now,
    started + duration < INSTANT_LIMIT -> ready started duration now = true -> started + duration <= now;
  ready_soon : forall started duration now,
    started + duration + 10 ^ 6 <= now -> ready started duration now = true;
  ready_takes_time : forall started duration, 0 < duration -> ready started duration started = false;
}.

(** * Polls *)

Record poll := Poll {
  p_elapsed : N;
  p_others : queue -> queue;
  p_shutdown : bool;
}.

Definition later (at_ : Z) (elapsed : N) : Z := at_ + Z.of_N elapsed.

(** [Notify::notified] is ready when a permit is buffered, and takes it. *)
Definition notified : QM bool := fun q =>
  (Done (q_permit q), Queue (q_world q) (await_schedule q) (state_version q) (q_now q) false).

(** How a wait ends for the loop: with a shutdown, with another turn, or not while
    it is observed. *)
Inductive wait_end := Stop | Again | Unfinished.

Inductive wake := Shutdown | Changed | Elapsed.

(** The branches of a biased [select!], in order: shutdown, a change, the timer.
    A change is already there when the permit was taken before ([enabled]). *)
Definition select (enabled : bool) (timer : Z -> bool) (now : Z) (p : poll) : QM (option wake) :=
  let> _ := SharedQueue.interleave (p_others p) in
  if p_shutdown p then qret (Some Shutdown)
  else
    let> changed := (if enabled then qret true else notified) in
    qret (if changed : bool then Some Changed else if timer now then Some Elapsed else None).

(** * Waits *)

Section waits.
Context `{Timer}.

(** Wait for a failed post's retry deadline while still consuming queue changes.
    [sleep] is the timer the loop waits on: when it was set, and for how long. *)
Fixpoint retry_loop (deadline : Z) (sleep : option (Z * Z)) (at_ : Z) (polls : list poll)
    : QM (wait_end * Z) :=
  let '(set_at, remaining) := default (at_, Z.max 0 (deadline - at_)) sleep in
  if remaining =? 0 then qret (Again, at_)
  else
    match polls with
    | [] => qret (Unfinished, at_)
    | p :: polls =>
        let now := later at_ (p_elapsed p) in
        let> w := select false (ready set_at remaining) now p in
        match w with
        | Some Shutdown => qret (Stop, now)
        | Some Changed => retry_loop deadline None now polls
        | Some Elapsed => qret (Again, now)
        | None => retry_loop deadline (Some (set_at, remaining)) now polls
        end
    end.
Definition wait_for_retry_deadline (deadline at_ : Z) (polls : list poll) : QM (wait_end * Z) :=
  retry_loop deadline None at_ polls.

(** A [select!] that ends the wait with its first branch that is ready. *)
Fixpoint select_loop (enabled : bool) (timer : Z -> bool) (at_ : Z) (polls : list poll)
    : QM (wait_end * Z) :=
  match polls with
  | [] => qret (Unfinished, at_)
  | p :: polls =>
      let now := later at_ (p_elapsed p) in
      let> w := select enabled timer now p in
      match w with
      | Some Shutdown => qret (Stop, now)
      | Some Changed | Some Elapsed => qret (Again, now)
      | None => select_loop enabled timer now polls
      end
  end.

(** Wait for a scheduled entry while allowing queue changes to wake the worker.
    [enable] takes a permit that is buffered. *)
Definition wait_for_scheduled_entry (wait_seconds at_ : Z) (polls : list poll) : QM (wait_end * Z) :=
  let> enabled := notified in
  select_loop enabled (ready at_ (wait_seconds * NANOS)) at_ polls.

(** Wait on the empty queue, where no timer runs. *)
Definition wait_for_change (at_ : Z) (polls : list poll) : QM (wait_end * Z) :=
  select_loop false (fun _ => false) at_ polls.

(** * The request to GitHub *)

Inductive PostCommentError := Api (text : string) | Timeout.
Definition post_error_text (e : PostCommentError) : string :=
  match e with Api text => text | Timeout => "timeout" end.

(** A poll of the request: what other tasks did, and the reply if it is there. *)
Record answer := Answer {
  a_elapsed : N;
  a_others : queue -> queue;
  a_reply : option (result string string);
}.

(** Submit a comment with the API deadline; a reply that is there wins over it. *)
Fixpoint post_comment (timeout set_at at_ : Z) (answers : list answer)
    : QM (option (result PostCommentError string) * Z) :=
  match answers with
  | [] => qret (None, at_)
  | a :: answers =>
      let now := later at_ (a_elapsed a) in
      let> _ := SharedQueue.interleave (a_others a) in
      match a_reply a with
      | Some (Ok html_url) => qret (Some (Ok html_url), now)
      | Some (Err text) => qret (Some (Err (Api text)), now)
      | None =>
          if ready set_at (timeout * NANOS) now then qret (Some (Err Timeout), now)
          else post_comment timeout set_at now answers
      end
  end.
End waits.

(** The outcome label of a request. *)
Definition post_outcome (r : result PostCommentError string) : string :=
  match r with
  | Ok _ => "success"
  | Err (Api _) => "api_error"
  | Err Timeout => "timeout"
  end.

(** * How waits end *)

(** The queue with its permit taken. *)
Definition taken (q : queue) : queue :=
  Queue (q_world q) (await_schedule q) (state_version q) (q_now q) false.

(** What a wait keeps: what the other tasks keep, permit aside. *)
Definition kept_by {X} (others : X -> queue -> queue) (l : list X) (P : queue -> Prop) : Prop :=
  (forall x q, x ∈ l -> P q -> P (others x q)) /\ forall q, P q -> P (taken q).

Lemma kept_by_tail {X} (others : X -> queue -> queue) x l P :
  kept_by others (x :: l) P -> kept_by others l P.
Proof. intros [Ho Ht]. split; [|done]. intros y q Hy. apply Ho. by right. Qed.

(** The time at the last poll. *)
Definition last_poll (at_ : Z) (polls : list poll) : Z :=
  foldl (fun t p => later t (p_elapsed p)) at_ polls.

Lemma later_le at_ n : at_ <= later at_ n.
Proof. unfold later. lia. Qed.

(** The state after a branch of [select!], and why the branch was taken. *)
Lemma select_spec enabled timer now p q :
  exists w q1, select enabled timer now p q = (Done w, q1)
    /\ (q1 = p_others p q \/ q1 = taken (p_others p q))
    /\ match w with
       | Some Shutdown => p_shutdown p = true
       | Some Changed => p_shutdown p = false /\ (enabled = true \/ q_permit (p_others p q) = true)
       | Some Elapsed => p_shutdown p = false /\ timer now = true
       | None => p_shutdown p = false /\ timer now = false /\ enabled = false
                 /\ q_permit (p_others p q) = false
       end.
Proof.
  unfold select, qbind, SharedQueue.interleave. destruct (p_shutdown p) eqn:Hs.
  { eexists _, _. split; [done|]. by split; [left|]. }
  destruct enabled.
  { eexists _, _. split; [done|]. split; [by left|]. split; [done|by left]. }
  unfold notified. eexists _, _. split; [done|]. split; [by right|].
  destruct (q_permit (p_others p q)) eqn:Hp; [split; [done|by right]|].
  destruct (timer now) eqn:Ht; by split_and!.
Qed.

Lemma select_kept {p q q1 P polls} :
  q1 = p_others p q \/ q1 = taken (p_others p q) -> kept_by p_others (p :: polls) P -> P q -> P q1.
Proof. intros [-> | ->] [Ho Ht] HP; [|apply Ht]; apply Ho; auto; by left. Qed.

Section ends.
Context `{Timer} `{!TimerOk}.

(** A set timer of the retry loop runs to the deadline, and was not ready yet. *)
Definition towards (deadline at_ : Z) (sleep : option (Z * Z)) : Prop :=
  forall set_at remaining, sleep = Some (set_at, remaining) ->
    set_at + remaining = deadline /\ remaining <> 0 /\ at_ < deadline + 10 ^ 6.

Lemma retry_loop_returns deadline polls : forall sleep at_ q,
  exists e t q', retry_loop deadline sleep at_ polls q = (Done (e, t), q')
    /\ at_ <= t /\ forall P, kept_by p_others polls P -> P q -> P q'.
Proof.
  induction polls as [|p polls IH]; intros sleep at_ q.
  all: cbn [retry_loop]; destruct (default (at_, Z.max 0 (deadline - at_)) sleep) as [set_at remaining].
  all: destruct (remaining =? 0); [by eexists _, _, _|].
  { by eexists _, _, _. }
  set (now := later at_ (p_elapsed p)). assert (Hle : at_ <= now) by apply later_le.
  destruct (select_spec false (ready set_at remaining) now p q) as (w & q1 & Hsel & Hq1 & _).
  assert (Hone : forall P, kept_by p_others (p :: polls) P -> P q -> P q1)
    by (intros P HP HQ; by eapply select_kept).
  assert (Hgo : forall sleep, exists e t q', retry_loop deadline sleep now polls q1 = (Done (e, t), q')
    /\ at_ <= t /\ forall P, kept_by p_others (p :: polls) P -> P q -> P q').
  { intros sl. destruct (IH sl now q1) as (e & t & q' & Hrun & Hat & Hk). exists e, t, q'.
    split_and!; [done|lia|]. intros P HP HQ. eapply Hk; [by eapply kept_by_tail|by apply Hone]. }
  unfold qbind. rewrite Hsel. destruct w as [[]|]; [by eexists _, _, _|apply Hgo|by eexists _, _, _|apply Hgo].
Qed.

Lemma retry_loop_times deadline polls : forall sleep at_ q,
  deadline < INSTANT_LIMIT -> towards deadline at_ sleep ->
  exists e t q', retry_loop deadline sleep at_ polls q = (Done (e, t), q')
    /\ (e = Again -> deadline <= t)
    /\ (e = Stop -> Exists (fun p => p_shutdown p = true) polls)
    /\ (Forall (fun p => p_shutdown p = false) polls -> deadline + 10 ^ 6 <= last_poll at_ polls -> e = Again).
Proof.
  induction polls as [|p polls IH]; intros sleep at_ q Hd Ht.
  all: cbn [retry_loop]; destruct (default (at_, Z.max 0 (deadline - at_)) sleep) as [set_at remaining] eqn:Hdef.
  all: assert (Hrun : remaining = 0 /\ deadline <= at_
      \/ remaining <> 0 /\ set_at + remaining = deadline /\ at_ < deadline + 10 ^ 6)
    by (destruct sleep as [[s r]|]; cbn in Hdef; injection Hdef as <- <-;
        [right; by destruct (Ht _ _ eq_refl) as (? & ? & ?)|destruct (Z.le_gt_cases deadline at_); [left|right]; lia]).
  all: destruct (Z.eqb_spec remaining 0) as [Hz|Hz];
    [eexists _, _, _; split; [done|]; split_and!; [lia|done|done]|].
  { eexists _, _, _. split; [done|]. split_and!; [done|done|]. intros _. cbn [last_poll foldl]. lia. }
  destruct Hrun as [[]|(_ & Hrun & _)]; [done|]. set (now := later at_ (p_elapsed p)).
  destruct (select_spec false (ready set_at remaining) now p q) as (w & q1 & Hsel & _ & Hw).
  assert (Hgo : forall sleep, towards deadline now sleep ->
    exists e t q', retry_loop deadline sleep now polls q1 = (Done (e, t), q') /\ (e = Again -> deadline <= t)
    /\ (e = Stop -> Exists (fun p => p_shutdown p = true) (p :: polls))
    /\ (Forall (fun p => p_shutdown p = false) (p :: polls) ->
        deadline + 10 ^ 6 <= last_poll at_ (p :: polls) -> e = Again)).
  { intros sl Hsl. destruct (IH sl now q1 Hd Hsl) as (e & t & q' & Hr & Hag & Hst & Hend). exists e, t, q'.
    split_and!; [done|done|by right; apply Hst|]. intros Hf. apply Forall_cons_1 in Hf as [_ Hf]. by apply Hend. }
  unfold qbind. rewrite Hsel. destruct w as [[]|].
  - eexists _, _, _. split; [done|]. split_and!; [done|by left|].
    intros Hf. apply Forall_cons_1 in Hf as [Hf _]. congruence.
  - by apply Hgo.
  - eexists _, _, _. split; [done|]. split_and!; [|done|done].
    intros _. rewrite <- Hrun. apply (ready_late set_at remaining now); [lia|apply Hw].
  - apply Hgo. intros ? ? [= <- <-]. split_and!; [done|done|].
    destruct (Z.lt_ge_cases now (deadline + 10 ^ 6)) as [|Hge]; [done|].
    destruct Hw as (_ & Hw & _). rewrite ready_soon in Hw; [done|lia].
Qed.

Lemma select_loop_spec enabled timer polls : forall at_ q,
  exists e t q', select_loop enabled timer at_ polls q = (Done (e, t), q')
    /\ at_ <= t
    /\ (forall p rest, polls = p :: rest -> p_shutdown p = false ->
          enabled = true \/ q_permit (p_others p q) = true -> e = Again)
    /\ forall P, kept_by p_others polls P -> P q -> P q'.
Proof.
  induction polls as [|p polls IH]; intros at_ q; cbn [select_loop].
  { eexists _, _, _. split; [done|]. by split_and!. }
  pose proof (later_le at_ (p_elapsed p)) as Hle. set (now := later at_ (p_elapsed p)) in *.
  destruct (select_spec enabled timer now p q) as (w & q1 & Hsel & Hq1 & Hw).
  unfold qbind. rewrite Hsel. destruct w as [[]|].
  - eexists _, _, _. split; [done|]. split_and!; [lia|by intros ? ? [= <- <-]; congruence|].
    intros P HP HQ. by eapply select_kept.
  - eexists _, _, _. split; [done|]. split_and!; [lia|done|]. intros P HP HQ. by eapply select_kept.
  - eexists _, _, _. split; [done|]. split_and!; [lia|done|]. intros P HP HQ. by eapply select_kept.
  - destruct Hw as (_ & _ & -> & Hno). destruct (IH now q1) as (e & t & q' & Hrun & Hat & _ & Hk).
    exists e, t, q'. rewrite Hrun. split; [done|]. split_and!; [lia| |].
    + intros ? ? [= <- <-] _ [?|?]; congruence.
    + intros P HP HQ. eapply Hk; [by eapply kept_by_tail|by eapply select_kept].
Qed.

Lemma post_comment_kept timeout set_at answers : forall at_ q,
  exists r t q', post_comment timeout set_at at_ answers q = (Done (r, t), q')
    /\ at_ <= t /\ forall P, kept_by a_others answers P -> P q -> P q'.
Proof.
  induction answers as [|a answers IH]; intros at_ q; cbn [post_comment].
  { by eexists _, _, _. }
  pose proof (later_le at_ (a_elapsed a)) as Hle. set (now := later at_ (a_elapsed a)) in *.
  unfold qbind, SharedQueue.interleave.
  assert (Hone : forall P, kept_by a_others (a :: answers) P -> P q -> P (a_others a q))
    by (intros P [Ho _]; apply Ho; by left).
  destruct (a_reply a) as [[text|url]|]; [by eexists _, _, _..|].
  destruct (ready set_at (timeout * NANOS) now); [by eexists _, _, _|].
  destruct (IH now (a_others a q)) as (r & t & q' & Hrun & Hat & Hk). exists r, t, q'. rewrite Hrun.
  split_and!; [done|lia|]. intros P HP HQ. eapply Hk; [by eapply kept_by_tail|by apply Hone].
Qed.

(** A timeout is not early. *)
Lemma post_comment_times timeout set_at answers : forall at_ q t q',
  post_comment timeout set_at at_ answers q = (Done (Some (Err Timeout), t), q') ->
  set_at + timeout * NANOS < INSTANT_LIMIT -> set_at + timeout * NANOS <= t.
Proof.
  induction answers as [|a answers IH]; intros at_ q t q'; cbn [post_comment]; [done|].
  unfold qbind, SharedQueue.interleave. destruct (a_reply a) as [[text|url]|]; try done.
  destruct (ready set_at (timeout * NANOS) _) eqn:Hr; [|apply IH].
  intros [= <- _] Hfit. by apply ready_late.
Qed.
End ends.

(** * Deadlines *)

Lemma retry_deadline_fits now cooldown : now < INSTANT_LIMIT -> retry_deadline now cooldown < INSTANT_LIMIT.
Proof.
  intros Hn. unfold retry_deadline, checked_add. cbn zeta.
  destruct (Z.ltb_spec (now + cooldown * NANOS) INSTANT_LIMIT); [done|].
  destruct (Z.ltb_spec (now + RETRY_OVERFLOW_FALLBACK * NANOS) INSTANT_LIMIT); done.
Qed.

(** The cooldown, or a century where it does not fit. *)
Lemma retry_deadline_least now cooldown :
  now + RETRY_OVERFLOW_FALLBACK * NANOS < INSTANT_LIMIT ->
  now + Z.min cooldown RETRY_OVERFLOW_FALLBACK * NANOS <= retry_deadline now cooldown.
Proof.
  intros Hn. unfold retry_deadline, checked_add, NANOS in *. cbn zeta.
  destruct (Z.ltb_spec (now + cooldown * 10 ^ 9) INSTANT_LIMIT); [lia|].
  destruct (Z.ltb_spec (now + RETRY_OVERFLOW_FALLBACK * 10 ^ 9) INSTANT_LIMIT); lia.
Qed.
