(* ===== verification/Shared.v ===== *)
(** The shared queue refines the store: every operation of [SharedQueue] is one
    step of the store's executions or none, the cached await projection always
    agrees with the schedule, and a lookup that races with other tasks answers
    for one state of the queue. *)

From S2P Require Import Prelude Text Protocol Disk Entry Order Bounds Scan Capacity Writes Schedule.
From S2P Require Import History Store Readers DiskState Claims Edits Enqueue Lines Reverse Log.
From S2P Require Import Pages Append Recovery Completion Trace Queue.

Section shared.
Context `{Platform} `{!PlatformOk} `{SerdeJson} `{!SerdeJsonOk} (cfg : Config.t).

Abbreviation cooldown := (Config.cooldown_period_seconds cfg).
Abbreviation disk_of q := (w_disk (q_world q)).

(** The projection of a disk at a time. *)
Definition schedule_at (d : disk) (now : Z) : list (StoredEntry.t * Z) :=
  projected_schedule cooldown now (entries_of (d_entries d)) (activity d).
Definition etas_at (d : disk) (now : Z) : gmap string Z :=
  list_to_map (rev ((fun x => (StoredEntry.id x.1, x.2)) <$> schedule_at d now)).

(** The invariant of the shared state. *)
Record sound (q : queue) : Prop := {
  so_quiet : w_faults (q_world q) = [];
  so_now : is_u64 (q_now q);
  so_safe : safe (disk_of q) (q_now q);
  so_cache : forall p, await_schedule q = Some p -> etas p = etas_at (disk_of q) (built_at p);
}.

Definition moment_of (q : queue) : moment := Moment (disk_of q) (w_uuids (q_world q)) (q_now q).

Lemma world_of q : sound q -> q_world q = World (disk_of q) [] (w_uuids (q_world q)).
Proof. intros [Hf _ _ _]. destruct (q_world q); simpl in *. by rewrite Hf. Qed.

Lemma sound_wf q : sound q -> disk_wf (disk_of q).
Proof. intros Hs. apply (so_safe q Hs). Qed.

(** The published version after a call: the same, with the same entries, or the
    next one. *)
Definition versioned (q q' : queue) : Prop :=
  state_version q' = state_version q /\ d_entries (disk_of q') = d_entries (disk_of q)
  \/ state_version q' = wrapping_succ (state_version q).

(** [m] has the effect of [n], whatever value it returns. *)
Definition same_effect {A} (m : M A) (n : M unit) : Prop :=
  forall w, n w = match m w with
                  | (Done _, w) => (Done tt, w)
                  | (Failed e, w) => (Failed e, w)
                  | (Crashed, w) => (Crashed, w)
                  | (Diverged, w) => (Diverged, w)
                  end.

Lemma same_effect_unit (m : M unit) : same_effect m m.
Proof. intros w. by destruct (m w) as [[[]|?| |] ?]. Qed.
Lemma same_effect_drop {A} (m : M A) : same_effect m (m ;; ret tt).
Proof. intros w. unfold bind. by destruct (m w) as [[?|?| |] ?]. Qed.

(** A store operation under the lock, with a time that was read before the lock was
    taken, keeps the invariant.  A mutation that succeeds drops the projection; one
    that does not has changed nothing; the failure record of the worker does not touch
    what the projection reads. *)
Lemma with_store_sound_at {A} name (m : M A) o now q out q' :
  sound q -> same_effect m (perform o now) -> now <= q_now q -> allowed (disk_of q) now o ->
  (is_state_mutation name = true \/ exists e h x, o = Fail e h x) ->
  with_store name m q = (out, q') ->
  sound q' /\ m (q_world q) = (out, q_world q') /\ q_now q' = q_now q /\ versioned q q'.
Proof.
  intros Hs Heff Hle Hal Hname Hrun. pose proof (world_of q Hs) as Hw.
  destruct (perform o now (q_world q)) as [o1 w1] eqn:Hp. pose proof Hp as Hp'.
  rewrite (Heff (q_world q)) in Hp.
  rewrite Hw in Hp'. destruct (perform_safe_at _ _ _ _ _ _ _ (so_safe q Hs) Hal Hp') as (Hf & Hsafe & _).
  rewrite Z.max_l in Hsafe by done.
  assert (Hkeep : o1 <> Done tt \/ (exists e h x, o = Fail e h x) ->
    d_entries (w_disk w1) = d_entries (disk_of q) /\ activity (w_disk w1) = activity (disk_of q)).
  { intros [Hno|(e & h & x & ->)].
    - by rewrite (perform_unfinished _ _ _ _ _ _ (sound_wf q Hs) Hal Hno Hp').
    - by destruct (fail_quiet _ _ _ _ _ _ _ _ (sound_wf q Hs) Hp') as (_ & _ & He & Ha). }
  assert (Hq : m (q_world q) = (out, w1) /\ q_world q' = w1 /\ q_now q' = q_now q
    /\ (await_schedule q' = None /\ state_version q' = wrapping_succ (state_version q)
        \/ await_schedule q' = await_schedule q /\ state_version q' = state_version q
           /\ (o1 <> Done tt \/ exists e h x, o = Fail e h x))).
  { unfold with_store, with_state, on_store in Hrun. cbn [fst snd] in Hrun.
    destruct (m (q_world q)) as [[a|e| |] w] eqn:Em; cbn [fst snd] in Hrun;
      injection Hp as <- <-; try (injection Hrun as <- <-; split_and!; try done; right; by auto).
    destruct (is_state_mutation name) eqn:En; injection Hrun as <- <-; split_and!; try done;
      [by left|]. right. split; [done|]. split; [done|]. destruct Hname; [done|by right]. }
  destruct Hq as (Hm & Hq1 & Hq2 & Hc). split_and!; [|by rewrite Hq1|done|].
  2:{ destruct Hc as [[_ Hv]|(_ & Hv & Hwhy)]; [by right|left]. rewrite Hq1.
      split; [done|]. by apply Hkeep. }
  constructor; rewrite ?Hq1, ?Hq2; [done|apply Hs|done|].
  intros p Hp1. destruct Hc as [[Hc _]|(Hc & _ & Hwhy)]; [congruence|]. rewrite Hc in Hp1.
  rewrite (so_cache q Hs p Hp1). destruct (Hkeep Hwhy) as [He Ha].
  unfold etas_at, schedule_at. by rewrite He, Ha.
Qed.

(** A store operation with the present time is one step of the store. *)
Lemma with_store_sound {A} name (m : M A) o q out q' :
  sound q -> same_effect m (perform o (q_now q)) -> allowed (disk_of q) (q_now q) o ->
  (is_state_mutation name = true \/ exists e h x, o = Fail e h x) ->
  with_store name m q = (out, q') ->
  sound q' /\ step (moment_of q) o (moment_of q') /\ q_now q' = q_now q /\ versioned q q'.
Proof.
  intros Hs Heff Hal Hname Hrun.
  destruct (with_store_sound_at name m o (q_now q) q out q' Hs Heff (Z.le_refl _) Hal Hname Hrun) as (Hs' & Hm & Hn & Hv).
  split_and!; [done| |done|done]. pose proof (Heff (q_world q)) as Hp. rewrite Hm, (world_of q Hs) in Hp.
  assert (exists o1, perform o (q_now q) (World (disk_of q) [] (w_uuids (q_world q))) = (o1, q_world q')) as [o1 Hp1]
    by (destruct out; eauto).
  unfold moment_of at 2. rewrite Hn. eapply step_perform; [apply Z.le_refl|exact Hal|exact Hp1].
Qed.

(** A read under the lock leaves the queue alone. *)
Lemma with_store_still {A} name (m : M A) q :
  sound q -> still m -> is_state_mutation name = false ->
  exists out, with_store name m q = (out, q).
Proof.
  intros Hs Hm Hname. unfold with_store, with_state, on_store. cbn [fst snd].
  rewrite (world_of q Hs). destruct (Hm (disk_of q) (w_uuids (q_world q))) as [r Hr].
  rewrite Hr. rewrite Hname. rewrite <- (world_of q Hs).
  destruct q, r; by eexists.
Qed.

Lemma gauges_quiet q : sound q -> SharedQueue.update_queue_gauges q = (Done tt, q).
Proof.
  intros Hs. unfold SharedQueue.update_queue_gauges, qbind, qattempt.
  destruct (with_store_still "queue_metrics_snapshot" queue_metrics_snapshot q Hs) as [out Ho];
    [auto with still|done|].
  assert (exists a, out = Done a) as [a ->]; [|by rewrite Ho].
  unfold with_store, with_state, on_store in Ho. cbn [fst snd] in Ho.
  rewrite (world_of q Hs) in Ho. unfold queue_metrics_snapshot in Ho.
  erewrite bind_done in Ho
    by (apply entries_with_usage_quiet, store_wf_fits, wf_entries, sound_wf, Hs).
  injection Ho as <- _. by eexists.
Qed.

(** ** Await lookups *)

(** The answer without the cache: the projected wait comes from the schedule. *)
Definition observed (q : queue) (wanted : string) (cursor : option AwaitCursor.t)
    : outcome (option AwaitState) :=
  (SharedQueue.resolve_await_pending_with_eta wanted cursor
     (fun e => cret (default 0 (etas_at (disk_of q) (q_now q) !! StoredEntry.id e)))
     (q_world q, None)).1.

Lemma cached_eta_fresh q wanted :
  sound q ->
  SharedQueue.cached_eta wanted cooldown (q_now q) (q_world q, await_schedule q)
  = (Done (default 0 (etas_at (disk_of q) (q_now q) !! wanted)),
     (q_world q, Some (Projection (q_now q) (etas_at (disk_of q) (q_now q))))).
Proof.
  intros Hs.
  assert (Hsch : schedule cooldown (q_now q) (q_world q)
                 = (Done (schedule_at (disk_of q) (q_now q)), q_world q)).
  { rewrite (world_of q Hs) at 1. rewrite schedule_quiet by by apply sound_wf.
    by rewrite <- (world_of q Hs). }
  unfold SharedQueue.cached_eta, cbind, get_cache, set_cache, cret, on_store.
  cbn [fst snd]. destruct (await_schedule q) as [p|] eqn:Hc.
  - destruct (Z.eqb_spec (built_at p) (q_now q)) as [Hb|Hb]; cbn [negb].
    + pose proof (so_cache q Hs p Hc) as He. rewrite Hb in He. rewrite <- He, <- Hb.
      cbn [fst snd]. by destruct p.
    + cbn [fst snd]. by rewrite Hsch.
  - cbn [fst snd]. by rewrite Hsch.
Qed.

Definition refreshed (q : queue) (c : option AwaitSchedule) : Prop :=
  c = await_schedule q \/ c = Some (Projection (q_now q) (etas_at (disk_of q) (q_now q))).

Lemma resolve_pending_fresh q wanted cursor :
  sound q ->
  exists c, refreshed q c
    /\ SharedQueue.resolve_pending wanted cursor cooldown (q_now q) (q_world q, await_schedule q)
       = (observed q wanted cursor, (q_world q, c)).
Proof.
  intros Hs. unfold SharedQueue.resolve_pending, observed, SharedQueue.resolve_await_pending_with_eta.
  unfold cbind, on_store. cbn [fst snd]. pose proof (world_of q Hs) as Hw.
  destruct (still_attempt _ (still_find wanted) (disk_of q) (w_uuids (q_world q))) as [r Hr].
  rewrite <- Hw in Hr. rewrite Hr.
  destruct r as [[err|e]|err| |]; [..|by exists (await_schedule q); split; [left|]|
    by exists (await_schedule q); split; [left|]|by exists (await_schedule q); split; [left|]].
  { exists (await_schedule q). split; [by left|]. by destruct err. }
  destruct (match cursor with Some _ => _ | None => _ end);
    [|by exists (await_schedule q); split; [left|]].
  rewrite cached_eta_fresh by done. cbn [cret fst snd].
  set (eta := default 0 _).
  destruct (still_pending_await_state e cursor eta (disk_of q) (w_uuids (q_world q))) as [x Hx].
  rewrite <- Hw in Hx. rewrite Hx. eexists. split; [by right|]. by destruct x.
Qed.

(** The state an observation leaves differs in the cache only. *)
Definition cache_only (q q' : queue) : Prop :=
  exists c, refreshed q c /\ q' = Queue (q_world q) c (state_version q) (q_now q) (q_permit q).

Lemma observe_quiet q wanted cursor :
  sound q ->
  exists q', cache_only q q' /\ SharedQueue.observe_await_state cfg wanted cursor q
    = match observed q wanted cursor with
      | Done p => (Done (state_version q, p), q')
      | Failed e => (Failed e, q')
      | Crashed => (Crashed, q')
      | Diverged => (Diverged, q')
      end.
Proof.
  intros Hs. destruct (resolve_pending_fresh q wanted cursor Hs) as (c & Hc & Hrun).
  exists (Queue (q_world q) c (state_version q) (q_now q) (q_permit q)). split; [by exists c|].
  unfold SharedQueue.observe_await_state, qbind, unix_now. cbn beta iota.
  unfold with_state. rewrite Hrun. by destruct (observed q wanted cursor).
Qed.

Lemma cache_only_sound q q' : sound q -> cache_only q q' -> sound q'.
Proof.
  intros Hs (c & Hc & ->). destruct Hs as [Hf Hn Hsafe Hcache].
  constructor; cbn [q_world q_now await_schedule]; try done.
  intros p Hp. destruct Hc as [-> | ->]; [by apply Hcache|]. by injection Hp as <-.
Qed.

Lemma cache_only_moment q q' :
  cache_only q q' -> q_world q' = q_world q /\ q_now q' = q_now q
                     /\ state_version q' = state_version q.
Proof. by intros (c & _ & ->). Qed.

Lemma observed_same q q' wanted cursor :
  q_world q' = q_world q -> q_now q' = q_now q ->
  observed q' wanted cursor = observed q wanted cursor.
Proof. intros Hw Hn. unfold observed. by rewrite Hw, Hn. Qed.

(** Whether an entry is pending depends on the entries directory alone. *)
Lemma find_entries d d' u u' wanted :
  d_entries d = d_entries d' -> (find wanted (World d [] u)).1 = (find wanted (World d' [] u')).1.
Proof.
  intros He. assert (Hg : forall n, dget d (Entries, n) = dget d' (Entries, n))
    by (intros n; unfold dget; simpl; by rewrite He).
  unfold find, entry_path. destruct (is_valid_id wanted); [|done].
  set (p := (Entries, wanted +:+ ".json")). pose proof (Hg (wanted +:+ ".json")) as Hp. fold p in Hp.
  assert (Hread : (read_entry p (World d [] u)).1 = (read_entry p (World d' [] u')).1).
  { unfold read_entry, metadata, open_file, read_all, query, syscall, bind.
    cbn [w_faults w_disk]. rewrite Hp. destruct (dget d' p) as [[c|]|] eqn:E; [|done|done].
    cbn [negb w_faults w_disk]. destruct (ensure_entry_size (zlen c) MAX_ENTRY_BYTES); [done|].
    cbn [lift ret w_faults w_disk]. rewrite Hp, E. cbn [w_faults w_disk]. rewrite Hp, E.
    cbn [w_faults w_disk]. destruct (ensure_entry_size _ _); [done|]. cbn [lift ret].
    unfold serde_ok. by destruct (entry_from_slice _). }
  destruct (still_read_entry p d u) as [r Hr], (still_read_entry p d' u') as [r' Hr'].
  rewrite Hr, Hr' in Hread. cbn [fst] in Hread. subst r'.
  unfold bind, attempt. cbn [lift ret]. rewrite Hr, Hr'.
  destruct r as [e|[]| |]; try done; by case_decide.
Qed.

Lemma observed_none q q' wanted cursor :
  sound q -> sound q' -> d_entries (disk_of q') = d_entries (disk_of q) ->
  observed q wanted cursor = Done None -> observed q' wanted cursor = Done None.
Proof.
  intros Hs Hs' He. pose proof (find_entries (disk_of q) (disk_of q') (w_uuids (q_world q))
    (w_uuids (q_world q')) wanted (eq_sym He)) as Hf. rewrite <- !world_of in Hf by done.
  unfold observed, SharedQueue.resolve_await_pending_with_eta, cbind, on_store, attempt.
  cbn [fst snd]. destruct (find wanted (q_world q)) as [r w], (find wanted (q_world q')) as [r' w'].
  cbn [fst] in Hf. subst r'. destruct r as [e|err| |]; try done.
  - destruct (match cursor with Some _ => _ | None => _ end); [|done].
    cbn [cret fst snd]. destruct (pending_await_state _ _ _ w) as [[x|x| |] ?]; try done.
  - by destruct err.
Qed.

Lemma find_wf d u e :
  disk_wf d -> e ∈ entries_of (d_entries d) ->
  find (StoredEntry.id e) (World d [] u) = (Done e, World d [] u).
Proof.
  intros Hwf He%entries_of_elem.
  destruct (wf_entry_stored _ e (wf_entries d Hwf) He) as (c & Hm & Hat & _).
  by eapply find_found.
Qed.

Lemma history_end_wf d u :
  disk_wf d -> exists offset, history_end (World d [] u) = (Done offset, World d [] u).
Proof.
  intros Hwf. unfold history_end. pose proof (wf_root d Hwf "history.jsonl") as Hnd.
  change (d_root d !! _) with (dget d HISTORY_FILE) in Hnd.
  destruct (dget d HISTORY_FILE) as [[c|]|] eqn:Hp; [exists (zlen c)|done|exists 0].
  - by erewrite bind_done by (apply attempt_done; by rewrite metadata_quiet, Hp).
  - by erewrite bind_done by (apply attempt_failed; by rewrite metadata_quiet, Hp).
Qed.

(** The projection holds the scheduled wait of every queued entry. *)
Lemma etas_at_entry d now e :
  e ∈ entries_of (d_entries d) ->
  exists eta, (e, eta) ∈ schedule_at d now /\ etas_at d now !! StoredEntry.id e = Some eta.
Proof.
  intros He. unfold etas_at, schedule_at.
  set (s := projected_schedule _ _ _ _).
  assert (Hfst : s.*1 = entries_of (d_entries d)) by apply projected_schedule_fst.
  assert (Hex : exists eta, (e, eta) ∈ s).
  { rewrite <- Hfst in He. apply list_elem_of_fmap in He as ([e' eta] & -> & Hin). by exists eta. }
  destruct Hex as [eta Hin]. exists eta. split; [done|]. apply elem_of_list_to_map_1.
  - rewrite (rev_alt _ : rev _ = reverse _), fmap_reverse, <- list_fmap_compose.
    change (NoDup (reverse ((StoredEntry.id ∘ fst) <$> s))). rewrite list_fmap_compose, Hfst.
    rewrite reverse_Permutation. apply entries_of_NoDup.
  - rewrite (rev_alt _ : rev _ = reverse _), elem_of_reverse. 
    by apply (list_elem_of_fmap_2 (fun x : StoredEntry.t * Z => (StoredEntry.id x.1, x.2)) s (e, eta)).
Qed.

(** ** Calls *)

(** The operations other components call, without their results. *)
Inductive call :=
| QPut (fuel : nat) (request : CommentRequest.t) (immediate : bool) (sampled : Z)
| QList
| QBump (id : string) | QBust (id : string) | QDel (id : string)
| QClaim
| QRelease (id claim_token : string)
| QComplete (e : StoredEntry.t) (token_hash url : string)
| QFail (e : StoredEntry.t) (token_hash error : string)
| QRecover
| QLastToken
| QHistory (limit : option Z) (position : option HistoryPosition.t)
| QAwait (id : string) (cursor : option AwaitCursor.t).

Definition drop {A} (m : QM A) : QM unit := qbind m (fun _ => qret tt).

Definition serve (c : call) : QM unit :=
  match c with
  | QPut fuel request immediate sampled => drop (SharedQueue.put cfg fuel request immediate sampled)
  | QList => drop (SharedQueue.list cfg)
  | QBump id => SharedQueue.bump id
  | QBust id => SharedQueue.bust id
  | QDel id => SharedQueue.del id
  | QClaim => drop (SharedQueue.claim_next_due cfg)
  | QRelease id token => SharedQueue.release_claim id token
  | QComplete e h url => SharedQueue.complete e h url
  | QFail e h x => SharedQueue.record_failure e h x
  | QRecover => SharedQueue.recover_worker_state
  | QLastToken => drop SharedQueue.last_token_hash
  | QHistory limit position => drop (SharedQueue.history_page limit position)
  | QAwait id cursor => drop (SharedQueue.observe_await_state cfg id cursor)
  end.

(** The step of the store a call makes. *)
Definition store_op (c : call) : option op :=
  match c with
  | QPut fuel request immediate sampled =>
      Some (Put fuel request
        (PutOptions.mk cooldown (Z.min sampled (Config.cooldown_flutter_seconds cfg)) immediate))
  | QBump id => Some (Bump id)
  | QBust id => Some (Bust id)
  | QDel id => Some (Del id)
  | QClaim => Some (Claim cooldown)
  | QRelease id token => Some (Release id token)
  | QComplete e h url => Some (Complete e h (Some url))
  | QFail e h x => Some (Fail e h x)
  | QRecover => Some Recover
  | QList | QLastToken | QHistory _ _ | QAwait _ _ => None
  end.

Definition call_allowed (q : queue) (c : call) : Prop :=
  match store_op c with Some o => allowed (disk_of q) (q_now q) o | None => True end.

(** What a call leaves: a sound queue that the store can reach.  The exact effect of each
    call is [own_step] below. *)
Definition served (q q' : queue) : Prop :=
  sound q' /\ reachable (moment_of q) (moment_of q') /\ q_now q' = q_now q /\ versioned q q'.

Lemma served_refl q : sound q -> served q q.
Proof. intros Hs. split_and!; [done|constructor|done|by left]. Qed.

Lemma served_step q o q' :
  sound q' /\ step (moment_of q) o (moment_of q') /\ q_now q' = q_now q /\ versioned q q' ->
  served q q'.
Proof. intros (Hs & Hst & Hr). split; [done|]. split; [|done]. eapply reachable_step; [constructor|done]. Qed.

Lemma served_permit q q' :
  served q q' ->
  served q (Queue (q_world q') (await_schedule q') (state_version q') (q_now q') true).
Proof. intros ([] & Hr & Hn & Hv). split; [by constructor|]. done. Qed.

(** A mutation followed by the gauges, and by the worker's notification. *)
Lemma gauges_after {A} (m : QM A) q out q' :
  (forall out q', m q = (out, q') -> served q q') ->
  SharedQueue.then_gauges m q = (out, q') -> served q q'.
Proof.
  intros Hm. unfold SharedQueue.then_gauges, qbind.
  destruct (m q) as [[a|e| |] q1]; specialize (Hm _ q1 eq_refl); try by intros [= <- <-].
  rewrite gauges_quiet by apply Hm. by intros [= <- <-].
Qed.

Lemma finished_after {A} (m : QM A) q out q' :
  (forall out q', m q = (out, q') -> served q q') ->
  qbind m (fun a => qbind SharedQueue.mutation_finished (fun _ => qret a)) q = (out, q') ->
  served q q'.
Proof.
  intros Hm. unfold qbind at 1.
  destruct (m q) as [[a|e| |] q1]; specialize (Hm _ q1 eq_refl); try by intros [= <- <-].
  unfold SharedQueue.mutation_finished, qbind. rewrite gauges_quiet by apply Hm.
  intros [= <- <-]. by apply served_permit.
Qed.

Lemma drop_after {A} (m : QM A) q out q' :
  (forall out q', m q = (out, q') -> served q q') -> drop m q = (out, q') -> served q q'.
Proof.
  intros Hm. unfold drop, qbind.
  destruct (m q) as [[a|e| |] q1]; specialize (Hm _ q1 eq_refl); by intros [= <- <-].
Qed.

Lemma store_after {A} name (m : M A) o q :
  sound q -> same_effect m (perform o (q_now q)) -> allowed (disk_of q) (q_now q) o ->
  is_state_mutation name = true ->
  forall out q', with_store name m q = (out, q') -> served q q'.
Proof.
  intros Hs Heff Hal Hn out q' Hrun.
  eapply served_step, (with_store_sound name m o q out q' Hs Heff Hal (or_introl Hn) Hrun).
Qed.

Lemma read_after {A} name (m : M A) q :
  sound q -> still m -> is_state_mutation name = false ->
  forall out q', with_store name m q = (out, q') -> served q q'.
Proof.
  intros Hs Hm Hn out q' Hrun. destruct (with_store_still name m q Hs Hm Hn) as [out' Ho].
  rewrite Hrun in Ho. injection Ho as -> ->. by apply served_refl.
Qed.

(** The failure record is one store operation: draw the UUID, append. *)
Definition append_failure (q : queue) (e : StoredEntry.t) (h x : string) : M unit :=
  let* record := record_failure e h (q_now q) x in append HISTORY_FILE record.

Lemma record_failure_store q e h x :
  SharedQueue.record_failure e h x q = with_store "append_history" (append_failure q e h x) q.
Proof.
  unfold SharedQueue.record_failure, SharedQueue.append_history, with_store, with_state, on_store,
    qbind, append_failure, bind, unix_now. cbn. destruct q as [w c v n p]. cbn.
  by destruct (append HISTORY_FILE _ _) as [[?|?| |] ?].
Qed.

Lemma record_failure_served q e h x out q' :
  sound q -> SharedQueue.record_failure e h x q = (out, q') ->
  served q q' /\ d_entries (disk_of q') = d_entries (disk_of q).
Proof.
  intros Hs Hrun. rewrite record_failure_store in Hrun. split.
  - eapply served_step, (with_store_sound "append_history" _ (Fail e h x) q out q' Hs);
      [apply same_effect_unit|split; [apply Hs|done]|by eauto|done].
  - unfold with_store, with_state, on_store in Hrun. cbn [fst snd] in Hrun.
    destruct (append_failure q e h x (q_world q)) as [o w] eqn:E.
    assert (q_world q' = w) as -> by (destruct o; by injection Hrun as _ <-).
    rewrite (world_of q Hs) in E.
    by destruct (fail_quiet _ _ _ _ _ _ _ _ (sound_wf q Hs) E) as (_ & _ & He & _).
Qed.

Lemma served_cache q q' : sound q -> cache_only q q' -> served q q'.
Proof.
  intros Hs Hc. split; [by eapply cache_only_sound|].
  destruct (cache_only_moment q q' Hc) as (Hw & Hn & Hv). unfold moment_of, versioned.
  rewrite Hw, Hn, Hv. split; [constructor|]. split; [done|by left].
Qed.

Lemma serve_served q c out q' :
  sound q -> call_allowed q c -> serve c q = (out, q') -> served q q'.
Proof.
  intros Hs Hal. destruct c; cbn [serve]; unfold call_allowed in Hal; cbn [store_op] in Hal.
  - apply drop_after. intros out1 q1. unfold SharedQueue.put. unfold qbind at 1.
    destruct (validate_request request) as [err|[]]; cbn [qlift qret qthrow].
    { intros [= <- <-]. by apply served_refl. }
    cbn beta zeta iota. unfold qbind at 1, unix_now. cbn beta iota.
    apply finished_after. eapply store_after; [done| |exact Hal|done]; apply same_effect_drop.
  - apply drop_after. apply (read_after "list"); [done|auto with still|done].
  - apply finished_after. eapply store_after; [done| |exact Hal|done]; apply same_effect_unit.
  - apply finished_after. eapply store_after; [done| |exact Hal|done]; apply same_effect_unit.
  - apply finished_after. eapply store_after; [done| |exact Hal|done]; apply same_effect_unit.
  - apply drop_after. intros out1 q1. unfold SharedQueue.claim_next_due.
    unfold qbind at 1, unix_now. cbn beta iota. unfold qbind at 1.
    pose proof (store_after "claim_next_due" (claim_next_due cooldown (q_now q)) (Claim cooldown) q
      Hs (same_effect_drop _) Hal eq_refl) as Hst.
    destruct (with_store _ _ q) as [[a|e| |] q2]; specialize (Hst _ q2 eq_refl);
      try by intros [= <- <-].
    destruct a as [[e wait]|]; [|by intros [= <- <-]].
    destruct (wait =? 0); [|by intros [= <- <-]].
    unfold qbind. rewrite gauges_quiet by apply Hst. by intros [= <- <-].
  - apply gauges_after. eapply store_after; [done| |exact Hal|done]; apply same_effect_unit.
  - apply gauges_after. eapply store_after; [done| |exact Hal|done]; apply same_effect_unit.
  - intros Hrun. by eapply record_failure_served.
  - apply gauges_after. eapply store_after; [done| |exact Hal|done]; apply same_effect_unit.
  - apply drop_after. apply (read_after "latest_history_token"); [done| |done].
    apply still_bind; auto with still.
  - apply drop_after. apply (read_after "history"); [done|auto with still|done].
  - apply drop_after. intros out1 q1 Hrun. destruct (observe_quiet q id cursor Hs) as (q2 & Hc & Ho).
    rewrite Hrun in Ho. assert (q1 = q2) as -> by (destruct (observed q id cursor); by injection Ho).
    by apply served_cache.
Qed.

(** ** The effect of a call *)

(** A request that is refused before the lock is taken. *)
Definition refused (c : call) : option StoreError :=
  match c with
  | QPut _ request _ _ => match validate_request request with Err e => Some e | Ok _ => None end
  | _ => None
  end.

Definition succeeded {A} (o : outcome A) : bool := match o with Done _ => true | _ => false end.
Definition unit_of {A} (o : outcome A) : outcome unit :=
  match o with Done _ => Done tt | Failed e => Failed e | Crashed => Crashed | Diverged => Diverged end.

(** The calls whose success publishes a version, and those that notify the worker. *)
Definition publishes (c : call) : bool :=
  match c with
  | QList | QFail _ _ _ | QLastToken | QHistory _ _ | QAwait _ _ => false
  | _ => true
  end.
Definition notifies (c : call) : bool :=
  match c with QPut _ _ _ _ | QBump _ | QBust _ | QDel _ => true | _ => false end.

(** What a call does to the store: its own operation, once, at the time of the call and
    with its outcome; nothing, for a refused request and for a reader. *)
Definition own_step (q : queue) (c : call) (out : outcome unit) (w : world) : Prop :=
  match refused c, store_op c with
  | Some e, _ => out = Failed e /\ w = q_world q
  | None, Some o => perform o (q_now q) (q_world q) = (out, w)
  | None, None => w = q_world q
  end.

(** The same of the whole queue, with the published version and the permit. *)
Definition own_effect (publish notify : bool) (q : queue) (r : outcome unit * world)
    (out : outcome unit) (q' : queue) : Prop :=
  r = (out, q_world q')
  /\ state_version q' = (if publish && succeeded out then wrapping_succ (state_version q) else state_version q)
  /\ q_permit q' = notify && succeeded out || q_permit q.

Lemma store_effect {A} name (m : M A) n q out q' :
  same_effect m n -> with_store name m q = (out, q') ->
  own_effect (is_state_mutation name) false q (n (q_world q)) (unit_of out) q'.
Proof.
  intros Heff. unfold with_store, with_state, on_store, own_effect. cbn [fst snd]. rewrite (Heff (q_world q)).
  destruct (m (q_world q)) as [[a|e| |] w]; [|intros [= <- <-]; by rewrite andb_false_r..].
  destruct (is_state_mutation name); by intros [= <- <-].
Qed.

Lemma gauges_effect {A} name (m : M A) n q out q' :
  (forall out q', with_store name m q = (out, q') -> sound q') -> same_effect m n ->
  SharedQueue.then_gauges (with_store name m) q = (out, q') ->
  own_effect (is_state_mutation name) false q (n (q_world q)) (unit_of out) q'.
Proof.
  intros Hs Heff. unfold SharedQueue.then_gauges, qbind. destruct (with_store name m q) as [o q1] eqn:Hw.
  pose proof (store_effect name m n q o q1 Heff Hw) as He. specialize (Hs o q1 eq_refl).
  destruct o as [a|e| |]; [rewrite gauges_quiet by done|..]; by intros [= <- <-].
Qed.

Lemma finished_effect {A} name (m : M A) n q out q' :
  (forall out q', with_store name m q = (out, q') -> sound q') -> same_effect m n ->
  qbind (with_store name m) (fun a => qbind SharedQueue.mutation_finished (fun _ => qret a)) q = (out, q') ->
  own_effect (is_state_mutation name) true q (n (q_world q)) (unit_of out) q'.
Proof.
  intros Hs Heff. unfold qbind at 1. destruct (with_store name m q) as [o q1] eqn:Hw.
  pose proof (store_effect name m n q o q1 Heff Hw) as He. specialize (Hs o q1 eq_refl).
  destruct o as [a|e| |]; [|by intros [= <- <-]..]. unfold SharedQueue.mutation_finished, qbind.
  rewrite gauges_quiet by done. intros [= <- <-]. destruct He as (-> & Hv & _). by split_and!.
Qed.

Lemma drop_effect {A} publish notify q r (m : QM A) out q' :
  (forall out q', m q = (out, q') -> own_effect publish notify q r (unit_of out) q') ->
  drop m q = (out, q') -> own_effect publish notify q r out q'.
Proof.
  intros Hm. unfold drop, qbind. destruct (m q) as [[a|e| |] q1]; specialize (Hm _ q1 eq_refl); by intros [= <- <-].
Qed.

Lemma claim_effect q out q' :
  sound q -> call_allowed q QClaim -> SharedQueue.claim_next_due cfg q = (out, q') ->
  own_effect true false q (perform (Claim cooldown) (q_now q) (q_world q)) (unit_of out) q'.
Proof.
  intros Hs Hal. unfold SharedQueue.claim_next_due. unfold qbind at 1, unix_now. cbn beta iota. unfold qbind at 1.
  set (m := claim_next_due cooldown (q_now q)). destruct (with_store _ m q) as [o q2] eqn:Hw.
  pose proof (store_after "claim_next_due" m (Claim cooldown) q Hs (same_effect_drop _) Hal eq_refl o q2 Hw) as (Hs2 & _).
  pose proof (store_effect "claim_next_due" m _ q o q2 (same_effect_drop _) Hw) as He.
  destruct o as [[[e wait]|]|e| |]; try by intros [= <- <-].
  destruct (wait =? 0); [|by intros [= <- <-]]. unfold qbind. rewrite gauges_quiet by done. by intros [= <- <-].
Qed.

(** A reader changes nothing but the cached projection. *)
Lemma read_effect {A} name (m : M A) q out q' :
  sound q -> still m -> is_state_mutation name = false -> drop (with_store name m) q = (out, q') -> q' = q.
Proof.
  intros Hs Hm Hn. unfold drop, qbind. destruct (with_store_still name m q Hs Hm Hn) as [o ->].
  destruct o; by intros [= _ <-].
Qed.

Lemma serve_effect q c out q' :
  sound q -> call_allowed q c -> serve c q = (out, q') ->
  own_step q c out (q_world q')
  /\ state_version q' = (if publishes c && succeeded out then wrapping_succ (state_version q) else state_version q)
  /\ q_permit q' = notifies c && succeeded out || q_permit q.
Proof.
  intros Hs Hal Hrun. pose proof Hal as Hal'. unfold call_allowed in Hal'.
  assert (Hsound : forall A name (m : M A) o, store_op c = Some o -> same_effect m (perform o (q_now q)) ->
    is_state_mutation name = true -> forall out q', with_store name m q = (out, q') -> sound q').
  { intros A name m o Ho Heff Hn out1 q1 Hw. rewrite Ho in Hal'.
    by destruct (store_after name m o q Hs Heff Hal' Hn out1 q1 Hw). }
  assert (Hunit : forall o, own_effect (publishes c) (notifies c) q (perform o (q_now q) (q_world q)) (unit_of out) q' ->
    own_effect (publishes c) (notifies c) q (perform o (q_now q) (q_world q)) out q') by by destruct out as [[]| | |].
  unfold own_step.
  destruct c; cbn [serve store_op refused publishes notifies] in *.
  - destruct (validate_request request) as [err|[]] eqn:Hval.
    { unfold drop, qbind at 1, SharedQueue.put in Hrun. unfold qbind at 1 in Hrun. rewrite Hval in Hrun.
      injection Hrun as <- <-. by rewrite andb_false_r. }
    refine (drop_effect true true q _ _ out q' _ Hrun). intros out1 q1.
    unfold SharedQueue.put. unfold qbind at 1. rewrite Hval. cbn [qlift qret]. cbn beta zeta iota.
    unfold qbind at 1, unix_now. cbn beta iota.
    apply finished_effect; [eapply Hsound; [reflexivity|apply same_effect_drop|done]|apply same_effect_drop].
  - by rewrite (read_effect "list" (schedule cooldown (q_now q)) q out q' Hs) by (done || auto with still).
  - refine (Hunit (Bump id) (finished_effect "bump" (bump id) _ q out q' _ (same_effect_unit _) Hrun)).
    by eapply Hsound; [reflexivity|apply same_effect_unit|].
  - refine (Hunit (Bust id) (finished_effect "bust" (bust id) _ q out q' _ (same_effect_unit _) Hrun)).
    by eapply Hsound; [reflexivity|apply same_effect_unit|].
  - refine (Hunit (Del id) (finished_effect "del" (del id) _ q out q' _ (same_effect_unit _) Hrun)).
    by eapply Hsound; [reflexivity|apply same_effect_unit|].
  - eapply drop_effect; [|exact Hrun]. intros out1 q1. by apply claim_effect.
  - refine (Hunit (Release id claim_token) (gauges_effect "release_claim" (release_claim id claim_token (q_now q)) _ q out q' _ (same_effect_unit _) Hrun)).
    by eapply Hsound; [reflexivity|apply same_effect_unit|].
  - refine (Hunit (Complete e token_hash (Some url)) (gauges_effect "complete" (complete_claim_with_token e token_hash (q_now q) (Some url)) _ q out q' _ (same_effect_unit _) Hrun)).
    by eapply Hsound; [reflexivity|apply same_effect_unit|].
  - rewrite record_failure_store in Hrun.
    exact (Hunit (Fail e token_hash error) (store_effect "append_history" _ _ q out q' (same_effect_unit _) Hrun)).
  - refine (Hunit (Recover) (gauges_effect "recover_worker_state" (recover_worker_state) _ q out q' _ (same_effect_unit _) Hrun)).
    by eapply Hsound; [reflexivity|apply same_effect_unit|].
  - unshelve erewrite (read_effect "latest_history_token" _ q out q' Hs _ eq_refl Hrun); [|done].
    apply still_bind; auto with still.
  - unshelve erewrite (read_effect "history" _ q out q' Hs _ eq_refl Hrun); [auto with still|done].
  - revert Hrun. unfold drop, qbind. destruct (observe_quiet q id cursor Hs) as (q2 & Hc & ->).
    destruct (cache_only_moment q q2 Hc) as (Hw & Hn & Hv). intros Hrun.
    assert (q' = q2) as -> by (destruct (observed q id cursor); by injection Hrun).
    split_and!; [done|done|]. by destruct Hc as (x & _ & ->).
Qed.

(** ** Interleavings *)

(** What other tasks do between two lock acquisitions: at most [n] calls, and
    the passing of time. *)
Inductive ran : nat -> queue -> queue -> Prop :=
| ran_nothing q : ran 0 q q
| ran_call n q q1 c out q2 :
    ran n q q1 -> call_allowed q1 c -> serve c q1 = (out, q2) -> ran (S n) q q2
| ran_tick n q q1 now :
    ran n q q1 -> q_now q1 <= now -> is_u64 now ->
    ran n q (Queue (q_world q1) (await_schedule q1) (state_version q1) now (q_permit q1)).

Lemma tick_sound q now :
  sound q -> q_now q <= now -> is_u64 now ->
  sound (Queue (q_world q) (await_schedule q) (state_version q) now (q_permit q)).
Proof. intros [Hf Hn Hsafe Hc] Hle Hu. constructor; try done. cbn [q_world q_now]. by eapply safe_later. Qed.

Lemma ran_sound n q q' : ran n q q' -> sound q -> sound q'.
Proof.
  induction 1 as [|n q q1 c out q2 _ IH Hal Hrun|n q q1 now _ IH Hle Hu]; intros Hs; [done| |].
  - by destruct (serve_served q1 c out q2 (IH Hs) Hal Hrun).
  - apply tick_sound; auto.
Qed.

Lemma wrapping_succ_u64 v : is_u64 v -> is_u64 (wrapping_succ v) /\ wrapping_succ v <> v.
Proof.
  unfold is_u64, wrapping_succ, U64_MAX. intros Hv.
  destruct (Z.eq_dec v (2 ^ 64 - 1)) as [->|Hne]; [done|]. rewrite Z.mod_small; lia.
Qed.

Lemma wrapping_succ_add v k : 0 <= v -> 0 <= k ->
  wrapping_succ ((v + k) mod 2 ^ 64) = (v + (k + 1)) mod 2 ^ 64.
Proof.
  intros Hv Hk. unfold wrapping_succ. rewrite Zplus_mod_idemp_l. f_equal. lia.
Qed.

(** The version counts the mutations; none means the same entries. *)
Lemma ran_version n q q' :
  ran n q q' -> sound q -> 0 <= state_version q < 2 ^ 64 ->
  exists k, 0 <= k <= Z.of_nat n /\ state_version q' = (state_version q + k) mod 2 ^ 64
    /\ (k = 0 -> d_entries (disk_of q') = d_entries (disk_of q)).
Proof.
  intros Hr. induction Hr as [q|n q q1 c out q2 Hr IH Hal Hrun|n q q1 now Hr IH Hle Hu]; intros Hs Hv.
  - exists 0. rewrite Z.add_0_r, Z.mod_small by lia. split; [lia|done].
  - destruct (IH Hs Hv) as (k & Hk & Hver & Hent).
    destruct (serve_served q1 c out q2 (ran_sound _ _ _ Hr Hs) Hal Hrun) as (_ & _ & _ & Hvs).
    destruct Hvs as [[Hv1 He1]|Hv1].
    + exists k. rewrite Hv1, He1. split; [lia|done].
    + exists (k + 1). rewrite Hv1, Hver, wrapping_succ_add by lia. split; [lia|]. split; [done|lia].
  - by apply IH.
Qed.

(** An interference: some calls, fewer than the version can count. *)
Definition interference (f : queue -> queue) : Prop :=
  forall q, sound q -> exists n, ran n q (f q) /\ Z.of_nat n < 2 ^ 63.

(** Two interferences that leave the version alone leave the entries alone. *)
Lemma version_unchanged q q1 q2 n m :
  sound q -> 0 <= state_version q < 2 ^ 64 -> ran n q q1 -> ran m q1 q2 ->
  Z.of_nat n < 2 ^ 63 -> Z.of_nat m < 2 ^ 63 -> state_version q2 = state_version q ->
  d_entries (disk_of q1) = d_entries (disk_of q).
Proof.
  intros Hs Hv Hr1 Hr2 Hn Hm Heq.
  destruct (ran_version n q q1 Hr1 Hs Hv) as (k & Hk & Hv1 & He1).
  assert (Hv1' : 0 <= state_version q1 < 2 ^ 64) by (rewrite Hv1; apply Z.mod_pos_bound; lia).
  destruct (ran_version m q1 q2 Hr2 (ran_sound _ _ _ Hr1 Hs) Hv1') as (j & Hj & Hv2 & _).
  apply He1. rewrite Hv2, Hv1, Zplus_mod_idemp_l in Heq.
  assert (Hkj : 0 <= k + j < 2 ^ 64) by lia. clear -Heq Hkj Hv Hk Hj.
  rewrite <- Z.add_assoc in Heq.
  destruct (Z_lt_le_dec (state_version q + (k + j)) (2 ^ 64)) as [Hlt|Hge].
  - rewrite Z.mod_small in Heq by lia. lia.
  - rewrite <- (Z_mod_plus _ (-1)), Z.mod_small in Heq by lia. lia.
Qed.

(** The scan reads, and it comes to an answer. *)
Lemma scan_quiet q wanted cursor :
  sound q -> cursor_ok cursor ->
  exists r, SharedQueue.scan_await_history wanted cursor q = (Done r, q).
Proof.
  intros Hs Hc. unfold SharedQueue.scan_await_history.
  destruct (answers_resolve_await_completion wanted cursor Hc (disk_of q) (w_uuids (q_world q))) as [r Hr].
  rewrite <- world_of in Hr by done. rewrite Hr. destruct q. by exists r.
Qed.

(** ** One lookup *)

(** What a lookup answers when nothing else runs. *)
Definition await_answer (q : queue) (wanted : string) (cursor : option AwaitCursor.t)
    : outcome AwaitState :=
  (SharedQueue.resolve_await_store cfg [] wanted cursor q).1.

Lemma answer_pending q wanted cursor s :
  sound q -> observed q wanted cursor = Done (Some s) -> await_answer q wanted cursor = Done s.
Proof.
  intros Hs Ho. unfold await_answer. cbn [SharedQueue.resolve_await_store]. unfold qbind.
  destruct (observe_quiet q wanted cursor Hs) as (q1 & _ & ->). by rewrite Ho.
Qed.

Lemma answer_failed q wanted cursor e :
  sound q -> observed q wanted cursor = Failed e -> await_answer q wanted cursor = Failed e.
Proof.
  intros Hs Ho. unfold await_answer. cbn [SharedQueue.resolve_await_store]. unfold qbind.
  destruct (observe_quiet q wanted cursor Hs) as (q1 & _ & ->). by rewrite Ho.
Qed.

Lemma observed_after q q1 wanted cursor :
  sound q -> cache_only q q1 -> sound q1 /\ observed q1 wanted cursor = observed q wanted cursor
    /\ state_version q1 = state_version q /\ disk_of q1 = disk_of q.
Proof.
  intros Hs Hc. destruct (cache_only_moment q q1 Hc) as (Hw & Hn & Hv).
  split; [by eapply cache_only_sound|]. split; [by apply observed_same|]. by rewrite Hw.
Qed.

Lemma answer_completed q wanted cursor r :
  sound q -> cursor_ok cursor -> observed q wanted cursor = Done None ->
  SharedQueue.scan_await_history wanted cursor q = (Done r, q) ->
  await_answer q wanted cursor = match r with Ok s => Done s | Err e => Failed e end.
Proof.
  intros Hs Hok Ho Hscan. unfold await_answer. cbn [SharedQueue.resolve_await_store]. unfold qbind at 1.
  destruct (observe_quiet q wanted cursor Hs) as (q1 & Hc1 & ->). rewrite Ho. cbn beta iota.
  destruct (observed_after q q1 wanted cursor Hs Hc1) as (Hs1 & Ho1 & Hv1 & Hd1).
  destruct (cache_only_moment q q1 Hc1) as (Hw1 & _ & _).
  assert (Hscan1 : SharedQueue.scan_await_history wanted cursor q1 = (Done r, q1)).
  { destruct (scan_quiet q1 wanted cursor Hs1 Hok) as [r1 Hr1]. rewrite Hr1.
    unfold SharedQueue.scan_await_history in Hscan, Hr1. rewrite Hw1 in Hr1.
    destruct (attempt _ (q_world q)) as [o w]. congruence. }
  unfold qbind at 1, SharedQueue.interleave at 1. cbn beta iota. unfold qbind at 1.
  rewrite Hscan1. unfold qbind at 1, SharedQueue.interleave. cbn beta iota. unfold qbind at 1.
  destruct (observe_quiet q1 wanted cursor Hs1) as (q2 & _ & ->). rewrite Ho1, Ho. cbn beta iota.
  rewrite Hv1, Z.eqb_refl. by destruct r.
Qed.

(** A lookup returns a value or an error. *)
Definition returned {A} (o : outcome A) : Prop := (exists a, o = Done a) \/ exists e, o = Failed e.

Lemma observed_returned q wanted cursor : sound q -> returned (observed q wanted cursor).
Proof.
  intros Hs. unfold observed, SharedQueue.resolve_await_pending_with_eta, cbind, on_store.
  cbn [fst snd]. pose proof (world_of q Hs) as Hw.
  destruct (answers_find wanted (disk_of q) (w_uuids (q_world q))) as [r Hr].
  rewrite <- Hw in Hr. rewrite Hr. destruct r as [err|e].
  { destruct err; try (right; by eexists). left. by eexists. }
  destruct (match cursor with Some _ => _ | None => _ end); [|left; by eexists].
  cbn [cret fst snd]. set (eta := default 0 _).
  destruct (answers_pending_await_state e cursor eta (disk_of q) (w_uuids (q_world q))) as [x Hx].
  rewrite <- Hw in Hx. unfold attempt in Hx.
  destruct (pending_await_state e cursor eta (q_world q)) as [[y|y| |] w]; try done;
    [left|right]; by eexists.
Qed.

Lemma ran_trans n m q q1 q2 : ran n q q1 -> ran m q1 q2 -> ran (m + n) q q2.
Proof.
  intros Hr. induction 1 as [|m q1 q2 c out q3 _ IH Hal Hrun|m q1 q2 now _ IH Hle Hu]; [done| |].
  - eapply ran_call; [by apply IH|done|done].
  - apply ran_tick; auto.
Qed.

Lemma ran_observe q q1 wanted cursor :
  sound q -> cache_only q q1 ->
  SharedQueue.observe_await_state cfg wanted cursor q
  = match observed q wanted cursor with
    | Done p => (Done (state_version q, p), q1)
    | Failed e => (Failed e, q1)
    | Crashed => (Crashed, q1)
    | Diverged => (Diverged, q1)
    end -> ran 1 q q1.
Proof.
  intros Hs Hc Hrun. destruct (serve (QAwait wanted cursor) q) as [o q2] eqn:E.
  assert (q2 = q1) as <-.
  { cbn [serve] in E. unfold drop, qbind in E. rewrite Hrun in E.
    destruct (observed q wanted cursor); by injection E. }
  eapply (ran_call 0 q q (QAwait wanted cursor)); [constructor|done|exact E].
Qed.

Lemma singleton_subseteq {A} (x : A) l : x ∈ l -> [x] ⊆ l.
Proof. by intros Hx y ->%list_elem_of_singleton. Qed.

(** The answer of one of the states [qs], which are later than [q]. *)
Definition atomic (qs : list queue) (q : queue) (wanted : string) (cursor : option AwaitCursor.t)
    (out : outcome AwaitState) : Prop :=
  returned out
  /\ exists n q0, q0 ∈ qs /\ ran n q q0 /\ sound q0 /\ await_answer q0 wanted cursor = out.

Lemma atomic_later n qs qs' q q1 wanted cursor out :
  ran n q q1 -> qs ⊆ qs' -> atomic qs q1 wanted cursor out -> atomic qs' q wanted cursor out.
Proof.
  intros Hr Hqs (Hret & m & q0 & Hin & Hm & Hrest). split; [done|]. exists (m + n)%nat, q0.
  split; [by apply Hqs|]. split; [by eapply ran_trans|done].
Qed.

Lemma atomic_observed q wanted cursor :
  sound q ->
  observed q wanted cursor = Done None
  \/ (exists s, observed q wanted cursor = Done (Some s) /\ atomic [q] q wanted cursor (Done s))
  \/ (exists e, observed q wanted cursor = Failed e /\ atomic [q] q wanted cursor (Failed e)).
Proof.
  intros Hs. destruct (observed_returned q wanted cursor Hs) as [[[s|] Hp]|[e Hp]].
  - right. left. exists s. split; [done|]. split; [left; by eexists|]. exists 0%nat, q.
    split; [left|]. split; [constructor|]. split; [done|]. by apply answer_pending.
  - by left.
  - right. right. exists e. split; [done|]. split; [right; by eexists|]. exists 0%nat, q.
    split; [left|]. split; [constructor|]. split; [done|]. by apply answer_failed.
Qed.

(** One turn of the loop, with what runs in its two gaps. *)
Definition lookup_turn (f1 f2 : queue -> queue) (again : QM AwaitState) (wanted : string)
    (cursor : option AwaitCursor.t) : QM AwaitState :=
  let> (observed, pending) := SharedQueue.observe_await_state cfg wanted cursor in
  match pending with
  | Some pending => qret pending
  | None =>
      let> _ := SharedQueue.interleave f1 in
      let> completed := SharedQueue.scan_await_history wanted cursor in
      let> _ := SharedQueue.interleave f2 in
      let> (current, pending) := SharedQueue.observe_await_state cfg wanted cursor in
      match pending with
      | Some pending => qret pending
      | None => if current =? observed then qlift completed else again
      end
  end.

(** The states of the queue in which a turn takes the lock or reads the history, and
    those of the turns after it, as long as the lookup goes on. *)
Definition turn_visited (f1 f2 : queue -> queue) (again : queue -> list queue) (wanted : string)
    (cursor : option AwaitCursor.t) (q : queue) : list queue :=
  match SharedQueue.observe_await_state cfg wanted cursor q with
  | (Done (observed, None), q1) =>
      let q2 := f1 q1 in
      let q3 := f2 (SharedQueue.scan_await_history wanted cursor q2).2 in
      [q; q2; q3]
      ++ match SharedQueue.observe_await_state cfg wanted cursor q3 with
         | (Done (current, None), q4) => if current =? observed then [] else again q4
         | _ => []
         end
  | _ => [q]
  end.

(** The states a lookup visits. *)
Fixpoint visited (turns : list ((queue -> queue) * (queue -> queue))) (wanted : string)
    (cursor : option AwaitCursor.t) (q : queue) : list queue :=
  match turns with
  | [] => turn_visited (fun q => q) (fun q => q) (fun _ => []) wanted cursor q
  | (f1, f2) :: turns => turn_visited f1 f2 (visited turns wanted cursor) wanted cursor q
  end.

(** A turn answers for a state it visits, or the version changed and it starts again. *)
Lemma turn_cases f1 f2 again more q wanted cursor out q' :
  sound q -> 0 <= state_version q < 2 ^ 64 -> cursor_ok cursor ->
  interference f1 -> interference f2 ->
  lookup_turn f1 f2 again wanted cursor q = (out, q') ->
  atomic (turn_visited f1 f2 more wanted cursor q) q wanted cursor out
  \/ exists n q1 q4, cache_only q q1 /\ state_version (f2 (f1 q1)) <> state_version q
       /\ ran n q q4 /\ again q4 = (out, q') /\ more q4 ⊆ turn_visited f1 f2 more wanted cursor q.
Proof.
  intros Hs Hv Hok Hf1 Hf2 Hrun. unfold lookup_turn in Hrun. unfold qbind at 1 in Hrun. unfold turn_visited.
  destruct (observe_quiet q wanted cursor Hs) as (q1 & Hc1 & Hob1). rewrite Hob1 in Hrun |- *.
  pose proof (ran_observe q q1 wanted cursor Hs Hc1 Hob1) as Hr1.
  destruct (observed_after q q1 wanted cursor Hs Hc1) as (Hs1 & Ho1 & Hv1 & Hd1).
  destruct (atomic_observed q wanted cursor Hs) as [Hp|[(s & Hp & Hat)|(e & Hp & Hat)]];
    rewrite Hp in Hrun |- *; [|by injection Hrun as <- <-; left..].
  destruct (Hf1 q1 Hs1) as (n1 & Hn1 & Hlt1). pose proof (ran_sound _ _ _ Hn1 Hs1) as Hs2.
  destruct (scan_quiet (f1 q1) wanted cursor Hs2 Hok) as [r Hscan].
  destruct (Hf2 _ Hs2) as (n2 & Hn2 & Hlt2). pose proof (ran_sound _ _ _ Hn2 Hs2) as Hs3.
  destruct (observe_quiet _ wanted cursor Hs3) as (q4 & Hc4 & Hob4).
  pose proof (ran_observe _ q4 wanted cursor Hs3 Hc4 Hob4) as Hr4.
  unfold SharedQueue.interleave in Hrun. unfold qbind in Hrun. rewrite Hscan, Hob4 in Hrun.
  cbn zeta. rewrite Hscan. cbn [snd]. rewrite Hob4.
  assert (Hr2 : ran (n1 + 1) q (f1 q1)) by by eapply ran_trans.
  destruct (atomic_observed (f2 (f1 q1)) wanted cursor Hs3) as [Hp3|[(s & Hp3 & Hat)|(e & Hp3 & Hat)]];
    rewrite Hp3 in Hrun |- *;
    [|injection Hrun as <- <-; left; eapply atomic_later, Hat; [by eapply ran_trans|];
       apply singleton_subseteq; do 2 right; left..].
  destruct (Z.eqb_spec (state_version (f2 (f1 q1))) (state_version q)) as [Heq|Hne].
  - left. apply (atomic_later _ [f1 q1] _ _ _ _ _ _ Hr2); [apply singleton_subseteq; right; left|].
    assert (He2 : d_entries (disk_of (f1 q1)) = d_entries (disk_of q1))
      by (eapply (version_unchanged q1 (f1 q1)); [done|lia|done|done|done|done|congruence]).
    rewrite <- Ho1 in Hp. pose proof (observed_none q1 (f1 q1) wanted cursor Hs1 Hs2 He2 Hp) as Hp2.
    pose proof (answer_completed (f1 q1) wanted cursor r Hs2 Hok Hp2 Hscan) as Hans.
    split; [destruct r; injection Hrun as <- <-; [right|left]; by eexists|].
    exists 0%nat, (f1 q1). split; [left|]. split; [constructor|]. split; [done|]. rewrite Hans.
    by destruct r; injection Hrun as <- <-.
  - right. exists (1 + (n2 + (n1 + 1)))%nat, q1, q4. split_and!; try done; [|by do 3 right].
    eapply ran_trans; [|exact Hr4]. by eapply ran_trans.
Qed.

Lemma lookup_turns turns wanted cursor :
  SharedQueue.resolve_await_store cfg turns wanted cursor
  = match turns with
    | [] => lookup_turn (fun q => q) (fun q => q) (fun q => (Diverged, q)) wanted cursor
    | (f1, f2) :: turns =>
        lookup_turn f1 f2 (SharedQueue.resolve_await_store cfg turns wanted cursor) wanted cursor
    end.
Proof. by destruct turns as [|[f1 f2] turns]. Qed.

Lemma ran_version_range n q q' :
  ran n q q' -> sound q -> 0 <= state_version q < 2 ^ 64 -> 0 <= state_version q' < 2 ^ 64.
Proof.
  intros Hr Hs Hv. destruct (ran_version n q q' Hr Hs Hv) as (k & _ & -> & _).
  apply Z.mod_pos_bound. lia.
Qed.

Lemma lookup_atomic turns : forall q wanted cursor out q',
  sound q -> 0 <= state_version q < 2 ^ 64 -> cursor_ok cursor ->
  Forall (fun t => interference t.1 /\ interference t.2) turns ->
  SharedQueue.resolve_await_store cfg turns wanted cursor q = (out, q') ->
  atomic (visited turns wanted cursor q) q wanted cursor out.
Proof.
  induction turns as [|[f1 f2] turns IH]; intros q wanted cursor out q' Hs Hv Hok Hint Hrun;
    rewrite lookup_turns in Hrun; cbn [visited].
  - assert (Hid : interference (fun q => q)) by (intros q0 _; exists 0%nat; split; [constructor|lia]).
    destruct (turn_cases _ _ _ (fun _ => []) q wanted cursor out q' Hs Hv Hok Hid Hid Hrun)
      as [?|(n & q1 & q4 & Hc & Hne & _)]; [done|].
    by destruct (observed_after q q1 wanted cursor Hs Hc) as (_ & _ & ? & _).
  - apply Forall_cons_1 in Hint as [[Hf1 Hf2] Hint].
    destruct (turn_cases _ _ _ (visited turns wanted cursor) q wanted cursor out q' Hs Hv Hok Hf1 Hf2 Hrun)
      as [?|(n & q1 & q4 & _ & _ & Hr & Hag & Hsub)]; [done|].
    eapply atomic_later; [exact Hr|exact Hsub|].
    eapply IH; [by eapply ran_sound|by eapply ran_version_range|done|done|exact Hag].
Qed.
End shared.

(** * Results *)

(** C16: the shared queue refines the store.  From a sound state, every call of the
    listener and the worker leaves a sound state (the disk invariant, one claim at
    most, a cached projection that equals the schedule) and does to the store exactly
    its own operation, once, at the time of the call and with its outcome: nothing
    when the request is refused before the lock or the call reads.  The version is
    published and the worker notified exactly when the calls that do so succeed, and
    the version stays the same only if the queued entries did. *)
Theorem shared_queue_refines_store `{Platform} `{!PlatformOk} `{SerdeJson} `{!SerdeJsonOk} cfg q c out q' :
  sound cfg q -> is_u64 (state_version q) -> call_allowed cfg q c -> serve cfg c q = (out, q') ->
  sound cfg q' /\ own_step cfg q c out (q_world q') /\ q_now q' = q_now q
  /\ is_u64 (state_version q')
  /\ state_version q' = (if publishes c && succeeded out then wrapping_succ (state_version q) else state_version q)
  /\ q_permit q' = notifies c && succeeded out || q_permit q
  /\ (state_version q' = state_version q
       -> d_entries (w_disk (q_world q')) = d_entries (w_disk (q_world q))).
Proof.
  intros Hs Hu Hal Hrun. destruct (serve_served cfg q c out q' Hs Hal Hrun) as (Hs' & _ & Hn & Hv).
  destruct (serve_effect cfg q c out q' Hs Hal Hrun) as (Hstep & Hver & Hperm).
  pose proof (wrapping_succ_u64 (state_version q) Hu) as [Hu' Hne]. split_and!; try done.
  - rewrite Hver. by destruct (_ && _).
  - destruct Hv as [[_ He]|Hv]; [done|]. intros Heq. congruence.
Qed.

(** C17: an await lookup is atomic.  While it runs, other tasks may make any calls
    between its lock acquisitions; it still returns, and its answer is the one a
    lookup gives, with nothing else running, in one of the states that this lookup
    itself visited: those in which it took the lock or read the history, up to the
    turn in which it answered. *)
Theorem await_lookup_is_atomic `{Platform} `{!PlatformOk} `{SerdeJson} `{!SerdeJsonOk} cfg turns q
    wanted cursor out q' :
  sound cfg q -> is_u64 (state_version q) -> cursor_ok cursor ->
  Forall (fun t => interference cfg t.1 /\ interference cfg t.2) turns ->
  SharedQueue.resolve_await_store cfg turns wanted cursor q = (out, q') ->
  returned out
  /\ exists n q0, q0 ∈ visited cfg turns wanted cursor q /\ ran cfg n q q0
       /\ await_answer cfg q0 wanted cursor = out.
Proof.
  intros Hs Hv Hok Hint Hrun.
  destruct (lookup_atomic cfg turns q wanted cursor out q') as (Hret & n & q0 & Hin & Hr & _ & Ha); try done.
  - unfold is_u64, U64_MAX in Hv. lia.
  - eauto 10.
Qed.

(** C32: while an entry is queued, a waiter is told the same wait that [list]
    shows for it, whether the projection is cached or rebuilt, and the cursor it
    gets names the entry's lifetime. *)
Theorem await_agrees_with_list `{Platform} `{!PlatformOk} `{SerdeJson} `{!SerdeJsonOk} cfg q e :
  sound cfg q -> e ∈ entries_of (d_entries (w_disk (q_world q))) ->
  exists s eta offset,
    (SharedQueue.list cfg q).1 = Done s /\ (e, eta) ∈ s
    /\ (SharedQueue.resolve_await cfg [] (StoredEntry.id e) None q).1
       = Done (Ok (Pending eta (AwaitCursor.mk offset (StoredEntry.incarnation e)))).
Proof.
  intros Hs He. set (d := w_disk (q_world q)). set (u := w_uuids (q_world q)).
  pose proof (sound_wf cfg q Hs) as Hwf. pose proof (world_of cfg q Hs) as Hw.
  destruct (etas_at_entry cfg d (q_now q) e He) as (eta & Hin & Heta).
  pose proof (find_wf d u e Hwf He) as Hfind. destruct (history_end_wf d u Hwf) as [offset Hoff].
  exists (schedule_at cfg d (q_now q)), eta, offset. split_and!; [|done|].
  - unfold SharedQueue.list, qbind, unix_now, with_store, with_state, on_store. cbn [fst snd].
    rewrite Hw, schedule_quiet by done. done.
  - unfold SharedQueue.resolve_await, qbind, qattempt.
    assert (Hans : await_answer cfg q (StoredEntry.id e) None
                   = Done (Pending eta (AwaitCursor.mk offset (StoredEntry.incarnation e)))).
    { apply answer_pending; [done|]. unfold observed, SharedQueue.resolve_await_pending_with_eta,
        cbind, on_store. cbn [fst snd]. rewrite Hw.
      fold d u. rewrite (attempt_done _ _ _ _ Hfind). cbn [cret fst snd w_disk].
      rewrite Heta. cbn [default].
      unfold pending_await_state. erewrite bind_done by (erewrite bind_done by exact Hoff; done).
      done. }
    unfold await_answer in Hans. destruct (SharedQueue.resolve_await_store cfg [] _ None q) as [o q'].
    cbn [fst] in Hans. by rewrite Hans.
Qed.
