(* ===== verification/Wakes.v ===== *)
(** No change of the queue is slept through: a client call that changes the entries
    buffers a permit for the worker ([queue.rs], [mutation_finished]), permits last
    until the worker takes them, and a worker that waits for the head of the queue,
    or on an empty queue, takes the next turn after it. *)

From S2P Require Import Prelude Text Protocol Disk Entry Order Bounds Scan Capacity Writes Schedule.
From S2P Require Import History Store Readers DiskState Claims Edits Enqueue Lines Reverse Log.
From S2P Require Import Pages Append Recovery Completion Trace Queue Waits Shared.

Section wakes.
Context `{Platform} `{!PlatformOk} `{SerdeJson} `{!SerdeJsonOk} (cfg : Config.t).

Abbreviation disk_of q := (w_disk (q_world q)).
Abbreviation sound := (sound cfg).

(** Calls the listener makes for clients. *)
Definition client_call (c : call) : bool :=
  match c with
  | QPut _ _ _ _ | QList | QBump _ | QBust _ | QDel _ | QHistory _ _ | QAwait _ _ => true
  | QClaim | QRelease _ _ | QComplete _ _ _ | QFail _ _ _ | QRecover | QLastToken => false
  end.

(** The worker has a permit, or there is nothing new for it. *)
Definition noticed (q q' : queue) : Prop :=
  q_permit q' = true
  \/ q_permit q' = q_permit q /\ d_entries (disk_of q') = d_entries (disk_of q).

Lemma noticed_refl q : noticed q q.
Proof. by right. Qed.
Lemma noticed_trans q1 q2 q3 : noticed q1 q2 -> noticed q2 q3 -> noticed q1 q3.
Proof.
  intros [H12|[H12 E12]] [H23|[H23 E23]]; [by left|left|by left|right]; [congruence|].
  split; congruence.
Qed.

(** Work under the lock leaves the permit alone; work that does not succeed leaves
    the entries alone. *)
Lemma store_noticed {A} name (m : M A) o q out q' :
  sound q -> same_effect m (perform o (q_now q)) -> allowed (disk_of q) (q_now q) o ->
  with_store name m q = (out, q') ->
  q_permit q' = q_permit q
  /\ ((forall a, out <> Done a) -> d_entries (disk_of q') = d_entries (disk_of q)).
Proof.
  intros Hs Heff Hal Hrun. pose proof (Heff (q_world q)) as He.
  unfold with_store, with_state, on_store in Hrun. cbn [fst snd] in Hrun.
  destruct (m (q_world q)) as [o1 w] eqn:Em. rewrite (world_of cfg q Hs) in He at 1.
  assert (Hkeep : (forall a, o1 <> Done a) -> w_disk w = disk_of q).
  { intros Hno. destruct o1 as [a|e| |]; [by destruct (Hno a)|..];
      (eapply perform_unfinished; [by apply (sound_wf cfg)|exact Hal| |exact He]; done). }
  assert (Hq : q_permit q' = q_permit q /\ q_world q' = w /\ out = o1).
  { destruct o1; [destruct (is_state_mutation name)|..]; by injection Hrun as <- <-. }
  destruct Hq as (Hp & -> & ->). split; [done|]. intros Hno. by rewrite Hkeep.
Qed.

Lemma finished_noticed {A} name (m : M A) o q out q' :
  sound q -> same_effect m (perform o (q_now q)) -> allowed (disk_of q) (q_now q) o ->
  is_state_mutation name = true ->
  qbind (with_store name m) (fun a => qbind SharedQueue.mutation_finished (fun _ => qret a)) q = (out, q') ->
  noticed q q'.
Proof.
  intros Hs Heff Hal Hn. unfold qbind at 1. destruct (with_store name m q) as [o1 q1] eqn:Hw.
  destruct (store_noticed name m o q o1 q1 Hs Heff Hal Hw) as [Hp Hkeep].
  destruct (store_after cfg name m o q Hs Heff Hal Hn o1 q1 Hw) as [Hs1 _].
  destruct o1 as [a|e| |]; try (intros [= _ <-]; right; by split; [|apply Hkeep]).
  unfold SharedQueue.mutation_finished, qbind. rewrite (gauges_quiet cfg q1) by done.
  intros [= _ <-]. by left.
Qed.

Lemma drop_state {A} (m : QM A) q out q' :
  drop m q = (out, q') -> exists out', m q = (out', q').
Proof. unfold drop, qbind. destruct (m q) as [[?|?| |] q1]; intros [= _ <-]; eauto. Qed.

Lemma still_noticed {A} name (m : M A) q out q' :
  sound q -> still m -> is_state_mutation name = false -> with_store name m q = (out, q') -> noticed q q'.
Proof.
  intros Hs Hm Hn Hrun. destruct (with_store_still cfg name m q Hs Hm Hn) as [out' Ho].
  rewrite Hrun in Ho. injection Ho as -> ->. apply noticed_refl.
Qed.

(** A client that changes the queue leaves a permit. *)
Lemma client_noticed q c out q' :
  sound q -> call_allowed cfg q c -> client_call c = true -> serve cfg c q = (out, q') -> noticed q q'.
Proof.
  intros Hs Hal Hc. destruct c; try done; cbn [serve]; unfold call_allowed in Hal; cbn [store_op] in Hal.
  - intros [out' Hrun]%drop_state. unfold SharedQueue.put in Hrun. unfold qbind at 1 in Hrun.
    destruct (validate_request request) as [err|[]]; cbn [qlift qret qthrow] in Hrun.
    { injection Hrun as _ <-. apply noticed_refl. }
    cbn beta zeta iota in Hrun. unfold qbind at 1, unix_now in Hrun. cbn beta iota in Hrun.
    eapply finished_noticed; [done| |exact Hal| |exact Hrun]; [apply same_effect_drop|done].
  - intros [out' Hrun]%drop_state. eapply (still_noticed "list"); [done| |done|exact Hrun]; auto with still.
  - intros Hrun. eapply finished_noticed; [done| |exact Hal| |exact Hrun]; [apply same_effect_unit|done].
  - intros Hrun. eapply finished_noticed; [done| |exact Hal| |exact Hrun]; [apply same_effect_unit|done].
  - intros Hrun. eapply finished_noticed; [done| |exact Hal| |exact Hrun]; [apply same_effect_unit|done].
  - intros [out' Hrun]%drop_state. eapply (still_noticed "history"); [done| |done|exact Hrun]; auto with still.
  - intros [out' Hrun]%drop_state. destruct (observe_quiet cfg q id cursor Hs) as (q2 & (ca & _ & ->) & Ho).
    rewrite Hrun in Ho. assert (q' = Queue (q_world q) ca (state_version q) (q_now q) (q_permit q)) as ->
      by (destruct (observed cfg q id cursor); by injection Ho).
    by right.
Qed.

(** What clients do while the worker waits; time passes. *)
Inductive clients_ran : queue -> queue -> Prop :=
| clients_none q : clients_ran q q
| clients_more q q1 c out q2 :
    clients_ran q q1 -> call_allowed cfg q1 c -> client_call c = true -> serve cfg c q1 = (out, q2) ->
    clients_ran q q2
| clients_tick q q1 now :
    clients_ran q q1 -> q_now q1 <= now -> is_u64 now ->
    clients_ran q (Queue (q_world q1) (await_schedule q1) (state_version q1) now (q_permit q1)).

Lemma clients_ran_noticed q q' : clients_ran q q' -> sound q -> sound q' /\ noticed q q'.
Proof.
  induction 1 as [q|q q1 c out q2 _ IH Hal Hc Hrun|q q1 now _ IH Hle Hu]; intros Hs.
  - split; [done|apply noticed_refl].
  - destruct (IH Hs) as [Hs1 Hn]. split; [by eapply (serve_served cfg q1)|].
    eapply noticed_trans; [exact Hn|by eapply client_noticed].
  - destruct (IH Hs) as [Hs1 Hn]. split; [by apply tick_sound|]. by eapply noticed_trans; [exact Hn|right].
Qed.

Definition clients_only (f : queue -> queue) : Prop := forall q, sound q -> clients_ran q (f q).

(** ** Waiting *)

Lemma taken_sound q : sound q -> sound (taken q).
Proof. intros []. by constructor. Qed.

(** A wait that goes on has seen no change. *)
Lemma select_loop_noticed enabled timer polls : forall at_ q t q',
  sound q -> Forall (fun p => clients_only (p_others p)) polls ->
  select_loop enabled timer at_ polls q = (Done (Unfinished, t), q') ->
  d_entries (disk_of q') = d_entries (disk_of q).
Proof.
  induction polls as [|p polls IH]; intros at_ q t q' Hs Hp; cbn [select_loop]; [by intros [= _ <-]|].
  apply Forall_cons_1 in Hp as [Hp Hrest]. destruct (clients_ran_noticed _ _ (Hp q Hs) Hs) as [Hs1 Hn].
  destruct (select_spec enabled timer (later at_ (p_elapsed p)) p q) as (w & q1 & Hsel & Hq1 & Hw).
  unfold qbind. rewrite Hsel. destruct w as [[]|]; try done. destruct Hw as (_ & _ & _ & Hno).
  intros Hrun. rewrite (IH (later at_ (p_elapsed p)) q1 t q'); [|by destruct Hq1 as [-> | ->]; [|apply taken_sound]|done|exact Hrun].
  destruct Hn as [Hn|[_ Hn]]; [congruence|]. by destruct Hq1 as [-> | ->].
Qed.

(** Without a shutdown the loop does not stop. *)
Lemma select_loop_shutdown enabled timer polls : forall at_ q t q',
  Forall (fun p => p_shutdown p = false) polls ->
  select_loop enabled timer at_ polls q <> (Done (Stop, t), q').
Proof.
  induction polls as [|p polls IH]; intros at_ q t q' Hp; cbn [select_loop]; [done|].
  apply Forall_cons_1 in Hp as [Hp Hrest].
  destruct (select_spec enabled timer (later at_ (p_elapsed p)) p q) as (w & q1 & Hsel & _ & Hw).
  unfold qbind. rewrite Hsel. destruct w as [[]|]; try done; [congruence|by apply IH].
Qed.
End wakes.

(** * Result *)

(** C11: no change is slept through.  While the worker waits on the empty queue, or for
    the scheduled head, and clients use the queue in any way at the same time: if the
    queued entries have changed by the end of the wait, or a change was notified
    before the wait began, and no shutdown was signalled, the wait is over and the
    worker takes another turn. *)
Theorem changes_wake_the_worker `{Platform} `{!PlatformOk} `{SerdeJson} `{!SerdeJsonOk} `{Timer} cfg w wait_seconds
    at_ polls q e t q' :
  sound cfg q -> Forall (fun p => clients_only cfg (p_others p)) polls ->
  Forall (fun p => p_shutdown p = false) polls ->
  w = wait_for_change \/ w = wait_for_scheduled_entry wait_seconds ->
  w at_ polls q = (Done (e, t), q') ->
  d_entries (w_disk (q_world q')) <> d_entries (w_disk (q_world q)) \/ q_permit q = true /\ polls <> [] ->
  e = Again.
Proof.
  intros Hs Hp Hsh Hw Hrun Hne.
  assert (Hloop : exists enabled timer q0, sound cfg q0 /\ d_entries (w_disk (q_world q0)) = d_entries (w_disk (q_world q))
    /\ (q_permit q = true -> enabled = true \/ q_permit q0 = true)
    /\ select_loop enabled timer at_ polls q0 = (Done (e, t), q')).
  { destruct Hw as [-> | ->].
    - eexists _, _, q. by split_and!; [..|right|].
    - eexists _, _, (taken q). split_and!; [by apply taken_sound|done|by left|exact Hrun]. }
  destruct Hloop as (enabled & timer & q0 & Hs0 & He & Hperm & Hl). destruct Hne as [Hne|[Hq Hne]].
  - destruct e; [|done|]; [by destruct (select_loop_shutdown enabled timer polls at_ q0 t q' Hsh)|].
    destruct Hne. rewrite <- He. by eapply select_loop_noticed.
  - destruct polls as [|p polls]; [done|]. apply Forall_cons_1 in Hp as [Hp _], Hsh as [Hsh _].
    destruct (select_loop_spec enabled timer (p :: polls) at_ q0) as (e' & t' & q1 & Hl' & _ & Hends & _).
    rewrite Hl in Hl'. injection Hl' as <- <- <-. apply (Hends p polls eq_refl Hsh).
    destruct (clients_ran_noticed cfg _ _ (Hp q0 Hs0) Hs0) as [_ [Hn|[Hn _]]], (Hperm Hq); auto; right; congruence.
Qed.
