(* ===== verification/Concurrent.v ===== *)
(** Concurrent callers of the shared queue ([queue.rs], [queue/store_access.rs]).

    A call is not atomic: it validates its arguments and reads the clock, takes the
    lock for its store work, and afterwards refreshes the gauges and notifies the
    worker.  Any number of calls run at the same time, one lock acquisition at a time;
    their times may be behind those of calls that took the lock before them.  In the
    order in which they take the lock, their answers are those of the abstract queue. *)

From S2P Require Import Prelude Text Protocol Disk Entry Order Bounds Scan Capacity Writes Schedule.
From S2P Require Import History Store Readers DiskState Claims Edits Enqueue Lines Reverse Log.
From S2P Require Import Pages Append Recovery Completion Faults Resume Trace Spec Returns Queue Waits Shared Wakes.

(** * The phases of a call *)

Section phases.
Context `{Platform} `{SerdeJson} (cfg : Config.t).

(** The name under which a call runs its store work, for calls that mutate the store. *)
Definition call_name (c : call) : option string :=
  match c with
  | QPut _ _ _ _ => Some "put"
  | QBump _ => Some "bump"
  | QBust _ => Some "bust"
  | QDel _ => Some "del"
  | QClaim => Some "claim_next_due"
  | QRelease _ _ => Some "release_claim"
  | QComplete _ _ _ => Some "complete"
  | QFail _ _ _ => Some "append_history"
  | QRecover => Some "recover_worker_state"
  | QList | QLastToken | QHistory _ _ | QAwait _ _ => None
  end.

(** Before the lock: the arguments are validated. *)
Definition enter (c : call) : result StoreError unit :=
  match c with QPut _ request _ _ => validate_request request | _ => Ok tt end.

(** Under the lock. *)
Definition locked (name : string) (o : op) (now : Z) : QM reply := with_store name (Spec.answer o now).

(** After store work that succeeded. *)
Definition leave (c : call) (r : reply) : QM unit :=
  match c with
  | QPut _ _ _ _ | QBump _ | QBust _ | QDel _ => SharedQueue.mutation_finished
  | QRelease _ _ | QComplete _ _ _ | QRecover => SharedQueue.update_queue_gauges
  | QClaim =>
      match r with
      | Next (Some (_, wait)) => if wait =? 0 then SharedQueue.update_queue_gauges else qret tt
      | _ => qret tt
      end
  | _ => qret tt
  end.

(** The phases of a call that runs alone. *)
Definition alone (c : call) (name : string) (o : op) : QM unit :=
  let> _ := qlift (enter c) in
  let> now := unix_now in
  let> r := locked name o now in
  leave c r.

Lemma with_store_map {A B} name (m : M A) (f : A -> B) q :
  with_store name (bind m (fun a => ret (f a))) q
  = match with_store name m q with
    | (Done a, q) => (Done (f a), q)
    | (Failed e, q) => (Failed e, q)
    | (Crashed, q) => (Crashed, q)
    | (Diverged, q) => (Diverged, q)
    end.
Proof.
  unfold with_store, with_state, on_store, bind. cbn [fst snd].
  destruct (m (q_world q)) as [[a|e| |] w]; [destruct (is_state_mutation name)|..]; done.
Qed.

(** The phases are the call. *)
Lemma alone_serves c name o q :
  call_name c = Some name -> store_op cfg c = Some o -> alone c name o q = serve cfg c q.
Proof.
  intros Hn Ho. destruct c; try done; injection Hn as <-; injection Ho as <-; cbn [serve].
  all: unfold alone, locked, drop, SharedQueue.put, SharedQueue.bump, SharedQueue.bust, SharedQueue.del,
    SharedQueue.mutate_entry, SharedQueue.claim_next_due, SharedQueue.release_claim, SharedQueue.complete,
    SharedQueue.recover_worker_state, SharedQueue.then_gauges, qbind, unix_now.
  all: cbn [enter qlift qret leave Spec.answer perform]; cbn beta iota zeta.
  8:{ unfold with_store, with_state, on_store, SharedQueue.append_history, bind. cbn [fst snd].
      unfold SharedQueue.record_failure, qbind, unix_now. cbn beta iota.
      destruct (History.record_failure _ _ _ _ (q_world q)) as [[r|err| |] w]; try done.
      unfold SharedQueue.append_history, with_store, with_state, on_store. cbn [fst snd q_world].
      by destruct (append HISTORY_FILE r w) as [[[]|err| |] w1]. }
  1: destruct (validate_request request) as [err|[]]; [done|]; cbn [qlift qret]; cbn beta iota.
  all: rewrite with_store_map.
  all: destruct (with_store _ _ q) as [[a|err| |] q1]; try done.
  all: try (destruct a as [[x wait]|]; cbn [fmap option_fmap option_map fst snd]; [|done]; destruct (wait =? 0); [|done]).
  all: try (by destruct (SharedQueue.mutation_finished q1) as [[[]|err| |] q2]; try destruct a).
  all: by destruct (SharedQueue.update_queue_gauges q1) as [[[]|err| |] q2]; try destruct a.
Qed.

(** ** Under the lock *)

Context `{!PlatformOk} `{!SerdeJsonOk}.
Abbreviation disk_of q := (w_disk (q_world q)).
Abbreviation sound := (sound cfg).

Lemma answer_effect o now : same_effect (Spec.answer o now) (perform o now).
Proof.
  intros w. destruct o; cbn [Spec.answer].
  all: try (unfold bind; by destruct (perform _ now w) as [[[]|?| |] ?]).
  - cbn [perform]. unfold bind. by destruct (put_with_eta _ _ _ _ w) as [[?|?| |] ?].
  - cbn [perform]. unfold bind. by destruct (claim_next_due _ _ w) as [[?|?| |] ?].
Qed.

(** Store work with a time that may be behind keeps the queue sound. *)
Lemma locked_sound c name o now q out q' :
  sound q -> now <= q_now q -> call_name c = Some name -> store_op cfg c = Some o -> allowed (disk_of q) now o ->
  locked name o now q = (out, q') ->
  sound q' /\ Spec.answer o now (q_world q) = (out, q_world q') /\ q_now q' = q_now q.
Proof.
  intros Hs Hle Hn Ho Hal Hrun.
  destruct (with_store_sound_at cfg name (Spec.answer o now) o now q out q') as (Hs' & Ha & Hq & _); try done.
  - apply answer_effect.
  - destruct c; try done; injection Hn as <-; injection Ho as <-; eauto.
Qed.

(** After the lock only the permit may change. *)
Lemma leave_quiet c r q :
  sound q -> exists q', leave c r q = (Done tt, q') /\ sound q' /\ q_world q' = q_world q /\ q_now q' = q_now q.
Proof.
  intros Hs. pose proof (gauges_quiet cfg q Hs) as Hg.
  assert (Hfin : exists q', SharedQueue.mutation_finished q = (Done tt, q') /\ sound q' /\ q_world q' = q_world q
    /\ q_now q' = q_now q).
  { unfold SharedQueue.mutation_finished, qbind. rewrite Hg. eexists. split; [done|].
    split_and!; [by destruct Hs; constructor|done|done]. }
  assert (Hret : exists q', qret tt q = (Done tt, q') /\ sound q' /\ q_world q' = q_world q /\ q_now q' = q_now q)
    by by exists q.
  destruct c; cbn [leave]; try done; try by exists q.
  destruct r as [| |[[w wait]|]|]; try done. destruct (wait =? 0); [by exists q|done].
Qed.

Lemma still_same {A} name (m : M A) q out q' :
  sound q -> still m -> is_state_mutation name = false -> with_store name m q = (out, q') -> q' = q.
Proof.
  intros Hs Hm Hn Hrun. destruct (with_store_still cfg name m q Hs Hm Hn) as [out' Ho].
  rewrite Hrun in Ho. by injection Ho as _ ->.
Qed.

(** A reader changes the cached projection at most. *)
Lemma reader_quiet q c out q' :
  sound q -> store_op cfg c = None -> serve cfg c q = (out, q') ->
  sound q' /\ q_world q' = q_world q /\ q_now q' = q_now q.
Proof.
  intros Hs Hno Hrun. destruct (serve_served cfg q c out q' Hs) as (Hs' & _ & Hn & _); [|done|].
  { unfold call_allowed. by rewrite Hno. }
  split_and!; [done| |done]. destruct c; try done; cbn [serve] in Hrun; apply drop_state in Hrun as [out' Hrun].
  - f_equal. eapply (still_same "list"); [done| |done|exact Hrun]. auto with still.
  - f_equal. eapply (still_same "latest_history_token"); [done| |done|exact Hrun]. auto with still.
  - f_equal. eapply (still_same "history"); [done| |done|exact Hrun]. auto with still.
  - destruct (observe_quiet cfg q id cursor Hs) as (q2 & (ca & _ & ->) & Ho). rewrite Hrun in Ho.
    destruct (observed cfg q id cursor); by injection Ho as _ ->.
Qed.

(** * Systems of calls *)

(** A call that was made; that has read the clock; whose store work is done; that has
    returned, with the time it read unless it was rejected before. *)
Inductive task :=
| Called (c : call)
| Clocked (c : call) (now : Z)
| Applied (c : call) (now : Z) (r : reply)
| Returned (c : call) (r : option (Z * reply)).

Record system := System { y_queue : queue; y_tasks : list task }.

Definition after_lock (c : call) (now : Z) (r : reply) : task :=
  match r with Refused => Returned c (Some (now, Refused)) | _ => Applied c now r end.

(** One task moves, time passes, a reader runs, or the worker takes its permit.  Store
    work is an event: the operation, the time the caller read, the answer.  The store
    work of a caller that is dropped goes on without it; such a task takes no step
    after it. *)
Inductive sys_step : system -> list (op * Z * reply) -> system -> Prop :=
| sys_call q ts c : sys_step (System q ts) [] (System q (ts ++ [Called c]))
| sys_tick q ts now :
    q_now q <= now -> is_u64 now ->
    sys_step (System q ts) []
      (System (Queue (q_world q) (await_schedule q) (state_version q) now (q_permit q)) ts)
| sys_reject q ts i c e :
    ts !! i = Some (Called c) -> enter c = Err e ->
    sys_step (System q ts) [] (System q (<[i := Returned c None]> ts))
| sys_clock q ts i c :
    ts !! i = Some (Called c) -> enter c = Ok tt ->
    sys_step (System q ts) [] (System q (<[i := Clocked c (q_now q)]> ts))
| sys_lock q ts i c now name o out q' r :
    ts !! i = Some (Clocked c now) -> call_name c = Some name -> store_op cfg c = Some o ->
    Spec.ready (disk_of q) now o -> locked name o now q = (out, q') -> reply_of out = Some r ->
    sys_step (System q ts) [(o, now, r)] (System q' (<[i := after_lock c now r]> ts))
| sys_leave q ts i c now r q' :
    ts !! i = Some (Applied c now r) -> leave c r q = (Done tt, q') ->
    sys_step (System q ts) [] (System q' (<[i := Returned c (Some (now, r))]> ts))
| sys_read q ts c out q' :
    store_op cfg c = None -> serve cfg c q = (out, q') -> sys_step (System q ts) [] (System q' ts)
| sys_wake q ts : sys_step (System q ts) [] (System (taken q) ts).

Inductive sys_run : system -> list (op * Z * reply) -> system -> Prop :=
| sys_run_nil s : sys_run s [] s
| sys_run_cons s es s1 tr s2 : sys_step s es s1 -> sys_run s1 tr s2 -> sys_run s (es ++ tr) s2.

(** ** Answers *)

(** The event of a task whose store work is done. *)
Definition event_of (t : task) : option (op * Z * reply) :=
  match t with
  | Applied c now r | Returned c (Some (now, r)) => (fun o => (o, now, r)) <$> store_op cfg c
  | _ => None
  end.

Lemma omap_split {A B} (f : A -> option B) (l1 : list A) x l2 :
  omap f (l1 ++ x :: l2) = omap f l1 ++ option_list (f x) ++ omap f l2.
Proof. rewrite omap_app. cbn. by destruct (f x). Qed.

(** A move of one task adds its new event. *)
Lemma omap_insert {A B} (f : A -> option B) (l : list A) i x y (added : list B) :
  l !! i = Some x -> option_list (f y) = added ++ option_list (f x) -> omap f (<[i := y]> l) ≡ₚ added ++ omap f l.
Proof.
  intros Hi Hf. rewrite (insert_take_drop l i y) by by apply lookup_lt_Some in Hi.
  rewrite <- (take_drop_middle l i x Hi) at 3. rewrite !omap_split, Hf. by solve_Permutation.
Qed.

(** The events so far are the answers of the tasks. *)
Lemma step_events s es s' :
  sys_step s es s' -> omap event_of (y_tasks s') ≡ₚ es ++ omap event_of (y_tasks s).
Proof.
  destruct 1 as [q ts c|q ts now|q ts i c e Hi _|q ts i c Hi _|q ts i c now name o out q' r Hi _ Ho _ _ _|
    q ts i c now r q' Hi _|q ts c out q' _ _|q ts]; cbn [y_tasks app]; try done.
  - rewrite omap_app. cbn. by rewrite app_nil_r.
  - by apply (omap_insert _ _ _ _ _ [] Hi).
  - by apply (omap_insert _ _ _ _ _ [] Hi).
  - apply (omap_insert _ _ _ _ _ [(o, now, r)] Hi). destruct r; cbn; by rewrite Ho.
  - by apply (omap_insert _ _ _ _ _ [] Hi).
Qed.

(** ** Refinement *)

(** A sound queue with a log that can be appended to and ordering keys within [k];
    callers have read the clock in the past. *)
Record orderly (k : Z) (s : system) : Prop := {
  or_sound : sound (y_queue s);
  or_tail : tail_ok (content (disk_of (y_queue s)) HISTORY_FILE);
  or_spread : spread k (disk_of (y_queue s));
  or_clocks : forall c now, Clocked c now ∈ y_tasks s -> now <= q_now (y_queue s);
}.

Lemma orderly_same k q ts q' ts' :
  orderly k (System q ts) -> sound q' -> disk_of q' = disk_of q -> q_now q <= q_now q' ->
  (forall c now, Clocked c now ∈ ts' -> Clocked c now ∈ ts \/ now <= q_now q') -> orderly k (System q' ts').
Proof.
  intros [Hs Ht Hk Hc] Hs' Hd Hle Hts. constructor; cbn [y_queue y_tasks] in *; rewrite ?Hd; try done.
  intros c now Hin. destruct (Hts c now Hin) as [Hold|]; [|done]. specialize (Hc c now Hold). lia.
Qed.

(** A task that moves does not change the clock readings of the others. *)
Lemma clocked_insert (ts : list task) i t c now :
  Clocked c now ∈ <[i := t]> ts -> t = Clocked c now \/ Clocked c now ∈ ts.
Proof.
  intros [j Hj]%list_elem_of_lookup_1. destruct (decide (i = j)) as [->|Hne].
  - destruct (decide (j < length ts)%nat).
    + rewrite list_lookup_insert_eq in Hj by done. injection Hj as ->. by left.
    + rewrite list_insert_ge in Hj by lia. right. by eapply list_elem_of_lookup_2.
  - rewrite list_lookup_insert_ne in Hj by done. right. by eapply list_elem_of_lookup_2.
Qed.

(** What is not store work is no step of the abstract queue. *)
Lemma quiet_refines k q ts q' ts' :
  orderly k (System q ts) -> sound q' -> disk_of q' = disk_of q -> q_now q <= q_now q' ->
  (forall c now, Clocked c now ∈ ts' -> Clocked c now ∈ ts \/ now <= q_now q') ->
  spec_run (abs (disk_of q)) [] (abs (disk_of q')) /\ orderly (k + 0) (System q' ts').
Proof. intros Ho Hs Hd Hle Hts. rewrite Hd, Z.add_0_r. split; [constructor|by eapply orderly_same]. Qed.

(** Store work is a step of the abstract queue. *)
Lemma lock_refines k q ts i c now name o out q' r :
  orderly k (System q ts) -> 0 <= k < I64_MAX ->
  ts !! i = Some (Clocked c now) -> call_name c = Some name -> store_op cfg c = Some o ->
  Spec.ready (disk_of q) now o -> locked name o now q = (out, q') -> reply_of out = Some r ->
  spec_run (abs (disk_of q)) [(o, now, r)] (abs (disk_of q'))
  /\ orderly (k + 1) (System q' (<[i := after_lock c now r]> ts)).
Proof.
  intros [Hs Ht Hk Hc] Hlim Hi Hn Ho Hready Hrun Hr. cbn [y_queue y_tasks] in *.
  pose proof (Hc c now ltac:(by eapply list_elem_of_lookup_2)) as Hle.
  destruct (locked_sound c name o now q out q' Hs Hle Hn Ho (proj1 Hready) Hrun) as (Hs' & Ha & Hq).
  rewrite (world_of cfg q Hs) in Ha.
  destruct (step_simulates k now (disk_of q) (w_uuids (q_world q)) o out (q_world q') r) as (Hstep & Hk' & Ht');
    try done; [by apply (sound_wf cfg)|].
  split; [by repeat econstructor|]. constructor; cbn [y_queue y_tasks]; try done.
  intros c1 now1 [Heq|Hin]%clocked_insert; [by destruct r|]. rewrite Hq. by eapply Hc.
Qed.

Lemma step_refines k s es s' :
  orderly k s -> 0 <= k -> k + zlen es <= I64_MAX -> sys_step s es s' ->
  spec_run (abs (disk_of (y_queue s))) es (abs (disk_of (y_queue s'))) /\ orderly (k + zlen es) s'.
Proof.
  intros Hor Hpos Hlim Hst. pose proof (or_sound k s Hor) as Hs.
  destruct Hst as [q ts c|q ts now Hle Hu|q ts i c e Hi _|q ts i c Hi _|q ts i c now name o out q' r Hi Hn Ho Hrd Hrun Hr|
    q ts i c now r q' Hi Hl|q ts c out q' Hno Hrun|q ts]; cbn [y_queue] in *.
  5:{ apply (lock_refines k q ts i c now name o out q' r); try done. unfold zlen in Hlim. cbn in Hlim. lia. }
  all: change (zlen []) with 0.
  - apply (quiet_refines k q ts); try done. intros c1 now1 [Hin|Hin]%elem_of_app; [by left|].
    by apply list_elem_of_singleton in Hin.
  - apply (quiet_refines k q ts); [done|by apply tick_sound|done|done|auto].
  - apply (quiet_refines k q ts); try done. intros c1 now1 [?|Hin]%clocked_insert; [done|by left].
  - apply (quiet_refines k q ts); try done.
    intros c1 now1 [[= <- <-]|Hin]%clocked_insert; [by right|by left].
  - destruct (leave_quiet c r q Hs) as (q1 & Hq1 & Hs1 & Hw & Hn). rewrite Hl in Hq1. injection Hq1 as <-.
    apply (quiet_refines k q ts); [done|done|by rewrite Hw|by rewrite Hn|].
    intros c1 now1 [?|Hin]%clocked_insert; [done|by left].
  - destruct (reader_quiet q c out q' Hs Hno Hrun) as (Hs1 & Hw & Hn).
    apply (quiet_refines k q ts); [done|done|by rewrite Hw|by rewrite Hn|auto].
  - apply (quiet_refines k q ts); [done|by apply taken_sound|done|done|auto].
Qed.

Lemma spec_run_app s tr s1 tr' s2 : spec_run s tr s1 -> spec_run s1 tr' s2 -> spec_run s (tr ++ tr') s2.
Proof. induction 1 as [s|s o now r s1 tr s3 Hst _ IH]; intros Hr; [done|]. econstructor; [exact Hst|auto]. Qed.

Lemma run_refines s tr s' : sys_run s tr s' -> forall k,
  orderly k s -> 0 <= k -> k + zlen tr <= I64_MAX ->
  spec_run (abs (disk_of (y_queue s))) tr (abs (disk_of (y_queue s')))
  /\ omap event_of (y_tasks s') ≡ₚ omap event_of (y_tasks s) ++ tr /\ orderly (k + zlen tr) s'.
Proof.
  induction 1 as [s|s es s1 tr s2 Hst _ IH]; intros k Hor Hpos Hlim.
  { change (zlen []) with 0. rewrite app_nil_r, Z.add_0_r. by split; [constructor|]. }
  rewrite zlen_app in Hlim. pose proof (zlen_nonneg tr). pose proof (zlen_nonneg es).
  destruct (step_refines k s es s1 Hor Hpos ltac:(lia) Hst) as [Hr Hor1].
  destruct (IH _ Hor1 ltac:(lia) ltac:(lia)) as (Hr2 & Hev & Hor2).
  split; [by eapply spec_run_app|]. rewrite zlen_app, Z.add_assoc. split; [|done].
  rewrite Hev, (step_events _ _ _ Hst). by solve_Permutation.
Qed.

(** ** Progress *)

(** The steps a call has left. *)
Definition steps_left (t : task) : nat :=
  match t with Called _ => 3 | Clocked _ _ => 2 | Applied _ _ _ => 1 | Returned _ _ => 0 end.

(** A call that waits for the lock has arguments the store takes. *)
Definition runnable (d : disk) (t : task) : Prop :=
  match t with
  | Clocked c now => exists o, store_op cfg c = Some o /\ Spec.ready d now o /\ nameable d now o
  | Returned _ _ => False
  | Called _ | Applied _ _ _ => True
  end.

(** No call waits for another one: it can take its next step whatever the others do. *)
Definition moves (s : system) (i : nat) (t : task) : Prop :=
  exists es s1 t1, sys_step s es s1 /\ y_tasks s1 = <[i := t1]> (y_tasks s) /\ (steps_left t1 < steps_left t)%nat.

Lemma call_named c o : store_op cfg c = Some o -> exists name, call_name c = Some name.
Proof. destruct c; try done; intros _; by eexists. Qed.

Lemma task_moves k s i t :
  orderly k s -> y_tasks s !! i = Some t -> runnable (disk_of (y_queue s)) t -> moves s i t.
Proof.
  intros Hor Hi Hr. destruct s as [q ts]. pose proof (or_sound _ _ Hor) as Hs. cbn [y_queue y_tasks] in *.
  destruct t as [c|c now|c now r|]; [| | |done].
  - destruct (enter c) as [e|[]] eqn:He.
    + eexists _, _, _. split; [by eapply sys_reject|]. split; [done|cbn; lia].
    + eexists _, _, _. split; [by eapply sys_clock|]. split; [done|cbn; lia].
  - destruct Hr as (o & Ho & Hready & Hname). destruct (call_named c o Ho) as [name Hn].
    destruct (locked name o now q) as [out q'] eqn:Hl.
    pose proof (or_clocks _ _ Hor c now ltac:(by eapply list_elem_of_lookup_2)) as Hle.
    destruct (locked_sound c name o now q out q' Hs Hle Hn Ho (proj1 Hready) Hl) as (_ & Ha & _).
    assert (exists r, reply_of out = Some r) as [r Hrep].
    { rewrite (world_of cfg q Hs) in Ha.
      destruct (answer_returns (disk_of q) (w_uuids (q_world q)) now o (sound_wf cfg q Hs) (proj1 Hready) Hname)
        as [(a & w & Hx)|(e & w & Hx)]; rewrite Ha in Hx; injection Hx as -> _; by eexists. }
    eexists _, _, _. split; [by eapply sys_lock|]. split; [done|]. destruct r; cbn; lia.
  - destruct (leave_quiet c r q Hs) as (q' & Hl & _). eexists _, _, _. split; [by eapply sys_leave|].
    split; [done|cbn; lia].
Qed.
End phases.

(** * Result *)

(** C4: concurrent callers see one queue.  Any number of calls to the shared queue,
    clients' and the worker's, run at the same time: each validates its arguments and
    reads the clock, takes the store lock for its work, and refreshes gauges and
    notifies afterwards, in any interleaving with the others, with readers, with the
    worker's permit and with the passing of time, so that a call may enter the store
    with a time that is behind.  In the order of the locks, the answers the calls get
    are those of an execution of the abstract queue, and each call whose work is done
    has exactly its own answer in it.  This holds at every point, so the order respects
    what returned before something else was called.  No call can be stuck: at every
    point each one that has not returned can take its next step, of at most three. *)
Theorem concurrent_calls_see_one_queue `{Platform} `{SerdeJson} cfg `{!PlatformOk} `{!SerdeJsonOk} s tr s' :
  orderly cfg (2 ^ 62) s -> y_tasks s = [] -> zlen tr < 2 ^ 62 -> sys_run cfg s tr s' ->
  spec_run (abs (w_disk (q_world (y_queue s)))) tr (abs (w_disk (q_world (y_queue s'))))
  /\ omap (event_of cfg) (y_tasks s') ≡ₚ tr
  /\ forall i t, y_tasks s' !! i = Some t -> runnable cfg (w_disk (q_world (y_queue s'))) t -> moves cfg s' i t.
Proof.
  intros Hor Hts Hlen Hrun.
  destruct (run_refines cfg s tr s' Hrun (2 ^ 62) Hor) as (Hr & Hev & Hor'); [lia|unfold I64_MAX; lia|].
  rewrite Hts in Hev. split_and!; [done|done|]. intros i t. by apply (task_moves cfg _ s' i t Hor').
Qed.
