(* ===== verification/Worker.v ===== *)
(** The queue worker ([worker.rs], [run_worker]): claim the due entry, post it
    with the next token, complete it or release it, and wait.

    A run is given by its turns: the time that passes, what other tasks do to the
    shared queue before the claim, while the request is in flight and during the
    waits, what GitHub answers, and when shutdown is signalled. *)

From S2P Require Import Prelude Text Tokens Protocol Disk Entry Order Bounds Scan Capacity Writes.
From S2P Require Import Schedule History Store Readers DiskState Claims Edits Enqueue Lines Reverse.
From S2P Require Import Log Pages Append Recovery Completion Trace Recorder Queue Waits Shared.

(** A turn: the time before the claim and what other tasks do meanwhile; the time
    before the request and its polls; the time it takes to record the result and what
    other tasks do between recording a failure and releasing the claim; the polls of
    the wait that ends the turn. *)
Record turn := Turn {
  t_idle : N;
  t_before : queue -> queue;
  t_choosing : N;
  t_answers : list answer;
  t_recording : N;
  t_between : queue -> queue;
  t_polls : list poll;
}.

(** What a turn leaves to the loop. *)
Inductive turn_end := Continue | Break | NoClient | Unobserved.

(** A posting attempt, kept for the statements below: wall-clock seconds of the claim
    and of the end of the request, instants of the request and of its recording, and
    whether the attempt is kept: a completed post is, and a failed one is if its entry
    was still queued under the claim when the claim was released. *)
Record posting := Posting {
  p_entry : StoredEntry.t;
  p_hash : string;
  p_claimed_at : Z;
  p_finished_at : Z;
  p_started : Z;
  p_answered : Z;
  p_recorded : Z;
  p_result : result PostCommentError string;
  p_kept : bool;
}.

Record report := Report {
  rp_end : turn_end;
  rp_made : option posting;
  rp_samples : list sample;
  rp_at : Z;
}.

Definition end_of (e : wait_end) : turn_end :=
  match e with Stop => Break | Again => Continue | Unfinished => Unobserved end.

Section worker.
Context `{Platform} `{SerdeJson} `{Timer} (cfg : Config.t).
Abbreviation cooldown := (Config.cooldown_period_seconds cfg).

(** Post one queued request while recording its duration and bounded outcome. *)
Definition post_comment_with_metrics (at_ : Z) (answers : list answer)
    : QM (option (result PostCommentError string * list sample) * Z) :=
  let> (r, now) := post_comment (Config.github_api_timeout_secs cfg) at_ at_ answers in
  qret ((fun r => (r, [record_github_post_duration (now - at_);
                       record_github_post_outcome (post_outcome r)])) <$> r, now).

Definition release_held (entry : StoredEntry.t) : QM unit :=
  match StoredEntry.claim_token entry with
  | Some claim_token => SharedQueue.release_claim (StoredEntry.id entry) claim_token
  | None => qret tt
  end.

(** Whether the queue holds the entry under its claim; not read by the code, but kept
    for the statements below. *)
Definition holds (entry : StoredEntry.t) : QM bool := fun q =>
  (Done (existsb (fun x => bool_decide (StoredEntry.id x = StoredEntry.id entry)
                           && bool_decide (StoredEntry.claim_token x = StoredEntry.claim_token entry))
           (entries_of (d_entries (w_disk (q_world q))))), q).

(** Record a failed post, release its claim and wait for the retry deadline. *)
Definition retry_later (t : turn) (entry : StoredEntry.t) (hash : string) (e : PostCommentError)
    (now : Z) : QM (bool * (wait_end * Z)) :=
  let> _ := qattempt (SharedQueue.record_failure entry hash (post_error_text e)) in
  let> _ := SharedQueue.interleave (t_between t) in
  let> kept := holds entry in
  let> _ := release_held entry in
  let> r := wait_for_retry_deadline (retry_deadline now cooldown) now (t_polls t) in
  qret (kept, r).

(** The part of a turn after a due entry was claimed. *)
Definition post_entry (clients : list TokenClient.t) (t : turn) (entry : StoredEntry.t) (at_ : Z)
    : QM report :=
  let> claimed_at := unix_now in
  let> last := qattempt SharedQueue.last_token_hash in
  let last_hash := match last with Ok last_hash => last_hash | Err _ => None end in
  let index := next_token_index (TokenClient.hash <$> clients) last_hash in
  match get clients index with
  | None => qret (Report NoClient None [] at_)
  | Some client =>
      let started := later at_ (t_choosing t) in
      let> (r, answered) := post_comment_with_metrics started (t_answers t) in
      match r with
      | None => qret (Report Unobserved None [] answered)
      | Some (r, samples) =>
          let> finished_at := unix_now in
          let recorded := later answered (t_recording t) in
          let made kept := Some (Posting entry (TokenClient.hash client) claimed_at finished_at started
                                   answered recorded r kept) in
          match r with
          | Ok comment_url =>
              let> _ := SharedQueue.complete entry (TokenClient.hash client) comment_url in
              qret (Report Continue (made true) samples recorded)
          | Err e =>
              let> (kept, waited) := retry_later t entry (TokenClient.hash client) e recorded in
              let '(end_, now) := waited in
              qret (Report (end_of end_) (made kept) (samples ++ [record_cooldown_wait cooldown]) now)
          end
      end
  end.

(** One turn of the loop, from the instant at which it starts. *)
Definition worker_turn (clients : list TokenClient.t) (t : turn) (at_ : Z) : QM report :=
  let now := later at_ (t_idle t) in
  let> _ := SharedQueue.interleave (t_before t) in
  let> due := SharedQueue.claim_next_due cfg in
  match due with
  | None =>
      let> (end_, now) := wait_for_change now (t_polls t) in
      qret (Report (end_of end_) None [] now)
  | Some (entry, wait_seconds) =>
      if 0 <? wait_seconds then
        let> (end_, now) := wait_for_scheduled_entry wait_seconds now (t_polls t) in
        qret (Report (end_of end_) None [record_cooldown_wait wait_seconds] now)
      else post_entry clients t entry now
  end.

(** The loop over the turns of a run, with the postings made and the samples. *)
Fixpoint worker_loop (clients : list TokenClient.t) (turns : list turn) (at_ : Z)
    : QM (list posting * list sample) :=
  match turns with
  | [] => qret ([], [])
  | t :: turns =>
      let> r := worker_turn clients t at_ in
      match rp_end r with
      | Continue =>
          let> (made, samples) := worker_loop clients turns (rp_at r) in
          qret (option_list (rp_made r) ++ made, rp_samples r ++ samples)
      | Break | NoClient | Unobserved => qret (option_list (rp_made r), rp_samples r)
      end
  end.

(** [run_worker]: an empty pool is refused before the store is touched. *)
Definition run_worker (clients : list TokenClient.t) (turns : list turn) (at_ : Z)
    : QM (option (list posting * list sample)) :=
  if bool_decide (clients = []) then qret None
  else
    let> _ := SharedQueue.recover_worker_state in
    let> made := worker_loop clients turns at_ in
    qret (Some made).
End worker.

(** * Postings respect the cooldown *)

Section spacing.
Context `{Platform} `{!PlatformOk} `{SerdeJson} `{!SerdeJsonOk} `{Timer} (cfg : Config.t).

Abbreviation cooldown := (Config.cooldown_period_seconds cfg).
Abbreviation disk_of q := (w_disk (q_world q)).
Abbreviation queue_of q := (entries_of (d_entries (disk_of q))).
Abbreviation sound := (sound cfg).

(** The earliest time the cooldown after [p] allows [e] to be posted. *)
Definition allowed_from (p : Z) (e : StoredEntry.t) : Z :=
  sat_add (sat_add p cooldown) (StoredEntry.flutter_seconds e).

Lemma ran_anchored n q q' : ran cfg n q q' -> sound q -> anchored (disk_of q) (disk_of q').
Proof.
  induction 1 as [|n q q1 c out q2 Hr IH Hal Hrun|n q q1 now Hr IH Hle Hu]; intros Hs.
  - apply anchored_refl.
  - destruct (serve_served cfg q1 c out q2 (ran_sound cfg _ _ _ Hr Hs) Hal Hrun) as (_ & Hre & _).
    destruct (reachable_safe _ _ Hre (so_safe cfg q1 (ran_sound cfg _ _ _ Hr Hs))) as [_ Ha].
    intros p Hp. destruct (IH Hs p Hp) as (p1 & Hp1 & Hle1). destruct (Ha p1 Hp1) as (p2 & Hp2 & Hle2).
    exists p2. split; [done|lia].
  - apply IH, Hs.
Qed.

Lemma served_ran q c out q' :
  call_allowed cfg q c -> serve cfg c q = (out, q') -> ran cfg 1 q q'.
Proof. intros Hal Hrun. eapply (ran_call cfg 0 q q c); [constructor|done|done]. Qed.

(** The world after work under the lock that returned, and after the gauges. *)
Lemma with_store_world {A} name (m : M A) q a q' :
  with_store name m q = (Done a, q') -> m (q_world q) = (Done a, q_world q').
Proof.
  unfold with_store, with_state, on_store. cbn [fst snd].
  destruct (m (q_world q)) as [[x|e| |] w]; try done.
  destruct (is_state_mutation name); by intros [= <- <-].
Qed.

Lemma then_gauges_done {A} (m : QM A) q a q' :
  (forall out q', m q = (out, q') -> sound q') ->
  SharedQueue.then_gauges m q = (Done a, q') -> m q = (Done a, q').
Proof.
  intros Hm. unfold SharedQueue.then_gauges, qbind.
  destruct (m q) as [[x|e| |] q1]; try done. rewrite (gauges_quiet cfg q1) by by eapply Hm. done.
Qed.

(** ** Claims *)

Lemma claim_spec q e wait q' :
  sound q -> SharedQueue.claim_next_due cfg q = (Done (Some (e, wait)), q') -> wait <= 0 ->
  (forall p, activity (disk_of q) = Some p -> allowed_from p e <= q_now q)
  /\ sound q' /\ anchored (disk_of q) (disk_of q') /\ q_now q' = q_now q
  /\ e ∈ queue_of q' /\ StoredEntry.claim_token e <> None.
Proof.
  intros Hs Hrun Hwait.
  assert (Hal : call_allowed cfg q QClaim) by (split; [apply Hs|done]).
  assert (Hserve : serve cfg QClaim q = (Done tt, q')) by (cbn [serve]; unfold drop, qbind; by rewrite Hrun).
  destruct (serve_served cfg q QClaim _ q' Hs Hal Hserve) as (Hs' & Hre & Hn & _).
  destruct (reachable_safe _ _ Hre (so_safe cfg q Hs)) as [_ Ha].
  unfold SharedQueue.claim_next_due in Hrun. unfold qbind at 1, unix_now in Hrun. unfold qbind at 1 in Hrun.
  pose proof (store_after cfg "claim_next_due" (claim_next_due cooldown (q_now q)) (Claim cooldown) q
    Hs (same_effect_drop _) Hal eq_refl) as Hst.
  destruct (with_store _ _ q) as [[r|err| |] q1] eqn:Hws; try done. specialize (Hst _ q1 eq_refl).
  assert (r = Some (e, wait) /\ q' = q1) as [-> ->].
  { destruct r as [[e1 w1]|]; [|done]. destruct (w1 =? 0); [|by injection Hrun as <- <-].
    unfold qbind in Hrun. rewrite (gauges_quiet cfg q1) in Hrun by apply Hst. by injection Hrun as <- <-. }
  apply with_store_world in Hws. rewrite (world_of cfg q Hs) in Hws.
  destruct (claim_next_due_quiet (disk_of q) (w_uuids (q_world q)) cooldown (q_now q) (sound_wf cfg q Hs))
    as (r & w & Hrun' & Hout). rewrite Hws in Hrun'. injection Hrun' as <- <-.
  destruct Hout as (_ & e0 & rest & _ & [(Hlt & _ & Hw & _)|(Hat & _ & -> & _ & _ & _ & Hq & _)]); [lia|].
  split_and!; try done; [|rewrite Hq; left].
  intros p Hp. rewrite Hp in Hat. unfold post_at, due in Hat. unfold allowed_from.
  change (StoredEntry.flutter_seconds (StoredEntry.with_claim _ e0)) with (StoredEntry.flutter_seconds e0). lia.
Qed.

(** ** One posting *)

(** The entry is still queued under its claim; it may have been reordered. *)
Definition still_claimed (q : queue) (e : StoredEntry.t) : Prop :=
  exists x, x ∈ queue_of q /\ StoredEntry.id x = StoredEntry.id e
    /\ StoredEntry.claim_token x = StoredEntry.claim_token e.

Lemma holds_claimed e q :
  exists kept, holds e q = (Done kept, q) /\ (kept = true -> still_claimed q e).
Proof.
  eexists. split; [reflexivity|]. intros (x & Hx & Hb)%existsb_exists.
  apply andb_true_iff in Hb as [Hid%bool_decide_eq_true Ht%bool_decide_eq_true].
  exists x. split_and!; [by apply list_elem_of_In|done|done].
Qed.

(** What a finished posting needs: the record of a successful post fits in the log
    (whether or not the entry is still queued); nothing for a failed one. *)
Definition finish_ok (q : queue) (e : StoredEntry.t) (hash : string)
    (r : result PostCommentError string) : Prop :=
  match r with
  | Ok url => completable (disk_of q) e hash (q_now q) (Some url)
  | Err _ => True
  end.

Definition anchored_at (q : queue) (now : Z) : Prop :=
  exists p, activity (disk_of q) = Some p /\ now <= p.

Lemma complete_spec q e hash url q' :
  sound q -> completable (disk_of q) e hash (q_now q) (Some url) ->
  SharedQueue.complete e hash url q = (Done tt, q') ->
  sound q' /\ anchored (disk_of q) (disk_of q') /\ q_now q' = q_now q /\ anchored_at q' (q_now q).
Proof.
  intros Hs Hcl Hrun. assert (Hal : call_allowed cfg q (QComplete e hash url)) by (split; [apply Hs|done]).
  destruct (serve_served cfg q (QComplete e hash url) _ q' Hs Hal Hrun) as (Hs' & Hre & Hn & _).
  destruct (reachable_safe _ _ Hre (so_safe cfg q Hs)) as [_ Ha]. split_and!; try done.
  unfold SharedQueue.complete in Hrun. unfold qbind at 1, unix_now in Hrun.
  apply then_gauges_done, with_store_world in Hrun.
  2:{ intros out q1 Hw. by destruct (store_after cfg "complete" _ (Complete e hash (Some url)) q Hs
        (same_effect_unit _) Hal eq_refl out q1 Hw). }
  rewrite (world_of cfg q Hs) in Hrun.
  destruct (attempt_anchored (disk_of q) _ (Complete e hash (Some url)) (q_now q) (q_now q) (q_world q')
    (so_safe cfg q Hs) (Z.le_refl _) Hal I Hrun) as (p & Hp & Hle). by exists p.
Qed.

Lemma release_spec q e token q' :
  sound q -> still_claimed q e -> StoredEntry.claim_token e = Some token ->
  SharedQueue.release_claim (StoredEntry.id e) token q = (Done tt, q') ->
  sound q' /\ anchored (disk_of q) (disk_of q') /\ q_now q' = q_now q /\ anchored_at q' (q_now q).
Proof.
  intros Hs (x & Hx & Hid & Hxt) Ht Hrun.
  assert (Hal : call_allowed cfg q (QRelease (StoredEntry.id e) token)) by (split; [apply Hs|done]).
  destruct (serve_served cfg q (QRelease (StoredEntry.id e) token) _ q' Hs Hal Hrun) as (Hs' & Hre & Hn & _).
  destruct (reachable_safe _ _ Hre (so_safe cfg q Hs)) as [_ Ha]. split_and!; try done.
  unfold SharedQueue.release_claim in Hrun. unfold qbind at 1, unix_now in Hrun.
  apply then_gauges_done, with_store_world in Hrun.
  2:{ intros out q1 Hw. by destruct (store_after cfg "release_claim" _ (Release (StoredEntry.id e) token)
        q Hs (same_effect_unit _) Hal eq_refl out q1 Hw). }
  rewrite (world_of cfg q Hs) in Hrun.
  destruct (attempt_anchored (disk_of q) (w_uuids (q_world q)) (Release (StoredEntry.id e) token)
    (q_now q) (q_now q) (q_world q') (so_safe cfg q Hs) (Z.le_refl _) Hal) as (p & Hp & Hle);
    [exists x; by rewrite Hxt|exact Hrun|by exists p].
Qed.

Lemma anchored_trans d1 d2 d3 : anchored d1 d2 -> anchored d2 d3 -> anchored d1 d3.
Proof.
  intros H12 H23 p Hp. destruct (H12 p Hp) as (p2 & Hp2 & ?). destruct (H23 p2 Hp2) as (p3 & Hp3 & ?).
  exists p3. split; [done|lia].
Qed.

(** A later state of the queue: sound, with no activity forgotten. *)
Record onward (q q' : queue) : Prop := {
  on_sound : sound q';
  on_anchored : anchored (disk_of q) (disk_of q');
  on_now : q_now q <= q_now q';
}.

Lemma onward_refl q : sound q -> onward q q.
Proof. intros Hs. constructor; [done|apply anchored_refl|lia]. Qed.
Lemma onward_trans q1 q2 q3 : onward q1 q2 -> onward q2 q3 -> onward q1 q3.
Proof. intros [_ Ha Hn] [Hs Ha' Hn']. constructor; [done|by eapply anchored_trans|lia]. Qed.

Lemma ran_onward n q q' : sound q -> ran cfg n q q' -> onward q q'.
Proof.
  intros Hs Hr. constructor; [by eapply ran_sound|by eapply ran_anchored|].
  induction Hr as [|n q q1 c out q2 Hr IH Hal Hrun|n q q1 now Hr IH Hle Hu]; [lia| |cbn; specialize (IH Hs); lia].
  destruct (serve_served cfg q1 c out q2 (ran_sound cfg _ _ _ Hr Hs) Hal Hrun) as (_ & _ & Hn & _).
  specialize (IH Hs). lia.
Qed.

Lemma interference_onward f q : interference cfg f -> sound q -> onward q (f q).
Proof. intros Hf Hs. destruct (Hf q Hs) as (n & Hr & _). by eapply ran_onward. Qed.

(** Waiting with interferences only. *)
Lemma onward_kept {X} (others : X -> queue -> queue) l q :
  Forall (fun x => interference cfg (others x)) l -> kept_by others l (onward q).
Proof.
  intros Hl. split.
  - intros x q1 Hx Hon. eapply onward_trans; [exact Hon|]. apply interference_onward; [|apply Hon].
    by eapply (proj1 (Forall_forall _ _) Hl).
  - intros q1 [[Hq Hn Hs Hc] Ha Hle]. by constructor.
Qed.

Lemma wait_onward (w : QM (wait_end * Z)) polls q e t q' :
  (exists deadline sleep at_, w = retry_loop deadline sleep at_ polls)
  \/ (exists enabled timer at_, w = select_loop enabled timer at_ polls) ->
  Forall (fun p => interference cfg (p_others p)) polls -> sound q ->
  w q = (Done (e, t), q') -> onward q q'.
Proof.
  intros Hw Hp Hs Hrun. assert (Hk : forall P, kept_by p_others polls P -> P q -> P q').
  { destruct Hw as [(deadline & sleep & at_ & ->)|(enabled & timer & at_ & ->)].
    - destruct (retry_loop_returns deadline polls sleep at_ q) as (? & ? & ? & Hr & _ & Hk).
      rewrite Hr in Hrun. by injection Hrun as _ _ <-.
    - destruct (select_loop_spec enabled timer polls at_ q) as (? & ? & ? & Hr & _ & _ & Hk).
      rewrite Hr in Hrun. by injection Hrun as _ _ <-. }
  apply Hk; [by apply onward_kept|by apply onward_refl].
Qed.

(** ** Turns *)

(** What the environment of a turn may do: other tasks make allowed calls. *)
Definition turn_ok (clients : list TokenClient.t) (t : turn) (q : queue) : Prop :=
  (exists n, ran cfg n q (t_before t q))
  /\ Forall (fun a => interference cfg (a_others a)) (t_answers t)
  /\ interference cfg (t_between t)
  /\ Forall (fun p => interference cfg (p_others p)) (t_polls t)
  /\ forall e wait q1 at_ r answered q2,
       SharedQueue.claim_next_due cfg (t_before t q) = (Done (Some (e, wait)), q1) -> wait <= 0 ->
       post_comment (Config.github_api_timeout_secs cfg) at_ at_ (t_answers t) q1 = (Done (Some r, answered), q2) ->
       forall client, client ∈ clients -> finish_ok q2 e (TokenClient.hash client) r.

(** What a turn leaves, and how its posting relates to the recorded activity. *)
Definition turn_post (q q' : queue) (made : option posting) : Prop :=
  onward q q'
  /\ forall x, made = Some x ->
       (forall p, activity (disk_of q) = Some p -> allowed_from p (p_entry x) <= p_claimed_at x)
       /\ (p_kept x = true -> anchored_at q' (p_finished_at x))
       /\ (p_kept x = false -> exists e, p_result x = Err e).

Lemma last_token_still q : sound q -> exists out, SharedQueue.last_token_hash q = (out, q).
Proof.
  intros Hs. apply (with_store_still cfg "latest_history_token"); [done| |done].
  apply still_bind; auto with still.
Qed.

Lemma anchored_at_onward q q' now : onward q q' -> anchored_at q now -> anchored_at q' now.
Proof.
  intros [_ Ha _] (p & Hp & Hle). destruct (Ha p Hp) as (p' & Hp' & Hle'). exists p'. split; [done|lia].
Qed.

(** Releasing the claim, whether or not the entry is still held. *)
Lemma release_onward q e out q' : sound q -> release_held e q = (out, q') -> onward q q'.
Proof.
  intros Hs. unfold release_held. destruct (StoredEntry.claim_token e) as [token|];
    [|intros [= _ <-]; by apply onward_refl].
  intros Hrun. apply (ran_onward 1); [done|]. eapply (served_ran q (QRelease (StoredEntry.id e) token) out);
    [split; [apply Hs|done]|exact Hrun].
Qed.

(** Recording a failed posting, from the state in which it finished. *)
Lemma retry_later_spec t q e hash x recorded kept end_ now q' :
  sound q -> StoredEntry.claim_token e <> None -> interference cfg (t_between t) ->
  Forall (fun p => interference cfg (p_others p)) (t_polls t) ->
  retry_later cfg t e hash x recorded q = (Done (kept, (end_, now)), q') ->
  onward q q' /\ (kept = true -> anchored_at q' (q_now q)).
Proof.
  intros Hs Htok Hb Hp Hrun. unfold retry_later in Hrun. unfold qbind at 1, qattempt in Hrun.
  destruct (SharedQueue.record_failure e _ _ q) as [o q1] eqn:Hf.
  destruct (record_failure_served cfg q e _ _ o q1 Hs Hf) as [(Hs1 & Hre1 & Hn1 & _) _].
  destruct (reachable_safe _ _ Hre1 (so_safe cfg q Hs)) as [_ Ha1].
  assert (Hon1 : onward q q1) by (constructor; [done|done|lia]).
  pose proof (interference_onward _ q1 Hb Hs1) as Hon2. set (q2 := t_between t q1) in *.
  destruct (holds_claimed e q2) as (kept' & Hh & Hkept).
  assert (Hrun1 : (let> _ := release_held e in
      let> r := wait_for_retry_deadline (retry_deadline recorded cooldown) recorded (t_polls t) in
      qret (kept', r)) q2 = (Done (kept, (end_, now)), q')).
  { unfold SharedQueue.interleave in Hrun. destruct o; try done; unfold qbind at 1 2 in Hrun; fold q2 in Hrun;
      by rewrite Hh in Hrun. }
  clear Hrun. unfold qbind in Hrun1. destruct (release_held e q2) as [[[]|err| |] q3] eqn:Hr; try done.
  pose proof (release_onward q2 e _ q3 (on_sound _ _ Hon2) Hr) as Hon3.
  destruct (wait_for_retry_deadline _ _ _ q3) as [[[e1 n1]|?| |] q4] eqn:Hw; try done. injection Hrun1 as -> -> -> ->.
  assert (Hon4 : onward q3 q') by (eapply wait_onward; [left; by eexists _, _, _|done|apply Hon3|exact Hw]).
  split; [eapply onward_trans; [exact Hon1|]; eapply onward_trans; [exact Hon2|]; by eapply onward_trans|].
  intros ->. unfold release_held in Hr. destruct (StoredEntry.claim_token e) as [token|] eqn:Ht; [|done].
  destruct (release_spec q2 e token q3 (on_sound _ _ Hon2) (Hkept eq_refl) Ht Hr) as (_ & _ & _ & p & Hpa & Hle).
  eapply anchored_at_onward; [exact Hon4|]. exists p. split; [done|].
  pose proof (on_now _ _ Hon1). pose proof (on_now _ _ Hon2). lia.
Qed.

Lemma post_entry_spec clients t e at_ q rep q' :
  sound q -> StoredEntry.claim_token e <> None ->
  Forall (fun a => interference cfg (a_others a)) (t_answers t) -> interference cfg (t_between t) ->
  Forall (fun p => interference cfg (p_others p)) (t_polls t) ->
  (forall at_ r answered q2,
     post_comment (Config.github_api_timeout_secs cfg) at_ at_ (t_answers t) q = (Done (Some r, answered), q2) ->
     forall client, client ∈ clients -> finish_ok q2 e (TokenClient.hash client) r) ->
  post_entry cfg clients t e at_ q = (Done rep, q') ->
  onward q q'
  /\ forall x, rp_made rep = Some x ->
       p_entry x = e /\ p_claimed_at x = q_now q /\ (p_kept x = true -> anchored_at q' (p_finished_at x))
       /\ (p_kept x = false -> exists err, p_result x = Err err).
Proof.
  intros Hs Ht Hans Hb Hp Hfin Hrun. unfold post_entry in Hrun. unfold qbind at 1, unix_now at 1 in Hrun.
  unfold qbind at 1, qattempt at 1 in Hrun. destruct (last_token_still q Hs) as [out Hout].
  rewrite Hout in Hrun.
  destruct (match out with Done a => (Done (Ok a), q) | Failed e => (Done (Err e), q) | Crashed => _ | Diverged => _ end)
    as [[last|?| |] q0] eqn:E; try done.
  assert (q0 = q) as -> by (destruct out; by injection E).
  cbn beta iota zeta in Hrun. clear E Hout.
  destruct (get clients _) as [client|] eqn:Hg.
  2:{ injection Hrun as <- <-. split; [by apply onward_refl|done]. }
  assert (Hin : client ∈ clients).
  { unfold get in Hg. destruct (_ <? 0); [done|]. by eapply list_elem_of_lookup_2. }
  set (started := later at_ (t_choosing t)) in *.
  unfold qbind at 1, post_comment_with_metrics, qbind at 1 in Hrun.
  destruct (post_comment _ started started (t_answers t) q) as [[[r answered]|?| |] q2] eqn:Hpost; try done.
  assert (Hon : onward q q2).
  { destruct (post_comment_kept (Config.github_api_timeout_secs cfg) started (t_answers t) started q)
      as (? & ? & ? & Hr & _ & Hk). rewrite Hpost in Hr. injection Hr as <- <- <-.
    apply Hk; [by apply onward_kept|by apply onward_refl]. }
  destruct r as [r|]; [|by injection Hrun as <- <-]. cbn [fmap option_fmap option_map] in Hrun.
  unfold qret at 1 in Hrun.
  pose proof (Hfin _ _ _ _ Hpost client Hin) as Hres. cbn beta iota in Hrun.
  unfold qbind at 1, unix_now in Hrun. unfold qbind in Hrun. destruct r as [x|url]; cbn [finish_ok] in Hres.
  - destruct (retry_later cfg t e _ x _ q2) as [[[kept [end_ now]]|?| |] q3] eqn:Hgu; try done.
    injection Hrun as <- <-.
    destruct (retry_later_spec t q2 e _ x _ kept end_ now q3 (on_sound _ _ Hon) Ht Hb Hp Hgu) as [Hon3 Han].
    split; [by eapply onward_trans|]. cbn [rp_made]. intros y [= <-]. split_and!; [done..|]. cbn. eauto.
  - destruct (SharedQueue.complete e _ url q2) as [[[]|?| |] q3] eqn:Hc; try done.
    injection Hrun as <- <-.
    destruct (complete_spec _ e _ url q3 (on_sound _ _ Hon) Hres Hc) as (Hs3 & Ha3 & Hn3 & Han).
    split; [eapply onward_trans; [exact Hon|]; constructor; [done|done|lia]|]. cbn [rp_made]. by intros y [= <-].
Qed.

Lemma worker_turn_spec clients t at_ q rep q' :
  sound q -> turn_ok clients t q -> worker_turn cfg clients t at_ q = (Done rep, q') ->
  turn_post q q' (rp_made rep).
Proof.
  intros Hs ([n Hr] & Hans & Hb & Hp & Hok) Hrun. unfold worker_turn in Hrun.
  unfold qbind at 1, SharedQueue.interleave in Hrun.
  pose proof (ran_onward n q _ Hs Hr) as Hon1. set (q1 := t_before t q) in *. unfold qbind at 1 in Hrun.
  pose proof (on_sound _ _ Hon1) as Hs1.
  destruct (SharedQueue.claim_next_due cfg q1) as [[due|?| |] q2] eqn:Hc; try done.
  assert (Hal : call_allowed cfg q1 QClaim) by (split; [apply Hs1|done]).
  assert (Hserve : serve cfg QClaim q1 = (Done tt, q2)) by (cbn [serve]; unfold drop, qbind; by rewrite Hc).
  pose proof (ran_onward 1 q1 q2 Hs1 (served_ran q1 QClaim _ q2 Hal Hserve)) as Hon2.
  pose proof (onward_trans _ _ _ Hon1 Hon2) as Hon. pose proof (on_sound _ _ Hon) as Hs2.
  assert (Hwait : forall enabled timer now q3 samples, onward q q3 ->
    (let> (end_, now) := select_loop enabled timer now (t_polls t) in
     qret (Report (end_of end_) None samples now)) q3 = (Done rep, q') -> turn_post q q' (rp_made rep)).
  { intros enabled timer now q3 samples Hon3. unfold qbind.
    destruct (select_loop _ _ _ _ q3) as [[[e t1]|?| |] q4] eqn:Hw; try done. intros [= <- <-].
    split; [|done]. eapply onward_trans; [exact Hon3|]. eapply wait_onward; [right; by eexists _, _, _|done|apply Hon3|exact Hw]. }
  destruct due as [[e wait]|]; [|by eapply Hwait].
  destruct (Z.ltb_spec 0 wait) as [_|Hle].
  { unfold wait_for_scheduled_entry in Hrun. unfold qbind at 1 in Hrun. unfold qbind at 1, notified in Hrun.
    eapply (Hwait (q_permit q2) _ _ (taken q2)); [|exact Hrun].
    eapply (proj2 (onward_kept p_others [] q (Forall_nil_2 _))). exact Hon. }
  destruct (claim_spec q1 e wait q2 Hs1 Hc Hle) as (Hcool & _ & _ & Hn2 & He & Htok).
  destruct (post_entry_spec clients t e (later at_ (t_idle t)) q2 rep q' Hs2 Htok Hans Hb Hp) as [Hon3 Hx]; [|exact Hrun|].
  { intros at1 r answered q3 Hpost. by apply (Hok e wait q2 at1 r answered q3). }
  split; [by eapply onward_trans|].
  intros x Hmade. destruct (Hx x Hmade) as (-> & Hat & Han). split; [|exact Han].
  intros p Hpa. destruct (on_anchored _ _ Hon1 p Hpa) as (p1 & Hp1 & Hpp). rewrite Hat, Hn2.
  apply Z.le_trans with (allowed_from p1 e); [|by apply Hcool].
  unfold allowed_from. by apply sat_add_mono, sat_add_mono.
Qed.

(** ** Runs *)

(** The environment of a run, turn by turn. *)
Fixpoint turns_ok (clients : list TokenClient.t) (turns : list turn) (at_ : Z) (q : queue) : Prop :=
  match turns with
  | [] => True
  | t :: turns =>
      turn_ok clients t q
      /\ match worker_turn cfg clients t at_ q with
         | (Done rep, q') => match rp_end rep with Continue => turns_ok clients turns (rp_at rep) q' | _ => True end
         | _ => True
         end
  end.

(** A later posting keeps the cooldown after an earlier one that is kept. *)
Definition spaced (x y : posting) : Prop :=
  p_kept x = true -> allowed_from (p_finished_at x) (p_entry y) <= p_claimed_at y.

(** Only a failed attempt is not kept. *)
Definition kept_if_posted (x : posting) : Prop := p_kept x = false -> exists e, p_result x = Err e.

(** Every posting keeps the cooldown after the activity [p]. *)
Definition spaced_from (p : Z) (made : list posting) : Prop :=
  Forall (fun x => allowed_from p (p_entry x) <= p_claimed_at x) made.

Lemma spaced_from_mono p p' made : p <= p' -> spaced_from p' made -> spaced_from p made.
Proof.
  intros Hle Hm. eapply Forall_impl; [exact Hm|]. intros x Hx. cbn in Hx. eapply Z.le_trans; [|exact Hx].
  unfold allowed_from. by apply sat_add_mono, sat_add_mono.
Qed.

(** What a run leaves. *)
Definition run_post (q q' : queue) (made : list posting) : Prop :=
  sound q' /\ StronglySorted spaced made /\ Forall kept_if_posted made
  /\ forall p, activity (disk_of q) = Some p -> spaced_from p made.

Lemma worker_loop_spec clients turns : forall at_ q made samples q',
  sound q -> turns_ok clients turns at_ q ->
  worker_loop cfg clients turns at_ q = (Done (made, samples), q') -> run_post q q' made.
Proof.
  induction turns as [|t turns IH]; intros at_ q made samples q' Hs Hok Hrun.
  { injection Hrun as <- _ <-. split_and!; [done|constructor..]. }
  destruct Hok as [Hok Hrest]. cbn [worker_loop] in Hrun. unfold qbind at 1 in Hrun.
  destruct (worker_turn cfg clients t at_ q) as [[rep|?| |] q1] eqn:Ht; try done.
  destruct (worker_turn_spec clients t at_ q rep q1 Hs Hok Ht) as [[Hs1 Ha1 _] Hx].
  assert (Hlast : made = option_list (rp_made rep) -> sound q' -> run_post q q' made).
  { intros -> Hs'. unfold run_post. destruct (rp_made rep) as [x|]; [|split_and!; [done|constructor..]].
    destruct (Hx x eq_refl) as (Hcool & _ & Hk). split_and!; [done|by repeat constructor|by apply Forall_singleton|].
    intros p Hp. constructor; [by apply Hcool|constructor]. }
  destruct (rp_end rep); [|by injection Hrun as <- _ <-; apply Hlast..].
  unfold qbind in Hrun. destruct (worker_loop cfg clients turns _ q1) as [[[rest more]|?| |] q2] eqn:Hl; try done.
  injection Hrun as <- _ <-. destruct (IH _ q1 rest more q2 Hs1 Hrest Hl) as (Hs2 & Hsp & Hkp & Hact).
  assert (Hfrom : forall p, activity (disk_of q) = Some p -> spaced_from p rest).
  { intros p Hp. destruct (Ha1 p Hp) as (p1 & Hp1 & Hle). eapply spaced_from_mono; [exact Hle|by apply Hact]. }
  unfold run_post. destruct (rp_made rep) as [x|]; [|by split_and!].
  destruct (Hx x eq_refl) as (Hcool & Hanch & Hk). split_and!; [done| |by constructor|].
  - constructor; [done|]. destruct (p_kept x) eqn:Hkx.
    + destruct (Hanch eq_refl) as (p1 & Hp1 & Hle).
      eapply Forall_impl; [by eapply spaced_from_mono, Hact|]. by intros y Hy _.
    + apply Forall_true. intros y. unfold spaced. by rewrite Hkx.
  - intros p Hp. constructor; [by apply Hcool|by apply Hfrom].
Qed.
End spacing.

(** * Failed posts are paced on the monotonic clock *)

Section pacing.
Context `{Platform} `{SerdeJson} `{Timer} `{!TimerOk} (cfg : Config.t).
Abbreviation cooldown := (Config.cooldown_period_seconds cfg).
Abbreviation timeout := (Config.github_api_timeout_secs cfg).

(** A later posting starts after an earlier one was recorded; after a failed one, the
    cooldown later (or a century, where that is less). *)
Definition paced (x y : posting) : Prop :=
  p_recorded x <= p_started y
  /\ forall e, p_result x = Err e ->
       p_recorded x + RETRY_OVERFLOW_FALLBACK * NANOS < INSTANT_LIMIT ->
       p_recorded x + Z.min cooldown RETRY_OVERFLOW_FALLBACK * NANOS <= p_started y.

(** The request took place within the turn, and a timeout was not early. *)
Definition timely (x : posting) : Prop :=
  p_started x <= p_answered x /\ p_answered x <= p_recorded x
  /\ (p_result x = Err Timeout -> p_started x + timeout * NANOS < INSTANT_LIMIT ->
      p_started x + timeout * NANOS <= p_answered x).

(** What a turn that started at [at_] does for the ones after it. *)
Definition turn_paced (at_ : Z) (rep : report) : Prop :=
  at_ <= rp_at rep
  /\ forall x, rp_made rep = Some x ->
       at_ <= p_started x /\ timely x /\ p_recorded x <= rp_at rep
       /\ (rp_end rep = Continue -> forall e, p_result x = Err e ->
           p_recorded x + RETRY_OVERFLOW_FALLBACK * NANOS < INSTANT_LIMIT ->
           p_recorded x + Z.min cooldown RETRY_OVERFLOW_FALLBACK * NANOS <= rp_at rep).

Lemma retry_later_paced t e hash x recorded q kept end_ now q' :
  retry_later cfg t e hash x recorded q = (Done (kept, (end_, now)), q') ->
  recorded <= now
  /\ (end_of end_ = Continue -> recorded + RETRY_OVERFLOW_FALLBACK * NANOS < INSTANT_LIMIT ->
      recorded + Z.min cooldown RETRY_OVERFLOW_FALLBACK * NANOS <= now).
Proof.
  unfold retry_later, qbind. intros Hrun. destruct (qattempt _ q) as [[?|?| |] q1]; try done.
  destruct (SharedQueue.interleave _ q1) as [[?|?| |] q2]; try done.
  destruct (holds e q2) as [[?|?| |] q2']; try done.
  destruct (release_held e q2') as [[?|?| |] q3]; try done.
  destruct (wait_for_retry_deadline _ _ _ q3) as [[[e0 n0]|?| |] q3'] eqn:Hw; try done.
  injection Hrun as -> -> -> ->. rename Hw into Hrun. unfold wait_for_retry_deadline in Hrun.
  destruct (retry_loop_returns (retry_deadline recorded cooldown) (t_polls t) None recorded q3)
    as (e1 & t1 & q4 & Hr & Hle & _).
  pose proof Hr as Hr'. rewrite Hrun in Hr'. injection Hr' as <- <- <-. split; [done|]. intros Hend Hfit.
  destruct (retry_loop_times (retry_deadline recorded cooldown) (t_polls t) None recorded q3)
    as (e2 & t2 & q5 & Hr2 & Hag & _); [|done|].
  { apply retry_deadline_fits. unfold NANOS, RETRY_OVERFLOW_FALLBACK in Hfit. lia. }
  rewrite Hrun in Hr2. injection Hr2 as <- <- <-.
  assert (end_ = Again) as -> by by destruct end_.
  pose proof (retry_deadline_least recorded cooldown Hfit). specialize (Hag eq_refl). lia.
Qed.

Lemma post_entry_paced clients t e at_ q rep q' :
  post_entry cfg clients t e at_ q = (Done rep, q') -> turn_paced at_ rep.
Proof.
  unfold post_entry, qbind at 1, unix_now at 1. unfold qbind at 1.
  destruct (qattempt SharedQueue.last_token_hash q) as [[last|?| |] q1]; try done. cbn zeta.
  destruct (get clients _) as [client|]; [|intros [= <- _]; by split; [cbn; lia|]].
  pose proof (later_le at_ (t_choosing t)) as Hst. set (started := later at_ (t_choosing t)) in *.
  unfold post_comment_with_metrics, qbind at 1. unfold qbind at 1.
  destruct (post_comment_kept timeout started (t_answers t) started q1) as (r & answered & q2 & Hpost & Hle & _).
  rewrite Hpost. destruct r as [r|]; cbn [fmap option_fmap option_map]; unfold qret at 1;
    [|intros [= <- _]; split; [cbn; lia|done]].
  pose proof (later_le answered (t_recording t)) as Hrec. set (recorded := later answered (t_recording t)) in *.
  assert (Htimely : forall claimed_at finished_at kept,
    timely (Posting e (TokenClient.hash client) claimed_at finished_at started answered recorded r kept)).
  { intros claimed_at finished_at kept. split_and!; [done|done|]. cbn. intros -> Hfit. by eapply post_comment_times. }
  cbn beta iota. unfold qbind at 1, unix_now. unfold qbind at 1. destruct r as [x|url].
  - destruct (retry_later cfg t e (TokenClient.hash client) x recorded q2) as [[[kept [end_ now]]|?| |] q3] eqn:Hg; try done.
    destruct (retry_later_paced t e _ x recorded q2 kept end_ now q3 Hg) as [Hnow Hwait].
    intros [= <- _]. split; [cbn; lia|]. cbn [rp_made rp_at rp_end]. intros y [= <-]. split_and!; [done|done|done|].
    intros Hend err _ Hfit. by apply Hwait.
  - unfold qbind. destruct (SharedQueue.complete e (TokenClient.hash client) url q2) as [[?|?| |] q3]; try done.
    intros [= <- _]. split; [cbn; lia|]. cbn [rp_made rp_at rp_end]. by intros y [= <-].
Qed.

Lemma worker_turn_paced clients t at_ q rep q' :
  worker_turn cfg clients t at_ q = (Done rep, q') -> turn_paced at_ rep.
Proof.
  unfold worker_turn. cbn zeta. pose proof (later_le at_ (t_idle t)) as Hidle.
  set (now := later at_ (t_idle t)) in *. unfold qbind at 1, SharedQueue.interleave. unfold qbind at 1.
  destruct (SharedQueue.claim_next_due cfg _) as [[due|?| |] q1]; try done.
  assert (Hwait : forall enabled timer q2 samples,
    (let> (end_, now) := select_loop enabled timer now (t_polls t) in
     qret (Report (end_of end_) None samples now)) q2 = (Done rep, q') -> turn_paced at_ rep).
  { intros enabled timer q2 samples. unfold qbind.
    destruct (select_loop_spec enabled timer (t_polls t) now q2) as (e & t1 & q3 & Hr & Hle & _). rewrite Hr.
    intros [= <- _]. split; [cbn; lia|done]. }
  destruct due as [[e wait]|]; [|apply Hwait]. destruct (0 <? wait).
  - unfold wait_for_scheduled_entry. unfold qbind at 1. unfold qbind at 1, notified. apply Hwait.
  - intros Hrun. destruct (post_entry_paced clients t e now q1 rep q' Hrun) as [Hle Hx]. split; [lia|].
    intros x Hmade. destruct (Hx x Hmade) as (Hs & Hrest). split; [lia|done].
Qed.

Lemma worker_loop_paced clients turns : forall at_ q made samples q',
  worker_loop cfg clients turns at_ q = (Done (made, samples), q') ->
  StronglySorted paced made /\ Forall timely made /\ Forall (fun x => at_ <= p_started x) made.
Proof.
  induction turns as [|t turns IH]; intros at_ q made samples q' Hrun.
  { injection Hrun as <- _ _. by repeat constructor. }
  cbn [worker_loop] in Hrun. unfold qbind at 1 in Hrun.
  destruct (worker_turn cfg clients t at_ q) as [[rep|?| |] q1] eqn:Ht; try done.
  destruct (worker_turn_paced clients t at_ q rep q1 Ht) as [Hle Hx].
  assert (Hlast : made = option_list (rp_made rep) ->
    StronglySorted paced made /\ Forall timely made /\ Forall (fun x => at_ <= p_started x) made).
  { intros ->. destruct (rp_made rep) as [x|]; [|by repeat constructor].
    destruct (Hx x eq_refl) as (Hs & Htm & _). cbn [option_list]. split_and!;
      [repeat constructor|apply Forall_singleton; done..]. }
  destruct (rp_end rep) eqn:Hend; [|by injection Hrun as <- _ _; apply Hlast..].
  unfold qbind in Hrun. destruct (worker_loop cfg clients turns _ q1) as [[[rest more]|?| |] q2] eqn:Hl; try done.
  injection Hrun as <- _ _. destruct (IH _ q1 rest more q2 Hl) as (Hp & Htm & Hst).
  assert (Hst' : Forall (fun x => at_ <= p_started x) rest)
    by (eapply Forall_impl; [exact Hst|]; intros x ?; cbn in *; lia).
  destruct (rp_made rep) as [x|]; [|by split_and!].
  destruct (Hx x eq_refl) as (Hs & Htx & Hrec & Hfail). split_and!; [|by constructor..].
  constructor; [done|]. eapply Forall_impl; [exact Hst|]. intros y Hy. cbn in Hy. split; [lia|].
  intros e He Hfit. specialize (Hfail eq_refl e He Hfit). lia.
Qed.
End pacing.

(** * Results *)

(** C9: the worker respects the cooldown.  In any run, with any tokens, GitHub
    answers and shutdowns and with other tasks making any calls in between (they may
    reorder, delete or replace the entry that is being posted), every posting is
    claimed no earlier than the cooldown and its own flutter after the activity the
    store recorded before the run and after every earlier posting of the run that is
    kept.  Every successful posting is kept, and so is a failed one whose entry was
    still queued under its claim when the claim was released; the exception is a failed
    posting whose entry was deleted or replaced meanwhile, of which [release_claim]
    writes no trace.  The record of a successful post must fit in the log. *)
Theorem worker_spaces_postings `{Platform} `{!PlatformOk} `{SerdeJson} `{!SerdeJsonOk} `{Timer} cfg clients
    turns at_ q made samples q' :
  sound cfg q -> turns_ok cfg clients turns at_ q ->
  worker_loop cfg clients turns at_ q = (Done (made, samples), q') ->
  sound cfg q' /\ StronglySorted (spaced cfg) made /\ Forall kept_if_posted made
  /\ forall p, activity (w_disk (q_world q)) = Some p -> spaced_from cfg p made.
Proof. apply worker_loop_spec. Qed.

(** C10: a failing API is not hammered.  In any run, from any state of the queue and
    with any faults, whatever other tasks do (even when they delete the entry that is
    being posted, so that its failure leaves no trace on the disk) and whatever
    changes wake the worker: after a failed post the next request starts no earlier
    than the whole cooldown later on the monotonic clock; requests do not overlap;
    and a request is given up only after the whole API timeout. *)
Theorem failed_posts_are_paced `{Platform} `{SerdeJson} `{Timer} `{!TimerOk} cfg clients turns at_ q made
    samples q' :
  worker_loop cfg clients turns at_ q = (Done (made, samples), q') ->
  StronglySorted (paced cfg) made /\ Forall (timely cfg) made.
Proof. intros Hrun. by destruct (worker_loop_paced cfg clients turns at_ q made samples q' Hrun) as (? & ? & _). Qed.
