(* ===== verification/Listener.v ===== *)
(** The listener ([listener/protocol.rs], [listener/connection.rs],
    [listener/await_handler.rs]): requests become queue operations and bounded
    replies; a wait becomes a stream of frames with one terminal frame. *)

From S2P Require Import Prelude Text Protocol Disk Entry Wire Bounds History Store Queue.
From S2P Require Import Waits.

Definition CLIENT_READ_TIMEOUT_SECS : Z := 5.
Definition CLIENT_WRITE_TIMEOUT_SECS : Z := 5.
Definition MAX_AWAITERS : Z := 64.

(** * Error texts *)

(** [impl Display for ParseIntError]. *)
Definition int_error_text (e : IntErrorKind) : string :=
  match e with
  | IntEmpty => "cannot parse integer from empty string"
  | InvalidDigit => "invalid digit found in string"
  | PosOverflow => "number too large to fit in target type"
  end.

(** The messages of [enum StoreError]. *)
Definition store_error_text (e : StoreError) : string :=
  match e with
  | Io e => text e
  | Serde m => "entry serialization failed: " +:+ m
  | UnknownId id => "no queued comment has id '" +:+ id +:+ "'"
  | InvalidId id => "queue entry id '" +:+ id +:+ "' must be eight hexadecimal characters"
  | InvalidRepositoryComponent c => "GitHub repository " +:+ c +:+ " contains unsafe characters"
  | LastPost e => "last-post marker is invalid: " +:+ int_error_text e
  | LastAttempt e => "last-attempt marker is invalid: " +:+ int_error_text e
  | BlockingTask m => "queue operation task failed: " +:+ m
  | QueueFull limit =>
      "queue would exceed the maximum of " +:+ u64_to_string limit +:+ " pending entries"
  | EntryTooLarge size limit =>
      "queue entry is " +:+ u64_to_string size +:+ " bytes, exceeding the per-entry limit of "
      +:+ u64_to_string limit +:+ " bytes"
  | QueueByteBudgetExceeded used requested limit =>
      "queue byte budget exceeded: " +:+ u64_to_string used +:+ " bytes used, "
      +:+ u64_to_string requested +:+ " more requested, " +:+ u64_to_string limit +:+ " allowed"
  end.

(** * Wire shapes *)

Definition history_entry (record : HistoryRecord.t) : HistoryEntry.t :=
  {| HistoryEntry.id := HistoryRecord.id record;
     HistoryEntry.posted_at := HistoryRecord.posted_at record;
     HistoryEntry.success := HistoryRecord.success record;
     HistoryEntry.error := HistoryRecord.error record;
     HistoryEntry.token_hash := HistoryRecord.token_hash record;
     HistoryEntry.owner := CommentRequest.owner (HistoryRecord.request record);
     HistoryEntry.repo := CommentRequest.repo (HistoryRecord.request record);
     HistoryEntry.pr_number := CommentRequest.pr_number (HistoryRecord.request record);
     HistoryEntry.body := CommentRequest.body (HistoryRecord.request record) |}.

Definition pending_entry (entry : StoredEntry.t) (eta_seconds : Z) : PendingEntry.t :=
  {| PendingEntry.id := StoredEntry.id entry;
     PendingEntry.eta_seconds := eta_seconds;
     PendingEntry.owner := CommentRequest.owner (StoredEntry.request entry);
     PendingEntry.repo := CommentRequest.repo (StoredEntry.request entry);
     PendingEntry.pr_number := CommentRequest.pr_number (StoredEntry.request entry);
     PendingEntry.body := CommentRequest.body (StoredEntry.request entry) |}.

Definition cursor_of (position : HistoryPosition.t) : HistoryCursor.t :=
  HistoryCursor.mk (HistoryPosition.offset position) (HistoryPosition.end_offset position).
Definition position_of_cursor (cursor : HistoryCursor.t) : HistoryPosition.t :=
  HistoryPosition.mk (HistoryCursor.offset cursor) (HistoryCursor.end_offset cursor).

(** [usize::from(!entries.is_empty())]. *)
Definition separator_size {A} (entries : list A) : Z :=
  match entries with [] => 0 | _ => 1 end.

Definition list_too_large : Response.t :=
  Response.error ("list response exceeds the " +:+ u64_to_string MAX_RESPONSE_BYTES +:+ "-byte limit").
Definition record_too_large : Response.t :=
  Response.error ("one history record exceeds the " +:+ u64_to_string MAX_RESPONSE_BYTES
                  +:+ "-byte response limit").
Definition response_too_large : Response.t :=
  Response.error ("response exceeds " +:+ u64_to_string MAX_RESPONSE_BYTES +:+ " bytes").

Module ClientOutcome.
Inductive t := Accepted | Failed | Await (outcome : string).
End ClientOutcome.

Section listener.
Context `{Platform} `{SerdeJson} `{WireJson} `{Timer} (cfg : Config.t).

(** * Bounded replies

    [None] stands for a serialization error. *)

(** The loop of [response_for_schedule]. *)
Fixpoint schedule_loop (schedule : list (StoredEntry.t * Z)) (projected_size : Z)
    (entries : list PendingEntry.t) : option Response.t :=
  match schedule with
  | [] => Some (Response.entries entries)
  | (entry, eta) :: schedule =>
      let pending := pending_entry entry eta in
      match pending_to_vec pending with
      | None => None
      | Some encoded =>
          let next_size :=
            sat_add (sat_add projected_size (zlen encoded)) (separator_size entries) in
          if MAX_RESPONSE_BYTES <? next_size then Some list_too_large
          else schedule_loop schedule next_size (entries ++ [pending])
      end
  end.

Definition response_for_schedule (schedule : list (StoredEntry.t * Z)) : option Response.t :=
  match response_to_vec (Response.entries []) with
  | None => None
  | Some empty => schedule_loop (ztake MAX_PENDING_ENTRIES schedule) (zlen empty) []
  end.

Definition history_response_size (encoded_entries_size : Z) (next_cursor : option HistoryCursor.t)
    : option Z :=
  match response_to_vec (Response.history [] next_cursor) with
  | None => None
  | Some empty => Some (zlen empty + encoded_entries_size)
  end.

(** The loop of [response_for_history]: the entries that fit and the cursor after
    the last of them; [inr] is an early reply. *)
Fixpoint history_loop (records : list HistoryRecordAt.t) (page_next : option HistoryPosition.t)
    (encoded_entries_size : Z) (entries : list HistoryEntry.t) (next_cursor : option HistoryCursor.t)
    : option (list HistoryEntry.t * option HistoryCursor.t + Response.t) :=
  match records with
  | [] => Some (inl (entries, next_cursor))
  | item :: records =>
      let entry := history_entry (HistoryRecordAt.record item) in
      let more_in_page := match records with [] => false | _ => true end in
      let has_more := more_in_page || bool_decide (page_next <> None) in
      let candidate_cursor :=
        if has_more then Some (cursor_of (HistoryRecordAt.position_after item)) else None in
      match history_entry_to_vec entry with
      | None => None
      | Some encoded =>
          let size := encoded_entries_size + zlen encoded + separator_size entries in
          match history_response_size size candidate_cursor with
          | None => None
          | Some total =>
              if MAX_RESPONSE_BYTES <? total then
                match entries with
                | [] => Some (inr record_too_large)
                | _ => Some (inl (entries, next_cursor))
                end
              else history_loop records page_next size (entries ++ [entry]) candidate_cursor
          end
      end
  end.

Definition response_for_history (page : HistoryPage.t) : option Response.t :=
  match history_loop (HistoryPage.records page) (HistoryPage.next page) 0 [] None with
  | None => None
  | Some (inr response) => Some response
  | Some (inl (entries, next_cursor)) =>
      let next_cursor :=
        match HistoryPage.next page, entries with
        | Some position, [] => Some (cursor_of position)
        | _, _ => next_cursor
        end in
      Some (Response.history entries next_cursor)
  end.

(** * Dispatch *)

Definition is_error (r : Response.t) : bool :=
  match r with Response.Error _ => true | _ => false end.

Definition store_error_response (e : StoreError) : Response.t * option string :=
  (Response.error (store_error_text e), Some (category e)).

Definition map_store_response (r : result StoreError unit) : Response.t * option string :=
  match r with Ok _ => (Response.ok, None) | Err e => store_error_response e end.

(** A reply whose size was bounded, or its serialization error. *)
Definition bounded_response (r : option Response.t) (failure : string) : Response.t * option string :=
  match r with
  | Some response => (response, if is_error response then Some "response_too_large" else None)
  | None => (Response.error failure, Some "response_serialization")
  end.

(** Adapt one protocol request into a queue operation and its wire response. *)
Definition dispatch_request_with_error_kind (fuel : nat) (sampled : Z) (request : Request.t)
    : QM (Response.t * option string) :=
  match request with
  | Request.Put request immediate =>
      let> r := qattempt (SharedQueue.put cfg fuel request immediate sampled) in
      qret (match r with
            | Ok (entry, eta) => (Response.entry (pending_entry entry eta), None)
            | Err e => store_error_response e
            end)
  | Request.Await _ =>
      qret (Response.error "await requires a streaming connection", Some "stream_required")
  | Request.List =>
      let> r := qattempt (SharedQueue.list cfg) in
      qret (match r with
            | Ok schedule =>
                bounded_response (response_for_schedule schedule) "failed to encode list response"
            | Err e => store_error_response e
            end)
  | Request.Bump id => let> r := qattempt (SharedQueue.bump id) in qret (map_store_response r)
  | Request.Bust id => let> r := qattempt (SharedQueue.bust id) in qret (map_store_response r)
  | Request.Del id => let> r := qattempt (SharedQueue.del id) in qret (map_store_response r)
  | Request.Hist limit cursor =>
      let> r := qattempt (SharedQueue.history_page limit (position_of_cursor <$> cursor)) in
      qret (match r with
            | Ok page =>
                bounded_response (response_for_history page) "failed to encode history response"
            | Err e => store_error_response e
            end)
  end.

(** * Connections *)

(** What a connection does: the bytes the client sends before it closes its side
    (or how reading fails), and how writing and closing the reply fail. *)
Inductive conn_error := ReadTimeout | ReadFailed | PayloadTooLarge | Unencodable
                      | WriteFailed | ShutdownFailed.
Record connection := Connection {
  c_read : result conn_error bytes;
  c_write : option conn_error;
  c_shutdown : option conn_error;
}.

Definition request_operation (r : Request.t) : string :=
  match r with
  | Request.Put _ _ => "put"
  | Request.List => "list"
  | Request.Bump _ => "bump"
  | Request.Bust _ => "bust"
  | Request.Del _ => "del"
  | Request.Hist _ _ => "hist"
  | Request.Await _ => "await"
  end.

(** The reply to a decoded request that is not a wait, or to malformed text. *)
Definition reply_to (fuel : nat) (sampled : Z) (buffer : bytes)
    : QM (Response.t * ClientOutcome.t * option string) :=
  match request_from_slice buffer with
  | Ok request =>
      let> (response, error_kind) := dispatch_request_with_error_kind fuel sampled request in
      qret (response, if is_error response then ClientOutcome.Failed else ClientOutcome.Accepted, error_kind)
  | Err e =>
      qret (Response.error ("invalid request: " +:+ e), ClientOutcome.Failed, Some "invalid_json")
  end.

(** A reply within the limit, or the error that stands for it. *)
Definition encode_reply (response : Response.t) (outcome : ClientOutcome.t) (error_kind : option string)
    : result conn_error (bytes * ClientOutcome.t * option string) :=
  match response_to_vec response with
  | None => Err Unencodable
  | Some encoded =>
      if MAX_RESPONSE_BYTES <? zlen encoded then
        match response_to_vec response_too_large with
        | None => Err Unencodable
        | Some encoded => Ok (encoded, ClientOutcome.Failed, Some "response_too_large")
        end
      else Ok (encoded, outcome, error_kind)
  end.

(** [handle_client_inner] for a request that is not a wait: the bytes written and
    the outcome. *)
Definition handle_client_inner (fuel : nat) (sampled : Z) (c : connection)
    : QM (bytes * result conn_error (ClientOutcome.t * option string)) :=
  match c_read c with
  | Err e => qret ([], Err e)
  | Ok sent =>
      let buffer := ztake (MAX_REQUEST_BYTES + 1) sent in
      if MAX_REQUEST_BYTES <? zlen buffer then qret ([], Err PayloadTooLarge)
      else
        let> r := reply_to fuel sampled buffer in
        let '(response, outcome, error_kind) := r in
        match encode_reply response outcome error_kind with
        | Err e => qret ([], Err e)
        | Ok (encoded, outcome, error_kind) =>
            match c_write c with
            | Some e => qret ([], Err e)
            | None =>
                match c_shutdown c with
                | Some e => qret (encoded, Err e)
                | None => qret (encoded, Ok (outcome, error_kind))
                end
            end
        end
  end.

(** * Awaiting *)

(** The frames written to a waiter, and whether each further write succeeds. *)
Record stream := Stream { st_sent : list bytes; st_writes : list bool }.

Definition next_write (s : stream) : bool * stream :=
  match st_writes s with
  | [] => (true, s)
  | ok :: rest => (ok, Stream (st_sent s) rest)
  end.

(** Serialize and write one newline-delimited frame; whether it was written. *)
Definition send_frame (event : AwaitEvent.t) (s : stream) : bool * stream :=
  match event_to_vec event with
  | None => (false, s)
  | Some encoded =>
      if zlen encoded <? MAX_AWAIT_FRAME_BYTES then
        let '(ok, s) := next_write s in
        if ok : bool then (true, Stream (st_sent s ++ [encoded ++ [NEWLINE]]) (st_writes s))
        else (false, s)
      else (false, s)
  end.

(** Send one terminal error frame and return its bounded outcome label. *)
Definition send_terminal (message outcome : string) (s : stream) : string * stream :=
  let '(ok, s) := send_frame (AwaitEvent.Error message) s in
  ((if ok : bool then outcome else "client_gone"), s).

(** Send a terminal URL frame, or an explicit error when it cannot fit. *)
Definition send_posted (comment_url : string) (s : stream) : string * stream :=
  let event := AwaitEvent.Posted comment_url in
  let fits := match event_to_vec event with
              | Some encoded => zlen encoded <? MAX_AWAIT_FRAME_BYTES
              | None => false
              end in
  if negb fits
  then send_terminal "posted comment URL exceeds the await frame limit" "posted_url_too_large" s
  else
    let '(ok, s) := send_frame event s in
    ((if ok : bool then "posted" else "client_gone"), s).

Definition missing_entry (token : option AwaitCursor.t) (s : stream) : string * stream :=
  if decide (token = None)
  then send_terminal "unknown comment identifier" "unknown_identifier" s
  else send_terminal "comment was removed" "removed" s.

(** [AwaitError::message] and [AwaitError::category]. *)
Definition await_error_message (e : SharedQueue.AwaitError) : string :=
  match e with
  | SharedQueue.InvalidIdentifier => "await identifier must contain eight hexadecimal characters"
  | SharedQueue.QueueLookup category => "await lookup failed (" +:+ category +:+ ")"
  end.
Definition await_error_category (e : SharedQueue.AwaitError) : string :=
  match e with
  | SharedQueue.InvalidIdentifier => "invalid_identifier"
  | SharedQueue.QueueLookup category => category
  end.

(** Resolve one waiter state and send its progress or terminal frame: [inl] is
    [ControlFlow::Break], [inr] the token to continue with. *)
Definition respond (answer : result SharedQueue.AwaitError AwaitState) (token : option AwaitCursor.t)
    (s : stream) : (string + option AwaitCursor.t) * stream :=
  match answer with
  | Ok (Pending eta_seconds selected) =>
      let '(ok, s) := send_frame (AwaitEvent.Waiting eta_seconds) s in
      if ok : bool then (inr (Some selected), s) else (inl "client_gone", s)
  | Ok (Posted (Some comment_url) _) =>
      let '(outcome, s) := send_posted comment_url s in (inl outcome, s)
  | Ok (Posted None _) =>
      let '(outcome, s) :=
        send_terminal "posted comment has no recorded URL" "posted_without_url" s in
      (inl outcome, s)
  | Ok Unknown => let '(outcome, s) := missing_entry token s in (inl outcome, s)
  | Err e =>
      let '(outcome, s) := send_terminal (await_error_message e) (await_error_category e) s in
      (inl outcome, s)
  end.

(** What happens in one turn of a wait: whether shutdown was signalled before it, what
    other tasks do before and during the lookup, the time until the turn sleeps, and
    the polls of the sleep. *)
Record await_turn := AwaitTurn {
  at_shutdown : bool;
  at_before : queue -> queue;
  at_lookup : list ((queue -> queue) * (queue -> queue));
  at_elapsed : N;
  at_polls : list poll;
}.

Definition shutting_down (s : stream) : string * stream :=
  send_terminal "daemon is shutting down" "shutdown" s.

(** The biased [select!] of a turn: shutdown, a published version, the heartbeat. *)
Fixpoint await_select (timer : Z -> bool) (state : StateSubscription.t) (at_ : Z) (polls : list poll)
    : QM (wait_end * (StateSubscription.t * Z)) :=
  match polls with
  | [] => qret (Unfinished, (state, at_))
  | p :: polls =>
      let now := later at_ (p_elapsed p) in
      let> _ := SharedQueue.interleave (p_others p) in
      if p_shutdown p then qret (Stop, (state, now))
      else
        let> changed := StateSubscription.changed state in
        match changed with
        | Some state => qret (Again, (state, now))
        | None => if timer now then qret (Again, (state, now)) else await_select timer state now polls
        end
  end.

(** The loop of [await_entry]; [None] while the wait is still going on after the
    given turns and polls. *)
Fixpoint await_loop (heartbeat : Z) (turns : list await_turn) (id : string) (state : StateSubscription.t)
    (token : option AwaitCursor.t) (s : stream) (at_ : Z) : QM (option string * stream) :=
  match turns with
  | [] => qret (None, s)
  | t :: turns =>
      if at_shutdown t then let '(outcome, s) := shutting_down s in qret (Some outcome, s)
      else
        let> _ := SharedQueue.interleave (at_before t) in
        let> answer := SharedQueue.resolve_await cfg (at_lookup t) id token in
        match respond answer token s with
        | (inl outcome, s) => qret (Some outcome, s)
        | (inr token, s) =>
            let set_at := later at_ (at_elapsed t) in
            let> r := await_select (ready set_at (heartbeat * NANOS)) state set_at (at_polls t) in
            let '(ended, (state, now)) := r in
            match ended with
            | Stop => let '(outcome, s) := shutting_down s in qret (Some outcome, s)
            | Again => await_loop heartbeat turns id state token s now
            | Unfinished => qret (None, s)
            end
        end
  end.

(** Stream ETA updates until the queue resolves, shutdown begins, or the client
    leaves.  The waiter subscribes before its first lookup. *)
Definition await_entry (heartbeat : Z) (turns : list await_turn) (id : string) (s : stream) (at_ : Z)
    : QM (option string * stream) :=
  let> state := StateSubscription.subscribe_state in
  let> state := StateSubscription.mark_seen state in
  await_loop heartbeat turns id state None s at_.

(** Acquire a listener-wide permit and report exactly one terminal outcome. *)
Definition handle_await (awaiters : Z) (turns : list await_turn) (id : string) (s : stream) (at_ : Z)
    : QM (option string * stream) :=
  if MAX_AWAITERS <=? awaiters then
    let '(outcome, s) := send_terminal "too many concurrent await requests" "rejected_capacity" s in
    qret (Some outcome, s)
  else await_entry AWAIT_HEARTBEAT_SECS turns id s at_.
End listener.
