(* ===== verification/Replies.v ===== *)
(** Properties of the listener's replies: the incremental size checks agree with
    encoding the whole reply, a history reply never loses a record, and a wait
    sends well-formed frames with one terminal frame at the end. *)

From S2P Require Import Prelude Text Protocol Disk Entry Wire Bounds History Store Queue Waits.
From S2P Require Import Listener.

Lemma response_limit : MAX_RESPONSE_BYTES = 2097152.
Proof. reflexivity. Qed.
Lemma frame_limit : MAX_AWAIT_FRAME_BYTES = 65536.
Proof. reflexivity. Qed.

Lemma separator_snoc {A} (l : list A) x : separators (l ++ [x]) = separators l + separator_size l.
Proof.
  unfold separators, separator_size, zlen. rewrite length_app.
  destruct l as [|y l]; [done|]. cbn [length]. lia.
Qed.

Lemma separators_mono {A} (l k : list A) : separators l <= separators (l ++ k).
Proof. unfold separators, zlen. rewrite length_app. lia. Qed.

(** Room for one more element of [n] bytes, with the saturating sums of the code. *)
Lemma sat_add_limit a n s : 0 <= a -> 0 <= n -> 0 <= s <= 1 ->
  sat_add (sat_add a n) s <= MAX_RESPONSE_BYTES -> sat_add (sat_add a n) s = a + n + s.
Proof. rewrite response_limit. unfold sat_add, U64_MAX. lia. Qed.
Lemma sat_add_over a n s : 0 <= s ->
  MAX_RESPONSE_BYTES < sat_add (sat_add a n) s -> MAX_RESPONSE_BYTES < a + n + s.
Proof. rewrite response_limit. unfold sat_add, U64_MAX. lia. Qed.

Section replies.
Context `{WireJson} `{!WireJsonOk}.

(** Encodings of a list of values. *)
Lemma encode_all {A} (f : A -> option bytes) (P : A -> Prop) l :
  (forall a, P a -> is_Some (f a)) -> Forall P l -> exists bs, Forall2 (fun a b => f a = Some b) l bs.
Proof.
  intros Hf. induction 1 as [|a l Ha _ [bs IH]]; [exists []; constructor|].
  destruct (Hf a Ha) as [b Hb]. exists (b :: bs). by constructor.
Qed.

Lemma sizes_nonneg (bs : list bytes) : 0 <= zsum (zlen <$> bs).
Proof. apply zsum_nonneg, Forall_fmap, Forall_true. intros b. apply zlen_nonneg. Qed.

(** ** Lists *)

Definition all_pending (schedule : list (StoredEntry.t * Z)) : list PendingEntry.t :=
  (fun x => pending_entry x.1 x.2) <$> schedule.

Lemma schedule_loop_spec rest : forall done_ bsd bsr base,
  0 <= base ->
  Forall2 (fun e x => pending_to_vec e = Some x) done_ bsd ->
  Forall2 (fun e x => pending_to_vec e = Some x) (all_pending rest) bsr ->
  base + zsum (zlen <$> bsd) + separators done_ <= MAX_RESPONSE_BYTES ->
  schedule_loop rest (base + zsum (zlen <$> bsd) + separators done_) done_
  = Some (if base + zsum (zlen <$> bsd ++ bsr) + separators (done_ ++ all_pending rest)
             <=? MAX_RESPONSE_BYTES
          then Response.entries (done_ ++ all_pending rest) else list_too_large).
Proof.
  induction rest as [|[entry eta] rest IH]; intros done_ bsd bsr base Hb Hd Hr Hle.
  { apply Forall2_nil_inv_l in Hr as ->. cbn [all_pending schedule_loop fmap list_fmap].
    rewrite !app_nil_r. by destruct (Z.leb_spec (base + zsum (zlen <$> bsd) + separators done_) MAX_RESPONSE_BYTES); [|lia]. }
  unfold all_pending in Hr. rewrite fmap_cons in Hr. fold (all_pending rest) in Hr.
  apply Forall2_cons_inv_l in Hr as (x & bsr' & Hx & Hr & ->). cbn [fst snd] in Hx.
  cbn [schedule_loop]. rewrite Hx.
  assert (Hsep : 0 <= @separator_size PendingEntry.t done_ <= 1) by (unfold separator_size; destruct done_; lia).
  pose proof (sizes_nonneg bsd). pose proof (sizes_nonneg bsr'). pose proof (zlen_nonneg x).
  assert (0 <= separators done_) by (unfold separators; lia).
  assert (Ha : 0 <= base + zsum (zlen <$> bsd) + separators done_) by lia.
  set (e := pending_entry entry eta) in *.
  assert (Hnext : base + zsum (zlen <$> bsd ++ [x]) + separators (done_ ++ [e])
                  = base + zsum (zlen <$> bsd) + separators done_ + zlen x + separator_size done_).
  { rewrite separator_snoc, fmap_app, zsum_app. cbn [fmap list_fmap zsum foldr]. lia. }
  assert (Hall : all_pending ((entry, eta) :: rest) = e :: all_pending rest) by done.
  rewrite Hall. destruct (Z.ltb_spec MAX_RESPONSE_BYTES
    (sat_add (sat_add (base + zsum (zlen <$> bsd) + separators done_) (zlen x)) (separator_size done_)))
    as [Hover|Hfit].
  - pose proof (sat_add_over _ _ _ (proj1 Hsep) Hover) as Hov. clear Hover.
    pose proof (separators_mono (done_ ++ [e]) (all_pending rest)) as Hm. rewrite <- app_assoc in Hm.
    cbn [app] in Hm. rewrite separator_snoc in Hm.
    destruct (Z.leb_spec (base + zsum (zlen <$> bsd ++ x :: bsr') + separators (done_ ++ e :: all_pending rest))
                MAX_RESPONSE_BYTES) as [Hc|]; [|done].
    exfalso. rewrite fmap_app, fmap_cons, zsum_app in Hc. cbn [zsum foldr] in Hc.
    change (foldr Z.add 0 (zlen <$> bsr')) with (zsum (zlen <$> bsr')) in Hc. lia.
  - pose proof (sat_add_limit _ _ _ Ha (zlen_nonneg x) Hsep Hfit) as Hsum. rewrite Hsum, <- Hnext.
    rewrite (IH (done_ ++ [e]) (bsd ++ [x]) bsr'); [|done| |done|].
    + by rewrite <- !app_assoc.
    + apply Forall2_app; [done|]. by repeat constructor.
    + rewrite Hnext, <- Hsum. exact Hfit.
Qed.

(** ** History pages *)

Definition page_entries (items : list HistoryRecordAt.t) : list HistoryEntry.t :=
  (fun item => history_entry (HistoryRecordAt.record item)) <$> items.

(** Where to continue after the items of [sent], when [rest] or another page is
    left. *)
Definition resume (sent rest : list HistoryRecordAt.t) (next : option HistoryPosition.t)
    : option HistoryCursor.t :=
  match last sent with
  | None => cursor_of <$> next
  | Some item =>
      if bool_decide (rest <> []) || bool_decide (next <> None)
      then Some (cursor_of (HistoryRecordAt.position_after item)) else None
  end.

Definition item_typed (item : HistoryRecordAt.t) : Prop :=
  record_typed (HistoryRecordAt.record item)
  /\ cursor_typed (cursor_of (HistoryRecordAt.position_after item)).

Lemma history_entry_ok item :
  item_typed item -> history_entry_typed (history_entry (HistoryRecordAt.record item)).
Proof.
  intros [(? & ? & ? & ? & ? & ? & ? & (? & ? & ? & ?)) _]. unfold history_entry_typed. simpl. tauto.
Qed.

Definition next_typed (next : option HistoryPosition.t) : Prop :=
  cursor_opt_typed (cursor_of <$> next).

Lemma resume_typed sent rest next :
  Forall item_typed sent -> next_typed next -> cursor_opt_typed (resume sent rest next).
Proof.
  intros Hs Hn. unfold resume. destruct (last sent) as [item|] eqn:Hl; [|done].
  destruct (_ || _); [|done]. apply last_Some in Hl as [l ->].
  apply Forall_app in Hs as [_ [[_ Hc] _]%Forall_cons_1]. done.
Qed.

(** A reply of these items fits, by its exact size. *)
Definition fits_reply (sent : list HistoryRecordAt.t) (cursor : option HistoryCursor.t) : Prop :=
  forall b, response_to_vec (Response.history (page_entries sent) cursor) = Some b ->
    zlen b <= MAX_RESPONSE_BYTES.

Lemma reply_size sent cursor bs total :
  Forall item_typed sent -> cursor_opt_typed cursor ->
  Forall2 (fun e x => history_entry_to_vec e = Some x) (page_entries sent) bs ->
  history_response_size (zsum (zlen <$> bs) + separators (page_entries sent)) cursor = Some total ->
  total <= MAX_RESPONSE_BYTES -> fits_reply sent cursor.
Proof.
  intros Hs Hc Hbs Htot Hle b Hb. unfold history_response_size in Htot.
  destruct (response_to_vec (Response.history [] cursor)) as [b0|] eqn:Hb0; [|done].
  injection Htot as <-. rewrite (history_size (page_entries sent) cursor bs b0 b); try done; [lia|].
  apply Forall_fmap. eapply Forall_impl; [exact Hs|]. apply history_entry_ok.
Qed.

(** Its encoding has exactly the size the loop computes. *)
Lemma reply_exact sent cursor bs :
  Forall item_typed sent -> cursor_opt_typed cursor ->
  Forall2 (fun e x => history_entry_to_vec e = Some x) (page_entries sent) bs ->
  exists b, response_to_vec (Response.history (page_entries sent) cursor) = Some b
    /\ forall b0, response_to_vec (Response.history [] cursor) = Some b0 ->
         zlen b = zlen b0 + (zsum (zlen <$> bs) + separators (page_entries sent)).
Proof.
  intros Hs Hc Hbs. assert (Hty : Forall history_entry_typed (page_entries sent)).
  { apply Forall_fmap. eapply Forall_impl; [exact Hs|]. apply history_entry_ok. }
  destruct (response_to_vec_total (Response.history (page_entries sent) cursor)) as [b Hb];
    [by split_and!|]. exists b. split; [done|]. intros b0 Hb0.
  rewrite (history_size (page_entries sent) cursor bs b0 b) by done. lia.
Qed.

Lemma history_loop_spec rest : forall sent bs next,
  Forall item_typed (sent ++ rest) -> next_typed next ->
  Forall2 (fun e x => history_entry_to_vec e = Some x) (page_entries sent) bs ->
  (sent <> [] -> fits_reply sent (resume sent rest next)) ->
  (exists taken left_, rest = taken ++ left_
     /\ history_loop rest next (zsum (zlen <$> bs) + separators (page_entries sent)) (page_entries sent)
          (if decide (sent = []) then None else resume sent rest next)
        = Some (inl (page_entries (sent ++ taken),
                     if decide (sent ++ taken = []) then None else resume (sent ++ taken) left_ next))
     /\ (sent ++ taken <> [] -> fits_reply (sent ++ taken) (resume (sent ++ taken) left_ next))
     /\ (sent ++ taken = [] -> rest = []))
  \/ (sent = []
      /\ (exists item left_, rest = item :: left_ /\ ~ fits_reply [item] (resume [item] left_ next))
      /\ history_loop rest next (zsum (zlen <$> bs) + separators (page_entries sent))
        (page_entries sent) None = Some (inr record_too_large)).
Proof.
  induction rest as [|item rest IH]; intros sent bs next Hty Hn Hbs Hfit.
  { left. exists [], []. rewrite !app_nil_r. by split_and!. }
  pose proof Hty as [Hsent [Hitem Hrest]%Forall_cons_1]%Forall_app.
  assert (Hsent1 : Forall item_typed (sent ++ [item])) by (apply Forall_app; split; [done|by apply Forall_singleton]).
  cbn [history_loop]. destruct (history_entry_to_vec_total _ (history_entry_ok item Hitem)) as [x Hx].
  rewrite Hx.
  set (cur := if (match rest with [] => false | _ => true end) || bool_decide (next <> None)
              then Some (cursor_of (HistoryRecordAt.position_after item)) else None).
  assert (Hcur : cur = resume (sent ++ [item]) rest next).
  { unfold cur, resume. rewrite last_snoc. by destruct rest. }
  assert (Hcty : cursor_opt_typed cur) by (rewrite Hcur; by apply resume_typed).
  assert (Hent : page_entries (sent ++ [item])
                 = page_entries sent ++ [history_entry (HistoryRecordAt.record item)])
    by (unfold page_entries; by rewrite fmap_app).
  assert (Hsz : zsum (zlen <$> bs) + separators (page_entries sent) + zlen x + separator_size (page_entries sent)
                = zsum (zlen <$> bs ++ [x]) + separators (page_entries (sent ++ [item]))).
  { rewrite Hent, separator_snoc, fmap_app, zsum_app. cbn [fmap list_fmap zsum foldr]. lia. }
  rewrite Hsz.
  destruct (response_to_vec_total (Response.history [] cur)) as [b0 Hb0]; [by split_and!|].
  assert (Htot : history_response_size (zsum (zlen <$> bs ++ [x]) + separators (page_entries (sent ++ [item]))) cur
    = Some (zlen b0 + (zsum (zlen <$> bs ++ [x]) + separators (page_entries (sent ++ [item])))))
    by (unfold history_response_size; by rewrite Hb0).
  rewrite Htot. assert (Hbs1 : Forall2 (fun e x => history_entry_to_vec e = Some x)
    (page_entries (sent ++ [item])) (bs ++ [x])) by (rewrite Hent; apply Forall2_app; [done|by repeat constructor]).
  destruct (Z.ltb_spec MAX_RESPONSE_BYTES
    (zlen b0 + (zsum (zlen <$> bs ++ [x]) + separators (page_entries (sent ++ [item]))))) as [Hover|Hle].
  - destruct sent as [|s0 sent].
    { right. split_and!; [done| |done]. exists item, rest. split; [done|]. intros Hf.
      change ([] ++ [item]) with [item] in *. rewrite <- Hcur in Hf.
      destruct (reply_exact [item] cur _ Hsent1 Hcty Hbs1) as (b1 & Hb1 & Hz).
      rewrite Hb0 in Hz. specialize (Hf b1 Hb1). specialize (Hz b0 eq_refl). lia. }
    left. exists [], (item :: rest). rewrite app_nil_r.
    rewrite ?app_nil_r. by split_and!.
  - rewrite <- Hent, Hcur.
    destruct (IH (sent ++ [item]) (bs ++ [x]) next) as [(taken & left_ & -> & Hrun & Hf & _)|(Hnil & _ & _)];
      [by rewrite <- app_assoc|done|done| | |by destruct sent].
    { intros _. rewrite <- Hcur. eapply (reply_size (sent ++ [item])); [done|done|exact Hbs1|exact Htot|done]. }
    left. exists (item :: taken), left_. rewrite <- app_assoc in Hrun, Hf. cbn [app] in Hrun, Hf.
    split; [done|]. split; [|split; [done|by destruct sent]]. rewrite <- Hrun.
    by destruct (decide (sent ++ [item] = [])) as [He|]; [by destruct sent|].
Qed.

Lemma history_reply_spec page :
  Forall item_typed (HistoryPage.records page) -> next_typed (HistoryPage.next page) ->
  (exists taken left_, HistoryPage.records page = taken ++ left_
     /\ (taken = [] -> left_ = [])
     /\ response_for_history page
        = Some (Response.history (page_entries taken) (resume taken left_ (HistoryPage.next page)))
     /\ fits_reply taken (resume taken left_ (HistoryPage.next page)))
  \/ (exists item left_, HistoryPage.records page = item :: left_
        /\ ~ fits_reply [item] (resume [item] left_ (HistoryPage.next page)))
     /\ response_for_history page = Some record_too_large.
Proof.
  intros Hty Hn. unfold response_for_history.
  destruct (history_loop_spec (HistoryPage.records page) [] [] (HistoryPage.next page))
    as [(taken & left_ & Hp & Hrun & Hf & Hnil)|(_ & Hbig & Hrun)]; [done|done|constructor|done| |];
    change (zsum (zlen <$> []) + separators (page_entries [])) with 0 in Hrun;
    change (page_entries []) with (@nil HistoryEntry.t) in Hrun; rewrite ?app_nil_l in *.
  - left. exists taken, left_. rewrite decide_True in Hrun by done. rewrite Hrun. split; [done|].
    destruct taken as [|i taken].
    + rewrite Hp in Hnil. split_and!; [by auto|by destruct (HistoryPage.next page)|].
      intros b Hb. destruct (response_to_vec_total (Response.history [] (resume [] left_ (HistoryPage.next page))))
        as [b0 Hb0]; [by split_and!|]. change (page_entries []) with (@nil HistoryEntry.t) in Hb.
      rewrite Hb in Hb0. injection Hb0 as <-.
      pose proof (empty_history_size _ b Hn Hb). rewrite response_limit. lia.
    + rewrite decide_False by done. split_and!; [done| |by apply Hf].
      cbn [page_entries fmap list_fmap]. by destruct (HistoryPage.next page).
  - right. split; [done|]. by rewrite Hrun.
Qed.

(** The fixed error replies are within the limit. *)
Lemma plain_error_fits m b :
  plain m = true -> zstrlen m <= 1024 -> response_to_vec (Response.error m) = Some b ->
  zlen b <= MAX_RESPONSE_BYTES.
Proof. intros Hp Hm Hb. pose proof (error_size m b Hp Hb). rewrite response_limit. lia. Qed.

(** The encoded reply is a response within the limit; a failure stays one. *)
Lemma encode_reply_spec response outcome kind encoded o k :
  encode_reply response outcome kind = Ok (encoded, o, k) ->
  (exists r, response_to_vec r = Some encoded) /\ zlen encoded <= MAX_RESPONSE_BYTES
  /\ (outcome = ClientOutcome.Failed -> o = ClientOutcome.Failed).
Proof.
  unfold encode_reply. destruct (response_to_vec response) as [b|] eqn:Hb; [|done].
  destruct (Z.ltb_spec MAX_RESPONSE_BYTES (zlen b)).
  - destruct (response_to_vec response_too_large) as [b'|] eqn:Hb'; [|done]. intros [= <- <- <-].
    split; [by eexists|]. split; [|done].
    refine (plain_error_fits _ _ _ _ Hb'); by vm_compute.
  - intros [= <- <- <-]. split; [by eexists|done].
Qed.

(** ** Await frames *)

(** The frames of some events were added to the stream. *)
Definition frame_of (event : AwaitEvent.t) (frame : bytes) : Prop :=
  exists b, event_to_vec event = Some b /\ frame = b ++ [NEWLINE] /\ zlen frame <= MAX_AWAIT_FRAME_BYTES.
Definition sends (events : list AwaitEvent.t) (s s' : stream) : Prop :=
  exists frames, st_sent s' = st_sent s ++ frames /\ Forall2 frame_of events frames.

Lemma sends_nil s : sends [] s s.
Proof. exists []. rewrite app_nil_r. split; [done|constructor]. Qed.
Lemma sends_app l k s1 s2 s3 : sends l s1 s2 -> sends k s2 s3 -> sends (l ++ k) s1 s3.
Proof.
  intros (f & Hf & Hl) (g & Hg & Hk). exists (f ++ g). rewrite Hg, Hf, app_assoc.
  split; [done|by apply Forall2_app].
Qed.

Lemma send_frame_spec event s ok s' :
  send_frame event s = (ok, s') -> sends (if ok : bool then [event] else []) s s'.
Proof.
  unfold send_frame. destruct (event_to_vec event) as [b|] eqn:Hb.
  2:{ intros [= <- <-]. apply sends_nil. }
  destruct (Z.ltb_spec (zlen b) MAX_AWAIT_FRAME_BYTES) as [Hlt|].
  2:{ intros [= <- <-]. apply sends_nil. }
  unfold next_write. destruct (st_writes s) as [|[] rest]; intros [= <- <-].
  1,2: exists [b ++ [NEWLINE]]; (split; [done|]); (constructor; [|constructor]); exists b;
       (split_and!; [done|done|]); rewrite zlen_app; change (zlen [NEWLINE]) with 1; lia.
  exists []. cbn. rewrite app_nil_r. split; [done|constructor].
Qed.

(** A terminal event ends a wait. *)
Definition terminal (event : AwaitEvent.t) : Prop :=
  match event with AwaitEvent.Waiting _ => False | _ => True end.

(** The outcome label of a terminal frame, or that the client left without one. *)
Definition ended (outcome : string) (s s' : stream) : Prop :=
  (exists event, terminal event /\ sends [event] s s') \/ (outcome = "client_gone" /\ sends [] s s').

Lemma send_terminal_spec message outcome s o s' :
  send_terminal message outcome s = (o, s') -> ended o s s'.
Proof.
  unfold send_terminal. destruct (send_frame _ s) as [ok s1] eqn:Hs.
  apply send_frame_spec in Hs. intros [= <- <-].
  destruct ok; [left; by exists (AwaitEvent.Error message)|by right].
Qed.

Lemma send_posted_spec url s o s' : send_posted url s = (o, s') -> ended o s s'.
Proof.
  unfold send_posted. destruct (negb _); [apply send_terminal_spec|].
  destruct (send_frame _ s) as [ok s1] eqn:Hs. apply send_frame_spec in Hs.
  intros [= <- <-]. destruct ok; [left; by exists (AwaitEvent.Posted url)|by right].
Qed.

Lemma respond_spec answer token s r s' :
  respond answer token s = (r, s') ->
  match r with
  | inl outcome => ended outcome s s'
  | inr _ => exists eta, sends [AwaitEvent.Waiting eta] s s'
  end.
Proof.
  unfold respond, missing_entry. intros Hr.
  destruct answer as [e|[eta selected|[url|] at_|]].
  - destruct (send_terminal _ _ s) as [o s1] eqn:Hs. injection Hr as <- <-. by eapply send_terminal_spec.
  - destruct (send_frame _ s) as [ok s1] eqn:Hs. apply send_frame_spec in Hs.
    destruct ok; injection Hr as <- <-; [by eexists|by right].
  - destruct (send_posted _ s) as [o s1] eqn:Hs. injection Hr as <- <-. by eapply send_posted_spec.
  - destruct (send_terminal _ _ s) as [o s1] eqn:Hs. injection Hr as <- <-. by eapply send_terminal_spec.
  - case_decide; destruct (send_terminal _ _ s) as [o s1] eqn:Hs; injection Hr as <- <-;
      by eapply send_terminal_spec.
Qed.

(** A stream: progress frames, then one terminal frame once the wait is over. *)
Definition streamed (outcome : option string) (s s' : stream) : Prop :=
  exists etas s1, sends (AwaitEvent.Waiting <$> etas) s s1
    /\ match outcome with Some o => ended o s1 s' | None => s' = s1 end.

Lemma streamed_now o s s' : ended o s s' -> streamed (Some o) s s'.
Proof. intros He. exists [], s. split; [apply sends_nil|done]. Qed.

Lemma streamed_waiting eta outcome s s1 s' :
  sends [AwaitEvent.Waiting eta] s s1 -> streamed outcome s1 s' -> streamed outcome s s'.
Proof.
  intros Hw (etas & s2 & Hs & Ho). exists (eta :: etas), s2. split; [|done].
  exact (sends_app [_] _ _ _ _ Hw Hs).
Qed.
End replies.

Section waits.
Context `{Platform} `{SerdeJson} `{WireJson} `{!WireJsonOk} `{Timer} (cfg : Config.t).

(** A sleep always answers. *)
Lemma await_select_returns timer polls : forall state at_ q,
  exists e state' t q', await_select timer state at_ polls q = (Done (e, (state', t)), q') /\ at_ <= t.
Proof.
  induction polls as [|p polls IH]; intros state at_ q; cbn [await_select]; [by eexists _, _, _, _|].
  pose proof (later_le at_ (p_elapsed p)) as Hle. unfold qbind, SharedQueue.interleave.
  destruct (p_shutdown p); [by eexists _, _, _, _|]. unfold StateSubscription.changed.
  destruct (_ =? _); [|by eexists _, _, _, _]. destruct (timer _); [by eexists _, _, _, _|].
  destruct (IH state (later at_ (p_elapsed p)) (p_others p q)) as (e & state' & t & q' & -> & Ht).
  eexists _, _, _, _. split; [done|lia].
Qed.

Lemma await_loop_streams heartbeat turns id : forall state token s at_ q outcome s' q',
  await_loop cfg heartbeat turns id state token s at_ q = (Done (outcome, s'), q') -> streamed outcome s s'.
Proof.
  induction turns as [|t turns IH]; intros state token s at_ q outcome s' q' Hrun; cbn [await_loop] in Hrun.
  { injection Hrun as <- <- <-. exists [], s. split; [apply sends_nil|done]. }
  assert (Hshut : forall s1 o s2, shutting_down s1 = (o, s2) -> streamed (Some o) s1 s2)
    by (intros s1 o s2 Hs; by eapply streamed_now, send_terminal_spec).
  destruct (at_shutdown t).
  { destruct (shutting_down s) as [o s1] eqn:Hs. injection Hrun as <- <- <-. by apply Hshut. }
  unfold qbind at 1, SharedQueue.interleave in Hrun. unfold qbind at 1 in Hrun.
  destruct (SharedQueue.resolve_await cfg (at_lookup t) id token _) as [[answer|?| |] q1]; try done.
  destruct (respond answer token s) as [[o|token1] s1] eqn:Hr; pose proof (respond_spec _ _ _ _ _ Hr) as Hs.
  { injection Hrun as <- <- <-. by apply streamed_now. }
  destruct Hs as [eta Hs]. cbn zeta in Hrun. unfold qbind in Hrun.
  destruct (await_select_returns (ready (later at_ (at_elapsed t)) (heartbeat * NANOS)) (at_polls t) state
    (later at_ (at_elapsed t)) q1) as (e & state' & now & q2 & Hsel & _). rewrite Hsel in Hrun.
  eapply streamed_waiting; [exact Hs|]. destruct e.
  - destruct (shutting_down s1) as [o s2] eqn:Hs2. injection Hrun as <- <- <-. by apply Hshut.
  - by eapply IH.
  - injection Hrun as <- <- <-. exists [], s1. split; [apply sends_nil|done].
Qed.
End waits.

(** * Results *)

(** A list reply holds the whole queue, or says that it would be too large. *)
Lemma list_reply_spec `{WireJson} `{!WireJsonOk} schedule b :
  Forall (fun x => pending_typed (pending_entry x.1 x.2)) schedule ->
  zlen schedule <= MAX_PENDING_ENTRIES ->
  response_to_vec (Response.entries (all_pending schedule)) = Some b ->
  response_for_schedule schedule
  = Some (if zlen b <=? MAX_RESPONSE_BYTES then Response.entries (all_pending schedule)
          else list_too_large).
Proof.
  intros Hty Hlen Hb. unfold response_for_schedule.
  destruct (response_to_vec_total (Response.entries [])) as [b0 Hb0]; [by split_and!|]. rewrite Hb0.
  rewrite ztake_all by done.
  assert (Hall : Forall pending_typed (all_pending schedule)) by by apply Forall_fmap.
  destruct (encode_all pending_to_vec pending_typed (all_pending schedule)) as [bs Hbs];
    [apply pending_to_vec_total|done|].
  pose proof (entries_size _ _ _ _ Hall Hbs Hb0 Hb) as Hsz.
  pose proof (empty_entries_size b0 Hb0) as Hsz0.
  pose proof (schedule_loop_spec schedule [] [] bs (zlen b0)) as Hrun.
  change (zsum (zlen <$> [])) with 0 in Hrun. change (separators (@nil PendingEntry.t)) with 0 in Hrun.
  change ([] ++ bs) with bs in Hrun. change ([] ++ all_pending schedule) with (all_pending schedule) in Hrun.
  rewrite !Z.add_0_r in Hrun.
  rewrite Hrun, <- Hsz; [done|apply zlen_nonneg|constructor|done|]. rewrite response_limit. lia.
Qed.

(** C29: a history reply loses nothing.  It carries the first records of the page,
    at least one if there is one, within the protocol limit, and a cursor just
    after the last of them whenever records are left in the page or in the log;
    an error is sent only when the first record alone is too large for a reply. *)
Theorem history_reply_loses_nothing `{WireJson} `{!WireJsonOk} page :
  Forall item_typed (HistoryPage.records page) -> next_typed (HistoryPage.next page) ->
  (exists taken left_, HistoryPage.records page = taken ++ left_
     /\ (taken = [] -> left_ = [])
     /\ response_for_history page
        = Some (Response.history (page_entries taken) (resume taken left_ (HistoryPage.next page)))
     /\ fits_reply taken (resume taken left_ (HistoryPage.next page)))
  \/ (exists item left_, HistoryPage.records page = item :: left_
        /\ ~ fits_reply [item] (resume [item] left_ (HistoryPage.next page)))
     /\ response_for_history page = Some record_too_large.
Proof. apply history_reply_spec. Qed.

(** C30: every wait is a well-formed stream, whatever happens to the queue, the
    daemon and the connection: progress frames, then exactly one terminal frame
    (unless the client is gone), each frame one line of at most 64 KiB with its
    newline. *)
Theorem await_streams_are_well_formed `{Platform} `{SerdeJson} `{WireJson} `{!WireJsonOk} `{Timer}
    cfg awaiters turns id writes at_ q outcome s' q' :
  handle_await cfg awaiters turns id (Stream [] writes) at_ q = (Done (outcome, s'), q') ->
  exists etas last_, Forall2 frame_of ((AwaitEvent.Waiting <$> etas) ++ last_) (st_sent s')
    /\ Forall (fun f => exists b, f = b ++ [NEWLINE] /\ (NEWLINE ∉ b)) (st_sent s')
    /\ match outcome with
       | None => last_ = []
       | Some o => (exists event, last_ = [event] /\ terminal event) \/ (o = "client_gone" /\ last_ = [])
       end.
Proof.
  intros Hrun. assert (Hs : streamed outcome (Stream [] writes) s').
  { unfold handle_await in Hrun. destruct (_ <=? _); [|eapply await_loop_streams; exact Hrun].
    destruct (send_terminal _ _ _) as [o s1] eqn:Hs. injection Hrun as <- <- <-.
    by eapply streamed_now, send_terminal_spec. }
  destruct Hs as (etas & s1 & Hsend & Hend).
  assert (exists last_, sends ((AwaitEvent.Waiting <$> etas) ++ last_) (Stream [] writes) s'
    /\ match outcome with
       | None => last_ = []
       | Some o => (exists event, last_ = [event] /\ terminal event) \/ (o = "client_gone" /\ last_ = [])
       end) as (last_ & (frames & Hf & Hall) & Hlast).
  { destruct outcome as [o|].
    - destruct Hend as [(event & Ht & Hse)|[-> Hse]].
      + exists [event]. split; [by eapply sends_app|eauto].
      + exists []. split; [by eapply sends_app|auto].
    - subst s1. exists []. by rewrite app_nil_r. }
  cbn in Hf. rewrite Hf. exists etas, last_. split_and!; try done. clear -Hall H2.
  induction Hall as [|e f es fs (b & Hb & -> & _) _ IH]; constructor; [|done].
  exists b. split; [done|]. by eapply event_to_vec_line.
Qed.

(** The reply on a connection is within the protocol limit and encodes a
    response; a payload above the request limit gets no reply, text that is not a
    request gets an error reply, and neither touches the queue. *)
Theorem client_replies_are_bounded `{Platform} `{SerdeJson} `{WireJson} `{!WireJsonOk}
    cfg fuel sampled c q written r q' :
  handle_client_inner cfg fuel sampled c q = (Done (written, r), q') ->
  zlen written <= MAX_RESPONSE_BYTES
  /\ (forall x, r = Ok x -> exists response, response_to_vec response = Some written)
  /\ forall sent, c_read c = Ok sent ->
       (MAX_REQUEST_BYTES < zlen sent -> written = [] /\ r = Err PayloadTooLarge /\ q' = q)
       /\ (forall e, zlen sent <= MAX_REQUEST_BYTES -> request_from_slice sent = Err e ->
            q' = q /\ forall x, r = Ok x -> x.1 = ClientOutcome.Failed).
Proof.
  intros Hrun. unfold handle_client_inner in Hrun.
  destruct (c_read c) as [e|sent] eqn:Hread.
  { injection Hrun as <- <- <-. by split_and!. }
  set (buffer := ztake (MAX_REQUEST_BYTES + 1) sent) in Hrun.
  destruct (Z.ltb_spec MAX_REQUEST_BYTES (zlen buffer)) as [Hbig|Hsmall].
  { injection Hrun as <- <- <-. split; [done|]. split; [done|]. intros x [= <-]. split; [done|].
    intros e Hle. exfalso. unfold buffer in Hbig. rewrite ztake_all in Hbig by lia. lia. }
  assert (Hfit : zlen sent <= MAX_REQUEST_BYTES /\ buffer = sent).
  { unfold buffer in *. destruct (Z.le_gt_cases (zlen sent) (MAX_REQUEST_BYTES + 1)).
    - rewrite ztake_all in * by done. done.
    - exfalso. rewrite ztake_take in Hsmall. unfold zlen in *. rewrite length_take in Hsmall.
      unfold MAX_REQUEST_BYTES in *. lia. }
  destruct Hfit as [Hle Hbuf]. rewrite Hbuf in Hrun. unfold qbind in Hrun.
  destruct (reply_to cfg fuel sampled sent q) as [[[[response outcome] kind]|?| |] q1] eqn:Hr; try done.
  assert (Hbad : forall e, request_from_slice sent = Err e -> outcome = ClientOutcome.Failed /\ q1 = q).
  { intros e He. unfold reply_to in Hr. rewrite He in Hr. by injection Hr as _ <- _ <-. }
  destruct (encode_reply response outcome kind) as [e|[[encoded o] k]] eqn:He.
  { injection Hrun as <- <- <-. split; [done|]. split; [done|]. intros x [= <-]. split; [lia|].
    intros e0 _ He0. by destruct (Hbad e0 He0). }
  destruct (encode_reply_spec response outcome kind encoded o k He) as (Henc & Hlen & Ho).
  assert (Hend : q' = q1 /\ (written = [] \/ written = encoded) /\ forall x, r = Ok x -> x.1 = o /\ written = encoded).
  { destruct (c_write c); [|destruct (c_shutdown c)]; injection Hrun as <- <- <-;
      (split; [done|]); (split; [by auto|]); by intros x [= <-]. }
  destruct Hend as (-> & Hw & Hok). split; [by destruct Hw as [-> | ->]|]. split.
  { intros x Hx. destruct (Hok x Hx) as [_ ->]. by eapply Henc. }
  intros x [= <-]. split; [lia|]. intros e _ He0. destruct (Hbad e He0) as [Ho' ->]. split; [done|].
  intros x Hx. destruct (Hok x Hx) as [-> _]. by apply Ho.
Qed.
