(* ===== verification/Metrics.v ===== *)
(** One client transaction with the samples it is recorded by
    ([listener/connection.rs], [handle_client_with_control]): one-shot requests and
    waits over the same connection. *)

From S2P Require Import Prelude Text Protocol Disk Entry Wire Bounds History Store Recorder Queue.
From S2P Require Import Waits Listener.

(** * Transactions *)

(** The bytes written to the client, the parsed operation, how it ended. *)
Record transaction := Transaction {
  x_written : bytes;
  x_operation : option string;
  x_outcome : string;
  x_error_kind : option string;
}.

(** The samples of a transaction that took [duration]. *)
Definition transaction_samples (x : transaction) (duration : Z) : list sample :=
  [record_request (x_operation x) (x_outcome x);
   record_protocol_duration (x_operation x) (x_outcome x) (x_error_kind x) duration].

Section serve.
Context `{Platform} `{SerdeJson} `{WireJson} `{Timer} (cfg : Config.t).

(** The request of a payload within the limit. *)
Definition read_request (c : connection) : option Request.t :=
  match c_read c with
  | Err _ => None
  | Ok sent =>
      let buffer := ztake (MAX_REQUEST_BYTES + 1) sent in
      if MAX_REQUEST_BYTES <? zlen buffer then None
      else match request_from_slice buffer with Ok request => Some request | Err _ => None end
  end.

Definition client_labels (r : result conn_error (ClientOutcome.t * option string))
    : string * option string :=
  match r with
  | Ok (ClientOutcome.Await outcome, error_kind) => (outcome, error_kind)
  | Ok (ClientOutcome.Accepted, error_kind) => ("accepted", error_kind)
  | Ok (ClientOutcome.Failed, error_kind) => ("failed", error_kind)
  | Err _ => ("rejected", Some "protocol_io")
  end.

(** Handle one connection: a wait, from the instant [at_], streams frames ([None] while
    it goes on after the given turns), any other request gets one reply. *)
Definition handle_client_with_control (fuel : nat) (sampled awaiters : Z) (turns : list await_turn)
    (writes : list bool) (at_ : Z) (c : connection) : QM (option transaction) :=
  let operation := request_operation <$> read_request c in
  match read_request c with
  | Some (Request.Await id) =>
      let> (ended, s) := handle_await cfg awaiters turns id (Stream [] writes) at_ in
      qret (match ended with
            | None => None
            | Some outcome =>
                let '(outcome, error_kind) := client_labels (Ok (ClientOutcome.Await outcome, None)) in
                Some (Transaction (concat (st_sent s)) operation outcome error_kind)
            end)
  | _ =>
      let> (written, r) := handle_client_inner cfg fuel sampled c in
      let '(outcome, error_kind) := client_labels r in
      qret (Some (Transaction written operation outcome error_kind))
  end.
End serve.

(** * The labels say what happened *)

Definition await_outcomes : list string :=
  ["posted"; "client_gone"; "posted_url_too_large"; "posted_without_url"; "unknown_identifier";
   "removed"; "shutdown"; "rejected_capacity"; "invalid_identifier"].

(** Outcomes of a wait: the fixed ones, or the category of a store error. *)
Definition await_outcome (outcome : string) : Prop :=
  outcome ∈ await_outcomes \/ exists e, outcome = category e.

Lemma category_outcome e : bounded_outcome_label (category e) = category e.
Proof. destruct e as [[k ?]|?|?|?|?|?|?|?|?|? ?|? ? ?]; [destruct k; by vm_compute|by vm_compute..]. Qed.
Lemma category_error e : bounded_error_label (Some (category e)) = category e.
Proof. destruct e as [[k ?]|?|?|?|?|?|?|?|?|? ?|? ? ?]; [destruct k; by vm_compute|by vm_compute..]. Qed.

Lemma await_outcome_label outcome : await_outcome outcome -> bounded_outcome_label outcome = outcome.
Proof.
  intros [Hin|[e ->]]; [|apply category_outcome]. unfold await_outcomes in Hin.
  repeat (apply elem_of_cons in Hin as [->|Hin]; [by vm_compute|]). by apply not_elem_of_nil in Hin.
Qed.

Section outcomes.
Context `{Platform} `{SerdeJson} `{WireJson} `{Timer} (cfg : Config.t).

Lemma in_outcomes outcome : bool_decide (outcome ∈ await_outcomes) = true -> await_outcome outcome.
Proof. intros Hin%bool_decide_eq_true. by left. Qed.

Lemma terminal_outcome message outcome s :
  await_outcome outcome -> await_outcome (send_terminal message outcome s).1.
Proof.
  intros Ho. unfold send_terminal. destruct (send_frame _ s) as [[] s']; cbn [fst]; [done|].
  by apply in_outcomes.
Qed.

(** A terminal frame with one of the fixed outcomes. *)
Lemma terminal_break {B} message label s (outcome : string) :
  await_outcome label ->
  (let '(o, s') := send_terminal message label s in (inl o, s')).1 = @inl string B outcome ->
  await_outcome outcome.
Proof.
  intros Hl. pose proof (terminal_outcome message label s Hl) as Ht.
  destruct (send_terminal _ _ s) as [o s']. by intros [= <-].
Qed.

Lemma respond_outcome answer token s outcome :
  (forall e, answer = Err e -> await_outcome (await_error_category e)) ->
  (respond answer token s).1 = inl outcome -> await_outcome outcome.
Proof.
  intros Herr. unfold respond. destruct answer as [e|[eta selected|[u|] at_|]].
  - by apply terminal_break, Herr.
  - destruct (send_frame _ s) as [[] s']; [done|]. intros [= <-]. by apply in_outcomes.
  - unfold send_posted. destruct (negb _); [by apply terminal_break, in_outcomes|].
    destruct (send_frame _ s) as [[] s']; intros [= <-]; by apply in_outcomes.
  - by apply terminal_break, in_outcomes.
  - unfold missing_entry. case_decide; by apply terminal_break, in_outcomes.
Qed.

Lemma lookup_category turns id token q answer q' :
  SharedQueue.resolve_await cfg turns id token q = (Done answer, q') ->
  forall e, answer = Err e -> await_outcome (await_error_category e).
Proof.
  unfold SharedQueue.resolve_await, qbind. destruct (qattempt _ q) as [[r|?| |] q1]; try done.
  intros [= <- <-] e He. destruct r as [err|st]; [|done]. injection He as <-.
  destruct err as [x|x|x|x|x|x|x|x|x|x y|x y z]; [| | |by apply in_outcomes|..]; right.
  - by exists (Io x).
  - by exists (Serde x).
  - by exists (UnknownId x).
  - by exists (InvalidRepositoryComponent x).
  - by exists (LastPost x).
  - by exists (LastAttempt x).
  - by exists (BlockingTask x).
  - by exists (QueueFull x).
  - by exists (EntryTooLarge x y).
  - by exists (QueueByteBudgetExceeded x y z).
Qed.

Lemma await_loop_outcome heartbeat turns id : forall state token s at_ q ended s' q',
  await_loop cfg heartbeat turns id state token s at_ q = (Done (ended, s'), q') ->
  forall outcome, ended = Some outcome -> await_outcome outcome.
Proof.
  assert (Hdown : forall s, await_outcome (shutting_down s).1)
    by (intros s; by apply terminal_outcome, in_outcomes).
  induction turns as [|t turns IH]; intros state token s at_ q ended s' q'; cbn [await_loop]; [by intros [= <- _ _]|].
  destruct (at_shutdown t).
  { specialize (Hdown s). destruct (shutting_down s) as [o s1]. by intros [= <- _ _] outcome [= <-]. }
  unfold qbind at 1, SharedQueue.interleave. unfold qbind at 1.
  destruct (SharedQueue.resolve_await cfg _ id token _) as [[answer|?| |] q1] eqn:Hl; try done.
  pose proof (respond_outcome answer token s) as Hr.
  destruct (respond answer token s) as [[o|token'] s1]; cbn [fst] in Hr.
  { intros [= <- _ _] outcome [= <-]. apply Hr; [by eapply lookup_category|done]. }
  cbn zeta. unfold qbind. destruct (await_select _ _ _ _ q1) as [[[[] [state' now]]|?| |] q2]; try done.
  - specialize (Hdown s1). destruct (shutting_down s1) as [o s2]. by intros [= <- _ _] outcome [= <-].
  - apply IH.
  - by intros [= <- _ _].
Qed.

Lemma handle_await_outcome awaiters turns id s at_ q outcome s' q' :
  handle_await cfg awaiters turns id s at_ q = (Done (Some outcome, s'), q') -> await_outcome outcome.
Proof.
  unfold handle_await. destruct (MAX_AWAITERS <=? awaiters).
  - pose proof (terminal_outcome "too many concurrent await requests" "rejected_capacity" s
      ltac:(by apply in_outcomes)) as Ht.
    destruct (send_terminal _ _ s) as [o s1]. by intros [= <- _ _].
  - intros Hrun. eapply await_loop_outcome; [exact Hrun|done].
Qed.

(** ** One-shot requests *)

(** How a one-shot request fails and what the failure is called: text that is no request,
    a refusal of the store under the error's own category, a reply that is too large or
    that does not encode. *)
Inductive failure : option Request.t -> Response.t -> string -> Prop :=
| failure_json e : failure None (Response.error ("invalid request: " +:+ e)) "invalid_json"
| failure_store request e : failure (Some request) (Response.error (store_error_text e)) (category e)
| failure_size request m : failure request (Response.error m) "response_too_large"
| failure_encoding request m : failure (Some request) (Response.error m) "response_serialization".

(** A reply and its error kind: none for an answer, the failure's otherwise. *)
Definition answered (request : option Request.t) (response : Response.t) (kind : option string) : Prop :=
  match kind with
  | None => is_error response = false
  | Some k => failure request response k
  end.

Definition known_error (k : option string) : Prop := bounded_error_label k = default "none" k.

Lemma failure_known request response k : failure request response k -> known_error (Some k).
Proof. intros [?|? e|? ?|? ?]; [by vm_compute|apply category_error|by vm_compute..]. Qed.

Lemma failure_error request response k : failure request response k -> is_error response = true.
Proof. by intros []. Qed.

Lemma bounded_answered request r failed :
  answered (Some request) (bounded_response r failed).1 (bounded_response r failed).2.
Proof. destruct r as [[]|]; cbn; try done; constructor. Qed.

Lemma dispatch_answered fuel sampled request q r q' :
  (forall id, request <> Request.Await id) ->
  dispatch_request_with_error_kind cfg fuel sampled request q = (Done r, q') ->
  answered (Some request) r.1 r.2.
Proof.
  intros Hw. destruct request as [c i| |i|i|i|i|l c]; cbn [dispatch_request_with_error_kind];
    [| | | | |by destruct (Hw i)|]; unfold qbind; destruct (qattempt _ q) as [[[e|a]|?| |] q1]; try done;
    intros [= <- <-]; try constructor; try apply bounded_answered.
  by destruct a.
Qed.

(** What the labels of a one-shot transaction say: an accepted one wrote an answer, a
    failed one wrote the error it is recorded by, and a rejected one wrote no reply or
    could not close the connection after it. *)
Definition reported (c : connection) (written : bytes) (outcome : string) (kind : option string) : Prop :=
  (outcome = "accepted" /\ kind = None
   /\ exists response, is_error response = false /\ response_to_vec response = Some written)
  \/ (outcome = "failed"
      /\ exists response k, kind = Some k /\ failure (read_request c) response k
           /\ response_to_vec response = Some written)
  \/ (outcome = "rejected" /\ kind = Some "protocol_io" /\ (written = [] \/ is_Some (c_shutdown c))).

Lemma inner_reported fuel sampled c q written r q' :
  (forall id, read_request c <> Some (Request.Await id)) ->
  handle_client_inner cfg fuel sampled c q = (Done (written, r), q') ->
  reported c written (client_labels r).1 (client_labels r).2.
Proof.
  intros Hw. assert (Herr : forall e, reported c [] (client_labels (Err e)).1 (client_labels (Err e)).2)
    by (intros e; right; right; cbn; auto).
  unfold handle_client_inner. destruct (c_read c) as [e|sent] eqn:Hread; [by intros [= <- <- _]|].
  cbn zeta. destruct (MAX_REQUEST_BYTES <? _) eqn:Hsize; [by intros [= <- <- _]|].
  unfold qbind at 1. destruct (reply_to cfg fuel sampled _ q) as [[[[response outcome] kind]|?| |] q1] eqn:Hr; try done.
  assert (Hk : answered (read_request c) response kind
               /\ outcome = if is_error response then ClientOutcome.Failed else ClientOutcome.Accepted).
  { unfold reply_to in Hr. unfold read_request in *. rewrite Hread in *. cbn zeta in *. rewrite Hsize in *.
    destruct (request_from_slice _) as [e|request].
    - injection Hr as <- <- <- _. split; [constructor|done].
    - unfold qbind in Hr. destruct (dispatch_request_with_error_kind cfg fuel sampled request q)
        as [[[resp k]|?| |] q2] eqn:Hd; try done. injection Hr as <- <- <- _. split; [|done].
      apply (dispatch_answered fuel sampled request q (resp, k) q2); [|done]. intros id ->. by apply (Hw id). }
  destruct (encode_reply response outcome kind) as [e|[[encoded outcome'] kind']] eqn:He; [by intros [= <- <- _]|].
  destruct (c_write c); [by intros [= <- <- _]|].
  destruct (c_shutdown c) eqn:Hdown; intros [= <- <- _].
  { right. right. split_and!; [done..|]. right. by eexists. }
  destruct Hk as [Hk ->]. unfold encode_reply in He. destruct (response_to_vec response) as [b|] eqn:Hb; [|done].
  destruct (MAX_RESPONSE_BYTES <? _).
  { destruct (response_to_vec response_too_large) as [b'|] eqn:Hb'; [|done]. injection He as <- <- <-.
    right. left. split; [done|]. exists response_too_large. eexists. split_and!; [done|constructor|done]. }
  injection He as <- <- <-. destruct kind as [k|]; cbn in Hk.
  - rewrite (failure_error _ _ _ Hk). right. left. cbn. eauto 6.
  - rewrite Hk. left. cbn. eauto 6.
Qed.

Lemma reported_known c written outcome kind :
  reported c written outcome kind -> bounded_outcome_label outcome = outcome /\ known_error kind.
Proof.
  intros [(-> & -> & _)|[(-> & r & k & -> & Hf & _)|(-> & -> & _)]]; (split; [by vm_compute|]); try by vm_compute.
  by eapply failure_known.
Qed.

(** * Result *)

(** What the labels of a whole transaction say: those of a wait are the outcome its
    stream ended with and no error kind. *)
Definition transaction_reported (awaiters : Z) (turns : list await_turn) (writes : list bool) (at_ : Z)
    (c : connection) (q : queue) (x : transaction) (q' : queue) : Prop :=
  match read_request c with
  | Some (Request.Await id) =>
      x_error_kind x = None
      /\ exists s, handle_await cfg awaiters turns id (Stream [] writes) at_ q = (Done (Some (x_outcome x), s), q')
           /\ x_written x = concat (st_sent s)
  | _ => reported c (x_written x) (x_outcome x) (x_error_kind x)
  end.

Lemma transaction_labels fuel sampled awaiters turns writes at_ c q x q' :
  handle_client_with_control cfg fuel sampled awaiters turns writes at_ c q = (Done (Some x), q') ->
  x_operation x = request_operation <$> read_request c
  /\ transaction_reported awaiters turns writes at_ c q x q'.
Proof.
  unfold handle_client_with_control, transaction_reported. cbn zeta. set (op := request_operation <$> read_request c).
  assert (Hone : (forall id, read_request c <> Some (Request.Await id)) ->
    (let> (written, r) := handle_client_inner cfg fuel sampled c in
     let '(outcome, error_kind) := client_labels r in
     qret (Some (Transaction written op outcome error_kind))) q = (Done (Some x), q') ->
    x_operation x = op /\ reported c (x_written x) (x_outcome x) (x_error_kind x)).
  { intros Hw. unfold qbind. destruct (handle_client_inner cfg fuel sampled c q) as [[[written r]|?| |] q1] eqn:Hi; try done.
    pose proof (inner_reported fuel sampled c q written r q1 Hw Hi) as Hrep.
    destruct (client_labels r) as [outcome kind]. by intros [= <- _]. }
  destruct (read_request c) as [[| | | | |id|]|] eqn:Hreq; try (by apply Hone).
  unfold qbind. destruct (handle_await cfg awaiters turns id _ at_ q) as [[[[outcome|] s]|?| |] q1] eqn:Ha; try done.
  intros [= <- <-]. split_and!; [done..|]. by exists s.
Qed.

Lemma transaction_known awaiters turns writes at_ c q x q' :
  transaction_reported awaiters turns writes at_ c q x q' ->
  bounded_outcome_label (x_outcome x) = x_outcome x /\ known_error (x_error_kind x).
Proof.
  unfold transaction_reported. destruct (read_request c) as [[| | | | |id|]|]; try apply reported_known.
  intros [-> (s & Ha & _)]. split; [|by vm_compute]. apply await_outcome_label. by eapply handle_await_outcome.
Qed.
End outcomes.

(** The name of each request in the metrics. *)
Inductive labelled : Request.t -> string -> Prop :=
| labelled_put c i : labelled (Request.Put c i) "put"
| labelled_list : labelled Request.List "list"
| labelled_bump id : labelled (Request.Bump id) "bump"
| labelled_bust id : labelled (Request.Bust id) "bust"
| labelled_del id : labelled (Request.Del id) "del"
| labelled_hist l c : labelled (Request.Hist l c) "hist"
| labelled_await id : labelled (Request.Await id) "await".

Lemma request_labelled request : labelled request (request_operation request).
Proof. destruct request; constructor. Qed.

Lemma labelled_bounded request l : labelled request l -> protocol_operation_label (Some l) = l.
Proof. by intros []; vm_compute. Qed.

(** The name of each piece of store work in the metrics. *)
Definition store_labels : list (string * string) :=
  [("put", "put"); ("list", "list"); ("bump", "bump"); ("bust", "bust"); ("del", "del");
   ("next_due", "next_due"); ("claim_next_due", "claim"); ("complete", "complete");
   ("release_claim", "release"); ("recover_worker_state", "recover"); ("history", "history");
   ("append_history", "append_history"); ("latest_history_token", "latest_history_token");
   ("queue_metrics_snapshot", "metrics"); ("resolve_await", "resolve_await")].

Lemma store_label operation label :
  (operation, label) ∈ store_labels -> queue_store_operation_label operation = label.
Proof.
  unfold store_labels. intros Hin.
  repeat (apply elem_of_cons in Hin as [[= -> ->]|Hin]; [by vm_compute|]). by apply not_elem_of_nil in Hin.
Qed.

