(* ===== verification/Client.v ===== *)
(** The client ([comenq/src/client.rs], [comenq/src/client/await_stream.rs]):
    connecting, one bounded exchange, rendering of the reply, the paged history
    command and the foreground wait. *)

From S2P Require Import Prelude Text Protocol Disk Entry Wire Output Args.

Definition CLIENT_REPLY_TIMEOUT : Z := 5.

Inductive ClientError :=
| Connect (e : io_error)
| Serialize (message : string)
| RequestTooLarge (size limit : Z)
| Write (e : io_error)
| ShutdownError (e : io_error)
| Read (e : io_error)
| ReplyTooLarge
| ConnectionLost
| AwaitRejected (message : string)
| NoInitialReply
| ReplyTimeout
| Daemon (message : string)
| UnexpectedResponse
| OutputError (e : io_error).

(** The message of an error. *)
Definition client_error_text (e : ClientError) : string :=
  match e with
  | Connect e => "failed to connect to daemon: " +:+ Disk.text e
  | Serialize m => "failed to encode or decode a daemon message: " +:+ m
  | RequestTooLarge size limit =>
      "request payload is " +:+ u64_to_string size +:+ " bytes, exceeding the "
      +:+ u64_to_string limit +:+ "-byte limit"
  | Write e => "failed to write to daemon: " +:+ Disk.text e
  | ShutdownError e => "failed to close connection: " +:+ Disk.text e
  | Read e => "failed to read daemon reply: " +:+ Disk.text e
  | ReplyTooLarge => "daemon reply exceeds the protocol size limit"
  | ConnectionLost => "connection lost before posting completed"
  | AwaitRejected m =>
      "daemon rejected the await request: " +:+ m
      +:+ " (comenqd may predate await; run comenq and comenqd from the same release)"
  | NoInitialReply =>
      "daemon closed the connection without a reply (possible protocol mismatch with an older daemon; "
      +:+ "run comenq and comenqd from the same release)"
  | ReplyTimeout => "timed out waiting for daemon reply"
  | Daemon m => "daemon refused the request: " +:+ m
  | UnexpectedResponse => "unexpected reply from daemon"
  | OutputError e => "failed to write command output: " +:+ Disk.text e
  end.

(** * Connecting *)

Section connecting.
Context {P : Type} (connect : string -> result io_error P).

(** The loop of [connect_first], with the last error so far. *)
Fixpoint connect_loop (candidates : list string) (last_error : option io_error)
    : result ClientError P :=
  match candidates with
  | [] => Err (Connect (default (IoError NotFound "no socket candidates to try") last_error))
  | candidate :: candidates =>
      match connect candidate with
      | Ok stream => Ok stream
      | Err error => connect_loop candidates (Some error)
      end
  end.
Definition connect_first (candidates : list string) : result ClientError P :=
  connect_loop candidates None.
End connecting.

(** * One exchange *)

(** A peer that accepted the connection: how writing and closing fail, what is
    read until it closes, and whether all of it takes longer than the deadline. *)
Record peer := Peer {
  p_write : option io_error;
  p_shutdown : option io_error;
  p_reply : result io_error bytes;
}.

Section client.
Context `{WireJson}.

(** [late] is whether the deadline passes before the exchange is over. *)
Definition transact_with_timeout (connect : string -> result io_error peer) (late : bool)
    (candidates : list string) (request : Request.t) : result ClientError Response.t :=
  match request_to_vec request with
  | None => Err (Serialize "serialization failed")
  | Some payload =>
      if MAX_REQUEST_BYTES <? zlen payload then Err (RequestTooLarge (zlen payload) MAX_REQUEST_BYTES)
      else if late then Err ReplyTimeout
      else match connect_first connect candidates with
           | Err e => Err e
           | Ok stream =>
               match p_write stream with
               | Some e => Err (Write e)
               | None =>
                   match p_shutdown stream with
                   | Some e => Err (ShutdownError e)
                   | None =>
                       match p_reply stream with
                       | Err e => Err (Read e)
                       | Ok sent =>
                           let reply := ztake (MAX_RESPONSE_BYTES + 1) sent in
                           if MAX_RESPONSE_BYTES <? zlen reply then Err ReplyTooLarge
                           else match response_from_slice reply with
                                | Ok response => Ok response
                                | Err m => Err (Serialize m)
                                end
                       end
                   end
               end
           end
  end.

(** * Output *)

(** Lines written so far, and how each further write fails. *)
Record out := Out { o_lines : list text; o_faults : list (option io_error) }.

(** Write one line, treating a closed output pipe as successful completion. *)
Definition write_line (line : text) (o : out) : result ClientError bool * out :=
  match o_faults o with
  | Some e :: rest =>
      (if decide (kind e = BrokenPipe) then Ok false else Err (OutputError e),
       Out (o_lines o) rest)
  | None :: rest => (Ok true, Out (o_lines o ++ [line]) rest)
  | [] => (Ok true, Out (o_lines o ++ [line]) [])
  end.

(** The loops of [render_list_reply] and [render_history_entries]: lines until
    the pipe closes; whether it is still open. *)
Fixpoint write_lines (ls : list text) (o : out) : result ClientError bool * out :=
  match ls with
  | [] => (Ok true, o)
  | l :: ls =>
      match write_line l o with
      | (Ok true, o) => write_lines ls o
      | (Ok false, o) => (Ok false, o)
      | (Err e, o) => (Err e, o)
      end
  end.

Definition discard (r : result ClientError bool * out) : result ClientError unit * out :=
  match r with (Ok _, o) => (Ok tt, o) | (Err e, o) => (Err e, o) end.

Definition render_list_reply (entries : list PendingEntry.t) (o : out)
    : result ClientError unit * out :=
  match entries with
  | [] => discard (write_line (chars "No comments queued.") o)
  | _ => discard (write_lines (render_entry <$> entries) o)
  end.

Definition render_history_reply (history : list HistoryEntry.t) (now : Z) (o : out)
    : result ClientError bool * out :=
  match history with
  | [] => write_line (chars "No posting history recorded.") o
  | _ => write_lines ((fun r => render_history r now) <$> history) o
  end.

(** Render a response whose shape must match the command. *)
Definition render_response (command : Command.t) (entry : option PendingEntry.t)
    (entries : option (list PendingEntry.t)) (history : option (list HistoryEntry.t)) (now : Z)
    (o : out) : result ClientError unit * out :=
  match command, entry, entries, history with
  | Command.Put _ _ _ _, Some entry, None, None => discard (write_line (render_put entry) o)
  | Command.List, None, Some entries, None => render_list_reply entries o
  | Command.Bump id, None, None, None =>
      discard (write_line (chars "Moved " ++ chars id ++ chars " to the head of the queue.") o)
  | Command.Bust id, None, None, None =>
      discard (write_line (chars "Moved " ++ chars id ++ chars " to the tail of the queue.") o)
  | Command.Del id, None, None, None =>
      discard (write_line (chars "Removed " ++ chars id ++ chars " from the queue.") o)
  | Command.Hist _, None, None, Some history => discard (render_history_reply history now o)
  | _, _, _, _ => (Err UnexpectedResponse, o)
  end.

Definition render_reply (command : Command.t) (response : Response.t) (now : Z) (o : out)
    : result ClientError unit * out :=
  match response with
  | Response.Error message => (Err (Daemon message), o)
  | Response.Ok entry entries history _ => render_response command entry entries history now o
  end.

(** * Paged history *)

Section pages.
Context {D : Type} (exchange : Request.t -> D -> result ClientError Response.t * D).

(** The loop of [run_history_pages]; [fuel] bounds the pages a daemon sends. *)
Fixpoint history_pages_loop (fuel : nat) (limit : option Z) (now : Z)
    (cursor : option HistoryCursor.t) (found_records : bool) (d : D) (o : out)
    : option (result ClientError unit) * D * out :=
  let request := Request.Hist (if decide (cursor = None) then limit else None) cursor in
  match exchange request d with
  | (Err e, d) => (Some (Err e), d, o)
  | (Ok (Response.Error message), d) => (Some (Err (Daemon message)), d, o)
  | (Ok (Response.Ok None None (Some history) next_cursor), d) =>
      let '(continue, found, o) :=
        match history with
        | [] => (Ok true, found_records, o)
        | _ => let '(r, o) := render_history_reply history now o in (r, true, o)
        end in
      match continue with
      | Err e => (Some (Err e), d, o)
      | Ok false => (Some (Ok tt), d, o)
      | Ok true =>
          if bool_decide (cursor <> None) && bool_decide (next_cursor = cursor)
          then (Some (Err UnexpectedResponse), d, o)
          else
            match next_cursor with
            | None =>
                if found : bool then (Some (Ok tt), d, o)
                else let '(r, o) := discard (render_history_reply [] now o) in (Some r, d, o)
            | Some _ =>
                match fuel with
                | O => (None, d, o)
                | S fuel => history_pages_loop fuel limit now next_cursor found d o
                end
            end
      end
  | (Ok _, d) => (Some (Err UnexpectedResponse), d, o)
  end.

Definition run_history_pages (fuel : nat) (limit : option Z) (now : Z) (d : D) (o : out)
    : option (result ClientError unit) * D * out :=
  history_pages_loop fuel limit now None false d o.
End pages.

(** * Waiting *)

Record Countdown := MkCountdown { eta : Z; arrived : Z; next_report : Z }.

(** Time elapsed since the latest ETA frame is subtracted, saturating at zero. *)
Definition remaining (c : Countdown) (now : Z) : Z := sat_sub (eta c) (now - arrived c).

(** Write one countdown line and schedule the next cadence tick. *)
Definition report (c : Countdown) (now : Z) (stderr : out) : result ClientError Countdown * out :=
  let rest := remaining c now in
  match write_line (render_remaining rest) stderr with
  | (Err e, stderr) => (Err e, stderr)
  | (Ok _, stderr) =>
      (Ok (MkCountdown (eta c) (arrived c) (now + report_interval rest)), stderr)
  end.

(** Start a countdown on its first frame and refresh its ETA on later frames. *)
Definition observe (c : option Countdown) (eta_seconds now : Z) (stderr : out)
    : result ClientError Countdown * out :=
  match c with
  | Some current =>
      (Ok (MkCountdown eta_seconds now
             (Z.min (next_report current) (now + report_interval eta_seconds))), stderr)
  | None => report (MkCountdown eta_seconds now now) now stderr
  end.

(** The ticks strictly before [until]: a frame that is ready goes first. *)
Fixpoint ticks (fuel : nat) (c : Countdown) (until : Z) (stderr : out)
    : result ClientError Countdown * out :=
  if next_report c <? until then
    match fuel with
    | O => (Ok c, stderr)
    | S fuel =>
        match report c (next_report c) stderr with
        | (Ok c, stderr) => ticks fuel c until stderr
        | (Err e, stderr) => (Err e, stderr)
        end
    end
  else (Ok c, stderr).

Inductive FrameOutcome := Frame (event : AwaitEvent.t) | Ended (bs : bytes).

(** [read_until(b'\n')]: up to and with the first newline. *)
Fixpoint until_newline (b : bytes) : bytes * bytes :=
  match b with
  | [] => ([], [])
  | c :: r => if decide (c = NEWLINE) then ([c], r)
              else let '(l, r) := until_newline r in (c :: l, r)
  end.

(** What the daemon sends before it closes its side, or before reading fails. *)
Record incoming := Incoming { i_bytes : bytes; i_fault : option io_error }.

(** Read and validate one capped newline-delimited event; what is left to read. *)
Definition read_frame (input : incoming) : result ClientError FrameOutcome * incoming :=
  let '(b, rest) := until_newline (ztake (MAX_AWAIT_FRAME_BYTES + 1) (i_bytes input)) in
  let rest := Incoming (rest ++ zdrop (MAX_AWAIT_FRAME_BYTES + 1) (i_bytes input)) (i_fault input) in
  if MAX_AWAIT_FRAME_BYTES <? zlen b then (Err ReplyTooLarge, rest)
  else if decide (last b = Some NEWLINE) then
    match event_from_slice b with
    | Ok event => (Ok (Frame event), rest)
    | Err _ => (Err UnexpectedResponse, rest)
    end
  else match i_fault input with
       | Some e => (Err (Read e), rest)
       | None => (Ok (Ended b), rest)
       end.

(** Classify a stream that ended before its first frame. *)
Definition classify_initial_end (b : bytes) : ClientError :=
  match response_from_slice b with
  | Ok (Response.Error message) => AwaitRejected message
  | Ok (Response.Ok _ _ _ _) => UnexpectedResponse
  | Err _ => NoInitialReply
  end.

(** The loop of [receive].  [input] is what the daemon sends; [times] are the
    times at which the successive reads complete, from time [now]; a read that
    takes longer than the deadline times out. *)
Fixpoint receive (times : list Z) (input : incoming) (now : Z) (deadline : Z) (c : option Countdown)
    (stdout stderr : out) : result ClientError unit * out * out :=
  match times with
  | [] => (Err ReplyTimeout, stdout, stderr)
  | at_ :: times =>
      let until := Z.min at_ (now + deadline) in
      let '(ticked, stderr) :=
        match c with
        | None => (Ok None, stderr)
        | Some c =>
            match ticks (Z.to_nat (until - now)) c until stderr with
            | (Ok c, stderr) => (Ok (Some c), stderr)
            | (Err e, stderr) => (Err e, stderr)
            end
        end in
      match ticked with
      | Err e => (Err e, stdout, stderr)
      | Ok c =>
          if now + deadline <? at_ then (Err ReplyTimeout, stdout, stderr)
          else
            match read_frame input with
            | (Err e, _) => (Err e, stdout, stderr)
            | (Ok (Ended b), _) =>
                (Err (match c with None => classify_initial_end b | Some _ => ConnectionLost end),
                 stdout, stderr)
            | (Ok (Frame (AwaitEvent.Posted comment_url)), _) =>
                let '(r, stdout) := discard (write_line (terminal_safe (chars comment_url)) stdout) in
                (r, stdout, stderr)
            | (Ok (Frame (AwaitEvent.Error message)), _) => (Err (Daemon message), stdout, stderr)
            | (Ok (Frame (AwaitEvent.Waiting eta_seconds)), rest) =>
                match observe c eta_seconds at_ stderr with
                | (Err e, stderr) => (Err e, stdout, stderr)
                | (Ok c, stderr) =>
                    receive times rest at_ AWAIT_IDLE_TIMEOUT_SECS (Some c) stdout stderr
                end
            end
      end
  end.

(** How connecting and sending the request of a wait end. *)
Record wait_peer := WaitPeer {
  wp_write : option io_error;
  wp_shutdown : option io_error;
  wp_late : bool;              (** sending takes longer than the deadline *)
  wp_input : incoming;
  wp_times : list Z;           (** when the successive reads complete *)
}.

(** Wait for a queued comment: countdowns on [stderr], its URL on [stdout].
    [late] is whether connecting takes longer than the deadline. *)
Definition await_with_writers (connect : string -> result io_error wait_peer) (late : bool)
    (candidates : list string) (id : string) (stdout stderr : out)
    : result ClientError unit * out * out :=
  match request_to_vec (Request.Await id) with
  | None => (Err (Serialize "serialization failed"), stdout, stderr)
  | Some b =>
      if MAX_REQUEST_BYTES <? zlen b
      then (Err (RequestTooLarge (zlen b) MAX_REQUEST_BYTES), stdout, stderr)
      else if late then (Err ReplyTimeout, stdout, stderr)
      else match connect_first connect candidates with
           | Err e => (Err e, stdout, stderr)
           | Ok stream =>
               if wp_late stream then (Err ReplyTimeout, stdout, stderr)
               else match wp_write stream, wp_shutdown stream with
                    | Some e, _ => (Err (Write e), stdout, stderr)
                    | None, Some e => (Err (ShutdownError e), stdout, stderr)
                    | None, None =>
                        receive (wp_times stream) (wp_input stream) 0 CLIENT_REPLY_TIMEOUT None
                          stdout stderr
                    end
           end
  end.

(** Execute the parsed command and print the outcome; [exchange] is [transact] on
    the socket candidates and [waiting] the wait for an identifier. *)
Definition run {D : Type} (exchange : Request.t -> D -> result ClientError Response.t * D)
    (waiting : string -> D -> out -> out -> result ClientError unit * D * out * out)
    (fuel : nat) (command : Command.t) (now : Z) (d : D) (stdout stderr : out)
    : option (result ClientError unit) * D * out * out :=
  match command with
  | Command.Await id =>
      let '(r, d, stdout, stderr) := waiting id d stdout stderr in (Some r, d, stdout, stderr)
  | Command.Hist limit =>
      let '(r, d, stdout) := run_history_pages exchange fuel limit now d stdout in
      (r, d, stdout, stderr)
  | _ =>
      match exchange (to_request command) d with
      | (Err e, d) => (Some (Err e), d, stdout, stderr)
      | (Ok response, d) =>
          let '(r, stdout) := render_reply command response now stdout in
          (Some r, d, stdout, stderr)
      end
  end.

(** The exit status of the process after [run]; [eprintln!] panics when stderr cannot be
    written. *)
Definition main {D : Type} (exchange : Request.t -> D -> result ClientError Response.t * D)
    (waiting : string -> D -> out -> out -> result ClientError unit * D * out * out)
    (fuel : nat) (command : Command.t) (now : Z) (d : D) (stdout stderr : out)
    : option Z * D * out * out :=
  match run exchange waiting fuel command now d stdout stderr with
  | (Some (Ok _), d, stdout, stderr) => (Some 0, d, stdout, stderr)
  | (Some (Err e), d, stdout, stderr) =>
      match write_line (chars (client_error_text e)) stderr with
      | (Ok true, stderr) => (Some 1, d, stdout, stderr)
      | (_, stderr) => (Some 101, d, stdout, stderr)
      end
  | (None, d, stdout, stderr) => (None, d, stdout, stderr)
  end.
End client.
