(* ===== verification/Supervisor.v ===== *)
(** Task supervision ([supervisor.rs]): restarting failed tasks with a backoff that
    is reset after a stable run, and the start of the daemon.

    The delays come from the [backon] crate, a parameter here: an iterator built
    from the minimum delay.  Durations are in milliseconds. *)

From S2P Require Import Prelude Text.

Definition BACKOFF_FALLBACK_DELAY : Z := 1000.
Definition STABLE_TASK_RUN : Z := 60000.
(** [ExponentialBuilder::default()] caps the delay before the jitter. *)
Definition BACKOFF_MAX_DELAY : Z := 60000.

Class Backoff := {
  backoff_state : Type;
  (** [ExponentialBuilder::default().with_jitter().with_min_delay(..).without_max_times()] *)
  backoff : Z -> backoff_state;
  next : backoff_state -> option Z * backoff_state;
}.

(** The [n]-th delay of an iterator and the iterator after [n] delays. *)
Fixpoint advance `{Backoff} (n : nat) (s : backoff_state) : backoff_state :=
  match n with O => s | S n => advance n (next s).2 end.
Definition nth_delay `{Backoff} (n : nat) (s : backoff_state) : option Z := (next (advance n s)).1.

(** The documented behaviour: attempts are not limited, the delay starts at the
    minimum and grows up to the cap, and jitter only adds to it. *)
Class BackoffOk `{Backoff} : Prop := {
  backoff_never_ends min n : is_Some (nth_delay n (backoff min));
  backoff_at_least min n d :
    0 <= min -> nth_delay n (backoff min) = Some d -> Z.min min BACKOFF_MAX_DELAY <= d;
}.

(** * One supervised task *)

(** How a run of the task ends for [select!]: it returns [Ok], it returns an error,
    it panics or is cancelled, or the shutdown signal comes first, in which case the
    task ends within the grace period or is aborted. *)
Inductive run_end := Finished | InnerError | JoinError | ShutdownFirst (in_time : bool).

(** A run: how long it lasted, how it ended, and whether the shutdown signal comes
    during the delay before the next run. *)
Record task_run := TaskRun { r_for : Z; r_end : run_end; r_stop : bool }.

(** What [log_task_restart] reports. *)
Record restart := Restart {
  restart_attempt : Z;
  selected_delay : Z;
  stable_run_duration : Z;
  backoff_reset : bool;
}.

(** How supervision ended; [Running] when the runs given are used up. *)
Inductive stopped := Completed | Drained | Aborted | StoppedWaiting | Running.
#[global] Instance stopped_eq_dec : EqDecision stopped.
Proof. solve_decision. Defined.

Section supervise.
Context `{Backoff} (min_delay : Z).

(** Reset the delays after a stable run; whether they were. *)
Definition reset_backoff_after_stable_run (restart_backoff : backoff_state) (run_for : Z)
    : bool * backoff_state :=
  let should_reset := STABLE_TASK_RUN <=? run_for in
  (should_reset, if should_reset then backoff min_delay else restart_backoff).

(** The loop of [supervise_task]: the restarts decided on, how many of them were
    carried out ([spawn_fn] calls), and how it ended. *)
Fixpoint supervise_task (runs : list task_run) (restart_backoff : backoff_state) (attempt : Z)
    : list restart * nat * stopped :=
  match runs with
  | [] => ([], O, Running)
  | run :: runs =>
      match r_end run with
      | ShutdownFirst in_time => ([], O, if in_time then Drained else Aborted)
      | Finished => ([], O, Completed)
      | InnerError | JoinError =>
          let attempt := sat_add attempt 1 in
          let '(backoff_reset, restart_backoff) :=
            reset_backoff_after_stable_run restart_backoff (r_for run) in
          let '(delay, restart_backoff) := next restart_backoff in
          let delay := default BACKOFF_FALLBACK_DELAY delay in
          let logged := Restart attempt delay (r_for run) backoff_reset in
          if r_stop run then ([logged], O, StoppedWaiting)
          else
            let '(logs, spawned, ended) := supervise_task runs restart_backoff attempt in
            (logged :: logs, S spawned, ended)
      end
  end.

(** A task is spawned once before it is supervised. *)
Definition supervised (runs : list task_run) : list restart * nat * stopped :=
  let '(logs, spawned, ended) := supervise_task runs (backoff min_delay) 0 in
  (logs, S spawned, ended).
End supervise.

(** * Reference: the delay of every restart *)

(** Failures are counted from the last stable run; the delay of a restart is the
    one the backoff gives after that many earlier restarts. *)
Fixpoint expected_delays `{Backoff} (min_delay : Z) (since : nat) (durations : list Z) : list Z :=
  match durations with
  | [] => []
  | run_for :: durations =>
      let since := if STABLE_TASK_RUN <=? run_for then O else since in
      default BACKOFF_FALLBACK_DELAY (nth_delay since (backoff min_delay))
      :: expected_delays min_delay (S since) durations
  end.

Section delays.
Context `{Backoff} (min_delay : Z).

Lemma advance_succ n : forall s, advance (S n) s = (next (advance n s)).2.
Proof. induction n as [|n IH]; intros s; [done|]. apply (IH (next s).2). Qed.

Lemma supervise_delays runs : forall since attempt logs spawned ended,
  supervise_task min_delay runs (advance since (backoff min_delay)) attempt = (logs, spawned, ended) ->
  selected_delay <$> logs = expected_delays min_delay since (stable_run_duration <$> logs).
Proof.
  induction runs as [|run runs IH]; intros since attempt logs spawned ended; cbn [supervise_task].
  { by intros [= <- _ _]. }
  destruct (r_end run) as [| | |in_time]; try by intros [= <- _ _].
  all: unfold reset_backoff_after_stable_run;
    set (s := if STABLE_TASK_RUN <=? r_for run then O else since);
    replace (if STABLE_TASK_RUN <=? r_for run then backoff min_delay else advance since (backoff min_delay))
      with (advance s (backoff min_delay)) by (unfold s; by destruct (_ <=? _));
    destruct (next (advance s (backoff min_delay))) as [d st] eqn:Hn;
    assert (Hst : st = advance (S s) (backoff min_delay)) by (by rewrite advance_succ, Hn);
    assert (Hd : nth_delay s (backoff min_delay) = d) by (unfold nth_delay; by rewrite Hn);
    cbn beta iota zeta; destruct (r_stop run).
  1,3: intros [= <- _ _]; cbn [fmap list_fmap expected_delays selected_delay stable_run_duration];
    fold s; by rewrite Hd.
  all: rewrite Hst; destruct (supervise_task _ runs _ _) as [[logs' sp'] en'] eqn:Hr;
    intros [= <- _ _]; cbn [fmap list_fmap expected_delays selected_delay stable_run_duration];
    fold s; rewrite Hd; f_equal; by eapply IH.
Qed.

Lemma supervise_attempts runs : forall s attempt logs spawned ended,
  0 <= attempt -> attempt + zlen runs < U64_MAX ->
  supervise_task min_delay runs s attempt = (logs, spawned, ended) ->
  restart_attempt <$> logs = (fun k => attempt + Z.of_nat k) <$> seq 1 (length logs)
  /\ Forall (fun r => backoff_reset r = (STABLE_TASK_RUN <=? stable_run_duration r)) logs
  /\ (spawned <= length logs)%nat
  /\ (ended = StoppedWaiting -> length logs = S spawned) /\ (ended <> StoppedWaiting -> length logs = spawned).
Proof.
  induction runs as [|run runs IH]; intros s attempt logs spawned ended Hat Hlen; cbn [supervise_task].
  { intros [= <- <- <-]. split_and!; done. }
  rewrite zlen_cons in Hlen. pose proof (zlen_nonneg runs).
  destruct (r_end run) as [| | |in_time];
    try by (intros [= <- <- <-]; split_and!; try done; destruct in_time).
  all: unfold reset_backoff_after_stable_run;
    destruct (next (if STABLE_TASK_RUN <=? r_for run then backoff min_delay else s)) as [d st];
    assert (Hsat : sat_add attempt 1 = attempt + 1) by (unfold sat_add; lia);
    cbn beta iota zeta; rewrite Hsat; destruct (r_stop run).
  1,3: intros [= <- <- <-]; split_and!; try done; by repeat constructor.
  all: destruct (supervise_task _ runs st (attempt + 1)) as [[logs' sp'] en'] eqn:Hr;
    intros [= <- <- <-];
    destruct (IH st (attempt + 1) logs' sp' en') as (Ha & Hf & Hle & Hs1 & Hs2); [lia|lia|done|];
    cbn [length]; split_and!; [|by constructor|lia|intros He; by rewrite (Hs1 He)|intros He; by rewrite (Hs2 He)];
    rewrite fmap_cons, Ha; cbn [seq fmap list_fmap restart_attempt]; f_equal;
    rewrite <- (fmap_S_seq 1), <- list_fmap_compose; apply list_fmap_ext; intros i k _; cbn; lia.
Qed.
End delays.

(** The durations of the failed runs that lead to a restart decision. *)
Fixpoint failures (runs : list task_run) : list Z :=
  match runs with
  | [] => []
  | run :: runs =>
      match r_end run with
      | InnerError | JoinError => r_for run :: (if r_stop run then [] else failures runs)
      | Finished | ShutdownFirst _ => []
      end
  end.

Lemma supervise_failures `{Backoff} min_delay runs : forall s attempt logs spawned ended,
  supervise_task min_delay runs s attempt = (logs, spawned, ended) ->
  stable_run_duration <$> logs = failures runs.
Proof.
  induction runs as [|run runs IH]; intros s attempt logs spawned ended; cbn [supervise_task failures].
  { by intros [= <- _ _]. }
  destruct (r_end run) as [| | |in_time]; try by intros [= <- _ _].
  all: unfold reset_backoff_after_stable_run;
    destruct (next (if STABLE_TASK_RUN <=? r_for run then backoff min_delay else s)) as [d st];
    cbn beta iota zeta; destruct (r_stop run); [by intros [= <- _ _]|];
    destruct (supervise_task _ runs st _) as [[logs' sp'] en'] eqn:Hr; intros [= <- _ _];
    cbn [fmap list_fmap stable_run_duration]; f_equal; by eapply IH.
Qed.

Lemma expected_delays_bound `{Backoff} `{!BackoffOk} min_delay durations : forall since,
  0 <= min_delay ->
  Forall (fun d => Z.min min_delay BACKOFF_MAX_DELAY <= d) (expected_delays min_delay since durations).
Proof.
  induction durations as [|x durations IH]; intros since Hmin; cbn [expected_delays]; constructor; [|by apply IH].
  set (s := if _ <=? _ then O else since). destruct (backoff_never_ends min_delay s) as [d Hd].
  rewrite Hd. cbn [default]. by apply (backoff_at_least min_delay s).
Qed.

(** * Result *)

(** Restarts are paced.  A failed task is restarted after the delay its
    backoff gives for the number of restarts since its last run of a minute or
    more, never less than the configured minimum (up to the cap of the backoff);
    restarts are numbered from one without a gap; a task that finishes, and any
    task once shutdown is signalled, is not started again. *)
Theorem restarts_are_paced `{Backoff} `{!BackoffOk} min_delay runs logs spawned ended :
  0 <= min_delay -> zlen runs < U64_MAX -> supervised min_delay runs = (logs, spawned, ended) ->
  stable_run_duration <$> logs = failures runs
  /\ selected_delay <$> logs = expected_delays min_delay 0 (failures runs)
  /\ Forall (fun r => Z.min min_delay BACKOFF_MAX_DELAY <= selected_delay r) logs
  /\ restart_attempt <$> logs = Z.of_nat <$> seq 1 (length logs)
  /\ spawned = (if decide (ended = StoppedWaiting) then length logs else S (length logs)).
Proof.
  intros Hmin Hlen. unfold supervised.
  destruct (supervise_task min_delay runs (backoff min_delay) 0) as [[logs' sp] en] eqn:Hr.
  intros [= <- <- <-]. pose proof (supervise_failures _ _ _ _ _ _ _ Hr) as Hf.
  pose proof (supervise_delays min_delay runs 0 0 logs' sp en Hr) as Hd. rewrite Hf in Hd.
  destruct (supervise_attempts min_delay runs (backoff min_delay) 0 logs' sp en) as (Ha & _ & _ & Hs1 & Hs2); [lia|lia|exact Hr|].
  split_and!; [done|done| | |].
  - pose proof (expected_delays_bound min_delay (failures runs) 0 Hmin) as Hb. rewrite <- Hd in Hb.
    rewrite Forall_fmap in Hb. exact Hb.
  - rewrite Ha. apply list_fmap_ext. intros i k _. lia.
  - case_decide as He; [by rewrite (Hs1 He)|by rewrite (Hs2 He)].
Qed.
