(* ===== verification/Supervise.v ===== *)
(** Supervision as it runs ([supervisor.rs], [supervise_task], [sleep_or_shutdown], the
    signal task of [run_with_tokens], [supervisor/observability.rs]): two supervisors
    and the task that turns SIGINT and SIGTERM into a shutdown signal, polled in any
    order on a monotonic clock.

    [Supervisor.supervise_task] is the loop over whole runs of a task; here each
    [select!] of it is polled.  A [select!] is polled at once when it is reached, and
    again whenever it is woken; of two branches that are ready it takes either. *)

From S2P Require Import Prelude Text Protocol Disk Recorder Queue Waits Supervisor.

(** Nanoseconds in a millisecond, and the time a task has to stop after a shutdown. *)
Definition MILLIS : Z := 10 ^ 6.
Definition GRACE_MS : Z := 100.

(** What a [JoinHandle] yields: the result of the task, or a panic or cancellation. *)
Inductive task_result := TaskOk | TaskInner (error : string) | TaskJoin (error : string).

(** A poll of a supervisor: the time since the poll before, the task's result if it is
    there, and the branch taken when both are ready. *)
Record sup_poll := SupPoll { u_elapsed : N; u_task : option task_result; u_first : bool }.

(** An unbiased [select!] of two branches: the first, the second, or none yet. *)
Definition select_either (first second take_first : bool) : option bool :=
  match first, second with
  | true, true => Some take_first
  | true, false => Some true
  | false, true => Some false
  | false, false => None
  end.

(** Where a supervisor waits: for the task or a shutdown, for the task to stop within
    the grace period, or for the delay before a restart. *)
Inductive phase :=
| Watching (started_at : Z)
| Draining (set_at : Z)
| Delaying (set_at delay : Z)
| Over (how : stopped).

(** What a supervisor does to the outside: log lines with the kind of the failure,
    samples, restart decisions, new tasks and aborted ones. *)
Inductive sup_event :=
| TaskFailed (task kind error : string)
| Sampled (s : sample)
| Restarting (at_ : Z) (r : restart)
| Spawned (at_ : Z)
| AbortedAt (at_ : Z).

(** Log any failure from a supervised task. *)
Definition log_task_failure (task : string) (r : task_result) : list sup_event :=
  match r with
  | TaskOk => []
  | TaskInner error => [TaskFailed task "inner_error" error]
  | TaskJoin error => [TaskFailed task "join_error" error]
  end.

Section supervise.
Context `{Backoff} `{Timer} (min_delay : Z) (name : string).

Record supervisor := Sup {
  u_phase : phase;
  u_backoff : backoff_state;
  u_attempt : Z;
  u_at : Z;
  u_fresh : bool;   (** the [select!] it is at has not been polled *)
}.

Definition initial (at_ : Z) : supervisor := Sup (Watching at_) (backoff min_delay) 0 at_ true.

(** The instant of a poll. *)
Definition polled_at (s : supervisor) (p : sup_poll) : Z :=
  if u_fresh s then u_at s else later (u_at s) (u_elapsed p).

(** Go on waiting, or reach the next [select!]. *)
Definition stay (now : Z) (s : supervisor) : supervisor :=
  Sup (u_phase s) (u_backoff s) (u_attempt s) now false.
Definition reach (ph : phase) (now : Z) (s : supervisor) : supervisor :=
  Sup ph (u_backoff s) (u_attempt s) now true.

(** A failed task: log it, count it, choose the delay. *)
Definition task_failed (r : task_result) (started_at now : Z) (s : supervisor)
    : list sup_event * supervisor :=
  let attempt := sat_add (u_attempt s) 1 in
  let stable_run_duration := (now - started_at) / MILLIS in
  let '(backoff_reset, restart_backoff) :=
    reset_backoff_after_stable_run min_delay (u_backoff s) stable_run_duration in
  let '(delay, restart_backoff) := next restart_backoff in
  let delay := default BACKOFF_FALLBACK_DELAY delay in
  (log_task_failure name r
     ++ [Sampled (record_task_restart name);
         Restarting now (Restart attempt delay stable_run_duration backoff_reset)],
   Sup (Delaying now delay) restart_backoff attempt now true).

(** [sleep_or_shutdown]: whether the shutdown came, when one of the two is ready. *)
Definition sleep_or_shutdown (set_at delay now : Z) (shutdown take_first : bool) : option bool :=
  negb <$> select_either (ready set_at (delay * MILLIS) now) shutdown take_first.

(** One poll of [supervise_task]. *)
Definition poll_supervisor (shutdown : bool) (p : sup_poll) (s : supervisor)
    : list sup_event * supervisor :=
  let now := polled_at s p in
  match u_phase s with
  | Over _ => ([], s)
  | Watching started_at =>
      match select_either shutdown (bool_decide (is_Some (u_task p))) (u_first p), u_task p with
      | Some true, _ => ([], reach (Draining now) now s)
      | Some false, Some TaskOk => ([], reach (Over Completed) now s)
      | Some false, Some r => task_failed r started_at now s
      | _, _ => ([], stay now s)
      end
  | Draining set_at =>
      match select_either (bool_decide (is_Some (u_task p))) (ready set_at (GRACE_MS * MILLIS) now)
              (u_first p) with
      | Some true => ([], reach (Over Drained) now s)
      | Some false => ([AbortedAt now], reach (Over Aborted) now s)
      | None => ([], stay now s)
      end
  | Delaying set_at delay =>
      match sleep_or_shutdown set_at delay now shutdown (u_first p) with
      | Some true => ([], reach (Over StoppedWaiting) now s)
      | Some false => ([Spawned now], reach (Watching now) now s)
      | None => ([], stay now s)
      end
  end.

(** The polls of a supervisor, each with whether the shutdown was signalled. *)
Fixpoint poll_all (polls : list (bool * sup_poll)) (s : supervisor) : list sup_event * supervisor :=
  match polls with
  | [] => ([], s)
  | (shutdown, p) :: polls =>
      let '(evs, s) := poll_supervisor shutdown p s in
      let '(more, s) := poll_all polls s in
      (evs ++ more, s)
  end.
End supervise.

(** * Signals *)

(** A poll of the task that waits for signals: whether the handlers could be installed,
    and whether a signal has arrived. *)
Record sig_poll := SigPoll {
  g_sigint_installed : bool;
  g_sigterm_installed : bool;
  g_sigint : bool;
  g_sigterm : bool;
}.

Inductive signals := Installing | Listening | Sent.
#[global] Instance signals_eq_dec : EqDecision signals.
Proof. solve_decision. Defined.

(** Whether the shutdown is sent, which a handler that cannot be installed does too. *)
Definition poll_signals (p : sig_poll) (g : signals) : bool * signals :=
  let recv := if g_sigint p || g_sigterm p then (true, Sent) else (false, Listening) in
  match g with
  | Installing =>
      if negb (g_sigint_installed p) then (true, Sent)
      else if negb (g_sigterm_installed p) then (true, Sent)
      else recv
  | Listening => recv
  | Sent => (false, Sent)
  end.

(** * The daemon *)

Section daemon.
Context `{Backoff} `{Timer} (min_delay : Z).

Record daemon := Daemon {
  dm_signals : signals;
  dm_shutdown : bool;
  dm_listener : supervisor;
  dm_worker : supervisor;
}.

(** The part of [run_with_tokens] after the tasks were spawned. *)
Definition started (at_ : Z) : daemon :=
  Daemon Installing false (initial min_delay at_) (initial min_delay at_).

Inductive daemon_poll :=
| PollSignals (p : sig_poll)
| PollListener (p : sup_poll)
| PollWorker (p : sup_poll).

Definition poll_daemon (p : daemon_poll) (d : daemon) : daemon :=
  match p with
  | PollSignals p =>
      let '(sent, g) := poll_signals p (dm_signals d) in
      Daemon g (dm_shutdown d || sent) (dm_listener d) (dm_worker d)
  | PollListener p =>
      Daemon (dm_signals d) (dm_shutdown d)
        (poll_supervisor min_delay "listener" (dm_shutdown d) p (dm_listener d)).2 (dm_worker d)
  | PollWorker p =>
      Daemon (dm_signals d) (dm_shutdown d) (dm_listener d)
        (poll_supervisor min_delay "worker" (dm_shutdown d) p (dm_worker d)).2
  end.
Definition run_daemon (polls : list daemon_poll) (d : daemon) : daemon :=
  foldl (fun d p => poll_daemon p d) d polls.

(** [tokio::join!] is ready when both supervisors are over. *)
Definition over (s : supervisor) : bool := match u_phase s with Over _ => true | _ => false end.
Definition returned (d : daemon) : bool := over (dm_listener d) && over (dm_worker d).
End daemon.

(** * Supervision is the loop over runs *)

Definition restarts_of : list sup_event -> list restart :=
  omap (fun e => match e with Restarting _ r => Some r | _ => None end).
Definition spawns_of : list sup_event -> list Z :=
  omap (fun e => match e with Spawned t => Some t | _ => None end).

(** How a supervisor ends if nothing more happens to it. *)
Definition prospect (ph : phase) : stopped :=
  match ph with
  | Watching _ => Running
  | Draining _ => Drained
  | Delaying _ _ => StoppedWaiting
  | Over how => how
  end.

Lemma restarts_of_app l k : restarts_of (l ++ k) = restarts_of l ++ restarts_of k.
Proof. apply omap_app. Qed.
Lemma spawns_of_app l k : spawns_of (l ++ k) = spawns_of l ++ spawns_of k.
Proof. apply omap_app. Qed.

Section runs.
Context `{Backoff} `{Timer} (min_delay : Z) (name : string).
Abbreviation run_task := (supervise_task min_delay).
Abbreviation run_polls := (poll_all min_delay name).
Abbreviation poll_once := (poll_supervisor min_delay name).

(** What a failure logs, and the state it leaves. *)
Lemma task_failed_spec r started_at now s :
  exists d b,
    next (if STABLE_TASK_RUN <=? (now - started_at) / MILLIS then backoff min_delay else u_backoff s) = (d, b)
    /\ task_failed min_delay name r started_at now s
       = (log_task_failure name r
            ++ [Sampled (record_task_restart name);
                Restarting now (Restart (sat_add (u_attempt s) 1) (default BACKOFF_FALLBACK_DELAY d)
                  ((now - started_at) / MILLIS) (STABLE_TASK_RUN <=? (now - started_at) / MILLIS))],
          Sup (Delaying now (default BACKOFF_FALLBACK_DELAY d)) b (sat_add (u_attempt s) 1) now true).
Proof.
  unfold task_failed, reset_backoff_after_stable_run.
  destruct (next _) as [d b] eqn:Hn. by exists d, b.
Qed.

Lemma failure_log r : restarts_of (log_task_failure name r) = [] /\ spawns_of (log_task_failure name r) = [].
Proof. by destruct r. Qed.

(** The runs behind the polls, from each phase. *)
Definition runs_behind (n : Z) (s : supervisor) (evs : list sup_event) (ph : phase) : Prop :=
  match u_phase s with
  | Watching _ => exists runs, zlen runs <= n
      /\ run_task runs (u_backoff s) (u_attempt s) = (restarts_of evs, length (spawns_of evs), prospect ph)
  | Draining _ => restarts_of evs = [] /\ spawns_of evs = [] /\ (prospect ph = Drained \/ prospect ph = Aborted)
  | Delaying _ _ =>
      restarts_of evs = [] /\ spawns_of evs = [] /\ prospect ph = StoppedWaiting
      \/ exists runs k, zlen runs <= n /\ length (spawns_of evs) = S k
           /\ run_task runs (u_backoff s) (u_attempt s) = (restarts_of evs, k, prospect ph)
  | Over how => restarts_of evs = [] /\ spawns_of evs = [] /\ prospect ph = how
  end.

(** The run that a failure ends. *)
Lemma failed_run n started_at now s d b evs ph :
  next (if STABLE_TASK_RUN <=? (now - started_at) / MILLIS then backoff min_delay else u_backoff s) = (d, b) ->
  0 <= n ->
  runs_behind n (Sup (Delaying now (default BACKOFF_FALLBACK_DELAY d)) b (sat_add (u_attempt s) 1) now true) evs ph ->
  exists runs, zlen runs <= n + 1
    /\ run_task runs (u_backoff s) (u_attempt s)
       = (Restart (sat_add (u_attempt s) 1) (default BACKOFF_FALLBACK_DELAY d)
            ((now - started_at) / MILLIS) (STABLE_TASK_RUN <=? (now - started_at) / MILLIS) :: restarts_of evs,
          length (spawns_of evs), prospect ph).
Proof.
  intros Hn Hpos [(-> & -> & ->)|(runs & k & Hlen & -> & Hrun)].
  - exists [TaskRun ((now - started_at) / MILLIS) InnerError true]. split; [unfold zlen; cbn; lia|].
    cbn [Supervisor.supervise_task r_end r_for r_stop]. unfold reset_backoff_after_stable_run.
    by rewrite Hn.
  - exists (TaskRun ((now - started_at) / MILLIS) InnerError false :: runs). split; [rewrite zlen_cons; lia|].
    cbn [Supervisor.supervise_task r_end r_for r_stop]. unfold reset_backoff_after_stable_run.
    rewrite Hn. cbn beta iota zeta. cbn [u_backoff u_attempt] in Hrun. by rewrite Hrun.
Qed.

Lemma polls_have_runs polls : forall s evs s',
  run_polls polls s = (evs, s') -> runs_behind (zlen polls) s evs (u_phase s').
Proof.
  induction polls as [|[shutdown p] polls IH]; intros s evs s'; cbn [Supervise.poll_all].
  { intros [= <- <-]. unfold runs_behind. destruct (u_phase s); cbn; [|by auto..]. by exists []. }
  destruct (poll_once shutdown p s) as [ev1 s1] eqn:Hp.
  destruct (run_polls polls s1) as [more s2] eqn:Hm. intros [= <- <-]. specialize (IH s1 more s2 Hm).
  pose proof (zlen_nonneg polls) as Hpos. rewrite zlen_cons.
  unfold poll_once in Hp. set (now := polled_at s p) in Hp. unfold runs_behind in *.
  destruct (u_phase s) as [started_at|set_at|set_at delay|how] eqn:Hph.
  - assert (Hstay : ev1 = [] -> s1 = stay now s -> exists runs, zlen runs <= 1 + zlen polls
      /\ run_task runs (u_backoff s) (u_attempt s)
         = (restarts_of (ev1 ++ more), length (spawns_of (ev1 ++ more)), prospect (u_phase s2))).
    { intros -> ->. cbn [stay u_phase app] in IH |- *. rewrite Hph in IH. destruct IH as (runs & Hlen & Hr).
      exists runs. split; [lia|done]. }
    destruct (select_either _ _ _) as [[]|]; [| |injection Hp as <- <-; by apply Hstay].
    + injection Hp as <- <-. cbn [reach u_phase app] in IH |- *. destruct IH as (-> & -> & Hd).
      exists [TaskRun 0 (ShutdownFirst (bool_decide (prospect (u_phase s2) = Drained))) false].
      split; [unfold zlen; cbn; lia|]. cbn. by destruct Hd as [-> | ->].
    + destruct (u_task p) as [[|e|e]|]; [|..|injection Hp as <- <-; by apply Hstay].
      { injection Hp as <- <-. cbn [reach u_phase app] in IH |- *. destruct IH as (-> & -> & ->).
        exists [TaskRun 0 Finished false]. split; [unfold zlen; cbn; lia|done]. }
      all: match type of Hp with task_failed _ _ ?r _ _ _ = _ =>
             destruct (task_failed_spec r started_at now s) as (d & b & Hn & Hf) end;
        rewrite Hf in Hp; injection Hp as <- <-;
        destruct (failed_run (zlen polls) started_at now s d b more (u_phase s2) Hn Hpos IH) as (runs & Hlen & Hr);
        exists runs; (split; [lia|exact Hr]).
  - destruct (select_either _ _ _) as [[]|]; injection Hp as <- <-; cbn [reach stay u_phase] in IH;
      rewrite ?Hph in IH; destruct IH as (Hr & Hsp & Hd); cbn [app]; try (by auto).
    all: split_and!; [done|done|]; rewrite Hd; auto.
  - unfold sleep_or_shutdown in Hp.
    destruct (select_either _ _ _) as [[]|]; cbn [fmap option_fmap option_map negb] in Hp; injection Hp as <- <-;
      cbn [reach stay u_phase u_backoff u_attempt] in IH; rewrite ?Hph in IH; cbn [app].
    + destruct IH as (runs & Hlen & Hr). right. exists runs, (length (spawns_of more)). by split_and!; [lia|..].
    + left. done.
    + destruct IH as [?|(runs & k & Hlen & Hk)]; [by left|right]. exists runs, k. split; [lia|done].
  - injection Hp as <- <-. rewrite Hph in IH. done.
Qed.
End runs.

(** * Restarts wait *)

Section pacing.
Context `{Backoff} `{Timer} `{!TimerOk} (min_delay : Z) (name : string).
Abbreviation run_polls := (poll_all min_delay name).
Abbreviation poll_once := (poll_supervisor min_delay name).

(** The delay is over, for delays that fit the clock. *)
Definition waited (set_at delay at_ : Z) : Prop :=
  set_at + delay * MILLIS < INSTANT_LIMIT -> set_at + delay * MILLIS <= at_.

(** A poll that starts a task ends a delay; one that decides on a restart ends with the
    decision. *)
Lemma poll_events shutdown p s ev s' :
  poll_once shutdown p s = (ev, s') ->
  spawns_of ev = [] /\ (forall set_at delay, u_phase s' = Delaying set_at delay ->
       (ev = [] /\ u_phase s = Delaying set_at delay)
       \/ exists l r, ev = l ++ [Restarting set_at r] /\ selected_delay r = delay)
  \/ exists set_at delay at_, u_phase s = Delaying set_at delay /\ ev = [Spawned at_] /\ waited set_at delay at_
       /\ u_phase s' = Watching at_.
Proof.
  unfold Supervise.poll_supervisor. set (now := polled_at s p).
  destruct (u_phase s) as [started_at|set_at|set_at delay|how] eqn:Hph.
  - destruct (select_either _ _ _) as [[]|]; [by intros [= <- <-]; left| |intros [= <- <-]; left; cbn; by rewrite Hph].
    destruct (u_task p) as [[|e|e]|]; [by intros [= <- <-]; left| | |intros [= <- <-]; left; cbn; by rewrite Hph].
    all: match goal with |- task_failed _ _ ?r _ _ _ = _ -> _ =>
           destruct (task_failed_spec min_delay name r started_at now s) as (d & b & _ & ->) end.
    all: intros [= <- <-]; left; (split; [done|]); intros set_at delay [= <- <-]; right;
      eexists [_; _], _; split; reflexivity.
  - destruct (select_either _ _ _) as [[]|]; intros [= <- <-]; left; cbn; by rewrite ?Hph.
  - unfold sleep_or_shutdown. destruct (ready set_at (delay * MILLIS) now) eqn:Hr.
    2:{ destruct shutdown; intros [= <- <-]; left; cbn; rewrite ?Hph; naive_solver. }
    assert (Hw : waited set_at delay now) by (intros Hlim; by apply ready_late).
    destruct shutdown, (u_first p); intros [= <- <-]; [right|by left|right..]; by exists set_at, delay, now.
  - intros [= <- <-]. left. by rewrite Hph.
Qed.

(** Every task that is started again was decided on a delay before. *)
Lemma spawns_wait polls : forall s evs s' a at_ b,
  run_polls polls s = (evs, s') -> evs = a ++ Spawned at_ :: b ->
  (a = [] /\ exists set_at delay, u_phase s = Delaying set_at delay /\ waited set_at delay at_)
  \/ exists a' t r, a = a' ++ [Restarting t r] /\ waited t (selected_delay r) at_.
Proof.
  induction polls as [|[shutdown p] polls IH]; intros s evs s' a at_ b; cbn [Supervise.poll_all].
  { intros [= <- _]. by destruct a. }
  destruct (poll_once shutdown p s) as [ev1 s1] eqn:Hp.
  destruct (run_polls polls s1) as [more s2] eqn:Hm. intros [= <- <-] Heq.
  destruct (poll_events shutdown p s ev1 s1 Hp) as [[Hno Hdel]|(set_at & delay & t & Hph & -> & Hw & Hph')].
  - assert (Hcut : exists a2, a = ev1 ++ a2 /\ more = a2 ++ Spawned at_ :: b).
    { apply app_eq_app in Heq as [l [[-> Hr]|[-> ->]]]; [|by exists l].
      destruct l as [|e l]; [exists []; by rewrite !app_nil_r; split|].
      injection Hr as <- ->. rewrite spawns_of_app in Hno. by apply app_eq_nil in Hno as [_ ?]. }
    destruct Hcut as (a2 & -> & Hmore).
    destruct (IH s1 more s2 a2 at_ b Hm Hmore) as [(-> & set_at & delay & Hph & Hw)|(a' & t & r & -> & Hw)].
    + rewrite app_nil_r. destruct (Hdel set_at delay Hph) as [[-> Hs]|(l & r & -> & <-)]; [left|right]; eauto 8.
    + right. exists (ev1 ++ a'), t, r. by rewrite app_assoc.
  - destruct a as [|e a].
    + injection Heq as <- _. left. eauto.
    + injection Heq as <- Hmore.
      destruct (IH s1 more s2 a at_ b Hm Hmore) as [(_ & set' & delay' & Hbad & _)|(a' & t' & r & -> & Hw')].
      * congruence.
      * right. by exists (Spawned t :: a'), t', r.
Qed.
End pacing.

(** * Shutdown *)

Section shutdown.
Context `{Backoff} `{!BackoffOk} `{Timer} `{!TimerOk} (min_delay : Z) (name : string).
Hypothesis min_delay_pos : 0 < min_delay.
Abbreviation run_polls := (poll_all min_delay name).
Abbreviation poll_once := (poll_supervisor min_delay name).

(** What holds of a supervisor at all times: its delays come from the backoff, and it
    drains from an instant in the past. *)
Definition regular (s : supervisor) : Prop :=
  (exists k, u_backoff s = advance k (backoff min_delay))
  /\ match u_phase s with Draining set_at => set_at <= u_at s | _ => True end.

(** At most [n] polls away from draining or from its end. *)
Definition closing (n : nat) (s : supervisor) : Prop :=
  match u_phase s with
  | Over _ => True
  | Draining _ => n = O -> u_fresh s = false
  | Watching _ => (2 <= n)%nat
  | Delaying set_at delay => (3 <= n)%nat \/ (1 <= n)%nat /\ u_fresh s = true /\ set_at = u_at s /\ 0 < delay
  end.

Lemma delay_positive k d b : next (advance k (backoff min_delay)) = (d, b) ->
  0 < default BACKOFF_FALLBACK_DELAY d /\ b = advance (S k) (backoff min_delay).
Proof.
  intros Hn. split; [|by rewrite advance_succ, Hn].
  destruct (backoff_never_ends min_delay k) as [x Hx].
  pose proof (backoff_at_least min_delay k x ltac:(lia) Hx) as Hle.
  unfold nth_delay in Hx. rewrite Hn in Hx. cbn in Hx. subst d.
  change (0 < x). unfold BACKOFF_MAX_DELAY in Hle. lia.
Qed.

Lemma failed_regular r started_at now s :
  regular s -> exists ev d b, task_failed min_delay name r started_at now s
      = (ev, Sup (Delaying now d) b (sat_add (u_attempt s) 1) now true)
    /\ 0 < d /\ spawns_of ev = [] /\ exists k, b = advance k (backoff min_delay).
Proof.
  intros [[k Hk] _]. destruct (task_failed_spec min_delay name r started_at now s) as (d & b & Hn & ->).
  rewrite Hk in Hn.
  assert (Hpos : 0 < default BACKOFF_FALLBACK_DELAY d /\ exists k, b = advance k (backoff min_delay)).
  { destruct (_ <=? _).
    - destruct (delay_positive 0 d b Hn). eauto.
    - destruct (delay_positive k d b Hn). eauto. }
  destruct Hpos as [Hpos Hb]. eexists _, _, b. split_and!; [done|done| |done].
  rewrite spawns_of_app. destruct (failure_log name r) as [_ ->]. done.
Qed.

Lemma polled_at_le s p : u_at s <= polled_at s p.
Proof. unfold polled_at. destruct (u_fresh s); [done|apply later_le]. Qed.

Lemma poll_regular shutdown p s ev s' :
  poll_once shutdown p s = (ev, s') -> regular s -> regular s'.
Proof.
  intros Hp Hs. pose proof Hs as [Hk Hd]. pose proof (polled_at_le s p) as Hle. revert Hp.
  unfold Supervise.poll_supervisor. set (now := polled_at s p) in *.
  destruct (u_phase s) as [started_at|set_at|set_at delay|how] eqn:Hph.
  - destruct (select_either _ _ _) as [[]|];
      [intros [= _ <-]; split; [done|cbn; lia]| |intros [= _ <-]; split; [done|cbn; by rewrite Hph]].
    destruct (u_task p) as [[|e|e]|]; [intros [= _ <-]; by split| | |intros [= _ <-]; split; [done|cbn; by rewrite Hph]].
    all: match goal with |- task_failed _ _ ?r _ _ _ = _ -> _ =>
           destruct (failed_regular r started_at now s Hs) as (ev' & d & b & -> & _ & _ & Hb) end.
    all: intros [= _ <-]; by split.
  - destruct (select_either _ _ _) as [[]|]; intros [= _ <-]; split; try done. cbn. rewrite Hph. lia.
  - destruct (sleep_or_shutdown _ _ _ _ _) as [[]|]; intros [= _ <-]; split; try done. cbn. by rewrite Hph.
  - by intros [= _ <-].
Qed.

(** Once the shutdown is signalled every poll brings the end closer, and a task is
    started at most when a delay was over at that moment. *)
Lemma poll_closer n p s ev s' :
  poll_once true p s = (ev, s') -> regular s -> closing (S n) s ->
  closing n s' /\ ((n <= 1)%nat -> spawns_of ev = []) /\ (length (spawns_of ev) <= 1)%nat.
Proof.
  intros Hp Hs Hc. revert Hp. unfold Supervise.poll_supervisor. set (now := polled_at s p) in *. unfold closing in *.
  destruct (u_phase s) as [started_at|set_at|set_at delay|how] eqn:Hph.
  - assert (Hdrain : ([], reach (Draining now) now s) = (ev, s') ->
      closing n s' /\ ((n <= 1)%nat -> spawns_of ev = []) /\ (length (spawns_of ev) <= 1)%nat).
    { intros [= <- <-]. unfold closing. cbn. split_and!; [lia|done|lia]. }
    destruct (u_task p) as [r|]; [rewrite bool_decide_true by done|rewrite bool_decide_false by (by intros [? ?]); exact Hdrain].
    destruct (u_first p); cbn [select_either]; [exact Hdrain|].
    destruct r as [|e|e]; [intros [= <- <-]; cbn; split_and!; [done|done|lia]|..].
    all: match goal with |- task_failed _ _ ?r _ _ _ = _ -> _ =>
           destruct (failed_regular r started_at now s Hs) as (ev' & d & b & -> & Hd & Hsp & _) end.
    all: intros [= <- <-]; rewrite Hsp; cbn; split_and!; [right; split_and!; (done || lia)|done|lia].
  - destruct (select_either _ _ _) as [[]|]; intros [= <- <-]; cbn; rewrite ?Hph; split_and!; (done || lia).
  - unfold sleep_or_shutdown. destruct (ready set_at (delay * MILLIS) now) eqn:Hr; cbn [select_either].
    2:{ intros [= <- <-]. cbn. split_and!; (done || lia). }
    destruct Hc as [Hn|(Hn & Hf & -> & Hpos)].
    + destruct (u_first p); intros [= <- <-]; cbn; split_and!; (done || lia).
    + unfold now, polled_at in Hr. rewrite Hf, ready_takes_time in Hr; [done|unfold MILLIS; lia].
  - intros [= <- <-]. cbn. rewrite Hph. split_and!; (done || lia).
Qed.

Lemma poll_all_app ps qs s :
  run_polls (ps ++ qs) s
  = ((run_polls ps s).1 ++ (run_polls qs (run_polls ps s).2).1, (run_polls qs (run_polls ps s).2).2).
Proof.
  revert s. induction ps as [|[b p] ps IH]; intros s; [cbn; apply surjective_pairing|].
  cbn [app Supervise.poll_all]. destruct (poll_once b p s) as [ev s1]. rewrite IH.
  destruct (run_polls ps s1) as [more s2]. cbn [fst snd]. by rewrite app_assoc.
Qed.

Lemma polls_regular ps : forall s, regular s -> regular (run_polls ps s).2.
Proof.
  induction ps as [|[b p] ps IH]; intros s Hs; [done|]. cbn [Supervise.poll_all].
  destruct (poll_once b p s) as [ev s1] eqn:Hp. apply (poll_regular _ _ _ _ _ Hp) in Hs.
  specialize (IH s1 Hs). by destruct (run_polls ps s1).
Qed.

Abbreviation signalled ps := ((fun p => (true, p)) <$> ps).

(** [n] polls bring a supervisor [n] steps closer; it starts one task at most, and
    none from the middle of its loop. *)
Lemma polls_closer ps : forall s,
  regular s -> closing (length ps) s ->
  closing 0 (run_polls (signalled ps) s).2
  /\ ((length ps <= 2)%nat -> spawns_of (run_polls (signalled ps) s).1 = [])
  /\ ((length ps <= 3)%nat -> (length (spawns_of (run_polls (signalled ps) s).1) <= 1)%nat).
Proof.
  induction ps as [|p ps IH]; intros s Hs Hc; [split_and!; [done|done|cbn; lia]|].
  cbn [fmap list_fmap Supervise.poll_all length].
  destruct (poll_once true p s) as [ev s1] eqn:Hp.
  destruct (poll_closer (length ps) _ _ _ _ Hp Hs Hc) as (Hc1 & Hsp & Hone).
  destruct (IH s1 (poll_regular _ _ _ _ _ Hp Hs) Hc1) as (Hc2 & Hsp2 & _).
  destruct (run_polls (signalled ps) s1) as [more s2]. cbn [fst snd] in *. rewrite spawns_of_app. split_and!.
  - done.
  - intros Hle. rewrite Hsp, Hsp2 by lia. done.
  - intros Hle. rewrite Hsp2, app_nil_r by lia. done.
Qed.

(** The time that passes during polls. *)
Definition elapsed (ps : list sup_poll) : Z := foldr (fun p t => Z.of_N (u_elapsed p) + t) 0 ps.

(** A supervisor that drains ends with the grace period; it starts nothing. *)
Lemma drains_end ps : forall s,
  closing 0 s ->
  spawns_of (run_polls (signalled ps) s).1 = []
  /\ (forall set_at, u_phase s = Draining set_at -> ps <> [] ->
      set_at + (GRACE_MS + 1) * MILLIS <= u_at s + elapsed ps -> over (run_polls (signalled ps) s).2 = true)
  /\ (over s = true -> over (run_polls (signalled ps) s).2 = true).
Proof.
  induction ps as [|p ps IH]; intros s Hc; [done|]. cbn [fmap list_fmap Supervise.poll_all elapsed foldr].
  destruct (poll_once true p s) as [ev s1] eqn:Hp.
  assert (Hstep : closing 0 s1 /\ spawns_of ev = [] /\ (over s = true -> over s1 = true)
    /\ forall set_at, u_phase s = Draining set_at -> over s1 = true
         \/ u_phase s1 = Draining set_at /\ u_at s1 = later (u_at s) (u_elapsed p)
             /\ ready set_at (GRACE_MS * MILLIS) (later (u_at s) (u_elapsed p)) = false).
  { revert Hp. unfold Supervise.poll_supervisor, polled_at, closing, over in *.
    destruct (u_phase s) as [started_at|set_at|set_at delay|how] eqn:Hph; [lia| |lia|].
    - rewrite (Hc eq_refl). destruct (bool_decide _), (ready _ _ _) eqn:Hr; cbn [select_either].
      1: destruct (u_first p).
      all: intros [= <- <-]; cbn; rewrite ?Hph; split_and!; try done; intros x [= <-]; first [by left|by right].
    - intros [= <- <-]. rewrite Hph. split_and!; by (done || intros). }
  destruct Hstep as (Hc1 & Hsp & Hov & Hdr). destruct (IH s1 Hc1) as (Hsp1 & Hdr1 & Hov1).
  destruct (run_polls (signalled ps) s1) as [more s2]. cbn [fst snd] in *. rewrite spawns_of_app, Hsp, Hsp1.
  split_and!; [done| |by auto]. intros set_at Hph _ Htime. fold (elapsed ps) in Htime.
  destruct (Hdr set_at Hph) as [Ho|(Hph1 & Hat & Hr)]; [by auto|].
  assert (Hgrace : later (u_at s) (u_elapsed p) < set_at + (GRACE_MS + 1) * MILLIS).
  { destruct (Z.lt_ge_cases (later (u_at s) (u_elapsed p)) (set_at + (GRACE_MS + 1) * MILLIS)) as [|Hge]; [done|].
    rewrite ready_soon in Hr; [done|]. unfold MILLIS in *. lia. }
  apply (Hdr1 set_at Hph1); unfold later in *; [|lia]. intros ->. cbn in Htime. lia.
Qed.

(** Polls that reach to the end of the grace period after the third. *)
Definition enough (ps : list sup_poll) : Prop :=
  exists a b, ps = a ++ b /\ length a = 3%nat /\ (GRACE_MS + 1) * MILLIS <= elapsed b.

Lemma supervisor_stops ps s :
  regular s -> enough ps ->
  over (run_polls (signalled ps) s).2 = true /\ (length (spawns_of (run_polls (signalled ps) s).1) <= 1)%nat.
Proof.
  intros Hs (a & b & -> & Ha & Hb). rewrite fmap_app, poll_all_app. cbn [fst snd].
  destruct (polls_closer a s Hs) as (Hc & _ & Hone).
  { rewrite Ha. unfold closing. destruct (u_phase s); [lia|lia|by left|done]. }
  pose proof (polls_regular (signalled a) s Hs) as [_ Hd].
  destruct (drains_end b _ Hc) as (Hsp & Hdr & Hov). rewrite spawns_of_app, Hsp, app_nil_r. split; [|by apply Hone; lia].
  set (s1 := (run_polls (signalled a) s).2) in *. unfold closing in Hc.
  destruct (u_phase s1) as [started_at|set_at|set_at delay|how] eqn:Hph; [lia| |lia|by apply Hov; unfold over; rewrite Hph].
  apply (Hdr set_at eq_refl); [|lia]. intros ->. cbn in Hb. unfold GRACE_MS, MILLIS in Hb. lia.
Qed.
End shutdown.

(** ** The daemon as its supervisors *)

Definition signal_polls : list daemon_poll -> list sig_poll :=
  omap (fun p => match p with PollSignals p => Some p | _ => None end).
Definition listener_polls : list daemon_poll -> list sup_poll :=
  omap (fun p => match p with PollListener p => Some p | _ => None end).
Definition worker_polls : list daemon_poll -> list sup_poll :=
  omap (fun p => match p with PollWorker p => Some p | _ => None end).

(** A signal arrives, or a handler cannot be installed when the task starts. *)
Definition told (ps : list sig_poll) : Prop :=
  Exists (fun p => g_sigint p || g_sigterm p = true) ps
  \/ exists p, head ps = Some p /\ g_sigint_installed p && g_sigterm_installed p = false.

Section join.
Context `{Backoff} `{!BackoffOk} `{Timer} `{!TimerOk} (min_delay : Z).
Hypothesis min_delay_pos : 0 < min_delay.
Abbreviation poll_any := (poll_daemon min_delay).
Abbreviation run_any := (run_daemon min_delay).
Abbreviation signalled ps := ((fun p => (true, p)) <$> ps).

Lemma run_daemon_signalled polls : forall d,
  dm_shutdown d = true ->
  dm_listener (run_any polls d)
  = (poll_all min_delay "listener" (signalled (listener_polls polls)) (dm_listener d)).2
  /\ dm_worker (run_any polls d)
     = (poll_all min_delay "worker" (signalled (worker_polls polls)) (dm_worker d)).2.
Proof.
  induction polls as [|p polls IH]; intros d Hd; [done|].
  assert (Hd1 : dm_shutdown (poll_any p d) = true)
    by (destruct p as [p|p|p]; cbn; [destruct (poll_signals p _)| |]; cbn; by rewrite Hd).
  destruct (IH _ Hd1) as [Hl Hw]. cbn [Supervise.run_daemon foldl]. unfold Supervise.run_daemon in Hl, Hw. rewrite Hl, Hw.
  destruct p as [p|p|p]; cbn; rewrite ?Hd.
  - by destruct (poll_signals p _).
  - destruct (poll_supervisor _ _ true p (dm_listener d)) as [ev s]. cbn. by destruct (poll_all _ _ _ s).
  - destruct (poll_supervisor _ _ true p (dm_worker d)) as [ev s]. cbn. by destruct (poll_all _ _ _ s).
Qed.

Lemma run_daemon_regular polls : forall d,
  regular min_delay (dm_listener d) -> regular min_delay (dm_worker d) ->
  regular min_delay (dm_listener (run_any polls d)) /\ regular min_delay (dm_worker (run_any polls d)).
Proof.
  induction polls as [|p polls IH]; intros d Hl Hw; [done|]. apply IH; destruct p as [p|p|p]; cbn; try done.
  all: try by destruct (poll_signals p _).
  all: by eapply poll_regular; [exact min_delay_pos|apply surjective_pairing|].
Qed.

(** The signal task sends the shutdown when it is told to. *)
Lemma poll_signals_sends p g :
  g <> Sent ->
  (poll_signals p g).1 = g_sigint p || g_sigterm p
    || match g with Installing => negb (g_sigint_installed p && g_sigterm_installed p) | _ => false end
  /\ ((poll_signals p g).1 = false -> (poll_signals p g).2 = Listening)
  /\ ((poll_signals p g).2 = Sent -> (poll_signals p g).1 = true).
Proof.
  destruct p as [i t x y], g; try done; intros _; cbn; by destruct i, t, x, y.
Qed.

Lemma told_shuts_down polls : forall d,
  (dm_signals d = Sent -> dm_shutdown d = true) ->
  dm_shutdown d = true
  \/ Exists (fun p => g_sigint p || g_sigterm p = true) (signal_polls polls)
  \/ (dm_signals d = Installing
      /\ exists p, head (signal_polls polls) = Some p /\ g_sigint_installed p && g_sigterm_installed p = false) ->
  dm_shutdown (run_any polls d) = true.
Proof.
  induction polls as [|p polls IH]; intros d Hsent Htold.
  { by destruct Htold as [?|[?%Exists_nil|(_ & p & ? & _)]]. }
  destruct p as [p|p|p]; [|by apply IH..].
  assert (Hd : dm_shutdown d = true -> dm_shutdown (run_any (PollSignals p :: polls) d) = true).
  { intros Hd. apply IH; cbn; destruct (poll_signals p (dm_signals d)); cbn; rewrite Hd; auto. }
  destruct (decide (dm_signals d = Sent)) as [Hg|Hg]; [by auto|].
  destruct (poll_signals_sends p (dm_signals d) Hg) as (Hsend & Hnext & Hback).
  apply IH; cbn; destruct (poll_signals p (dm_signals d)) as [sent g]; cbn in *.
  { intros ->. rewrite Hback by done. by destruct (dm_shutdown d). }
  destruct Htold as [->|[Hex|(Hin & x & [= <-] & Hbad)]]; [by left| |].
  - apply Exists_cons in Hex as [Hp|Hex]; [|by auto]. left. rewrite Hp in Hsend. cbn in Hsend. rewrite Hsend.
    by destruct (dm_shutdown d).
  - left. rewrite Hin, Hbad in Hsend. rewrite Hsend. cbn. rewrite !orb_true_r. done.
Qed.
End join.

(** * Results *)

(** C23: restarts are paced.  However the supervisor of a task is polled, with whatever
    results and signals: restarts are numbered from one without a gap; each waits the
    delay the backoff gives for the number of restarts since the last run of a minute or
    more, which is at least the smaller of the configured minimum and the cap of the
    backoff, one minute; and the task is started again only when that delay has passed
    since the failure was seen. *)
Theorem restarts_wait_their_delay `{Backoff} `{!BackoffOk} `{Timer} `{!TimerOk} min_delay name polls at_ evs s :
  0 <= min_delay -> zlen polls < U64_MAX ->
  poll_all min_delay name polls (initial min_delay at_) = (evs, s) ->
  restart_attempt <$> restarts_of evs = Z.of_nat <$> seq 1 (length (restarts_of evs))
  /\ selected_delay <$> restarts_of evs
     = expected_delays min_delay 0 (stable_run_duration <$> restarts_of evs)
  /\ Forall (fun r => Z.min min_delay BACKOFF_MAX_DELAY <= selected_delay r) (restarts_of evs)
  /\ (forall a t b, evs = a ++ Spawned t :: b ->
      exists a' failed r, a = a' ++ [Restarting failed r] /\ waited failed (selected_delay r) t).
Proof.
  intros Hmin Hlen Hrun. destruct (polls_have_runs min_delay name polls _ _ _ Hrun) as (runs & Hle & Hr).
  cbn [initial u_backoff u_attempt] in Hr. split_and!.
  - destruct (supervise_attempts min_delay runs _ 0 _ _ _ ltac:(lia) ltac:(lia) Hr) as (-> & _).
    apply list_fmap_ext. intros i k _. lia.
  - exact (supervise_delays min_delay runs 0 0 _ _ _ Hr).
  - pose proof (supervise_delays min_delay runs 0 0 _ _ _ Hr) as Hd.
    pose proof (expected_delays_bound min_delay (stable_run_duration <$> restarts_of evs) 0 Hmin) as Hb.
    rewrite <- Hd, Forall_fmap in Hb. exact Hb.
  - intros a t b Hevs.
    by destruct (spawns_wait min_delay name polls _ _ _ a t b Hrun Hevs) as [(_ & ? & ? & ? & _)|].
Qed.

(** A signal stops the daemon.  After SIGINT or SIGTERM arrives, or a handler
    cannot be installed, whatever the listener and the worker do and in whatever order
    things are polled: once each supervisor has been polled three times and again
    101 ms later, both have ended, their tasks finished or aborted, and the daemon
    returns; each supervisor starts at most one more task after the signal, which only
    happens when a restart delay is over at that moment. *)
Theorem signals_stop_the_daemon `{Backoff} `{!BackoffOk} `{Timer} `{!TimerOk} min_delay at_ before after_ d d' :
  0 < min_delay -> told (signal_polls before) ->
  enough (listener_polls after_) -> enough (worker_polls after_) ->
  d = run_daemon min_delay before (started min_delay at_) -> d' = run_daemon min_delay after_ d ->
  returned d' = true
  /\ exists listened worked,
       poll_all min_delay "listener" ((fun p => (true, p)) <$> listener_polls after_) (dm_listener d)
       = (listened, dm_listener d')
       /\ poll_all min_delay "worker" ((fun p => (true, p)) <$> worker_polls after_) (dm_worker d)
          = (worked, dm_worker d')
       /\ (length (spawns_of listened) <= 1)%nat /\ (length (spawns_of worked) <= 1)%nat.
Proof.
  intros Hmin Htold Hl Hw -> ->. set (d := run_daemon min_delay before (started min_delay at_)).
  assert (Hd : dm_shutdown d = true) by (apply told_shuts_down; [done|]; destruct Htold; auto).
  assert (Hinit : regular min_delay (initial min_delay at_)) by (split; [by exists O|done]).
  destruct (run_daemon_regular min_delay Hmin before (started min_delay at_) Hinit Hinit) as [Hrl Hrw]. fold d in Hrl, Hrw.
  destruct (run_daemon_signalled min_delay after_ d Hd) as [El Ew].
  destruct (supervisor_stops min_delay "listener" Hmin _ _ Hrl Hl) as [Ol Sl].
  destruct (supervisor_stops min_delay "worker" Hmin _ _ Hrw Hw) as [Ow Sw].
  split; [unfold returned; by rewrite El, Ew, Ol, Ow|].
  eexists _, _. rewrite El, Ew. split_and!; [apply surjective_pairing|apply surjective_pairing|done|done].
Qed.
