(* ===== verification/Socket.v ===== *)
(** Preparing the listening socket ([listener.rs]: [prepare_listener] and
    [create_socket_parent]) and accepting connections ([run_listener]).

    The socket is bound under a temporary name, restricted and renamed into place.
    As for the store, every system call may fail or be the point at which the
    process dies.  A location is the list of a path's components; [..] and symbolic
    links are not resolved. *)

From S2P Require Import Prelude Text Args Disk Supervisor.

(** * The file system around the socket *)

Inductive fnode :=
| FDir (mode : Z)
| FSocket (mode : Z)
| FOther (mode : Z).
#[global] Instance fnode_eq_dec : EqDecision fnode.
Proof. solve_decision. Defined.

Abbreviation location := (list string).
Abbreviation tree := (gmap location fnode).

Record setup := Setup {
  s_tree : tree;
  s_faults : list (option fault);
  s_uuids : nat;
}.

(** [anyhow::Error]: a message, or an I/O error with the context it was given. *)
Inductive setup_error :=
| Message (m : string)
| InContext (context : string) (e : io_error).

(** The result of a call sequence; [None] when the process died in it. *)
Definition SM (A : Type) : Type := setup -> option (result setup_error A) * setup.

Definition sret {A} (a : A) : SM A := fun s => (Some (Ok a), s).
Definition sthrow {A} (e : setup_error) : SM A := fun s => (Some (Err e), s).
Definition sbind {A B} (m : SM A) (k : A -> SM B) : SM B := fun s =>
  match m s with
  | (Some (Ok a), s) => k a s
  | (Some (Err e), s) => (Some (Err e), s)
  | (None, s) => (None, s)
  end.

Declare Scope setup_scope.
Delimit Scope setup_scope with setup.
Notation "'do!' x := m 'in' k" := (sbind m (fun x => k))
  (at level 10, x name, m at level 100, k at level 200) : setup_scope.
Open Scope setup_scope.

(** One system call; its I/O result. *)
Definition scall (run : tree -> result io_error tree) : SM (result io_error unit) := fun s =>
  let go fs :=
    match run (s_tree s) with
    | Ok t => (Some (Ok (Ok tt)), Setup t fs (s_uuids s))
    | Err e => (Some (Ok (Err e)), Setup (s_tree s) fs (s_uuids s))
    end in
  match s_faults s with
  | [] => go []
  | None :: fs => go fs
  | Some (Fail e _) :: fs => (Some (Ok (Err e)), Setup (s_tree s) fs (s_uuids s))
  | Some (Crash _) :: fs => (None, Setup (s_tree s) fs (s_uuids s))
  end.

(** [.with_context(..)?]. *)
Definition with_context (context : string) (m : SM (result io_error unit)) : SM unit :=
  do! r := m in
  match r with Ok _ => sret tt | Err e => sthrow (InContext context e) end.

Definition suuid `{Platform} : SM string := fun s =>
  (Some (Ok (new_v4 (s_uuids s))), Setup (s_tree s) (s_faults s) (S (s_uuids s))).

(** ** System calls *)

(** The directory that holds a location. *)
Definition holder (l : location) : location := removelast l.

Section calls.
(** The process's file mode creation mask. *)
Context (umask : Z).

Definition new_mode : Z := Z.land 511 (Z.lnot umask).   (* 0o777 & !umask *)

(** Create a node under a name that is free, in a directory. *)
Definition make (l : location) (taken : ErrorKind) (n : fnode) (t : tree) : result io_error tree :=
  match t !! l, t !! holder l with
  | Some _, _ => Err (os_error taken)
  | None, None => Err (os_error NotFound)
  | None, Some (FDir _) => Ok (<[l := n]> t)
  | None, Some _ => Err (os_error NotADirectory)
  end.

Definition create_dir (l : location) : SM (result io_error unit) :=
  scall (make l AlreadyExists (FDir new_mode)).
(** [UnixListener::bind]. *)
Definition bind_socket (l : location) : SM (result io_error unit) :=
  scall (make l AddrInUse (FSocket new_mode)).

Definition set_mode (mode : Z) (n : fnode) : fnode :=
  match n with
  | FDir _ => FDir mode
  | FSocket _ => FSocket mode
  | FOther _ => FOther mode
  end.
Definition set_permissions (l : location) (mode : Z) : SM (result io_error unit) :=
  scall (fun t => match t !! l with
    | Some n => Ok (<[l := set_mode mode n]> t)
    | None => Err (os_error NotFound)
    end).

(** [fs::rename] of a socket. *)
Definition rename_socket (from to : location) : SM (result io_error unit) :=
  scall (fun t => match t !! from, t !! to with
    | None, _ => Err (os_error NotFound)
    | Some _, Some (FDir _) => Err (os_error IsADirectory)
    | Some n, _ => Ok (<[to := n]> (delete from t))
    end).
Definition unlink (l : location) : SM (result io_error unit) :=
  scall (fun t => match t !! l with
    | None => Err (os_error NotFound)
    | Some (FDir _) => Err (os_error IsADirectory)
    | Some _ => Ok (delete l t)
    end).

(** ** Paths *)

(** [Path::components]: the root first for an absolute path; a leading [.] of a
    relative path is kept. *)
Definition path_components (p : string) : list string :=
  (if is_absolute p then ["/"]
   else match split_slash (bytes_of p) with
        | part :: _ => if decide (part = bytes_of ".") then ["."] else []
        | [] => []
        end) ++ (string_of <$> components p).

(** [Path::parent]: all but the last component, unless that is the root. *)
Definition parent (cs : list string) : option (list string) :=
  match last cs with
  | None => None
  | Some c => if decide (c = "/") then None else Some (removelast cs)
  end.
(** [Path::file_name]: the last component when it is a name. *)
Definition socket_name (cs : list string) : option string :=
  match last cs with
  | None => None
  | Some c => if decide (c = "/" \/ c = "." \/ c = "..") then None else Some c
  end.

(** Where a path leads: the root is the location ["/"], the working directory []. *)
Definition locate (cs : list string) : location := filter (fun c => c <> ".") cs.

(** ** The code *)

Definition SOCKET_MODE : Z := 432.         (* 0o660 *)
Definition SOCKET_PARENT_MODE : Z := 448.  (* 0o700 *)

Definition shown (cs : list string) : string := String.concat "/" cs.

(** Create missing socket-parent components without changing existing modes. *)
Fixpoint create_parents (component_path rest : list string) : SM unit :=
  match rest with
  | [] => sret tt
  | c :: rest =>
      let component_path := component_path ++ [c] in
      do! r := create_dir (locate component_path) in
      do! created_by_this_process :=
        (match r with
         | Ok _ => sret true
         | Err e =>
             if decide (kind e = AlreadyExists) then sret false
             else sthrow (InContext ("creating socket directory " +:+ shown component_path) e)
         end) in
      do! _ :=
        (if created_by_this_process : bool then
           with_context ("setting permissions on socket directory " +:+ shown component_path)
             (set_permissions (locate component_path) SOCKET_PARENT_MODE)
         else sret tt) in
      create_parents component_path rest
  end.
Definition create_socket_parent (parent : list string) : SM unit := create_parents [] parent.

(** Prepare a Unix domain socket for the listener. *)
Definition prepare_listener `{Platform} (path : list string) : SM unit :=
  match parent path with
  | None => sthrow (Message "socket path missing parent")
  | Some parent =>
      do! _ := (if decide (parent = []) then sret tt else create_socket_parent parent) in
      match socket_name path with
      | None => sthrow (Message "socket path missing file name")
      | Some file_name =>
          do! uuid := suuid in
          let tmp := parent ++ ["." +:+ file_name +:+ "." +:+ uuid] in
          do! _ := with_context ("binding to temp socket " +:+ shown tmp) (bind_socket (locate tmp)) in
          do! _ := with_context ("setting permissions on " +:+ shown tmp)
                     (set_permissions (locate tmp) SOCKET_MODE) in
          do! renamed := rename_socket (locate tmp) (locate path) in
          match renamed with
          | Err e =>
              do! _ := unlink (locate tmp) in
              sthrow (InContext ("renaming socket " +:+ shown tmp +:+ " -> " +:+ shown path) e)
          | Ok _ =>
              with_context ("setting permissions on " +:+ shown path)
                (set_permissions (locate path) SOCKET_MODE)
          end
      end
  end.
End calls.

(** * Runs *)

(** Every run of [m] from [t] ends in [Q]; without I/O faults when [quiet]. *)
Definition sruns {A} (quiet : bool) (m : SM A)
    (Q : option (result setup_error A) -> tree -> Prop) (t : tree) : Prop :=
  forall fs u, (quiet = true -> fs = []) ->
    Q (m (Setup t fs u)).1 (s_tree (m (Setup t fs u)).2)
    /\ (quiet = true -> s_faults (m (Setup t fs u)).2 = []).

Section runs.
Context {A B : Type} (quiet : bool).

Lemma sruns_ret (a : A) (Q : option (result setup_error A) -> tree -> Prop) (t : tree) :
  Q (Some (Ok a)) t -> sruns quiet (sret a) Q t.
Proof. by intros Hq fs u Hfs. Qed.
Lemma sruns_throw (e : setup_error) (Q : option (result setup_error A) -> tree -> Prop) (t : tree) :
  Q (Some (Err e)) t -> sruns quiet (sthrow e) Q t.
Proof. by intros Hq fs u Hfs. Qed.

Lemma sruns_bind (m : SM A) (k : A -> SM B) (Q : option (result setup_error B) -> tree -> Prop) (t : tree) :
  sruns quiet m (fun o t' => match o with
    | Some (Ok a) => sruns quiet (k a) Q t'
    | Some (Err e) => Q (Some (Err e)) t'
    | None => Q None t'
    end) t -> sruns quiet (sbind m k) Q t.
Proof.
  intros Hm fs u Hfs. destruct (Hm fs u Hfs) as [Ho Hf]. unfold sbind.
  destruct (m (Setup t fs u)) as [[[e|a]|] [t' fs' u']]; cbn [fst snd s_tree s_faults] in *;
    [by split| |by split]. by apply (Ho fs' u').
Qed.

Lemma sruns_mono (m : SM A) (P Q : option (result setup_error A) -> tree -> Prop) (t : tree) :
  sruns quiet m P t -> (forall o t', P o t' -> Q o t') -> sruns quiet m Q t.
Proof. intros Hm HPQ fs u Hfs. destruct (Hm fs u Hfs) as [Ho Hf]. split; [by apply HPQ|done]. Qed.

Lemma sruns_scall (run : tree -> result io_error tree) (Q : option (result setup_error (result io_error unit)) -> tree -> Prop) (t : tree) :
  (forall t', run t = Ok t' -> Q (Some (Ok (Ok tt))) t') ->
  (forall e, run t = Err e \/ quiet = false -> Q (Some (Ok (Err e))) t) ->
  (quiet = false -> Q None t) -> sruns quiet (scall run) Q t.
Proof.
  intros Hok Herr Hdie fs u Hfs. unfold scall. cbn [s_tree s_faults s_uuids].
  assert (Hgo : forall fs', (quiet = true -> fs' = []) ->
    let r := match run t with
             | Ok t' => (Some (Ok (Ok tt)), Setup t' fs' u)
             | Err e => (Some (Ok (Err e)), Setup t fs' u)
             end in Q r.1 (s_tree r.2) /\ (quiet = true -> s_faults r.2 = [])).
  { intros fs' Hfs'. cbn zeta. destruct (run t) as [e|t'] eqn:Hr; cbn [fst snd s_tree s_faults]; auto. }
  assert (Hq : fs <> [] -> quiet = false) by (intros Hne; destruct quiet; [by rewrite Hfs in Hne|done]).
  destruct fs as [|[[e n|n]|] fs]; [by apply Hgo| | |apply Hgo; intros Hqt; by rewrite Hq in Hqt].
  - cbn [fst snd s_tree s_faults]. split; [apply Herr; right; by apply Hq|intros Hqt; by rewrite Hq in Hqt].
  - cbn [fst snd s_tree s_faults]. split; [apply Hdie; by apply Hq|intros Hqt; by rewrite Hq in Hqt].
Qed.

Lemma sruns_context (context : string) (m : SM (result io_error unit)) (Q : option (result setup_error unit) -> tree -> Prop) (t : tree) :
  sruns quiet m (fun o t' => match o with
    | Some (Ok (Ok _)) => Q (Some (Ok tt)) t'
    | Some (Ok (Err e)) => Q (Some (Err (InContext context e))) t'
    | Some (Err e) => Q (Some (Err e)) t'
    | None => Q None t'
    end) t -> sruns quiet (with_context context m) Q t.
Proof.
  intros Hm fs u Hfs. destruct (Hm fs u Hfs) as [Ho Hf]. unfold with_context, sbind.
  destruct (m (Setup t fs u)) as [[[e|[e|[]]]|] s']; by split.
Qed.
End runs.

Lemma sruns_uuid {B} `{Platform} (quiet : bool) (k : string -> SM B)
    (Q : option (result setup_error B) -> tree -> Prop) (t : tree) :
  (forall u, sruns quiet (k (new_v4 u)) Q t) -> sruns quiet (sbind suuid k) Q t.
Proof. intros Hk fs u Hfs. by apply (Hk u). Qed.

(** * The socket directory *)

Section socket.
Context `{Platform} (umask : Z).

(** A directory on the way to the socket. *)
Definition ancestor (par : list string) (l : location) : Prop :=
  exists p1 p2, par = p1 ++ p2 /\ l = locate p1.

(** Nothing differs except for missing directories on the way to the socket, which
    were created with the mode [0o700]. *)
Definition restricted (par : list string) (t0 t : tree) (l : location) : Prop :=
  t !! l = t0 !! l
  \/ t0 !! l = None /\ ancestor par l /\ t !! l = Some (FDir SOCKET_PARENT_MODE).
(** The same, when the process stopped before it restricted the last one. *)
Definition created (par : list string) (t0 t : tree) (l : location) : Prop :=
  restricted par t0 t l
  \/ t0 !! l = None /\ ancestor par l /\ t !! l = Some (FDir (new_mode umask)).

Lemma restricted_created (par : list string) (t0 t : tree) l : restricted par t0 t l -> created par t0 t l.
Proof. by left. Qed.

Lemma restricted_insert (par : list string) (t0 t : tree) (l : location) (n : fnode) (k : location) :
  (forall l, restricted par t0 t l) -> t !! l = None -> ancestor par l ->
  (n = FDir SOCKET_PARENT_MODE -> restricted par t0 (<[l := n]> t) k)
  /\ (n = FDir (new_mode umask) -> created par t0 (<[l := n]> t) k).
Proof.
  intros Hr Hl Ha. assert (H0 : t0 !! l = None)
    by (destruct (Hr l) as [Heq|(? & _)]; [by rewrite <- Heq|done]).
  destruct (decide (k = l)) as [->|Hk].
  - split; intros ->; [right|right]; by rewrite lookup_insert_eq.
  - assert (Hres : restricted par t0 (<[l := n]> t) k)
      by (unfold restricted; rewrite lookup_insert_ne by done; apply Hr).
    split; [done|by left].
Qed.

Lemma create_parents_runs (quiet : bool) (par : list string) (t0 : tree) (rest : list string) :
  forall (done_ : list string) (t : tree),
  par = done_ ++ rest -> (forall l, restricted par t0 t l) ->
  sruns quiet (create_parents umask done_ rest)
    (fun o t' => (forall l, created par t0 t' l)
                 /\ (o = Some (Ok tt) -> forall l, restricted par t0 t' l)) t.
Proof.
  induction rest as [|c rest IH]; intros done_ t Hpar Hr; cbn [create_parents]; cbn zeta.
  { apply sruns_ret. split; [intros l; by apply restricted_created|done]. }
  assert (Hkeep : forall o : option (result setup_error unit), o <> Some (Ok tt) -> (forall l, created par t0 t l)
    /\ (o = Some (Ok tt) -> forall l, restricted par t0 t l)) by (intros o Ho; split; [by left|done]).
  assert (Hpar' : par = (done_ ++ [c]) ++ rest) by (by rewrite <- app_assoc).
  set (l := locate (done_ ++ [c])). apply sruns_bind, sruns_scall.
  - intros t' Hmk. unfold make in Hmk.
    destruct (t !! l) as [?|] eqn:Hl; [done|].
    assert (t' = <[l := FDir (new_mode umask)]> t) as ->
      by (destruct (t !! holder l) as [[]|]; congruence).
    assert (Ha : ancestor par l) by (by exists (done_ ++ [c]), rest).
    apply sruns_bind, sruns_ret, sruns_bind, sruns_context.
    assert (Hmk' : forall o : option (result setup_error unit), o <> Some (Ok tt) ->
      (forall k, created par t0 (<[l := FDir (new_mode umask)]> t) k)
      /\ (o = Some (Ok tt) -> forall k, restricted par t0 (<[l := FDir (new_mode umask)]> t) k)).
    { intros o Ho. split; [|done]. intros k. by apply (restricted_insert par t0 t l _ k Hr Hl Ha). }
    apply sruns_scall; [|intros; by apply Hmk'|intros; by apply Hmk'].
    intros t' Hset. rewrite lookup_insert_eq, insert_insert_eq in Hset.
    cbn [set_mode] in Hset. injection Hset as <-.
    apply IH; [done|]. intros k. by apply (restricted_insert par t0 t l _ k Hr Hl Ha).
  - intros e _. apply sruns_bind. destruct (decide (kind e = AlreadyExists)).
    + apply sruns_ret, sruns_bind, sruns_ret. by apply IH.
    + apply sruns_throw. by apply Hkeep.
  - intros _. by apply Hkeep.
Qed.

(** ** The whole preparation *)

(** The temporary socket drawn with UUID [u]. *)
Definition tmp_socket (par : list string) (file_name : string) (u : nat) : location :=
  locate (par ++ ["." +:+ file_name +:+ "." +:+ new_v4 u]).

Lemma locate_snoc (par : list string) (c : string) : c <> "." -> locate (par ++ [c]) = locate par ++ [c].
Proof. intros Hc. unfold locate. by rewrite filter_app, filter_cons, decide_True. Qed.

Lemma tmp_name (file_name : string) (u : nat) :
  file_name <> "" -> "." +:+ file_name +:+ "." +:+ new_v4 u <> "."
  /\ "." +:+ file_name +:+ "." +:+ new_v4 u <> file_name.
Proof.
  intros Hn. split.
  - destruct file_name; [done|]. by intros [=].
  - intros Heq. apply (f_equal (length ∘ bytes_of)) in Heq. unfold compose in Heq.
    rewrite !bytes_of_app, !length_app in Heq. change (length (bytes_of ".")) with 1%nat in Heq. lia.
Qed.

Lemma locate_length (l1 l2 : list string) : (length (locate l1) <= length (locate (l1 ++ l2)))%nat.
Proof. unfold locate. rewrite filter_app, length_app. lia. Qed.

Lemma ancestor_shorter (par : list string) (l : location) :
  ancestor par l -> (length l <= length (locate par))%nat.
Proof. intros (p1 & p2 & -> & ->). apply locate_length. Qed.

Context (par : list string) (file_name : string) (Hname : file_name <> "" /\ file_name <> ".").
Abbreviation here := (locate (par ++ [file_name])).

Lemma places (u : nat) :
  here <> tmp_socket par file_name u /\ ~ ancestor par here /\ ~ ancestor par (tmp_socket par file_name u).
Proof.
  destruct Hname as [Hn1 Hn2]. destruct (tmp_name file_name u Hn1) as [Ht1 Ht2].
  unfold tmp_socket. rewrite !locate_snoc by done. split_and!.
  - intros [_ Heq]%app_inj_tail. congruence.
  - intros Ha%ancestor_shorter. rewrite length_app in Ha. cbn in Ha. lia.
  - intros Ha%ancestor_shorter. rewrite length_app in Ha. cbn in Ha. lia.
Qed.

(** What a run leaves, from the tree [t0]. *)
Definition prepared (quiet : bool) (t0 : tree) (o : option (result setup_error unit)) (t : tree) : Prop :=
  exists u,
    (forall l, l <> here -> l <> tmp_socket par file_name u ->
       created par t0 t l /\ (o = Some (Ok tt) -> restricted par t0 t l))
    /\ (t !! here = t0 !! here \/ t !! here = Some (FSocket SOCKET_MODE))
    /\ (t !! tmp_socket par file_name u = t0 !! tmp_socket par file_name u
        \/ o <> Some (Ok tt) /\ quiet = false /\ t0 !! tmp_socket par file_name u = None
           /\ exists mode, t !! tmp_socket par file_name u = Some (FSocket mode))
    /\ (o = Some (Ok tt) -> t !! here = Some (FSocket SOCKET_MODE)
        /\ t !! tmp_socket par file_name u = None).

Lemma untouched (quiet : bool) (t0 t : tree) (o : option (result setup_error unit)) :
  (forall l, created par t0 t l) -> o <> Some (Ok tt) -> prepared quiet t0 o t.
Proof.
  intros Hc Ho. exists 0%nat. destruct (places 0) as (_ & Hh & Ht).
  assert (Hsame : forall l, ~ ancestor par l -> t !! l = t0 !! l).
  { intros l Hl. destruct (Hc l) as [[?|(_ & ? & _)]|(_ & ? & _)]; done. }
  split_and!; [|left; by apply Hsame|left; by apply Hsame|done]. intros l _ _. by split.
Qed.

(** States of the preparation after the socket directory was made. *)
Lemma prepare_from_parents (quiet : bool) (t0 t : tree) (s1 s2 s3 s4 : string) (u : nat) :
  (forall l, restricted par t0 t l) ->
  sruns quiet
    (do! _ := with_context s1 (bind_socket umask (tmp_socket par file_name u)) in
     do! _ := with_context s2 (set_permissions (tmp_socket par file_name u) SOCKET_MODE) in
     do! renamed := rename_socket (tmp_socket par file_name u) here in
     match renamed with
     | Err e => do! _ := unlink (tmp_socket par file_name u) in sthrow (InContext s3 e)
     | Ok _ => with_context s4 (set_permissions here SOCKET_MODE)
     end) (prepared quiet t0) t.
Proof.
  intros Hr. set (tmp := tmp_socket par file_name u).
  destruct (places u) as (Hne & Hh & Ht). fold tmp in Hne, Ht.
  assert (Hsame : forall l, ~ ancestor par l -> t !! l = t0 !! l).
  { intros l Hl. destruct (Hr l) as [?|(_ & ? & _)]; done. }
  assert (Hcr : forall l, created par t0 t l) by (intros l; by apply restricted_created).
  apply sruns_bind, sruns_context, sruns_scall;
    [|intros; by apply untouched|intros; by apply untouched].
  intros t1 Hmk. unfold make in Hmk. destruct (t !! tmp) as [?|] eqn:Htmp; [done|].
  assert (t1 = <[tmp := FSocket (new_mode umask)]> t) as -> by (destruct (t !! holder tmp) as [[]|]; congruence).
  assert (H0 : t0 !! tmp = None) by (by rewrite <- Hsame).
  (* the temporary socket is bound and the process stops *)
  assert (Hbound : forall mode o, quiet = false -> o <> Some (Ok tt) ->
    prepared quiet t0 o (<[tmp := FSocket mode]> t)).
  { intros mode o Hq Ho. exists u. fold tmp. split_and!; [| | |done].
    - intros l Hl1 Hl2. unfold created, restricted. rewrite lookup_insert_ne by done.
      split; [apply Hcr|done].
    - left. rewrite lookup_insert_ne by done. by apply Hsame.
    - right. split_and!; try done. exists mode. by rewrite lookup_insert_eq. }
  apply sruns_bind, sruns_context, sruns_scall; rewrite ?lookup_insert_eq.
  2:{ intros e [He|Hq]; [done|]. by apply Hbound. }
  2:{ intros Hq. by apply Hbound. }
  intros t2 Hset. cbn [set_mode] in Hset. injection Hset as <-. rewrite insert_insert_eq.
  assert (Hdone : forall o, prepared quiet t0 o (<[here := FSocket SOCKET_MODE]> t)).
  { intros o. exists u. fold tmp. split_and!.
    - intros l Hl1 Hl2. unfold created, restricted. rewrite lookup_insert_ne by done.
      split; [apply Hcr|intros _; apply Hr].
    - right. by rewrite lookup_insert_eq.
    - left. rewrite lookup_insert_ne by done. by rewrite Htmp.
    - intros _. rewrite lookup_insert_eq, lookup_insert_ne by done. done. }
  apply sruns_bind, sruns_scall; rewrite ?lookup_insert_eq.
  - intros t3 Hren. rewrite lookup_insert_ne in Hren by done.
    assert (t3 = <[here := FSocket SOCKET_MODE]> t) as ->.
    { rewrite delete_insert_id in Hren by done. destruct (t !! here) as [[]|]; congruence. }
    apply sruns_context, sruns_scall; [|intros; apply Hdone|intros; apply Hdone].
    intros t4 Hset. rewrite lookup_insert_eq, insert_insert_eq in Hset. injection Hset as <-. apply Hdone.
  - intros e _. apply sruns_bind, sruns_scall; rewrite ?lookup_insert_eq.
    + intros t3 [= <-]. rewrite delete_insert_id by done. apply sruns_throw. by apply untouched.
    + intros e' [He'|Hq]; [done|]. apply sruns_throw. by apply Hbound.
    + intros Hq. by apply Hbound.
  - intros Hq. by apply Hbound.
Qed.

Lemma path_split (p : list string) (name : string) (path : list string) :
  parent path = Some p -> socket_name path = Some name -> path = p ++ [name].
Proof.
  unfold parent, socket_name. intros Hp Hf. destruct (last path) as [c|] eqn:Hl; [|done].
  repeat case_decide; try done. injection Hp as <-. injection Hf as <-.
  apply last_Some in Hl as [l ->]. by rewrite removelast_last.
Qed.

Lemma prepare_listener_runs (quiet : bool) (t0 : tree) (path : list string) :
  parent path = Some par -> socket_name path = Some file_name ->
  sruns quiet (prepare_listener umask path) (prepared quiet t0) t0.
Proof.
  intros Hp Hf. assert (Hpath : path = par ++ [file_name]) by by apply path_split.
  unfold prepare_listener. rewrite Hp, Hf, Hpath. apply sruns_bind.
  assert (Hstart : forall l, restricted par t0 t0 l) by by left.
  case_decide.
  - apply sruns_ret, sruns_uuid. intros u. by apply prepare_from_parents.
  - eapply sruns_mono; [by apply (create_parents_runs quiet par t0 par [])|].
    intros [[e|[]]|] t [Hc Hr]; [by apply untouched| |by apply untouched].
    apply sruns_uuid. intros u. by apply prepare_from_parents, Hr.
Qed.
End socket.

(** * Accepting connections *)

(** What [select!] brings to the accept loop: a connection, a failed accept (and
    whether the shutdown signal comes during the delay after it), or shutdown. *)
Inductive accept_event := Connected | AcceptFailed (stop : bool) | Stopping.

Section accept.
Context `{Backoff} (min_delay : Z).

(** The loop of [run_listener]: how many connections were handed to a task, the
    delays after failed accepts, and whether it ended. *)
Fixpoint accept_loop (events : list accept_event) (accept_backoff : backoff_state)
    : nat * list Z * bool :=
  match events with
  | [] => (O, [], false)
  | Connected :: events =>
      let '(handled, delays, ended) := accept_loop events (backoff min_delay) in
      (S handled, delays, ended)
  | AcceptFailed stop :: events =>
      let '(delay, accept_backoff) := next accept_backoff in
      let delay := default BACKOFF_FALLBACK_DELAY delay in
      if stop then (O, [delay], true)
      else
        let '(handled, delays, ended) := accept_loop events accept_backoff in
        (handled, delay :: delays, ended)
  | Stopping :: _ => (O, [], true)
  end.

(** [run_listener]: an error in the preparation ends it before it accepts. *)
Definition run_listener `{Platform} (umask : Z) (socket_path : string) (events : list accept_event)
    (s : setup) : option (result setup_error (nat * list Z * bool)) * setup :=
  (do! _ := prepare_listener umask (path_components socket_path) in
   sret (accept_loop events (backoff min_delay))) s.

(** The delays, by the number of failures since the last connection. *)
Fixpoint expected_waits (since : nat) (events : list accept_event) : list Z :=
  match events with
  | [] | Stopping :: _ => []
  | Connected :: events => expected_waits 0 events
  | AcceptFailed stop :: events =>
      default BACKOFF_FALLBACK_DELAY (nth_delay since (backoff min_delay))
      :: (if stop then [] else expected_waits (S since) events)
  end.

Lemma accept_loop_delays events : forall since,
  (accept_loop events (advance since (backoff min_delay))).1.2 = expected_waits since events.
Proof.
  induction events as [|[|stop|] events IH]; intros since; cbn [accept_loop expected_waits]; [done| | |done].
  - specialize (IH O). cbn [advance] in IH. by destruct (accept_loop events (backoff min_delay)) as [[? ?] ?].
  - unfold nth_delay. destruct (next (advance since (backoff min_delay))) as [d st] eqn:Hn.
    cbn zeta. cbn [fst]. destruct stop; [done|].
    assert (st = advance (S since) (backoff min_delay)) as -> by (by rewrite advance_succ, Hn).
    specialize (IH (S since)). destruct (accept_loop events _) as [[? ?] ?]. cbn [fst snd] in *. by rewrite IH.
Qed.
End accept.

(** * Result *)

(** C24: the listening socket is never exposed with wider permissions.  Whatever
    call fails and wherever the process dies, the socket path holds what it held
    before or a socket with mode [0o660]; nothing else changes but missing parent
    directories and the temporary socket.  On success the socket is in place, the
    temporary name is gone and the new directories have mode [0o700]; an attempt
    that fails without an I/O fault leaves no temporary socket. *)
Theorem socket_is_never_exposed `{Platform} umask path par file_name t0 fs u o s' :
  parent path = Some par -> socket_name path = Some file_name -> file_name <> "" ->
  prepare_listener umask path (Setup t0 fs u) = (o, s') ->
  exists k,
    let here := locate path in
    let tmp := tmp_socket par file_name k in
    (s_tree s' !! here = t0 !! here \/ s_tree s' !! here = Some (FSocket SOCKET_MODE))
    /\ (forall l, l <> here -> l <> tmp -> created umask par t0 (s_tree s') l)
    /\ (o = Some (Ok tt) ->
        s_tree s' !! here = Some (FSocket SOCKET_MODE) /\ s_tree s' !! tmp = None
        /\ forall l, l <> here -> l <> tmp -> restricted par t0 (s_tree s') l)
    /\ (fs = [] -> s_tree s' !! tmp = t0 !! tmp).
Proof.
  intros Hp Hf Hn Hrun.
  assert (Hname : file_name <> "" /\ file_name <> ".").
  { split; [done|]. unfold socket_name in Hf. destruct (last path) as [c|]; [|done].
    case_decide as Hc; [done|]. injection Hf as <-. intros ->. apply Hc. auto. }
  assert (Hpath : path = par ++ [file_name]) by by apply path_split.
  destruct (prepare_listener_runs umask par file_name Hname (bool_decide (fs = [])) t0 path Hp Hf fs u)
    as [(k & Hl & Hh & Ht & Hok) _]; [by intros ?%bool_decide_eq_true|].
  rewrite Hrun in *. cbn [fst snd] in *. exists k. cbn zeta. rewrite Hpath. split_and!; [done| | |].
  - intros l Hl1 Hl2. by apply Hl.
  - intros ->. destruct (Hok eq_refl) as [? ?]. split_and!; try done. intros l Hl1 Hl2. by apply Hl.
  - intros ->. destruct Ht as [?|(_ & Hq & _)]; [done|]. by rewrite bool_decide_true in Hq.
Qed.
