(* ===== verification/Credentials.v ===== *)
(** Daemon configuration and GitHub credentials ([config.rs],
    [config/token_resolution.rs], [config/single_token.rs], [config/tokens.rs]):
    command-line overrides, the precedence of the token sources and the rotation
    pool.  Reading the configuration file and the environment layer belong to the
    [ortho-config] crate; what they load is an argument.  Token text is a list of
    Unicode scalars. *)

From S2P Require Import Prelude Text Tokens Disk Args.

Definition MAX_GITHUB_TOKEN_FILE_BYTES : Z := 64 * 1024.
Definition DEFAULT_QUEUE_PATH : string := "/var/lib/comenq/queue".
Definition DEFAULT_COOLDOWN : Z := 960.
Definition DEFAULT_COOLDOWN_FLUTTER : Z := 0.
Definition DEFAULT_RESTART_MIN_DELAY_MS : Z := 100.
Definition DEFAULT_GITHUB_API_TIMEOUT_SECS : Z := 30.

Module DaemonConfig.
Record t := mk {
  github_token : list Z;
  github_token_file : option string;
  github_token_files : list string;
  socket_path : string;
  queue_path : string;
  cooldown_period_seconds : Z;
  cooldown_flutter_seconds : Z;
  restart_min_delay_ms : Z;
  github_api_timeout_secs : Z;
}.
End DaemonConfig.
Import DaemonConfig.

(** The values the configuration file and the environment may leave out. *)
Definition default_config (xdg_runtime_dir : option string) : DaemonConfig.t :=
  mk [] None [] (default_socket_path xdg_runtime_dir) DEFAULT_QUEUE_PATH DEFAULT_COOLDOWN
    DEFAULT_COOLDOWN_FLUTTER DEFAULT_RESTART_MIN_DELAY_MS DEFAULT_GITHUB_API_TIMEOUT_SECS.

(** Default location of the daemon configuration file. *)
Definition DEFAULT_PATH : string := "/etc/comenqd/config.toml".

Module CliArgs.
Record t := mk {
  config : string;
  github_token : option (list Z);
  github_token_file : option string;
  socket_path : option string;
  queue_path : option string;
  cooldown_period_seconds : option Z;
  github_api_timeout_secs : option Z;
}.
End CliArgs.

Inductive OrthoError :=
| ConfigFile (path : string) (source : io_error)
| Validation (key message : string)
| Gathering (message : string).

Module NamedToken.
Record t := mk { name : string; token : list Z }.
End NamedToken.

(** Apply command-line values that explicitly override loaded configuration. *)
Definition apply_cli_overrides (cfg : DaemonConfig.t) (cli : CliArgs.t) : DaemonConfig.t :=
  mk (default (github_token cfg) (CliArgs.github_token cli))
     (match CliArgs.github_token_file cli with
      | Some file => Some file
      | None => github_token_file cfg
      end)
     (match CliArgs.github_token_file cli with
      | Some _ => []
      | None => github_token_files cfg
      end)
     (default (socket_path cfg) (CliArgs.socket_path cli))
     (default (queue_path cfg) (CliArgs.queue_path cli))
     (default (cooldown_period_seconds cfg) (CliArgs.cooldown_period_seconds cli))
     (cooldown_flutter_seconds cfg)
     (restart_min_delay_ms cfg)
     (default (github_api_timeout_secs cfg) (CliArgs.github_api_timeout_secs cli)).

(** * Token files *)

Inductive TokenFileReadError := TokenIo (e : io_error) | TooLarge.
Inductive TokenPathError := Malformed (text : string) | Unset (variable : string).

(** [text.strip_prefix("${")] and [rest.split_once('}')]. *)
Definition strip_placeholder (b : bytes) : option bytes :=
  match b with
  | d :: o :: rest => if decide (code d = 36 /\ code o = 123) then Some rest else None
  | _ => None
  end.
Fixpoint split_brace (b : bytes) : option (bytes * bytes) :=
  match b with
  | [] => None
  | c :: r => if decide (code c = 125) then Some ([], r)
              else match split_brace r with Some (v, t) => Some (c :: v, t) | None => None end
  end.

(** [Path::file_name]: the last component, unless it is [..]. *)
Definition file_name (p : string) : option bytes :=
  match last (components p) with
  | Some part => if decide (part = bytes_of "..") then None else Some part
  | None => None
  end.

(** [configured_path.file_name().and_then(|name| name.to_str()).unwrap_or("token")]. *)
Definition token_name (p : string) : string :=
  match file_name p with
  | Some part => if decide (utf8_decode part = None) then "token" else string_of part
  | None => "token"
  end.

Section resolution.
(** The file system and the environment at startup. *)
Context (file : string -> result io_error bytes) (env : string -> option string).

(** Read one UTF-8 token file while limiting the amount of input retained. *)
Definition read_token_file (p : string) : result TokenFileReadError (list Z) :=
  match file p with
  | Err e => Err (TokenIo e)
  | Ok content =>
      let contents := ztake (MAX_GITHUB_TOKEN_FILE_BYTES + 1) content in
      match utf8_decode contents with
      | None => Err (TokenIo (IoError InvalidData "stream did not contain valid UTF-8"))
      | Some text =>
          if MAX_GITHUB_TOKEN_FILE_BYTES <? zlen contents then Err TooLarge else Ok text
      end
  end.

(** Expand a leading [${VAR}] placeholder in a token-file path. *)
Definition expand_token_path (p : string) : result TokenPathError string :=
  if decide (utf8_decode (bytes_of p) = None) then Ok p
  else match strip_placeholder (bytes_of p) with
       | None => Ok p
       | Some rest =>
           match split_brace rest with
           | None => Err (Malformed p)
           | Some (variable, tail) =>
               match env (string_of variable) with
               | None => Err (Unset (string_of variable))
               | Some value => Ok (value +:+ string_of tail)
               end
           end
       end.

Definition token_path_io_error (e : TokenPathError) : io_error :=
  match e with
  | Malformed text => IoError InvalidInput ("unterminated environment placeholder in '" +:+ text +:+ "'")
  | Unset variable => IoError NotFound ("environment variable '" +:+ variable +:+ "' is not set")
  end.
Definition token_file_io_error (p : string) (e : TokenFileReadError) : io_error :=
  match e with
  | TokenIo e => IoError (kind e) ("token file " +:+ p +:+ ": " +:+ text e)
  | TooLarge => IoError InvalidData ("token file " +:+ p +:+ " exceeds "
                  +:+ u64_to_string MAX_GITHUB_TOKEN_FILE_BYTES +:+ " bytes")
  end.

(** The fold of [resolve_pool]; [seen] is [paths_by_token], [acc] the pool so far. *)
Fixpoint resolve_files (files : list string) (seen : list (list Z * string))
    (acc : list NamedToken.t) : result io_error (list NamedToken.t) :=
  match files with
  | [] => Ok acc
  | configured_path :: files =>
      match expand_token_path configured_path with
      | Err e => Err (token_path_io_error e)
      | Ok p =>
          match read_token_file p with
          | Err e => Err (token_file_io_error p e)
          | Ok contents =>
              let token := trim contents in
              if decide (token = []) then
                Err (IoError InvalidData ("token file " +:+ p +:+ " is empty"))
              else
                match list_find (fun x => x.1 = token) seen with
                | Some (_, (_, previous_path)) =>
                    Err (IoError InvalidInput ("token files " +:+ previous_path +:+ " and "
                           +:+ p +:+ " contain the same token"))
                | None =>
                    resolve_files files (seen ++ [(token, p)])
                      (acc ++ [NamedToken.mk (token_name configured_path) token])
                end
          end
      end
  end.

Definition resolve_pool (files : list string) (inline : list Z) : result io_error (list NamedToken.t) :=
  match files with
  | [] => Ok [NamedToken.mk "default" inline]
  | _ => resolve_files files [] []
  end.

(** Resolve the ordered rotation pool, falling back to the single token. *)
Definition github_tokens (cfg : DaemonConfig.t) : result io_error (list NamedToken.t) :=
  if decide (github_token_files cfg = [] /\ trim (github_token cfg) = [])
  then Err (IoError InvalidInput "GitHub token is empty")
  else resolve_pool (github_token_files cfg) (github_token cfg).

Definition expand_env_prefix (p : string) : result OrthoError string :=
  match expand_token_path p with
  | Ok p => Ok p
  | Err e => Err (Validation "github_token_file" (text (token_path_io_error e)))
  end.

Definition read_github_token_file (p : string) : result OrthoError (list Z) :=
  match read_token_file p with
  | Ok contents => Ok contents
  | Err (TokenIo e) => Err (ConfigFile p e)
  | Err TooLarge => Err (Validation "github_token_file" (text (token_file_io_error p TooLarge)))
  end.

(** The last two checks of [resolve_github_token], for a single token. *)
Definition resolve_single (cfg : DaemonConfig.t) : result OrthoError (DaemonConfig.t * list NamedToken.t) :=
  if decide (trim (github_token cfg) = []) then
    Err (Validation "github_token" "provide github_token, github_token_file, or github_token_files")
  else
    match github_tokens cfg with
    | Ok tokens => Ok (cfg, tokens)
    | Err e => Err (Validation "github_token" (text e))
    end.

Definition with_tokens (cfg : DaemonConfig.t) (single : list Z) (p : option string) (files : list string)
    : DaemonConfig.t :=
  mk single p files (socket_path cfg) (queue_path cfg) (cooldown_period_seconds cfg)
    (cooldown_flutter_seconds cfg) (restart_min_delay_ms cfg) (github_api_timeout_secs cfg).

(** Resolve the effective GitHub token; the configuration it leaves. *)
Definition resolve_github_token (cfg : DaemonConfig.t) (has_cli_token : bool)
    : result OrthoError (DaemonConfig.t * list NamedToken.t) :=
  if has_cli_token then resolve_single (with_tokens cfg (github_token cfg) None [])
  else if decide (github_token_files cfg <> []) then
    match github_tokens cfg with
    | Ok tokens => Ok (cfg, tokens)
    | Err e => Err (Validation "github_token_files" (text e))
    end
  else match github_token_file cfg with
       | Some p =>
           match expand_env_prefix p with
           | Err e => Err e
           | Ok path =>
               match read_github_token_file path with
               | Err e => Err e
               | Ok contents =>
                   let token := trim contents in
                   if decide (token = []) then
                     Err (Validation "github_token_file" ("token file " +:+ path +:+ " is empty"))
                   else resolve_single (with_tokens cfg token (Some p) (github_token_files cfg))
               end
           end
       | None => resolve_single cfg
       end.

(** [loaded] is what the configuration file and the environment give. *)
Definition from_file_with_cli_and_tokens (loaded : result OrthoError DaemonConfig.t) (cli : CliArgs.t)
    : result OrthoError (DaemonConfig.t * list NamedToken.t) :=
  match loaded with
  | Err e => Err e
  | Ok cfg =>
      resolve_github_token (apply_cli_overrides cfg cli)
        (match CliArgs.github_token cli with Some _ => true | None => false end)
  end.

(** ** Loading

    [ortho_config::load_config_file] gives a layer, if there is a file; the
    environment is merged over it; the values are extracted from the result. *)
Context {figment : Type} (load_config_file : string -> result OrthoError (option figment)).
Context (merge_env : figment -> figment) (extract : figment -> result string DaemonConfig.t).

Definition load_layers (path : string) : result OrthoError DaemonConfig.t :=
  match load_config_file path with
  | Err e => Err e
  | Ok None => Err (ConfigFile path (IoError NotFound "Configuration file not found"))
  | Ok (Some fig) =>
      match extract (merge_env fig) with
      | Err m => Err (Gathering m)
      | Ok cfg => Ok cfg
      end
  end.

Definition load_with_tokens (cli : CliArgs.t) : result OrthoError (DaemonConfig.t * list NamedToken.t) :=
  from_file_with_cli_and_tokens (load_layers (CliArgs.config cli)) cli.
Definition from_file_with_cli (path : string) (cli : CliArgs.t) : result OrthoError DaemonConfig.t :=
  match from_file_with_cli_and_tokens (load_layers path) cli with
  | Err e => Err e
  | Ok (config, _) => Ok config
  end.
Definition load (cli : CliArgs.t) : result OrthoError DaemonConfig.t :=
  from_file_with_cli (CliArgs.config cli) cli.
(** [CliArgs::default()] derives the empty path, not the default one. *)
Definition from_file (path : string) : result OrthoError DaemonConfig.t :=
  from_file_with_cli path (CliArgs.mk "" None None None None None None).
End resolution.

(** * Properties *)

Section pool.
Context (file : string -> result io_error bytes) (env : string -> option string).

(** The file configured as [p] holds [token], within the size limit. *)
Definition holds (p : string) (token : list Z) : Prop :=
  exists path content text, expand_token_path env p = Ok path /\ file path = Ok content
    /\ zlen content <= MAX_GITHUB_TOKEN_FILE_BYTES /\ utf8_decode content = Some text
    /\ token = trim text /\ token <> [].

Lemma read_token_file_spec p text :
  read_token_file file p = Ok text ->
  exists content, file p = Ok content /\ zlen content <= MAX_GITHUB_TOKEN_FILE_BYTES
    /\ utf8_decode content = Some text.
Proof.
  unfold read_token_file. destruct (file p) as [e|content]; [done|]. cbn beta iota zeta.
  destruct (utf8_decode (ztake _ content)) as [t|] eqn:Hd; [|done].
  destruct (Z.ltb_spec MAX_GITHUB_TOKEN_FILE_BYTES (zlen (ztake (MAX_GITHUB_TOKEN_FILE_BYTES + 1) content)))
    as [|Hle]; [done|]. intros [= <-]. exists content. split; [done|].
  assert (Hlen : zlen content <= MAX_GITHUB_TOKEN_FILE_BYTES + 1).
  { rewrite ztake_take in Hle. unfold zlen in *. rewrite length_take in Hle.
    unfold MAX_GITHUB_TOKEN_FILE_BYTES in *. lia. }
  rewrite ztake_all in Hd, Hle by done. done.
Qed.

Lemma find_none {A} (token : list Z) (seen : list (list Z * A)) :
  list_find (fun x => x.1 = token) seen = None -> token ∉ seen.*1.
Proof.
  intros Hn%list_find_None Hin. apply list_elem_of_fmap in Hin as (x & -> & Hx).
  rewrite Forall_forall in Hn. by apply (Hn x).
Qed.

Lemma resolve_files_spec files : forall seen acc tokens,
  seen.*1 = NamedToken.token <$> acc -> NoDup (NamedToken.token <$> acc) ->
  resolve_files file env files seen acc = Ok tokens ->
  exists more, tokens = acc ++ more
    /\ Forall2 (fun p n => NamedToken.name n = token_name p /\ holds p (NamedToken.token n)) files more
    /\ NoDup (NamedToken.token <$> tokens).
Proof.
  induction files as [|p files IH]; intros seen acc tokens Hseen Hnd; cbn [resolve_files].
  { intros [= <-]. exists []. rewrite app_nil_r. by split_and!; [|constructor|]. }
  destruct (expand_token_path env p) as [|path] eqn:Hex; [done|].
  destruct (read_token_file file path) as [|text] eqn:Hrd; [done|]. cbn beta iota zeta.
  destruct (decide (trim text = [])) as [|Hne]; [done|].
  destruct (list_find _ seen) as [[? [? ?]]|] eqn:Hfind; [done|]. intros Hrun.
  apply find_none in Hfind. rewrite Hseen in Hfind.
  destruct (read_token_file_spec path text Hrd) as (content & Hf & Hlen & Hd).
  apply IH in Hrun as (more & -> & Hall & Hnd').
  2:{ rewrite !fmap_app, Hseen. done. }
  2:{ rewrite fmap_app. apply NoDup_app. split; [done|]. split; [|apply NoDup_singleton].
      intros x Hx Hx'. apply list_elem_of_singleton in Hx' as ->. done. }
  eexists (_ :: more). rewrite <- app_assoc. split; [done|]. split; [|by rewrite <- app_assoc in Hnd'].
  constructor; [|done]. split; [done|]. exists path, content, text. by split_and!.
Qed.

(** Where the credentials come from, strongest source first. *)
Definition effective (cfg : DaemonConfig.t) (cli : CliArgs.t) (tokens : list NamedToken.t) : Prop :=
  match CliArgs.github_token cli with
  | Some token => tokens = [NamedToken.mk "default" token]
  | None =>
      let cfg := apply_cli_overrides cfg cli in
      match github_token_files cfg, github_token_file cfg with
      | [], None => tokens = [NamedToken.mk "default" (github_token cfg)]
      | [], Some p => exists token, holds p token /\ tokens = [NamedToken.mk "default" token]
      | files, _ =>
          Forall2 (fun p n => NamedToken.name n = token_name p /\ holds p (NamedToken.token n)) files tokens
      end
  end.

Definition usable (tokens : list NamedToken.t) : Prop :=
  tokens <> [] /\ Forall (fun n => trim (NamedToken.token n) <> []) tokens
  /\ NoDup (NamedToken.token <$> tokens).

Lemma resolve_single_spec cfg cfg' tokens :
  github_token_files cfg = [] -> resolve_single file env cfg = Ok (cfg', tokens) ->
  trim (github_token cfg) <> [] /\ tokens = [NamedToken.mk "default" (github_token cfg)].
Proof.
  intros Hf. unfold resolve_single, github_tokens. case_decide as Ht; [done|].
  rewrite decide_False by (by intros [_ ?]). rewrite Hf. by intros [= _ <-].
Qed.

Lemma usable_single token : trim token <> [] -> usable [NamedToken.mk "default" token].
Proof.
  intros Ht. split; [done|]. split; [by apply Forall_singleton|]. apply NoDup_singleton.
Qed.

Lemma trimmed_usable p token : holds p token -> trim token <> [].
Proof. intros (path & content & text & _ & _ & _ & _ & -> & Hne). by rewrite trim_idem. Qed.

Lemma pool_usable files tokens :
  files <> [] -> resolve_files file env files [] [] = Ok tokens ->
  usable tokens
  /\ Forall2 (fun p n => NamedToken.name n = token_name p /\ holds p (NamedToken.token n)) files tokens.
Proof.
  intros Hne Hrun. destruct (resolve_files_spec files [] [] tokens) as (more & -> & Hall & Hnd);
    [done|constructor|done|]. cbn [app] in *. split; [|done]. split_and!; [| |done].
  - intros ->. by apply Forall2_nil_inv_r in Hall.
  - clear -Hall. induction Hall as [|p n ps ns [_ Hh] _ IH]; constructor; [|done].
    by eapply trimmed_usable.
Qed.
End pool.

Lemma resolved_pool file env cfg cli cfg' tokens :
  from_file_with_cli_and_tokens file env (Ok cfg) cli = Ok (cfg', tokens) ->
  usable tokens /\ effective file env cfg cli tokens.
Proof.
  unfold from_file_with_cli_and_tokens, effective, resolve_github_token.
  set (c := apply_cli_overrides cfg cli).
  assert (Hc : forall token, CliArgs.github_token cli = Some token -> github_token c = token)
    by (intros token Ht; unfold c, apply_cli_overrides; cbn; by rewrite Ht).
  destruct (CliArgs.github_token cli) as [token|].
  { intros Hr. apply resolve_single_spec in Hr as [Ht ->]; [|done].
    cbn [with_tokens github_token] in *. rewrite (Hc token eq_refl) in *. split; [by apply usable_single|done]. }
  destruct (github_token_files c) as [|f files] eqn:Hf.
  - rewrite decide_False by (intros Hn; by apply Hn). destruct (github_token_file c) as [p|] eqn:Hp.
    + unfold expand_env_prefix, read_github_token_file.
      destruct (expand_token_path env p) as [e|path] eqn:Hex; [done|].
      destruct (read_token_file file path) as [[e|]|text] eqn:Hrd; [done|done|]. cbn zeta.
      destruct (decide (trim text = [])) as [|Hne]; [done|]. intros Hr.
      apply resolve_single_spec in Hr as [Ht ->]; [|done]. cbn [with_tokens github_token] in *.
      split; [by apply usable_single|]. exists (trim text). split; [|done].
      destruct (read_token_file_spec file path text Hrd) as (content & Hfile & Hlen & Hd).
      exists path, content, text. by split_and!.
    + intros Hr. apply resolve_single_spec in Hr as [Ht ->]; [|done]. split; [by apply usable_single|done].
  - rewrite decide_True by done. unfold github_tokens. rewrite Hf, decide_False by (by intros [? _]).
    unfold resolve_pool. destruct (resolve_files file env (f :: files) [] []) as [|ts] eqn:Hr; [done|].
    intros [= _ <-]. by apply pool_usable.
Qed.

(** * Result *)

(** C35: the credentials the daemon starts with.  When loading succeeds the pool is
    not empty, no token is blank and no token appears twice; an explicit
    command-line token wins over every file, token files give the trimmed content
    of each file in the configured order under the name of the file, a single
    file never falls back to the inline token, and the inline token is used only
    without any of them. *)
Theorem resolved_pool_is_usable file env cfg cli cfg' tokens :
  from_file_with_cli_and_tokens file env (Ok cfg) cli = Ok (cfg', tokens) ->
  usable tokens /\ effective file env cfg cli tokens.
Proof. apply resolved_pool. Qed.
