(* ===== verification/Startup.v ===== *)
(** Starting the daemon ([supervisor.rs], [run_with_tokens]; [queue.rs],
    [SharedQueue::open]): the clients of the token pool, the opened queue and the
    two supervised tasks; and what a restart makes of an interrupted completion. *)

From S2P Require Import Prelude Text Tokens Protocol Disk Entry Order Bounds Scan Capacity Writes.
From S2P Require Import Schedule History Store Readers DiskState Claims Edits Enqueue Lines Reverse.
From S2P Require Import Log Pages Append Recovery Completion Trace Queue Waits Shared Args Supervisor.
From S2P Require Import Recorder Supervise Credentials.

Inductive SupervisorError :=
| SupervisorIo (e : io_error)
| SupervisorOctocrab (message : string)
| SupervisorStore (e : StoreError).

Section startup.
Context `{Platform} `{SerdeJson} `{Sha256}.
(** [build_octocrab]: the client is the [octocrab] crate's; the error text. *)
Context (build_octocrab : list Z -> result string unit).

(** Asynchronously create the queue directory and any missing parents. *)
Definition ensure_queue_dir : M unit := query (fun _ => Ok tt).

(** One authenticated client per token, or the first error. *)
Fixpoint build_clients (tokens : list NamedToken.t) : result string (list TokenClient.t) :=
  match tokens with
  | [] => Ok []
  | named :: tokens =>
      match build_octocrab (NamedToken.token named) with
      | Err e => Err e
      | Ok _ =>
          match build_clients tokens with
          | Err e => Err e
          | Ok clients =>
              Ok (TokenClient.new (NamedToken.name named) (to_string (NamedToken.token named)) :: clients)
          end
      end
  end.

(** [SharedQueue::open]: the store, the gauges, an empty cache and version zero. *)
Definition open_queue (now : Z) : M queue := fun w =>
  match (open_store ;; let* _ := queue_metrics_snapshot in ret tt) w with
  | (Done _, w) => (Done (Queue w None 0 now false), w)
  | (Failed e, w) => (Failed e, w)
  | (Crashed, w) => (Crashed, w)
  | (Diverged, w) => (Diverged, w)
  end.

(** The part of [run_with_tokens] before the tasks are spawned.  The queue is opened by
    a blocking task: where the faults stop that task, [panicked] is the message of its
    join error, or nothing when the whole process died. *)
Definition start (panicked : option string) (tokens : list NamedToken.t) (now : Z) (w : world)
    : outcome (result SupervisorError (list TokenClient.t * queue)) * world :=
  if decide (tokens = [])
  then (Done (Err (SupervisorIo (IoError InvalidInput "GitHub token pool is empty"))), w)
  else
    match ensure_queue_dir w with
    | (Failed (Io e), w) => (Done (Err (SupervisorIo e)), w)
    | (Failed e, w) => (Done (Err (SupervisorStore e)), w)
    | (Crashed, w) => (Crashed, w)
    | (Diverged, w) => (Diverged, w)
    | (Done _, w) =>
        match build_clients tokens with
        | Err e => (Done (Err (SupervisorOctocrab e)), w)
        | Ok clients =>
            match open_queue now w with
            | (Done queue, w) => (Done (Ok (clients, queue)), w)
            | (Failed e, w) => (Done (Err (SupervisorStore e)), w)
            | (Crashed, w) =>
                match panicked with
                | Some m =>
                    (Done (Err (SupervisorIo (IoError OtherKind ("opening queue task failed: " +:+ m)))), w)
                | None => (Crashed, w)
                end
            | (Diverged, w) => (Diverged, w)
            end
        end
    end.

(** A poll of the daemon, and what its listener and worker did to the queue they share
    since the poll before. *)
Record run_poll := RunPoll { task_work : queue -> queue; task_poll : daemon_poll }.

(** The daemon and the shared queue; the tasks touch the queue until [tokio::join!] is
    ready, after which [run_with_tokens] returns. *)
Definition poll_running `{Backoff} `{Timer} (min_delay : Z) (s : daemon * queue) (p : run_poll)
    : daemon * queue :=
  (poll_daemon min_delay (task_poll p) s.1, if returned s.1 then s.2 else task_work p s.2).

(** [run_with_tokens]: the daemon that started and its queue, after [polls] of its tasks
    from the instant [at_]; it returns when both supervisors have ended. *)
Definition run_with_tokens `{Backoff} `{Timer} (panicked : option string) (cfg : DaemonConfig.t)
    (tokens : list NamedToken.t) (now at_ : Z) (polls : list run_poll) (w : world)
    : outcome (result SupervisorError (daemon * queue)) * world :=
  match start panicked tokens now w with
  | (Done (Ok (_, q)), _) =>
      let s := foldl (poll_running (DaemonConfig.restart_min_delay_ms cfg))
                 (started (DaemonConfig.restart_min_delay_ms cfg) at_, q) polls in
      (Done (Ok s), q_world s.2)
  | (Done (Err e), w) => (Done (Err e), w)
  | (Failed e, w) => (Failed e, w)
  | (Crashed, w) => (Crashed, w)
  | (Diverged, w) => (Diverged, w)
  end.
End startup.

(** * Properties *)

Section properties.
Context `{Platform} `{!PlatformOk} `{SerdeJson} `{!SerdeJsonOk} `{Sha256}.
Context (build_octocrab : list Z -> result string unit).

Lemma build_clients_ok tokens :
  Forall (fun n => build_octocrab (NamedToken.token n) = Ok tt) tokens ->
  build_clients build_octocrab tokens
  = Ok ((fun n => TokenClient.new (NamedToken.name n) (to_string (NamedToken.token n))) <$> tokens).
Proof.
  induction 1 as [|n tokens Hn _ IH]; [done|]. cbn [build_clients]. by rewrite Hn, IH.
Qed.

(** Opening the queue over a store whose reconciliation finishes. *)
Lemma open_queue_from cfg d u d1 u1 now :
  reconcile_completion (World d [] u) = (Done tt, World d1 [] u1) -> disk_wf d1 -> is_u64 now ->
  (forall p, activity d1 = Some p -> p <= now) ->
  exists q, open_queue now (World d [] u) = (Done q, q_world q) /\ sound cfg q
    /\ claims (w_disk (q_world q)) = []
    /\ Forall2 reclaimed (entries_of (d_entries d1)) (entries_of (d_entries (w_disk (q_world q))))
    /\ d_root (w_disk (q_world q)) = d_root d1.
Proof.
  intros Hrec Hwf Hnow Hact.
  destruct (open_store_from d u d1 u1 Hrec Hwf) as (d' & u' & Hrun & Hwf' & Hcl & Hf & Hr & _).
  exists (Queue (World d' [] u') None 0 now false). cbn [q_world w_disk]. split_and!; try done.
  - assert (Hsnap : exists x, queue_metrics_snapshot (World d' [] u') = (Done x, World d' [] u')).
    { eexists. unfold queue_metrics_snapshot.
      erewrite bind_done by (apply entries_with_usage_quiet, store_wf_fits, wf_entries, Hwf'). done. }
    destruct Hsnap as [x Hx]. unfold open_queue. erewrite bind_done by exact Hrun.
    by erewrite bind_done by exact Hx.
  - constructor; [done|done| |done]. constructor; [done|cbn [q_world w_disk]; rewrite Hcl; cbn; lia|].
    intros p. cbn [w_disk q_world q_now]. rewrite (activity_same_root d1 d' Hr). apply Hact.
Qed.
End properties.

(** ** The daemon and its queue *)

Lemma running_daemon `{Backoff} `{Timer} min_delay polls : forall d q,
  (foldl (poll_running min_delay) (d, q) polls).1 = run_daemon min_delay (task_poll <$> polls) d.
Proof. induction polls as [|p polls IH]; intros d q; [done|]. cbn [foldl fmap list_fmap]. apply IH. Qed.

(** The queue of a running daemon changes by calls of its tasks only. *)
Lemma running_queue `{Backoff} `{Timer} `{Platform} `{!PlatformOk} `{SerdeJson} `{!SerdeJsonOk} cfg min_delay polls :
  Forall (fun p => interference cfg (task_work p)) polls -> forall d q, sound cfg q ->
  exists n, ran cfg n q (foldl (poll_running min_delay) (d, q) polls).2
    /\ sound cfg (foldl (poll_running min_delay) (d, q) polls).2.
Proof.
  induction 1 as [|p polls Hp _ IH]; intros d q Hs; [exists O; split; [constructor|done]|].
  cbn [foldl]. unfold poll_running at 2 4. cbn [fst snd].
  assert (Hq : exists k, ran cfg k q (if returned d then q else task_work p q)).
  { destruct (returned d); [exists O; constructor|]. destruct (Hp q Hs) as (k & Hk & _). by exists k. }
  destruct Hq as [k Hk]. destruct (IH (poll_daemon min_delay (task_poll p) d) _ (ran_sound _ _ _ _ Hk Hs))
    as (n & Hn & Hs'). exists (n + k)%nat. split; [by eapply ran_trans|done].
Qed.

(** * Results *)

(** The daemon starts clean.  With a token pool from the configuration and
    clients that can be built, over a well-formed store, starting succeeds: one
    client per token in order, with its name and the hash of its token, and a sound
    queue with the same entries, none of them claimed and each with a lifetime.
    An empty pool and a client that cannot be built are refused before the store
    is opened. *)
Theorem daemon_starts_clean `{Platform} `{!PlatformOk} `{SerdeJson} `{!SerdeJsonOk} `{Sha256} cfg build_octocrab panicked tokens d u now :
  disk_wf d -> dget d COMPLETION_FILE = None -> is_u64 now -> (forall p, activity d = Some p -> p <= now) ->
  usable tokens ->
  (Forall (fun n => build_octocrab (NamedToken.token n) = Ok tt) tokens ->
   exists q, start build_octocrab panicked tokens now (World d [] u)
             = (Done (Ok ((fun n => TokenClient.new (NamedToken.name n) (to_string (NamedToken.token n)))
                            <$> tokens, q)), q_world q)
     /\ sound cfg q /\ claims (w_disk (q_world q)) = []
     /\ Forall2 reclaimed (entries_of (d_entries d)) (entries_of (d_entries (w_disk (q_world q)))))
  /\ (forall e, build_clients build_octocrab tokens = Err e ->
      start build_octocrab panicked tokens now (World d [] u) = (Done (Err (SupervisorOctocrab e)), World d [] u))
  /\ start build_octocrab panicked [] now (World d [] u)
     = (Done (Err (SupervisorIo (IoError InvalidInput "GitHub token pool is empty"))), World d [] u).
Proof.
  intros Hwf Hc Hnow Hact (Hne & _ & _). split_and!; [| |done]; unfold start; rewrite decide_False by done.
  - intros Hb. rewrite (build_clients_ok build_octocrab tokens Hb).
    destruct (open_queue_from cfg d u d u now) as (q & Hq & Hs & Hcl & Hf & _); try done.
    { by apply reconcile_nothing. }
    exists q. cbn [ensure_queue_dir query syscall w_faults w_disk w_uuids]. rewrite Hq. by split_and!.
  - intros e ->. done.
Qed.

(** C22: a restart finishes the post.  When the process dies while it completes a
    post, or the completion fails, and any number of reconciliations are
    interrupted after that, opening the queue either finds the store as it was
    before (the claim is released and the post is retried), or finishes the
    completion: the entry that was posted is gone, every other entry is kept
    unclaimed, the history holds exactly one record of the post and the cooldown
    runs from it. *)
Theorem restart_finishes_the_post `{Platform} `{!PlatformOk} `{SerdeJson} `{!SerdeJsonOk}
    cfg d clock e token_hash now url fs u o w1 :
  safe d clock -> clock <= now -> completable d e token_hash now url -> genuine fs ->
  complete_claim_with_token e token_hash now url (World d fs u) = (o, w1) ->
  (o <> Done tt /\ unchanged d (w_disk w1))
  \/ exists k, forall d2 v later, interrupted (w_disk w1) d2 -> now <= later -> is_u64 later ->
       exists q, open_queue later (World d2 [] v) = (Done q, q_world q) /\ sound cfg q
         /\ claims (w_disk (q_world q)) = []
         /\ Forall2 reclaimed (unclaimed_by e (entries_of (d_entries d)))
              (entries_of (d_entries (w_disk (q_world q))))
         /\ log_records (content (w_disk (q_world q)) HISTORY_FILE)
            = log_records (content d HISTORY_FILE) ++ [posted_record e token_hash now url k]
         /\ marker (w_disk (q_world q)) LAST_POST_FILE = Some now.
Proof.
  intros Hs Hle Hcl Hfs Hrun.
  destruct (completion_settles d e token_hash now url fs u o w1 Hcl Hfs Hrun) as [?|(k & Hk)]; [by left|right].
  exists k. intros d2 v later Hint Hlater Hu. destruct (Hk d2 v Hint) as (d3 & v' & Hrec & Hcd).
  destruct (completed_safe d e token_hash now url clock k d3 Hs Hcl Hcd) as (Hs3 & _ & _ & Hq).
  rewrite Z.max_r in Hs3 by done.
  destruct (open_queue_from cfg d2 v d3 v' later) as (q & Hopen & Hsq & Hcq & Hf & Hr); try done.
  { apply Hs3. }
  { intros p Hp. apply (safe_clock _ _ Hs3) in Hp. lia. }
  exists q. rewrite Hq in Hf. split_and!; try done.
  - replace (content (w_disk (q_world q)) HISTORY_FILE) with (content d3 HISTORY_FILE)
      by (unfold content, dget; cbn; by rewrite Hr).
    destruct Hcd as [_ _ _ (g & _ & _ & Hlog & _) _ _ _]. done.
  - rewrite (marker_same_root d3) by done. apply marker_value; [apply Hcl|apply Hcd].
Qed.
