(* ===== verification/Process.v ===== *)
(** The daemon process ([comenqd/src/main.rs]): load the configuration, start the
    daemon, run until both supervisors have ended, and exit. *)

From S2P Require Import Prelude Text Tokens Protocol Disk Entry Order Bounds Scan Capacity Writes.
From S2P Require Import Schedule History Store Readers DiskState Claims Edits Enqueue Lines Reverse.
From S2P Require Import Log Pages Append Recovery Completion Trace Queue Waits Shared Args Supervisor.
From S2P Require Import Recorder Supervise Credentials Startup.

(** What the process finds: whether the report hook and the exporter of the metrics can
    be installed, and whether the blocking task that loads the configuration panics or a
    panic of the one that opens the queue is reported. *)
Record host := Host {
  h_hook : result string unit;
  h_exporter : result string unit;
  h_loading : option string;
  h_opening : option string;
}.

Inductive main_error :=
| HookFailed (message : string)
| LoadingFailed (message : string)
| LoadFailed (e : OrthoError)
| DaemonExited (e : SupervisorError).

(** Lines of the log. *)
Inductive main_log := ExporterUnavailable (message : string) | DaemonStarted (socket queue : string).

Section process.
Context `{Platform} `{SerdeJson} `{Sha256} `{Backoff} `{Timer}.
Context (build_octocrab : list Z -> result string unit).
Context (load_with_tokens : CliArgs.t -> result OrthoError (DaemonConfig.t * list NamedToken.t)).

(** [run] of [supervisor.rs]: [run_with_tokens] with the pool of the configuration. *)
Definition run (panicked : option string) (file : string -> result io_error bytes) (env : string -> option string)
    (cfg : DaemonConfig.t) (now at_ : Z) (polls : list run_poll) (w : world)
    : outcome (result SupervisorError (daemon * queue)) * world :=
  match github_tokens file env cfg with
  | Err e => (Done (Err (SupervisorIo e)), w)
  | Ok tokens => run_with_tokens build_octocrab panicked cfg tokens now at_ polls w
  end.

(** [main]: the log and the result; a daemon that runs after [polls]. *)
Definition daemon_main (h : host) (cli : CliArgs.t) (now at_ : Z) (polls : list run_poll) (w : world)
    : list main_log * (outcome (result main_error (daemon * queue)) * world) :=
  match h_hook h with
  | Err m => ([], (Done (Err (HookFailed m)), w))
  | Ok _ =>
      let warned := match h_exporter h with Err m => [ExporterUnavailable m] | Ok _ => [] end in
      match h_loading h with
      | Some m => (warned, (Done (Err (LoadingFailed m)), w))
      | None =>
          match load_with_tokens cli with
          | Err e => (warned, (Done (Err (LoadFailed e)), w))
          | Ok (cfg, tokens) =>
              (warned ++ [DaemonStarted (DaemonConfig.socket_path cfg) (DaemonConfig.queue_path cfg)],
               match run_with_tokens build_octocrab (h_opening h) cfg tokens now at_ polls w with
               | (Done (Err e), w) => (Done (Err (DaemonExited e)), w)
               | (Done (Ok s), w) => (Done (Ok s), w)
               | (Failed e, w) => (Failed e, w)
               | (Crashed, w) => (Crashed, w)
               | (Diverged, w) => (Diverged, w)
               end)
          end
      end
  end.

(** The exit status, once the process ends. *)
Definition exit_status (r : outcome (result main_error (daemon * queue))) : option Z :=
  match r with
  | Done (Err _) => Some 1
  | Done (Ok (d, _)) => if returned d then Some 0 else None
  | _ => None
  end.
End process.

(** * Result *)

(** C15: the daemon runs until it is told to stop.  A hook that cannot be installed, a
    panic while loading, a configuration that does not load and a client that cannot be
    built end the process with 1 before the store is touched, and a store that does not
    open ends it with 1 too.  When all of these succeed, over a well-formed store without
    a pending completion whose recorded activity is not ahead of the clock, the daemon
    starts with a sound queue that holds the stored comments, none of them claimed.  From
    there, however the tasks are polled and whatever calls the listener and the worker
    make, the queue directory is the one those calls leave, and it is sound; and with a
    restart delay above zero, after SIGINT or SIGTERM (or when a handler cannot be
    installed), the process exits with 0 once each supervisor has been polled three times
    and again 101 ms later. *)
Theorem daemon_runs_until_told `{Platform} `{!PlatformOk} `{SerdeJson} `{!SerdeJsonOk} `{Sha256} `{Backoff} `{!BackoffOk}
    `{Timer} `{!TimerOk} {figment} cfg build_octocrab file env load_config_file merge_env
    (extract : figment -> result string DaemonConfig.t) h cli now at_ before after_ d u :
  let loaded := load_with_tokens file env load_config_file merge_env extract in
  let ended polls := daemon_main build_octocrab loaded h cli now at_ polls (World d [] u) in
  let refused polls w := exit_status (ended polls).2.1 = Some 1 /\ (ended polls).2.2 = w in
  (forall m, h_hook h = Err m -> refused before (World d [] u))
  /\ (forall m, h_loading h = Some m -> refused before (World d [] u))
  /\ (forall e, loaded cli = Err e -> refused before (World d [] u))
  /\ (forall config tokens,
      h_hook h = Ok tt -> h_loading h = None -> loaded cli = Ok (config, tokens) ->
      (forall e, build_clients build_octocrab tokens = Err e -> refused before (World d [] u))
      /\ (Forall (fun n => build_octocrab (NamedToken.token n) = Ok tt) tokens ->
          (forall e w, open_queue now (World d [] u) = (Failed e, w) -> refused before w)
          /\ (disk_wf d -> dget d COMPLETION_FILE = None -> is_u64 now ->
              (forall p, activity d = Some p -> p <= now) ->
              exists q, (ended []).2.2 = q_world q /\ sound cfg q /\ claims (w_disk (q_world q)) = []
                /\ Forall2 reclaimed (entries_of (d_entries d)) (entries_of (d_entries (w_disk (q_world q))))
                /\ (Forall (fun p => interference cfg (task_work p)) (before ++ after_) ->
                    exists n q', (ended (before ++ after_)).2.2 = q_world q' /\ ran cfg n q q' /\ sound cfg q')
                /\ (0 < DaemonConfig.restart_min_delay_ms config -> told (signal_polls (task_poll <$> before)) ->
                    enough (listener_polls (task_poll <$> after_)) ->
                    enough (worker_polls (task_poll <$> after_)) ->
                    exit_status (ended (before ++ after_)).2.1 = Some 0)))).
Proof.
  intros loaded ended refused. unfold refused, ended, daemon_main. split_and!.
  - intros m ->. done.
  - intros m ->. by destruct (h_hook h).
  - intros e ->. by destruct (h_hook h), (h_loading h).
  - intros config tokens -> -> Hload. rewrite Hload. cbn [fst snd].
    assert (Hus : usable tokens).
    { revert Hload. unfold loaded, load_with_tokens. destruct (load_layers _ _ _ _) as [|c]; [done|].
      intros Hr. by apply resolved_pool in Hr as [? _]. }
    assert (Hne : tokens <> []) by apply Hus. split.
    { intros e He. unfold run_with_tokens, start. rewrite decide_False, He by done. by split. }
    intros Hb. split.
    { intros e w Hopen. unfold run_with_tokens, start.
      rewrite decide_False, (build_clients_ok build_octocrab tokens Hb) by done.
      cbn [ensure_queue_dir query syscall w_faults w_disk w_uuids]. by rewrite Hopen. }
    intros Hwf Hc Hnow Hact.
    destruct (daemon_starts_clean cfg build_octocrab (h_opening h) tokens d u now Hwf Hc Hnow Hact Hus) as [Hs _].
    destruct (Hs Hb) as (q & Hstart & Hsound & Hcl & Hf). exists q.
    unfold run_with_tokens. rewrite Hstart. cbn [fst snd foldl exit_status]. split_and!; try done.
    + intros Hin. destruct (running_queue cfg (DaemonConfig.restart_min_delay_ms config) _ Hin
        (started (DaemonConfig.restart_min_delay_ms config) at_) q Hsound) as (n & Hr & Hs').
      by exists n, (foldl (poll_running (DaemonConfig.restart_min_delay_ms config))
        (started (DaemonConfig.restart_min_delay_ms config) at_, q) (before ++ after_)).2.
    + intros Hmin Htold Hl Hw.
      pose proof (running_daemon (DaemonConfig.restart_min_delay_ms config) (before ++ after_)
        (started (DaemonConfig.restart_min_delay_ms config) at_) q) as Hd.
      destruct (foldl _ _ _) as [dm qm]. cbn [fst] in Hd. subst dm. rewrite fmap_app.
      destruct (signals_stop_the_daemon (DaemonConfig.restart_min_delay_ms config) at_ (task_poll <$> before)
        (task_poll <$> after_) _ _ Hmin Htold Hl Hw eq_refl eq_refl) as [Hret _].
      unfold run_daemon in *. rewrite foldl_app. by rewrite Hret.
Qed.
