(* ===== verification/TestSupport.v ===== *)
(** The support crate of the tests ([test-support/src]): guards over environment
    variables ([env_guard.rs]), the check of the release workflow ([workflow.rs]),
    polling helpers ([util.rs]) and the daemon configuration of tests ([daemon.rs], with
    its conversions in [comenqd/src/config.rs]). *)

From S2P Require Import Prelude Text Tokens Protocol Disk Output Args Credentials Queue Waits.

(** * Environment variables *)

Module EnvGuard.
(** The process environment: values are byte strings, in any encoding. *)
Abbreviation environment := (gmap string bytes).

(** [std::env::var(key).ok()]: the value, when it is valid Unicode. *)
Definition var (key : string) (e : environment) : option bytes :=
  match e !! key with
  | Some v => if decide (utf8_decode v = None) then None else Some v
  | None => None
  end.

(** [set_var] and [remove_var] panic on names the system cannot hold, and [set_var] on
    values with a NUL byte. *)
Definition nul_free (b : bytes) : bool := forallb (fun c => negb (code c =? 0)) b.
Definition is_key (key : string) : bool :=
  negb (String.eqb key "") && forallb (fun c => negb (code c =? 61)) (bytes_of key) && nul_free (bytes_of key).

Definition set_env_var (key : string) (value : bytes) (e : environment) : option environment :=
  if is_key key && nul_free value then Some (<[key := value]> e) else None.
Definition remove_env_var (key : string) (e : environment) : option environment :=
  if is_key key then Some (delete key e) else None.

Record EnvVarGuard := Guard { g_key : string; g_original : option bytes }.

Definition set (key : string) (value : bytes) (e : environment) : option (EnvVarGuard * environment) :=
  let original := var key e in
  (fun e => (Guard key original, e)) <$> set_env_var key value e.
Definition remove (key : string) (e : environment) : option (EnvVarGuard * environment) :=
  let original := var key e in
  (fun e => (Guard key original, e)) <$> remove_env_var key e.
Definition drop (g : EnvVarGuard) (e : environment) : option environment :=
  match g_original g with
  | Some v => set_env_var (g_key g) v e
  | None => remove_env_var (g_key g) e
  end.

(** A scope with its guards: each is dropped at the end of the scope it is made in. *)
Inductive scope :=
| Body
| Setting (key : string) (value : bytes) (inner : scope)
| Removing (key : string) (inner : scope)
| Then (first second : scope).

(** What a scope leaves; [None] when a guard panics. *)
Fixpoint run (s : scope) (e : environment) : option environment :=
  match s with
  | Body => Some e
  | Setting key value inner =>
      match set key value e with
      | Some (g, e) => match run inner e with Some e => drop g e | None => None end
      | None => None
      end
  | Removing key inner =>
      match remove key e with
      | Some (g, e) => match run inner e with Some e => drop g e | None => None end
      | None => None
      end
  | Then first second => match run first e with Some e => run second e | None => None end
  end.

(** The guards of a scope can be made, and their values are Rust strings. *)
Fixpoint usable (s : scope) : Prop :=
  match s with
  | Body => True
  | Setting key value inner =>
      is_key key = true /\ nul_free value = true /\ utf8_decode value <> None /\ usable inner
  | Removing key inner => is_key key = true /\ usable inner
  | Then first second => usable first /\ usable second
  end.

(** An environment as the system gives it, with values the guards can read back. *)
Definition readable (e : environment) : Prop :=
  forall k v, e !! k = Some v -> nul_free v = true /\ utf8_decode v <> None.

Lemma drop_restores key e e' :
  is_key key = true -> readable e -> (forall k, k <> key -> e' !! k = e !! k) ->
  drop (Guard key (var key e)) e' = Some e.
Proof.
  intros Hk He Hsame. unfold drop, var, set_env_var, remove_env_var. cbn [g_key g_original].
  destruct (e !! key) as [v|] eqn:Hv.
  - destruct (He key v Hv) as [Hn Hu]. rewrite decide_False by done. rewrite Hk, Hn. cbn. f_equal.
    apply map_eq. intros k. destruct (decide (k = key)) as [->|Hne];
      [by rewrite lookup_insert_eq|by rewrite lookup_insert_ne, Hsame].
  - rewrite Hk. f_equal. apply map_eq. intros k. destruct (decide (k = key)) as [->|Hne];
      [by rewrite lookup_delete_eq|by rewrite lookup_delete_ne, Hsame].
Qed.

Lemma readable_set key v e :
  nul_free v = true -> utf8_decode v <> None -> readable e -> readable (<[key := v]> e).
Proof. intros Hn Hu He k x [[<- <-]|[_ Hx]]%lookup_insert_Some; [done|by eapply He]. Qed.
Lemma readable_remove key e : readable e -> readable (delete key e).
Proof. intros He k x [_ Hx]%lookup_delete_Some. by eapply He. Qed.

(** Guards restore the environment: a scope leaves it as it was, however its guards are
    nested and whatever variables they set or remove. *)
Theorem guards_restore s : forall e, usable s -> readable e -> run s e = Some e.
Proof.
  induction s as [|key value inner IH|key inner IH|s1 IH1 s2 IH2]; intros e Hu He; cbn [run usable] in *.
  - done.
  - destruct Hu as (Hk & Hn & Hv & Hu). unfold set, set_env_var. rewrite Hk, Hn. cbn [andb fmap option_fmap option_map].
    rewrite (IH _ Hu (readable_set key value e Hn Hv He)).
    apply drop_restores; [done|done|]. intros k Hne. by rewrite lookup_insert_ne.
  - destruct Hu as (Hk & Hu). unfold remove, remove_env_var. rewrite Hk. cbn [fmap option_fmap option_map].
    rewrite (IH _ Hu (readable_remove key e He)).
    apply drop_restores; [done|done|]. intros k Hne. by rewrite lookup_delete_ne.
  - destruct Hu as [Hu1 Hu2]. by rewrite (IH1 e Hu1 He), (IH2 e Hu2 He).
Qed.

(** A value that is not valid Unicode is not restored: the variable is gone after the
    guard. *)
Theorem other_values_are_lost key v e :
  is_key key = true -> utf8_decode v = None -> run (Removing key Body) (<[key := v]> e) = Some (delete key e).
Proof.
  intros Hk Hv. cbn. unfold remove, var, remove_env_var, drop. rewrite lookup_insert_eq, decide_True by done.
  rewrite Hk. cbn. unfold remove_env_var. rewrite Hk. f_equal. by rewrite delete_delete_eq, delete_insert_eq.
Qed.
End EnvGuard.

(** * The release workflow *)

Module Workflow.
(** [serde_yaml]: a parsed document and what is read from it. *)
Class Yaml := {
  value : Type;
  from_str : string -> result string value;
  get : string -> value -> option value;
  as_mapping : value -> option (list (value * value));
  as_sequence : value -> option (list value);
  as_str : value -> option string;
}.

Definition RUST_BUILD_RELEASE_PREFIX : string :=
  "leynos/shared-actions/.github/actions/rust-build-release@".
Definition UPLOAD_RELEASE_ASSETS_PREFIX : string :=
  "leynos/shared-actions/.github/actions/upload-release-assets@".

(** A full commit SHA: 40 lowercase hexadecimal digits. *)
Definition is_sha_byte (b : ascii) : bool := is_ascii_digit b || ((97 <=? code b) && (code b <=? 102)).
Definition is_forty_hex_commit_sha (commit : bytes) : bool :=
  (zlen commit =? 40) && forallb is_sha_byte commit.

(** [str::strip_prefix]. *)
Fixpoint strip_prefix (prefix s : bytes) : option bytes :=
  match prefix, s with
  | [], _ => Some s
  | c :: prefix, d :: s => if decide (c = d) then strip_prefix prefix s else None
  | _ :: _, [] => None
  end.
Definition pins (prefix uses : string) : bool :=
  match strip_prefix (bytes_of prefix) (bytes_of uses) with
  | Some commit => is_forty_hex_commit_sha commit
  | None => false
  end.

Section workflow.
Context `{Yaml}.

(** [step.get("uses").and_then(Value::as_str)]. *)
Definition uses_of (step : value) : option string :=
  match get "uses" step with Some v => as_str v | None => None end.

(** The flags [saw_rust_builder] and [saw_release_publisher] after a step, and after the
    steps of a job. *)
Definition see_step (saw : bool * bool) (step : value) : bool * bool :=
  match uses_of step with
  | Some uses =>
      (if pins RUST_BUILD_RELEASE_PREFIX uses then true else saw.1,
       if pins UPLOAD_RELEASE_ASSETS_PREFIX uses then true else saw.2)
  | None => saw
  end.
Definition see_job (saw : bool * bool) (job : value) : bool * bool :=
  match get "steps" job with
  | Some steps => match as_sequence steps with Some arr => foldl see_step saw arr | None => saw end
  | None => saw
  end.

Definition uses_shared_release_actions (yaml : string) : result string bool :=
  match from_str yaml with
  | Err e => Err e
  | Ok doc =>
      match get "jobs" doc with
      | None => Ok false
      | Some jobs =>
          match as_mapping jobs with
          | None => Ok false
          | Some map =>
              let '(saw_rust_builder, saw_release_publisher) := foldl see_job (false, false) map.*2 in
              Ok (saw_rust_builder && saw_release_publisher)
          end
      end
  end.

(** A step of a job uses the action at a full commit. *)
Definition step_pins (prefix : string) (step : value) : Prop :=
  exists uses commit, uses_of step = Some uses /\ bytes_of uses = bytes_of prefix ++ commit
    /\ length commit = 40%nat /\ Forall (fun b => is_sha_byte b = true) commit.
Definition job_pins (prefix : string) (job : value) : Prop :=
  exists steps arr, get "steps" job = Some steps /\ as_sequence steps = Some arr /\ Exists (step_pins prefix) arr.

Lemma strip_prefix_spec prefix : forall s rest, strip_prefix prefix s = Some rest <-> s = prefix ++ rest.
Proof.
  induction prefix as [|c prefix IH]; intros [|d s] rest; cbn [strip_prefix app].
  - split; congruence.
  - split; congruence.
  - split; congruence.
  - case_decide as Hc; [subst d; rewrite IH; split; congruence|]. split; [done|]. intros [= ? ?]. by destruct Hc.
Qed.

Lemma pins_spec prefix step uses : uses_of step = Some uses -> pins prefix uses = true <-> step_pins prefix step.
Proof.
  intros Hu. unfold pins, step_pins, is_forty_hex_commit_sha, zlen. split.
  - destruct (strip_prefix _ _) as [commit|] eqn:Hs; [|done]. apply strip_prefix_spec in Hs.
    intros [Hl%Z.eqb_eq Hf]%andb_true_iff. exists uses, commit. split_and!; [done|done|lia|].
    apply Forall_forall. intros b Hb. rewrite forallb_forall in Hf. apply Hf. by apply list_elem_of_In.
  - intros (x & commit & Hx & Hs%strip_prefix_spec & Hl & Hf). rewrite Hu in Hx. injection Hx as <-. rewrite Hs.
    apply andb_true_iff. split; [apply Z.eqb_eq; lia|]. apply forallb_forall. intros b Hb%list_elem_of_In.
    rewrite Forall_forall in Hf. by apply Hf.
Qed.

(** The flags record what was seen. *)
Definition flags (P Q : Prop) (saw saw' : bool * bool) : Prop :=
  (saw'.1 = true <-> saw.1 = true \/ P) /\ (saw'.2 = true <-> saw.2 = true \/ Q).

Lemma fold_flags {A} (f : bool * bool -> A -> bool * bool) (P Q : A -> Prop) l :
  (forall saw x, flags (P x) (Q x) saw (f saw x)) -> forall saw, flags (Exists P l) (Exists Q l) saw (foldl f saw l).
Proof.
  intros Hf. induction l as [|x l IH]; intros saw; cbn [foldl].
  { unfold flags. rewrite !Exists_nil. tauto. }
  destruct (IH (f saw x)) as [H1 H2], (Hf saw x) as [H3 H4]. unfold flags. rewrite !Exists_cons. tauto.
Qed.

Lemma flag_if (b c : bool) : (if b then true else c) = true <-> c = true \/ b = true.
Proof. destruct b, c; intuition. Qed.

Lemma see_step_flags saw step :
  flags (step_pins RUST_BUILD_RELEASE_PREFIX step) (step_pins UPLOAD_RELEASE_ASSETS_PREFIX step) saw (see_step saw step).
Proof.
  unfold see_step. destruct (uses_of step) as [uses|] eqn:Hu.
  - unfold flags. rewrite <- !(pins_spec _ _ _ Hu). cbn [fst snd].
    split; apply flag_if.
  - assert (Hno : forall prefix, ~ step_pins prefix step) by (intros prefix (x & c & Hx & _); congruence).
    pose proof (Hno RUST_BUILD_RELEASE_PREFIX). pose proof (Hno UPLOAD_RELEASE_ASSETS_PREFIX). unfold flags. tauto.
Qed.

Lemma see_job_flags saw job :
  flags (job_pins RUST_BUILD_RELEASE_PREFIX job) (job_pins UPLOAD_RELEASE_ASSETS_PREFIX job) saw (see_job saw job).
Proof.
  unfold see_job. destruct (get "steps" job) as [steps|] eqn:Hs; [destruct (as_sequence steps) as [arr|] eqn:Ha|].
  1:{ assert (Hjob : forall prefix, job_pins prefix job <-> Exists (step_pins prefix) arr).
      { intros prefix. split; [intros (x & l & Hx & Hl & He); congruence|]. intros He. by exists steps, arr. }
      unfold flags. rewrite !Hjob. apply (fold_flags see_step _ _ arr see_step_flags). }
  all: assert (Hno : forall prefix, ~ job_pins prefix job) by (intros prefix (x & l & Hx & Hl & _); congruence).
  all: pose proof (Hno RUST_BUILD_RELEASE_PREFIX); pose proof (Hno UPLOAD_RELEASE_ASSETS_PREFIX); unfold flags; tauto.
Qed.

(** The check accepts exactly the workflows in which some job builds with the shared
    action and some job publishes with the other one, each pinned to a full commit. *)
Theorem workflow_is_pinned yaml doc jobs map :
  from_str yaml = Ok doc -> get "jobs" doc = Some jobs -> as_mapping jobs = Some map ->
  uses_shared_release_actions yaml = Ok true
  <-> Exists (job_pins RUST_BUILD_RELEASE_PREFIX) map.*2 /\ Exists (job_pins UPLOAD_RELEASE_ASSETS_PREFIX) map.*2.
Proof.
  intros Hd Hj Hm. unfold uses_shared_release_actions. rewrite Hd, Hj, Hm.
  destruct (fold_flags see_job _ _ map.*2 see_job_flags (false, false)) as [H1 H2].
  destruct (foldl see_job (false, false) map.*2) as [b p]. cbn [fst snd] in *.
  clear -H1 H2. assert (Hok : @Ok string bool (b && p) = Ok true <-> b = true /\ p = true)
    by (destruct b, p; split; (done || by intros [? ?])).
  rewrite Hok, H1, H2. clear. set (P := Exists _ _). set (Q := Exists _ _). intuition congruence.
Qed.
End workflow.
End Workflow.

(** * Polling *)

Module Util.
Definition SOCKET_RETRY_COUNT : Z := 10.
Definition SOCKET_RETRY_DELAY : Z := 10.

Section polling.
(** Whether the path exists at an instant. *)
Context (path_exists : Z -> bool).

(** Wait for a file, sleeping after each failed check; [sleeps] are the times the sleeps
    took, one per try.  Whether it was found, and when the last check was made. *)
Fixpoint wait_for_file (sleeps : list Z) (at_ : Z) : bool * Z :=
  match sleeps with
  | [] => (path_exists at_, at_)
  | slept :: sleeps => if path_exists at_ then (true, at_) else wait_for_file sleeps (at_ + slept)
  end.

(** The instants of the checks. *)
Fixpoint checks (sleeps : list Z) (at_ : Z) : list Z :=
  at_ :: match sleeps with [] => [] | slept :: sleeps => checks sleeps (at_ + slept) end.

(** A file that is there at one of the checks is found at the first of them; the wait
    covers the whole of [tries * delay] before it is given up. *)
Theorem wait_for_file_finds delay sleeps : forall at_,
  Forall (fun s => delay <= s) sleeps ->
  (Exists (fun t => path_exists t = true) (checks sleeps at_) <-> (wait_for_file sleeps at_).1 = true)
  /\ ((wait_for_file sleeps at_).1 = false -> at_ + zlen sleeps * delay <= (wait_for_file sleeps at_).2).
Proof.
  induction sleeps as [|s sleeps IH]; intros at_ Hf; cbn [checks wait_for_file fst snd].
  { rewrite Exists_cons, Exists_nil. split; [tauto|]. intros _. unfold zlen. cbn. lia. }
  apply Forall_cons_1 in Hf as [Hs Hf]. destruct (IH (at_ + s) Hf) as [IH1 IH2]. rewrite Exists_cons, zlen_cons.
  destruct (path_exists at_); cbn [fst snd]; [split; [tauto|done]|]. split; [|intros Hno; specialize (IH2 Hno); lia].
  rewrite IH1. split; [by intros [?|?]|by right].
Qed.
End polling.

(** Poll a predicate until it succeeds or a timeout elapses.  A poll of the whole gives
    the instant and, when an evaluation of the predicate is over, its result; the
    predicate is evaluated once at first and then at every tick, which is when polls
    happen; a result that is there wins over the timeout. *)
Fixpoint poll_until `{Timer} (timeout_duration started : Z) (polls : list (Z * option bool)) : option bool :=
  match polls with
  | [] => None
  | (_, Some true) :: _ => Some true
  | (now, _) :: polls =>
      if ready started timeout_duration now then Some false else poll_until timeout_duration started polls
  end.

(** A poll that ends was right: with a predicate that held, or after the timeout without
    one; and it has ended a millisecond after the timeout. *)
Theorem poll_until_ends `{Timer} `{!TimerOk} timeout_duration started polls r :
  started + timeout_duration < INSTANT_LIMIT -> poll_until timeout_duration started polls = r ->
  match r with
  | Some true => exists now, (now, Some true) ∈ polls
  | Some false => exists now v, (now, v) ∈ polls /\ started + timeout_duration <= now
  | None => Forall (fun p => p.2 <> Some true /\ p.1 < started + timeout_duration + 10 ^ 6) polls
  end.
Proof.
  intros Hlim. revert r. induction polls as [|[now v] polls IH]; intros r; cbn [poll_until]; [by intros <-|].
  assert (Hrest : v <> Some true ->
    (if ready started timeout_duration now then Some false else poll_until timeout_duration started polls) = r ->
    match r with
    | Some true => exists t, (t, Some true) ∈ (now, v) :: polls
    | Some false => exists t x, (t, x) ∈ (now, v) :: polls /\ started + timeout_duration <= t
    | None => Forall (fun p => p.2 <> Some true /\ p.1 < started + timeout_duration + 10 ^ 6) ((now, v) :: polls)
    end).
  { intros Hv. destruct (ready started timeout_duration now) eqn:Hr.
    { intros <-. exists now, v. split; [by left|]. by apply ready_late. }
    intros Hrun. specialize (IH r Hrun). destruct r as [[]|].
    - destruct IH as [t Ht]. exists t. by right.
    - destruct IH as (t & x & Ht & Hle). exists t, x. split; [by right|done].
    - constructor; [|done]. split; [done|]. cbn [fst].
      destruct (Z.lt_ge_cases now (started + timeout_duration + 10 ^ 6)) as [|Hge]; [done|].
      by rewrite ready_soon in Hr. }
  destruct v as [[]|]; [|by apply Hrest..]. intros <-. exists now. by left.
Qed.
End Util.

(** * The configuration of tests *)

Module TestConfig.
Record t := mk {
  github_token : list Z;
  socket_path : string;
  queue_path : string;
  cooldown_period_seconds : Z;
  restart_min_delay_ms : Z;
  github_api_timeout_secs : Z;
}.

Definition default_config : t := mk [] "" "" 1 1 30.
Definition temp_config (tmp : string) : t := mk (chars "t") (join tmp "sock") (join tmp "q") 1 1 30.

(** Durations as seconds and nanoseconds below a second. *)
Record duration := Duration { secs : Z; nanos : Z }.
Definition duration_ok (d : duration) : Prop := is_u64 (secs d) /\ 0 <= nanos d < 10 ^ 9.
Definition as_millis (d : duration) : Z := secs d * 1000 + nanos d / 10 ^ 6.
(** The cast [as u64]. *)
Definition as_u64 (n : Z) : Z := n mod 2 ^ 64.

Definition with_cooldown (n : Z) (c : t) : t :=
  mk (github_token c) (socket_path c) (queue_path c) n (restart_min_delay_ms c) (github_api_timeout_secs c).
Definition with_delay (ms : Z) (c : t) : t :=
  mk (github_token c) (socket_path c) (queue_path c) (cooldown_period_seconds c) ms (github_api_timeout_secs c).
Definition with_restart_min_delay_ms (ms : Z) (c : t) : t := with_delay (Z.max ms 1) c.
Definition with_restart_min_delay (d : duration) (c : t) : t := with_delay (as_u64 (Z.max (as_millis d) 1)) c.
Definition with_github_api_timeout_secs (n : Z) (c : t) : t :=
  mk (github_token c) (socket_path c) (queue_path c) (cooldown_period_seconds c) (restart_min_delay_ms c) n.
Definition with_github_api_timeout (d : duration) (c : t) : t := with_github_api_timeout_secs (secs d) c.

(** [Config::from(TestConfig)], by value and by reference. *)
Definition into_config (value : t) : DaemonConfig.t :=
  DaemonConfig.mk (github_token value) None [] (socket_path value) (queue_path value)
    (cooldown_period_seconds value) DEFAULT_COOLDOWN_FLUTTER (restart_min_delay_ms value)
    (github_api_timeout_secs value).

(** A delay that fits is kept, and is never zero. *)
Theorem delay_is_positive d c :
  as_millis d < 2 ^ 64 -> 0 <= as_millis d ->
  restart_min_delay_ms (with_restart_min_delay d c) = Z.max (as_millis d) 1
  /\ 0 < DaemonConfig.restart_min_delay_ms (into_config (with_restart_min_delay d c)).
Proof.
  intros Hlt Hpos. cbn. unfold as_u64. rewrite Z.mod_small by lia. lia.
Qed.

(** A longer one is cut to 64 bits after the check for zero, and can become zero. *)
Theorem long_delay_becomes_zero c :
  duration_ok (Duration 18446744073709551 616000000)
  /\ restart_min_delay_ms (with_restart_min_delay (Duration 18446744073709551 616000000) c) = 0.
Proof. split; by vm_compute. Qed.
End TestConfig.
