(* ===== verification/Session.v ===== *)
(** The client against the daemon: the history command over the listener's pages,
    and the foreground wait over the frames of an await stream. *)

From S2P Require Import Prelude Text Protocol Disk Entry Wire Order Bounds Scan History Store.
From S2P Require Import Lines Reverse Log Pages Queue Listener Replies Output Args Client.

(** * Output that does not fail *)

Lemma write_lines_quiet ls lines :
  write_lines ls (Out lines []) = (Ok true, Out (lines ++ ls) []).
Proof.
  revert lines. induction ls as [|l ls IH]; intros lines; cbn [write_lines write_line o_faults o_lines].
  { by rewrite app_nil_r. }
  rewrite IH, <- app_assoc. done.
Qed.

Section history.
Context `{Platform} `{SerdeJson} `{!SerdeJsonOk} `{WireJson} `{!WireJsonOk} (cfg : Config.t).
(** The salts [put] may try and the flutter it draws. *)
Context (salts : nat) (sampled : Z).

(** One exchange over a connection that does not fail: the listener answers the
    client's request bytes, the client reads what the listener wrote. *)
Definition exchange (request : Request.t) (q : queue) : result ClientError Response.t * queue :=
  let '(written, q') :=
    match request_to_vec request with
    | None => ([], q)
    | Some payload =>
        match handle_client_inner cfg salts sampled (Connection (Ok payload) None None) q with
        | (Done (written, _), q') => (written, q')
        | (_, q') => ([], q')
        end
    end in
  (transact_with_timeout (fun _ => Ok (Peer None None (Ok written))) false ["socket"] request, q').

(** The transport adds nothing: the client receives what the queue answered. *)
Lemma exchange_dispatch request payload q response kind q' b :
  request_wf request -> request_to_vec request = Some payload -> zlen payload <= MAX_REQUEST_BYTES ->
  dispatch_request_with_error_kind cfg salts sampled request q = (Done (response, kind), q') ->
  response_wf response -> response_to_vec response = Some b -> zlen b <= MAX_RESPONSE_BYTES ->
  exchange request q = (Ok response, q').
Proof.
  intros Hwf Hp Hreq Hd Hrwf Hb Hlen. unfold exchange. rewrite Hp.
  unfold handle_client_inner. cbn [c_read c_write c_shutdown].
  rewrite (ztake_all _ payload) by lia.
  destruct (Z.ltb_spec MAX_REQUEST_BYTES (zlen payload)); [lia|].
  unfold qbind at 1, reply_to. rewrite (request_round_trip _ payload Hwf Hp).
  unfold qbind at 1. rewrite Hd. unfold qret, encode_reply. cbn beta iota. rewrite Hb.
  destruct (Z.ltb_spec MAX_RESPONSE_BYTES (zlen b)); [lia|].
  unfold transact_with_timeout. rewrite Hp. destruct (Z.ltb_spec MAX_REQUEST_BYTES (zlen payload)); [lia|].
  cbn [connect_first connect_loop p_write p_shutdown p_reply].
  rewrite (ztake_all _ b) by lia. destruct (Z.ltb_spec MAX_RESPONSE_BYTES (zlen b)); [lia|].
  by rewrite (response_round_trip response b Hrwf Hb).
Qed.

(** A history request whose page the queue reads and whose reply fits. *)
Lemma exchange_page limit cursor q page response b :
  request_wf (Request.Hist limit cursor) ->
  SharedQueue.history_page limit (position_of_cursor <$> cursor) q = (Done page, q) ->
  response_for_history page = Some response -> is_error response = false -> response_wf response ->
  response_to_vec response = Some b -> zlen b <= MAX_RESPONSE_BYTES ->
  exchange (Request.Hist limit cursor) q = (Ok response, q).
Proof.
  intros Hwf Hpage Hresp Herr Hrwf Hb Hlen.
  destruct (request_to_vec_total _ Hwf) as [payload Hp].
  pose proof (hist_request_size limit cursor payload Hwf Hp) as Hsz.
  apply (exchange_dispatch _ payload q response None q b); try done.
  - change MAX_REQUEST_BYTES with 1048576. lia.
  - cbn [dispatch_request_with_error_kind]. unfold qbind, qattempt. rewrite Hpage.
    unfold qret. rewrite Hresp. cbn [bounded_response]. by rewrite Herr.
Qed.

(** ** A log the daemon serves *)

(** Every record is typed and small enough for a reply of its own. *)
Record servable (c : bytes) : Prop := {
  sv_size : is_u64 (zlen c);
  sv_typed : Forall record_typed (log_records c);
  sv_fits : forall r cursor b, r ∈ log_records c -> cursor_opt_typed cursor ->
    response_to_vec (Response.history [history_entry r] cursor) = Some b -> zlen b <= MAX_RESPONSE_BYTES;
}.

Lemma position_typed c x y : servable c -> c = x ++ y -> cursor_typed (cursor_of (position_of x y)).
Proof.
  intros Hs ->. pose proof (sv_size _ Hs) as Hu. rewrite zlen_app in Hu.
  pose proof (zlen_nonneg x). pose proof (zlen_nonneg y).
  split; cbn [cursor_of position_of HistoryCursor.offset HistoryCursor.end_offset
    HistoryPosition.offset HistoryPosition.end_offset]; unfold is_u64 in *; lia.
Qed.

Lemma page_items_typed c x y page_size :
  servable c -> c = x ++ y -> log_records c = log_records x ++ log_records y -> 0 < page_size ->
  Forall item_typed (HistoryPage.records (page_of page_size x y))
  /\ next_typed (HistoryPage.next (page_of page_size x y)).
Proof.
  intros Hs Hc Hrecs Hps. split.
  - apply Forall_forall. intros item Hin. apply list_elem_of_split in Hin as (l1 & l2 & Hl).
    destruct (page_of_prefix page_size x y (l1 ++ [item]) l2) as
      (y1 & y2 & i & Hy & _ & Hr12 & Hr1 & Hlast & Hpos & _); [done|by rewrite Hl, <- app_assoc|by destruct l1|].
    rewrite last_snoc in Hlast. injection Hlast as <-. split.
    + pose proof (sv_typed c Hs) as Hall. rewrite Hrecs, Hr12, Hr1 in Hall.
      rewrite !Forall_app in Hall. destruct Hall as (_ & Hall & _). rewrite fmap_app in Hall.
      apply Forall_app in Hall as [_ [Hi _]%Forall_cons_1]. done.
    + rewrite Hpos. apply (position_typed c); [done|]. by rewrite Hc, Hy, <- app_assoc.
  - destruct (page_of_spec page_size x y Hps) as (y1 & y2 & Hy & _ & _ & -> & _).
    unfold next_typed. case_decide; [done|]. apply (position_typed c); [done|]. by rewrite Hc, Hy, <- app_assoc.
Qed.

Lemma fits_one c item cursor :
  servable c -> HistoryRecordAt.record item ∈ log_records c -> cursor_opt_typed cursor ->
  fits_reply [item] cursor.
Proof. intros Hs Hin Hc b Hb. by eapply (sv_fits c Hs). Qed.

(** What one page request brings: some records and where to continue. *)
Lemma serve_page c x y q limit cursor :
  servable c -> c = x ++ y -> line_start x \/ y = [] -> request_wf (Request.Hist limit cursor) ->
  SharedQueue.history_page limit (position_of_cursor <$> cursor) q
  = (Done (page_of HISTORY_READ_PAGE_SIZE x y), q) ->
  exists rs next, exchange (Request.Hist limit cursor) q
                  = (Ok (Response.history (history_entry <$> rs) next), q)
    /\ ((next = None /\ log_records y = rs)
        \/ exists y1 y2, y = y1 ++ y2 /\ y1 <> [] /\ rs <> [] /\ line_start (x ++ y1)
             /\ log_records y = rs ++ log_records y2
             /\ next = Some (cursor_of (position_of (x ++ y1) y2))).
Proof.
  intros Hs Hc Hx Hwf Hpage. assert (Hps : 0 < HISTORY_READ_PAGE_SIZE) by done.
  assert (Hrecs : log_records c = log_records x ++ log_records y) 
    by (rewrite Hc; destruct Hx as [Hx| ->]; unfold log_records;
        [by rewrite lines_app, omap_app|cbn; by rewrite !app_nil_r]).
  destruct (page_items_typed c x y _ Hs Hc Hrecs Hps) as [Hit Hnt].
  set (page := page_of HISTORY_READ_PAGE_SIZE x y) in *.
  destruct (history_reply_spec page Hit Hnt) as [(taken & left_ & Hp & Hne & Hr & Hfit)|[(item & left_ & Hp & Hbig) _]].
  2:{ exfalso. apply Hbig, (fits_one c); [done| |].
      - destruct (page_of_prefix HISTORY_READ_PAGE_SIZE x y [item] left_) as (y1 & y2 & i & _ & _ & Hr12 & Hr1 & _);
          [done|exact Hp|done|]. rewrite Hrecs, Hr12, Hr1. 
        rewrite !elem_of_app. right. left. apply list_elem_of_here.
      - apply resume_typed; [|done]. rewrite Hp in Hit. apply Forall_singleton. by apply Forall_cons_1 in Hit as [? _]. }
  assert (Hent : page_entries taken = history_entry <$> (HistoryRecordAt.record <$> taken))
    by (unfold page_entries; by rewrite <- list_fmap_compose).
  assert (Htt : Forall item_typed taken) by (rewrite Hp in Hit; by apply Forall_app in Hit as [? _]).
  assert (Hrwf : response_wf (Response.history (page_entries taken) (resume taken left_ (HistoryPage.next page)))).
  { split_and!; [done|done| |by apply resume_typed]. apply Forall_fmap. eapply Forall_impl; [exact Htt|].
    apply history_entry_ok. }
  destruct (response_to_vec_total _ Hrwf) as [b Hb].
  exists (HistoryRecordAt.record <$> taken), (resume taken left_ (HistoryPage.next page)). rewrite <- Hent.
  split; [by eapply exchange_page, Hfit|].
  destruct taken as [|i0 taken].
  - left. rewrite (Hne eq_refl) in Hp. destruct (page_of_spec HISTORY_READ_PAGE_SIZE x y Hps)
      as (y1 & y2 & Hy & Hl & Hpr & Hnx & Hfull & _). fold page in Hpr, Hnx. rewrite Hp in Hpr. cbn in Hpr.
    assert (y2 = []) as -> by (destruct Hfull as [|Hfull]; [done|]; by rewrite <- Hpr in Hfull).
    unfold resume. cbn [last]. rewrite Hnx. split; [done|]. rewrite Hy, app_nil_r. by rewrite <- Hpr.
  - destruct (page_of_prefix HISTORY_READ_PAGE_SIZE x y (i0 :: taken) left_) as
      (y1 & y2 & item & Hy & Hy1 & Hr12 & Hr1 & Hlast & Hpos & Hmore & Hend & Hstart); [done|exact Hp|done|].
    fold page in Hmore, Hend. unfold resume. rewrite Hlast.
    destruct (bool_decide (left_ <> []) || bool_decide (HistoryPage.next page <> None)) eqn:Hm.
    + right. exists y1, y2. rewrite Hpos. apply orb_prop in Hm.
      assert (Hy2 : y2 <> []) by (apply Hmore; destruct Hm as [Hm|Hm]; apply bool_decide_eq_true in Hm; auto).
      split_and!; try done; [by apply Hstart|]. by rewrite Hr12, Hr1.
    + left. apply orb_false_iff in Hm as [Hm1%bool_decide_eq_false Hm2%bool_decide_eq_false].
      split; [done|]. rewrite Hr12, Hr1, Hend, app_nil_r; [done| |].
      * by destruct left_; [|exfalso; apply Hm1].
      * by destruct (HistoryPage.next page); [exfalso; apply Hm2|].
Qed.

(** ** The command *)

(** What the command prints for these records. *)
Definition printed_history (rs : list HistoryRecord.t) (now : Z) : list (list Z) :=
  match rs with
  | [] => [chars "No posting history recorded."]
  | _ => (fun r => render_history (history_entry r) now) <$> rs
  end.

Lemma render_page_quiet rs now lines :
  rs <> [] ->
  render_history_reply (history_entry <$> rs) now (Out lines [])
  = (Ok true, Out (lines ++ ((fun r => render_history (history_entry r) now) <$> rs)) []).
Proof.
  intros Hne. unfold render_history_reply. destruct rs as [|r rs]; [done|]. rewrite fmap_cons at 1.
  rewrite write_lines_quiet. by rewrite <- list_fmap_compose.
Qed.

(** The queue at rest over a log. *)
Definition serves (q : queue) (c : bytes) : Prop :=
  w_faults (q_world q) = [] /\ dget (w_disk (q_world q)) HISTORY_FILE = Some (Regular c).

Lemma history_page_quiet q limit position page :
  read_page HISTORY_FILE position limit HISTORY_READ_PAGE_SIZE (q_world q) = (Done page, q_world q) ->
  SharedQueue.history_page limit position q = (Done page, q).
Proof.
  intros Hr. unfold SharedQueue.history_page, with_store, with_state, on_store. cbn [fst snd].
  rewrite Hr. by destruct q.
Qed.

Lemma position_cursor (position : HistoryPosition.t) : position_of_cursor (cursor_of position) = position.
Proof. by destruct position. Qed.

Lemma loop_prints c q now limit : servable c -> serves q c ->
  forall fuel x y cursor found lines,
  c = x ++ y -> line_start x \/ y = [] -> (length y <= fuel)%nat ->
  (cursor = None \/ cursor = Some (cursor_of (position_of x y))) ->
  request_wf (Request.Hist (if decide (cursor = None) then limit else None) cursor) ->
  SharedQueue.history_page (if decide (cursor = None) then limit else None) (position_of_cursor <$> cursor) q
  = (Done (page_of HISTORY_READ_PAGE_SIZE x y), q) ->
  history_pages_loop exchange fuel limit now cursor found q (Out lines [])
  = (Some (Ok tt), q,
     Out (lines ++ (if found : bool then (fun r => render_history (history_entry r) now) <$> log_records y
                    else printed_history (log_records y) now)) []).
Proof.
  intros Hs [Hq Hf]. induction fuel as [|fuel IH]; intros x y cursor found lines Hc Hx Hfuel Hcur Hwf Hpage;
    destruct (serve_page c x y q _ cursor Hs Hc Hx Hwf Hpage) as (rs & next & Hex & Hnext);
    cbn [history_pages_loop]; cbn zeta; rewrite Hex; cbn [Response.history].
  all: assert (Hrep : bool_decide (cursor <> None) && bool_decide (next = cursor) = false)
    by (destruct Hcur as [-> | ->]; [done|]; rewrite bool_decide_true by done; cbn [andb];
        apply bool_decide_eq_false; destruct Hnext as [[-> _]|(y1 & y2 & _ & Hy1 & _ & _ & _ & ->)];
        [done|]; intros [= Heq _]; rewrite zlen_app in Heq; pose proof (zlen_pos y1 Hy1); lia).
  all: destruct Hnext as [[-> Hall]|(y1 & y2 & Hy & Hy1 & Hrs & Hst & Hall & ->)].
  2:{ exfalso. rewrite Hy, length_app in Hfuel. destruct y1; [done|cbn in Hfuel; lia]. }
  1,2: rewrite Hall; destruct rs as [|r rs];
    [cbn [fmap list_fmap]; rewrite Hrep; destruct found; [by rewrite app_nil_r|done]
    |rewrite fmap_cons; rewrite <- fmap_cons; rewrite render_page_quiet by done; rewrite Hrep;
     by destruct found].
  assert (Hnn : history_entry <$> rs <> []) by by destruct rs.
  destruct (history_entry <$> rs) as [|h hs] eqn:Hhs; [done|]. rewrite <- Hhs.
  rewrite render_page_quiet by done. rewrite Hrep.
  rewrite (IH (x ++ y1) y2); [| |by left| |by right| |].
  - cbn [app]. rewrite <- app_assoc, Hall, fmap_app. do 3 f_equal. destruct found; [done|].
    unfold printed_history. destruct (rs ++ log_records y2) as [|r0 l0] eqn:Hl; [by destruct rs|].
    by rewrite <- Hl, fmap_app.
  - by rewrite <- app_assoc, <- Hy.
  - rewrite Hy, length_app in Hfuel. destruct y1; [done|cbn in Hfuel; lia].
  - rewrite decide_False by done. split; [done|]. apply (position_typed c); [done|]. by rewrite Hc, Hy, <- app_assoc.
  - rewrite decide_False by done. cbn [fmap option_fmap option_map]. rewrite position_cursor.
    apply history_page_quiet. destruct (q_world q) as [d fs u]. cbn [w_faults w_disk] in *. subst fs.
    apply (read_page_at HISTORY_FILE u d (x ++ y1) y2 []); [|done|done].
    by rewrite app_nil_r, Hf, Hc, Hy, <- app_assoc.
Qed.
End history.

(** * The foreground wait *)

Lemma until_newline_line b r : NEWLINE ∉ b -> until_newline (b ++ NEWLINE :: r) = (b ++ [NEWLINE], r).
Proof.
  induction b as [|c b IH]; intros Hb; cbn [app until_newline]; [by rewrite decide_True|].
  apply not_elem_of_cons in Hb as [Hc Hb]. rewrite decide_False by congruence. by rewrite IH.
Qed.

Lemma report_interval_pos seconds : 0 <= seconds -> 1 <= report_interval seconds.
Proof.
  intros Hs. unfold report_interval. destruct (Z.eqb_spec seconds 0); [lia|].
  repeat destruct (_ <=? _); lia.
Qed.

Section wait.
Context `{WireJson} `{!WireJsonOk}.

(** A frame is read back as the event it was made of, and no further. *)
Lemma read_frame_of event frame rest fault :
  event_wf event -> frame_of event frame ->
  read_frame (Incoming (frame ++ rest) fault) = (Ok (Frame event), Incoming rest fault).
Proof.
  intros Hwf (b & Hb & -> & Hlen). unfold read_frame. cbn [i_bytes i_fault].
  set (n := Z.to_nat (MAX_AWAIT_FRAME_BYTES + 1)).
  assert (Hn : (length (b ++ [NEWLINE]) <= n)%nat) by (unfold zlen in Hlen; lia).
  rewrite ztake_take, zdrop_drop. fold n. rewrite take_app_ge, drop_app_ge by done.
  rewrite <- app_assoc. cbn [app]. rewrite until_newline_line by by eapply event_to_vec_line.
  destruct (Z.ltb_spec MAX_AWAIT_FRAME_BYTES (zlen (b ++ [NEWLINE]))); [lia|].
  rewrite last_snoc, decide_True by done. rewrite (event_round_trip event b Hwf Hb).
  by rewrite take_drop.
Qed.

(** A countdown that is up to date at [now]. *)
Definition current_at (now : Z) (c : Countdown) : Prop :=
  0 <= eta c /\ arrived c <= now <= next_report c.

(** The ticks before [until] print remaining times; the fuel is enough. *)
Lemma ticks_quiet fuel : forall c now until lines,
  current_at now c -> until - next_report c <= Z.of_nat fuel -> now <= until ->
  exists rs c', ticks fuel c until (Out lines []) = (Ok c', Out (lines ++ (render_remaining <$> rs)) [])
    /\ Forall (fun r => 0 <= r <= eta c) rs /\ current_at until c' /\ eta c' = eta c.
Proof.
  induction fuel as [|fuel IH]; intros c now until lines (He & Ha & Hn) Hfuel Hu; cbn [ticks];
    destruct (Z.ltb_spec (next_report c) until) as [Hlt|Hge]; [lia| | |].
  1,3: exists [], c; cbn [fmap list_fmap]; rewrite app_nil_r; split_and!; try done; unfold current_at; lia.
  unfold report, write_line. cbn [o_faults o_lines]. set (rest := remaining c (next_report c)).
  assert (Hr : 0 <= rest <= eta c) by (unfold rest, remaining, sat_sub; lia).
  pose proof (report_interval_pos rest ltac:(lia)).
  set (c1 := MkCountdown (eta c) (arrived c) (next_report c + report_interval rest)).
  destruct (IH c1 (next_report c) until (lines ++ [render_remaining rest])) as (rs & c' & Hrun & Hrs & Hc' & Heta).
  - unfold current_at. cbn [c1 eta arrived next_report]. lia.
  - cbn [c1 next_report]. lia.
  - lia.
  - exists (rest :: rs), c'. rewrite Hrun, <- app_assoc. split_and!; try done. by constructor.
Qed.

(** When the reads complete: each within the deadline that applies to it. *)
Fixpoint timely (now deadline : Z) (times : list Z) : Prop :=
  match times with
  | [] => True
  | t :: times => now <= t <= now + deadline /\ timely t AWAIT_IDLE_TIMEOUT_SECS times
  end.

Definition countdown_ok (now : Z) (c : option Countdown) : Prop :=
  match c with Some c => current_at now c | None => True end.

(** The ticks of one read, as [receive] runs them. *)
Lemma ticks_before now at_ c lines :
  countdown_ok now c -> now <= at_ ->
  exists rs c', match c with
                | None => (Ok None, Out lines [])
                | Some c =>
                    match ticks (Z.to_nat (at_ - now)) c at_ (Out lines []) with
                    | (Ok c, stderr) => (Ok (Some c), stderr)
                    | (Err e, stderr) => (Err e, stderr)
                    end
                end = (Ok c', Out (lines ++ (render_remaining <$> rs)) [])
    /\ Forall (fun r => 0 <= r) rs /\ countdown_ok at_ c' /\ (c = None <-> c' = None) /\ (c = None -> rs = []).
Proof.
  intros Hc Hle. destruct c as [c|].
  - destruct (ticks_quiet (Z.to_nat (at_ - now)) c now at_ lines Hc) as (rs & c' & -> & Hrs & Hc' & _); [|done|].
    { destruct Hc as (_ & _ & ?). lia. }
    exists rs, (Some c'). split_and!; try done. eapply Forall_impl; [exact Hrs|]. cbn. lia.
  - exists [], None. cbn [fmap list_fmap]. rewrite app_nil_r. by split_and!.
Qed.

Lemma observe_quiet_stderr c eta_seconds at_ lines :
  countdown_ok at_ c -> 0 <= eta_seconds ->
  exists c', observe c eta_seconds at_ (Out lines [])
    = (Ok c', Out (lines ++ (match c with Some _ => [] | None => [render_remaining eta_seconds] end)) [])
    /\ current_at at_ c'.
Proof.
  intros Hc He. pose proof (report_interval_pos eta_seconds He). unfold observe. destruct c as [c|].
  - eexists. rewrite app_nil_r. split; [done|]. destruct Hc as (? & ? & ?). unfold current_at.
    cbn [eta arrived next_report]. lia.
  - unfold report, write_line. cbn [o_faults o_lines].
    replace (remaining (MkCountdown eta_seconds at_ at_) at_) with eta_seconds
      by (unfold remaining, sat_sub; cbn; lia).
    eexists. split; [done|]. unfold current_at. cbn [eta arrived next_report]. lia.
Qed.

(** What the wait ends with: its result and the lines on standard output. *)
Definition wait_result (answer : AwaitEvent.t) : result ClientError unit :=
  match answer with
  | AwaitEvent.Error m => Err (Daemon m)
  | _ => Ok tt
  end.
Definition wait_output (answer : AwaitEvent.t) : list (list Z) :=
  match answer with
  | AwaitEvent.Posted url => [terminal_safe (chars url)]
  | _ => []
  end.

Lemma receive_stream etas answer : forall times frames rest fault now deadline c lo le,
  length times = S (length etas) -> timely now deadline times ->
  Forall2 frame_of ((AwaitEvent.Waiting <$> etas) ++ [answer]) frames ->
  Forall event_wf ((AwaitEvent.Waiting <$> etas) ++ [answer]) -> terminal answer -> countdown_ok now c ->
  exists rs, receive times (Incoming (concat frames ++ rest) fault) now deadline c (Out lo []) (Out le [])
    = (wait_result answer, Out (lo ++ wait_output answer) [], Out (le ++ (render_remaining <$> rs)) [])
    /\ Forall (fun r => 0 <= r) rs /\ (c = None -> head rs = head etas).
Proof.
  induction etas as [|e etas IH]; intros times frames rest fault now deadline c lo le Hlen Htimes Hfr Hwf Hterm Hc;
    destruct times as [|at_ times]; try done; destruct Htimes as [Hat Htimes]; cbn [receive];
    rewrite (Z.min_l at_ (now + deadline)) by lia;
    destruct (ticks_before now at_ c le Hc) as (rs & c' & Hticks & Hrs & Hc' & Hnone & Hnil); try lia;
    cbn zeta; rewrite Hticks; destruct (Z.ltb_spec (now + deadline) at_); try lia.
  - cbn [fmap list_fmap app] in Hfr, Hwf. apply Forall2_cons_inv_l in Hfr as (f & fs & Hf & Hfs & ->).
    apply Forall2_nil_inv_l in Hfs as ->. apply Forall_cons_1 in Hwf as [Hwa _]. cbn [concat].
    rewrite app_nil_r, (read_frame_of answer f rest fault Hwa Hf).
    exists rs. split_and!; [|done|intros Hcn; by rewrite (Hnil Hcn)].
    destruct answer as [?|url|m]; [done| |].
    + unfold write_line, wait_output. cbn [o_faults o_lines discard]. done.
    + unfold wait_output. by rewrite app_nil_r.
  - rewrite fmap_cons in Hfr, Hwf. cbn [app] in Hfr, Hwf.
    apply Forall2_cons_inv_l in Hfr as (f & fs & Hf & Hfs & ->). apply Forall_cons_1 in Hwf as [Hwe Hwf].
    cbn [concat]. rewrite <- app_assoc, (read_frame_of _ f _ fault Hwe Hf).
    destruct (observe_quiet_stderr c' e at_ (le ++ (render_remaining <$> rs)) Hc') as (c1 & -> & Hc1);
      [apply Hwe|].
    destruct (IH times fs rest fault at_ AWAIT_IDLE_TIMEOUT_SECS (Some c1) lo
      ((le ++ (render_remaining <$> rs)) ++ (match c' with Some _ => [] | None => [render_remaining e] end))) as (rs' & -> & Hrs' & _);
      [cbn in Hlen; lia|done|done|done|done|done|].
    exists (rs ++ (match c' with Some _ => [] | None => [e] end) ++ rs'). split_and!.
    + rewrite !fmap_app, <- !app_assoc. by destruct c'.
    + apply Forall_app. split; [done|]. apply Forall_app. split; [|done]. destruct c'; [constructor|].
      apply Forall_singleton, Hwe.
    + intros Hcn. rewrite (Hnil Hcn). apply Hnone in Hcn as ->. done.
Qed.
End wait.

(** * Results *)

(** C28: [comenq hist] prints the history.  Against the daemon's listener, for a log
    whose records each fit in a reply, the command ends after at most one request
    per byte of the log and prints every record once and in order, or the newest
    [limit] of them, and leaves the queue as it was. *)
Theorem hist_prints_the_log `{Platform} `{SerdeJson} `{!SerdeJsonOk} `{WireJson} `{!WireJsonOk} cfg salts sampled q c limit now lines :
  servable c -> serves q c ->
  match limit with Some n => 0 < n /\ is_u64 n /\ boundary_free c | None => True end ->
  run_history_pages (exchange cfg salts sampled) (length c) limit now q (Out lines [])
  = (Some (Ok tt), q,
     Out (lines ++ printed_history
                     (match limit with
                      | None => log_records c
                      | Some n => drop (length (log_records c) - Z.to_nat n) (log_records c)
                      end) now) []).
Proof.
  intros Hs Hq Hlim. unfold run_history_pages. pose proof Hq as [Hfs Hf].
  assert (Hw : q_world q = World (w_disk (q_world q)) [] (w_uuids (q_world q)))
    by (destruct (q_world q); cbn in *; by rewrite Hfs).
  destruct limit as [n|].
  - destruct Hlim as (Hn & Hu & Hbf).
    destruct (read_page_recent HISTORY_FILE (w_uuids (q_world q)) (w_disk (q_world q)) c n
                HISTORY_READ_PAGE_SIZE Hf Hbf Hn) as (x & y & Hc & Hx & Hrun & Hrec); [done|].
    rewrite (loop_prints cfg salts sampled c q now (Some n) Hs Hq _ x y None false lines Hc Hx); try done.
    + by rewrite Hrec.
    + rewrite Hc, length_app. lia.
    + by left.
    + apply history_page_quiet. by rewrite Hw.
  - rewrite (loop_prints cfg salts sampled c q now None Hs Hq _ [] c None false lines); try done.
    + left. by left.
    + by left.
    + apply history_page_quiet. rewrite Hw. by apply read_page_start.
Qed.

(** C31: a wait ends with the daemon's answer.  For a stream of progress frames and
    one terminal frame, each arriving within the client's deadlines, the client
    prints the comment URL (made safe for the terminal) and succeeds when the
    comment was posted, fails with the daemon's message otherwise, and writes only
    countdown lines to standard error, the first of them with the first estimate. *)
Theorem await_ends_with_the_answer `{WireJson} `{!WireJsonOk} id payload etas answer frames times lo le :
  request_to_vec (Request.Await id) = Some payload -> zlen payload <= MAX_REQUEST_BYTES ->
  Forall2 frame_of ((AwaitEvent.Waiting <$> etas) ++ [answer]) frames ->
  Forall event_wf ((AwaitEvent.Waiting <$> etas) ++ [answer]) -> terminal answer ->
  length times = S (length etas) -> timely 0 CLIENT_REPLY_TIMEOUT times ->
  exists rs,
    await_with_writers
      (fun _ => Ok (WaitPeer None None false (Incoming (concat frames) None) times)) false ["socket"] id
      (Out lo []) (Out le [])
    = (wait_result answer, Out (lo ++ wait_output answer) [], Out (le ++ (render_remaining <$> rs)) [])
    /\ Forall (fun r => 0 <= r) rs /\ head rs = head etas.
Proof.
  intros Hp Hlen Hfr Hwf Hterm Htl Htimes. unfold await_with_writers. rewrite Hp.
  destruct (Z.ltb_spec MAX_REQUEST_BYTES (zlen payload)); [lia|].
  cbn [connect_first connect_loop wp_late wp_write wp_shutdown wp_times wp_input].
  rewrite <- (app_nil_r (concat frames)).
  destruct (receive_stream etas answer times frames [] None 0 CLIENT_REPLY_TIMEOUT None lo le)
    as (rs & -> & Hrs & Hhead); try done. exists rs. auto.
Qed.
