(* ===== verification/Commands.v ===== *)
(** The one-shot commands of the client against the daemon: [put], [list], [bump],
    [bust] and [del] over the listener and the shared queue. *)

From S2P Require Import Prelude Text Protocol Disk Entry Wire Order Bounds Scan Capacity Writes.
From S2P Require Import Schedule History Store Readers DiskState Claims Edits Enqueue Lines Reverse.
From S2P Require Import Log Pages Append Recovery Completion Trace Queue Shared Listener Replies.
From S2P Require Import Output Args Client Session.

(** * Projected times are representable *)

Section projected.
Context (cooldown now : Z).

Lemma post_at_u64 previous entry :
  is_u64 now -> is_u64 (StoredEntry.not_before entry) -> 0 <= cooldown ->
  is_u64 (StoredEntry.flutter_seconds entry) -> (forall p, previous = Some p -> is_u64 p) ->
  is_u64 (post_at cooldown now previous entry).
Proof.
  intros Hn Hb Hc Hf Hp. unfold post_at, due. destruct previous as [p|]; [specialize (Hp p eq_refl)|]; machine.
Qed.

Lemma projected_etas_u64 entries : forall previous,
  is_u64 now -> 0 <= cooldown -> (forall p, previous = Some p -> is_u64 p) -> Forall entry_typed entries ->
  Forall (fun x => entry_typed x.1 /\ is_u64 x.2) (projected_schedule cooldown now entries previous).
Proof.
  induction entries as [|e entries IH]; intros previous Hn Hc Hp Hall; cbn [projected_schedule]; [constructor|].
  apply Forall_cons_1 in Hall as [He Hall]. pose proof He as (_ & _ & _ & Hf & _ & Hb & _).
  pose proof (post_at_u64 previous e Hn Hb Hc Hf Hp) as Hat. constructor.
  - split; [done|]. cbn [snd]. machine.
  - apply IH; [done|done| |done]. by intros p [= <-].
Qed.
End projected.

(** * [comenq list] *)

Section list_command.
Context `{Platform} `{!PlatformOk} `{SerdeJson} `{!SerdeJsonOk} `{WireJson} `{!WireJsonOk}.
Context (cfg : Config.t) (Hcfg : 0 <= Config.cooldown_period_seconds cfg).

(** The schedule the daemon projects now. *)
Definition shown_schedule (q : queue) : list (StoredEntry.t * Z) :=
  projected_schedule (Config.cooldown_period_seconds cfg) (q_now q)
    (entries_of (d_entries (w_disk (q_world q)))) (activity (w_disk (q_world q))).

Lemma list_quiet q : sound cfg q -> SharedQueue.list cfg q = (Done (shown_schedule q), q).
Proof.
  intros Hs. unfold SharedQueue.list, qbind, unix_now, with_store, with_state, on_store. cbn [fst snd].
  rewrite (world_of cfg q Hs), schedule_quiet by by eapply sound_wf.
  unfold shown_schedule. destruct q as [[d fs u] c v n p]. destruct Hs as [Hf _ _ _]. cbn in *. by rewrite Hf.
Qed.

Lemma shown_typed q : sound cfg q ->
  Forall (fun x => pending_typed (pending_entry x.1 x.2)) (shown_schedule q).
Proof.
  intros Hs. pose proof (sound_wf cfg q Hs) as Hwf.
  eapply Forall_impl; [apply projected_etas_u64|].
  - apply Hs.
  - done.
  - intros p. unfold activity.
    pose proof (fun n => marker_u64 _ LAST_POST_FILE n (wf_last_post _ Hwf)) as Hpost.
    pose proof (fun n => marker_u64 _ LAST_ATTEMPT_FILE n (wf_last_attempt _ Hwf)) as Hatt.
    destruct (marker _ LAST_POST_FILE) as [x|], (marker _ LAST_ATTEMPT_FILE) as [y|]; cbn;
      intros [= <-]; [apply max_u64|..]; auto.
  - apply Forall_forall. intros e He. by apply (wf_entry_ok _ _ Hwf).
  - intros [e eta] [(Hid & _ & _ & _ & _ & _ & _ & Hr) He]. destruct Hr as (Ho & Hrp & Hpr & Hbd).
    by split_and!.
Qed.

Lemma shown_length q : sound cfg q -> zlen (shown_schedule q) <= MAX_PENDING_ENTRIES.
Proof.
  intros Hs. pose proof (wf_count _ (wf_entries _ (sound_wf cfg q Hs))) as Hc.
  unfold shown_schedule, zlen in *. rewrite projected_schedule_length. unfold entries_of.
  rewrite sort_entries_perm. unfold valid_entries. pose proof (omap_shorter entry_at (json_files (d_entries (w_disk (q_world q))))).
  change MAX_QUEUE_ENTRIES with 1024 in Hc. change MAX_PENDING_ENTRIES with 1024. lia.
Qed.

(** What the command prints for a schedule. *)
Definition printed_list (schedule : list (StoredEntry.t * Z)) : list (list Z) :=
  match schedule with
  | [] => [chars "No comments queued."]
  | _ => render_entry <$> all_pending schedule
  end.

Lemma render_list_quiet schedule lines :
  render_list_reply (all_pending schedule) (Out lines []) = (Ok tt, Out (lines ++ printed_list schedule) []).
Proof.
  unfold render_list_reply, printed_list. destruct schedule as [|x schedule]; [done|].
  unfold all_pending. rewrite fmap_cons at 1. by rewrite write_lines_quiet.
Qed.

Definition list_too_large_text : string :=
  "list response exceeds the " +:+ u64_to_string MAX_RESPONSE_BYTES +:+ "-byte limit".

(** The answer of the daemon, and its encoding. *)
Lemma list_dispatch salts sampled q b :
  sound cfg q -> response_to_vec (Response.entries (all_pending (shown_schedule q))) = Some b ->
  exists kind, dispatch_request_with_error_kind cfg salts sampled Request.List q
    = (Done (if zlen b <=? MAX_RESPONSE_BYTES
             then Response.entries (all_pending (shown_schedule q)) else list_too_large, kind), q).
Proof.
  intros Hs Hb. eexists. cbn [dispatch_request_with_error_kind]. unfold qbind, qattempt.
  rewrite (list_quiet q Hs). unfold qret.
  rewrite (list_reply_spec (shown_schedule q) b (shown_typed q Hs) (shown_length q Hs) Hb). done.
Qed.
End list_command.

(** * Result *)

(** C36: [comenq list] prints the queue.  Against the daemon's listener over a sound
    queue, the command prints one line for every queued entry, in posting order and
    with the wait the scheduler projects for it, or that nothing is queued, and
    changes nothing; only when the encoded queue does not fit in a reply does it fail
    with the daemon's message, never with part of the queue. *)
Theorem list_prints_the_queue `{Platform} `{!PlatformOk} `{SerdeJson} `{!SerdeJsonOk} `{WireJson} `{!WireJsonOk}
    cfg salts sampled waiting pages q payload b now lines stderr :
  0 <= Config.cooldown_period_seconds cfg -> sound cfg q ->
  request_to_vec Request.List = Some payload -> zlen payload <= MAX_REQUEST_BYTES ->
  response_to_vec (Response.entries (all_pending (shown_schedule cfg q))) = Some b ->
  run (exchange cfg salts sampled) waiting pages Command.List now q (Out lines []) stderr
  = if zlen b <=? MAX_RESPONSE_BYTES
    then (Some (Ok tt), q, Out (lines ++ printed_list (shown_schedule cfg q)) [], stderr)
    else (Some (Err (Daemon list_too_large_text)), q, Out lines [], stderr).
Proof.
  intros Hcfg Hs Hp Hreq Hb. assert (Hu : utf8 list_too_large_text) by (eexists; by vm_compute).
  destruct (list_dispatch cfg Hcfg salts sampled q b Hs Hb) as [kind Hd].
  cbn [run to_request].
  destruct (Z.leb_spec (zlen b) MAX_RESPONSE_BYTES) as [Hfit|Hover].
  - rewrite (exchange_dispatch cfg salts sampled Request.List payload q _ kind q b I Hp Hreq Hd); [|split_and!|done|done].
    + cbn [render_reply render_response Response.entries]. by rewrite render_list_quiet.
    + done.
    + apply Forall_fmap. eapply Forall_impl; [by apply shown_typed|]. done.
    + done.
    + done.
  - destruct (response_to_vec_total list_too_large) as [b' Hb']; [done|].
    rewrite (exchange_dispatch cfg salts sampled Request.List payload q _ kind q b' I Hp Hreq Hd); [done|done|done|].
    by refine (plain_error_fits _ _ _ _ Hb'); vm_compute.
Qed.
