(* ===== verification/Told.v ===== *)
(** Waits are told what happens ([listener/await_handler.rs] with
    [queue/await_lookup.rs]): a waiter subscribes before it looks, so that a change
    during the lookup or the sleep ends the sleep; and the waiter of a comment that
    is posted while it sleeps is sent the URL. *)

From S2P Require Import Prelude Text Protocol Disk Entry Wire Order Bounds Scan Capacity Writes.
From S2P Require Import Schedule History Store Readers DiskState Claims Edits Sound Enqueue Lines.
From S2P Require Import Reverse Log Pages Append Recovery Completion Trace Queue Shared Output Args.
From S2P Require Import Client Session Commands Listener Replies Waits.

Section told.
Context `{Platform} `{!PlatformOk} `{SerdeJson} `{!SerdeJsonOk} (cfg : Config.t).

Abbreviation disk_of q := (w_disk (q_world q)).
Abbreviation sound := (sound cfg).
Abbreviation ran := (ran cfg).

(** * Sleeps *)

Definition undisturbed (polls : list poll) : Prop := Forall (fun p => p_shutdown p = false) polls.

(** After a poll the receiver has seen the published version; a sleep that goes on
    found nothing new, and its timer was not ready. *)
Lemma await_select_seen timer polls : forall state at_ q e state' t q',
  undisturbed polls -> polls <> [] ->
  await_select timer state at_ polls q = (Done (e, (state', t)), q') ->
  StateSubscription.seen state' = state_version q'
  /\ (e = Again
      \/ e = Unfinished /\ state' = state /\ t = last_poll at_ polls /\ timer t = false).
Proof.
  induction polls as [|p polls IH]; intros state at_ q e state' t q' Hu Hne; [done|]. cbn [await_select].
  apply Forall_cons_1 in Hu as [Hp Hu]. unfold qbind, SharedQueue.interleave. rewrite Hp.
  unfold StateSubscription.changed. destruct (Z.eqb_spec (state_version (p_others p q)) (StateSubscription.seen state))
    as [Heq|_]; [|intros [= <- <- <- <-]; by split; [|left]].
  destruct (timer _) eqn:Ht; [intros [= <- <- <- <-]; by split; [|left]|].
  destruct polls as [|p' polls].
  - cbn [await_select]. intros [= <- <- <- <-]. split; [done|]. by right.
  - intros Hrun. by apply IH in Hrun.
Qed.

(** What other tasks do during a sleep, with the number of their calls. *)
Definition bounded_by (polls : list poll) (counts : list nat) : Prop :=
  Forall2 (fun p k => forall q, sound q -> ran k q (p_others p q)) polls counts.

Lemma await_select_ran timer polls counts : bounded_by polls counts -> forall state at_ q e state' t q',
  sound q -> await_select timer state at_ polls q = (Done (e, (state', t)), q') ->
  exists n, ran n q q' /\ (n <= sum_list counts)%nat.
Proof.
  induction 1 as [|p k polls counts Hp _ IH]; intros state at_ q e state' t q' Hs; cbn [await_select].
  { intros [= _ _ _ <-]. exists 0%nat. by split; [constructor|cbn]. }
  unfold qbind, SharedQueue.interleave, StateSubscription.changed. cbn [sum_list_with Datatypes.id]. specialize (Hp q Hs).
  assert (Hstop : p_others p q = q' -> exists n, ran n q q' /\ (n <= k + sum_list counts)%nat)
    by (intros <-; exists k; split; [done|lia]).
  destruct (p_shutdown p); [intros [= _ _ _ Hq]; by apply Hstop|].
  destruct (_ =? _); [|intros [= _ _ _ Hq]; by apply Hstop].
  destruct (timer _); [intros [= _ _ _ Hq]; by apply Hstop|]. intros Hrun.
  apply IH in Hrun as (n & Hn & Hle); [|by eapply ran_sound].
  exists (n + k)%nat. split; [by eapply ran_trans|lia].
Qed.

(** The version a receiver has seen is that of unchanged entries. *)
Lemma seen_unchanged n q q' :
  sound q -> 0 <= state_version q < 2 ^ 64 -> ran n q q' -> Z.of_nat n < 2 ^ 64 ->
  state_version q' = state_version q -> d_entries (disk_of q') = d_entries (disk_of q).
Proof.
  intros Hs Hv Hr Hn Heq. destruct (ran_version cfg n q q' Hr Hs Hv) as (k & Hk & Hver & He).
  apply He. rewrite Hver in Heq.
  destruct (Z_lt_le_dec (state_version q + k) (2 ^ 64)) as [Hlt|Hge].
  - rewrite Z.mod_small in Heq by lia. lia.
  - rewrite <- (Z_mod_plus _ (-1)), Z.mod_small in Heq by lia. lia.
Qed.

(** * Lookups *)

Lemma held_queued d e : e ∈ entries_of (d_entries d) -> held_as d (StoredEntry.id e) = Some e.
Proof.
  intros He. unfold held_as. destruct (NoDup_id_split e _ (entries_of_NoDup _) He) as (l1 & l2 & -> & Hl1 & _).
  rewrite filter_app, filter_cons_True by done. replace (filter _ l1) with (@nil StoredEntry.t); [done|].
  symmetry. induction Hl1 as [|x l Hx _ IH]; [done|]. by rewrite filter_cons_False.
Qed.

(** A completion is published, and a waiter that kept the end of the log finds it. *)
Lemma complete_published q e h url :
  sound q -> completable (disk_of q) e h (q_now q) (Some url) ->
  exists q' k, SharedQueue.complete e h url q = (Done tt, q') /\ sound q' /\ q_now q' = q_now q
    /\ state_version q' = wrapping_succ (state_version q)
    /\ completed (disk_of q) e (held_as (disk_of q) (StoredEntry.id e))
         (posted_record e h (q_now q) (Some url) k) (q_now q) (disk_of q').
Proof.
  intros Hs Hcl. destruct (complete_claim_succeeds (disk_of q) e h (q_now q) (Some url) Hcl (w_uuids (q_world q)))
    as ([] & d' & u' & Hrun & k & Hcd). rewrite <- (world_of cfg q Hs) in Hrun.
  set (m := complete_claim_with_token e h (q_now q) (Some url)) in *.
  destruct (with_store "complete" m q) as [o1 q1] eqn:Hw.
  destruct (store_after cfg "complete" m (Complete e h (Some url)) q Hs (same_effect_unit _)
    (conj (so_now cfg q Hs) Hcl) eq_refl o1 q1 Hw) as (Hs1 & _ & Hn & _).
  assert (Hq1 : o1 = Done tt /\ disk_of q1 = d' /\ state_version q1 = wrapping_succ (state_version q)).
  { unfold with_store, with_state, on_store in Hw. cbn [fst snd] in Hw. rewrite Hrun in Hw.
    by injection Hw as <- <-. }
  destruct Hq1 as (-> & Hd & Hv). exists q1, k. split_and!; [|done|done|done|by rewrite Hd].
  unfold SharedQueue.complete, SharedQueue.then_gauges. unfold qbind at 1. cbn [unix_now]. fold m.
  unfold qbind. by rewrite Hw, (gauges_quiet cfg q1 Hs1).
Qed.

End told.

(** * A comment that is followed *)

(** A waiter follows one lifetime of a comment, from a first lookup at which the history
    is [x]; [P] is what the other tasks keep to. *)
Section followed.
Context `{Platform} `{!PlatformOk} `{SerdeJson} `{!SerdeJsonOk} (cfg : Config.t).
Context (wanted inc url : string) (x : bytes) (P : queue -> Prop).

Abbreviation disk_of q := (w_disk (q_world q)).
Abbreviation queue_of q := (entries_of (d_entries (disk_of q))).
Abbreviation sound := (sound cfg).
Abbreviation cursor := (AwaitCursor.mk (zlen x) inc).

(** The comment is queued. *)
Definition alive (q : queue) : Prop :=
  exists e, e ∈ queue_of q /\ StoredEntry.id e = wanted /\ StoredEntry.incarnation e = inc.

(** The comment is gone (its name may be taken by a new one), and the newest record of
    its completion in the history after [x] carries the URL. *)
Definition delivered (q : queue) : Prop :=
  (dget (disk_of q) (Entries, wanted +:+ ".json") = None
   \/ exists e, e ∈ queue_of q /\ StoredEntry.id e = wanted /\ StoredEntry.incarnation e <> inc)
  /\ exists y r, dget (disk_of q) HISTORY_FILE = Some (Regular (x ++ y)) /\ boundary_free y
       /\ last (filter (fun r => completes wanted (Some cursor) r = true) (log_records y)) = Some r
       /\ HistoryRecord.comment_url r = Some url.

(** Others keep to [P] by calls that do not overflow the version, and what was delivered
    stays so. *)
Definition keeps (f : queue -> queue) : Prop := forall q, P q -> sound q ->
  P (f q) /\ (exists n, ran cfg n q (f q) /\ state_version q + Z.of_nat n < 2 ^ 64)
  /\ (delivered q -> delivered (f q)).

Record turn_keeps (t : await_turn) : Prop := {
  tk_shutdown : at_shutdown t = false;
  tk_before : keeps (at_before t);
  tk_lookup : Forall (fun g => keeps g.1 /\ keeps g.2) (at_lookup t);
  tk_polls : Forall (fun p => p_shutdown p = false /\ keeps (p_others p)) (at_polls t);
}.

(** What the waiter may rely on: a lookup, which builds the cached projection only,
    keeps to [P], and the comment is queued or delivered. *)
Hypothesis P_cache : forall q q', P q -> cache_only cfg q q' -> P q'.
Hypothesis P_followed : forall q, P q -> sound q -> alive q \/ delivered q.
Hypothesis wanted_valid : is_valid_id wanted = true.

(** Both cannot be. *)
Lemma alive_not_delivered q : sound q -> alive q -> ~ delivered q.
Proof.
  intros Hs (e & He & Hid & Hinc) [Hgone _].
  pose proof (find_wf (disk_of q) (w_uuids (q_world q)) e (sound_wf cfg q Hs) He) as Hf. rewrite Hid in Hf.
  destruct Hgone as [Hgone|(e' & He' & Hid' & Hne)].
  - by rewrite (find_missing (disk_of q) (w_uuids (q_world q)) wanted wanted_valid Hgone) in Hf.
  - pose proof (find_wf (disk_of q) (w_uuids (q_world q)) e' (sound_wf cfg q Hs) He') as Hf'.
    rewrite Hid' in Hf'. congruence.
Qed.

(** ** Later states *)

(** A state of the run: the version only grows, and stays only with the entries. *)
Record advanced (q q' : queue) : Prop := {
  ad_keeps : P q';
  ad_sound : sound q';
  ad_version : state_version q <= state_version q' < 2 ^ 64;
  ad_same : state_version q' = state_version q -> d_entries (disk_of q') = d_entries (disk_of q);
  ad_delivered : delivered q -> delivered q';
}.

Lemma advanced_refl q : P q -> sound q -> state_version q < 2 ^ 64 -> advanced q q.
Proof. intros Hp Hs Hv. by constructor. Qed.

#[local] Instance advanced_trans : Transitive advanced.
Proof.
  intros q1 q2 q3 [_ _ Hv He Hd] [Hp' Hs' Hv' He' Hd']. constructor; [done|done|lia| |auto].
  intros Heq. rewrite He', He by lia. done.
Qed.

Lemma keeps_advanced f q : keeps f -> P q -> sound q -> 0 <= state_version q -> advanced q (f q).
Proof.
  intros Hf Hp Hs Hv. destruct (Hf q Hp Hs) as (Hp' & (n & Hr & Hn) & Hd).
  destruct (ran_version cfg n q _ Hr Hs ltac:(lia)) as (k & Hk & Hver & He).
  rewrite Z.mod_small in Hver by lia.
  constructor; [done|by eapply ran_sound|lia| |done]. intros Heq. apply He. lia.
Qed.

Lemma same_world_delivered q q' : q_world q' = q_world q -> delivered q -> delivered q'.
Proof. unfold delivered. by intros ->. Qed.

Lemma cache_advanced q q' :
  P q -> sound q -> state_version q < 2 ^ 64 -> cache_only cfg q q' -> advanced q q'.
Proof.
  intros Hp Hs Hv Hc. destruct (cache_only_moment cfg q q' Hc) as (Hw & _ & Hv').
  constructor; [by eapply P_cache|by eapply cache_only_sound|lia|by rewrite Hw|by apply same_world_delivered].
Qed.

Lemma alive_same q q' : d_entries (disk_of q') = d_entries (disk_of q) -> alive q -> alive q'.
Proof. unfold alive. by intros ->. Qed.

(** ** Lookups *)

Lemma history_end_content q :
  sound q -> history_end (q_world q) = (Done (zlen (content (disk_of q) HISTORY_FILE)), q_world q).
Proof.
  intros Hs. rewrite (world_of cfg q Hs). cbn [w_disk]. set (d := disk_of q). set (u := w_uuids (q_world q)).
  unfold history_end, content. pose proof (wf_root d (sound_wf cfg q Hs) "history.jsonl") as Hnd.
  change (d_root d !! _) with (dget d HISTORY_FILE) in Hnd.
  destruct (dget d HISTORY_FILE) as [[c|]|] eqn:Hp; [|done|].
  - by erewrite bind_done by (apply attempt_done; by rewrite metadata_quiet, Hp).
  - by erewrite bind_done by (apply attempt_failed; by rewrite metadata_quiet, Hp).
Qed.

(** The token of a waiter: none at its first lookup, the cursor after it. *)
Definition token_ok (token : option AwaitCursor.t) (q : queue) : Prop :=
  token = Some cursor \/ token = None /\ content (disk_of q) HISTORY_FILE = x.

(** While the comment is queued a lookup answers at once with what [list] shows. *)
Lemma lookup_alive gaps token q :
  sound q -> alive q -> token_ok token q ->
  exists e eta q1, e ∈ queue_of q /\ StoredEntry.id e = wanted /\ StoredEntry.incarnation e = inc
    /\ (e, eta) ∈ shown_schedule cfg q /\ cache_only cfg q q1
    /\ SharedQueue.resolve_await cfg gaps wanted token q = (Done (Ok (Pending eta cursor)), q1).
Proof.
  intros Hs (e & He & <- & Hinc) Htok. destruct (etas_at_entry cfg (disk_of q) (q_now q) e He) as (eta & Hin & Heta).
  assert (Hobs : observed cfg q (StoredEntry.id e) token = Done (Some (Pending eta cursor))).
  { unfold observed, SharedQueue.resolve_await_pending_with_eta, cbind, on_store. cbn [fst snd].
    pose proof (find_wf (disk_of q) (w_uuids (q_world q)) e (sound_wf cfg q Hs) He) as Hf.
    rewrite <- (world_of cfg q Hs) in Hf. rewrite (attempt_done _ _ _ _ Hf). cbn [cret fst snd].
    rewrite Heta. cbn [default]. unfold pending_await_state. destruct Htok as [->|[-> <-]].
    - cbn [AwaitCursor.incarnation]. by rewrite bool_decide_eq_true_2.
    - erewrite bind_done by (erewrite bind_done by (by apply history_end_content); done). by rewrite Hinc. }
  destruct (observe_quiet cfg q (StoredEntry.id e) token Hs) as (q1 & Hc & Hrun). exists e, eta, q1.
  split_and!; [done..|]. unfold SharedQueue.resolve_await, qbind at 1, qattempt.
  destruct gaps; cbn [SharedQueue.resolve_await_store]; unfold qbind; by rewrite Hrun, Hobs.
Qed.

Lemma observed_delivered q : sound q -> delivered q -> observed cfg q wanted (Some cursor) = Done None.
Proof.
  intros Hs [Hgone _]. unfold observed, SharedQueue.resolve_await_pending_with_eta, cbind, on_store. cbn [fst snd].
  destruct Hgone as [Hgone|(e & He & Hid & Hne)].
  - pose proof (find_missing (disk_of q) (w_uuids (q_world q)) wanted wanted_valid Hgone) as Hf.
    rewrite <- (world_of cfg q Hs) in Hf. by rewrite (attempt_failed _ _ _ _ Hf).
  - pose proof (find_wf (disk_of q) (w_uuids (q_world q)) e (sound_wf cfg q Hs) He) as Hf.
    rewrite <- (world_of cfg q Hs), Hid in Hf. rewrite (attempt_done _ _ _ _ Hf). cbn [AwaitCursor.incarnation].
    by rewrite bool_decide_eq_false_2 by congruence.
Qed.

Lemma scan_delivered q : sound q -> delivered q ->
  exists posted_at, SharedQueue.scan_await_history wanted (Some cursor) q = (Done (Ok (Posted (Some url) posted_at)), q).
Proof.
  intros Hs (_ & y & r & Hp & Hbf & Hr & Hurl). exists (HistoryRecord.posted_at r).
  assert (Hscan : resolve_await_completion wanted (Some cursor) (q_world q)
    = (Done (Posted (Some url) (HistoryRecord.posted_at r)), q_world q)).
  { rewrite (world_of cfg q Hs). unfold resolve_await_completion. erewrite (bind_done _ _ _ false) by done.
    erewrite bind_done by by eapply latest_completion_quiet. by rewrite Hr, Hurl. }
  unfold SharedQueue.scan_await_history. rewrite (attempt_done _ _ _ _ Hscan). by destruct q.
Qed.

(** A turn of a lookup once it is delivered: the URL, or another turn if the version
    changed. *)
Lemma delivered_turn f1 f2 again q :
  keeps f1 -> keeps f2 -> P q -> sound q -> 0 <= state_version q < 2 ^ 64 -> delivered q ->
  exists posted_at q1 q4, advanced q q4
    /\ lookup_turn cfg f1 f2 again wanted (Some cursor) q
       = if state_version (f2 (f1 q1)) =? state_version q then (Done (Posted (Some url) posted_at), q4) else again q4.
Proof.
  intros Hf1 Hf2 Hp Hs Hv Hd. destruct (observe_quiet cfg q wanted (Some cursor) Hs) as (q1 & Hc1 & Hob1).
  pose proof (cache_advanced q q1 Hp Hs ltac:(lia) Hc1) as A1. pose proof (ad_version _ _ A1) as Hv1.
  pose proof (keeps_advanced f1 q1 Hf1 (ad_keeps _ _ A1) (ad_sound _ _ A1) ltac:(lia)) as A2.
  pose proof (ad_version _ _ A2) as Hv2. pose proof (ad_delivered _ _ A2 (ad_delivered _ _ A1 Hd)) as Hd2.
  destruct (scan_delivered (f1 q1) (ad_sound _ _ A2) Hd2) as [posted_at Hscan].
  pose proof (keeps_advanced f2 (f1 q1) Hf2 (ad_keeps _ _ A2) (ad_sound _ _ A2) ltac:(lia)) as A3.
  pose proof (ad_version _ _ A3) as Hv3. pose proof (ad_delivered _ _ A3 Hd2) as Hd3.
  destruct (observe_quiet cfg (f2 (f1 q1)) wanted (Some cursor) (ad_sound _ _ A3)) as (q4 & Hc4 & Hob4).
  pose proof (cache_advanced _ q4 (ad_keeps _ _ A3) (ad_sound _ _ A3) ltac:(lia) Hc4) as A4.
  exists posted_at, q1, q4. split.
  - etransitivity; [exact A1|]. etransitivity; [exact A2|]. by etransitivity.
  - unfold lookup_turn, SharedQueue.interleave, qbind. rewrite Hob1, (observed_delivered q Hs Hd), Hscan, Hob4.
    rewrite (observed_delivered _ (ad_sound _ _ A3) Hd3). by destruct (_ =? _).
Qed.

(** Once it is delivered a lookup finds the URL, whatever others do meanwhile. *)
Lemma lookup_delivered gaps : Forall (fun g => keeps g.1 /\ keeps g.2) gaps -> forall q,
  P q -> sound q -> 0 <= state_version q < 2 ^ 64 -> delivered q ->
  exists posted_at q', SharedQueue.resolve_await_store cfg gaps wanted (Some cursor) q
      = (Done (Posted (Some url) posted_at), q') /\ advanced q q'.
Proof.
  assert (Hid : forall q, P q -> sound q -> 0 <= state_version q < 2 ^ 64 -> delivered q ->
    exists posted_at q', SharedQueue.resolve_await_store cfg [] wanted (Some cursor) q
      = (Done (Posted (Some url) posted_at), q') /\ advanced q q').
  { intros q Hp Hs Hv Hd. rewrite lookup_turns.
    destruct (observe_quiet cfg q wanted (Some cursor) Hs) as (q1 & Hc1 & Hob1).
    pose proof (cache_advanced q q1 Hp Hs ltac:(lia) Hc1) as A1. pose proof (ad_delivered _ _ A1 Hd) as Hd1.
    destruct (scan_delivered q1 (ad_sound _ _ A1) Hd1) as [posted_at Hscan].
    destruct (observe_quiet cfg q1 wanted (Some cursor) (ad_sound _ _ A1)) as (q2 & Hc2 & Hob2).
    pose proof (cache_advanced q1 q2 (ad_keeps _ _ A1) (ad_sound _ _ A1) ltac:(by apply (ad_version _ _ A1)) Hc2) as A2.
    exists posted_at, q2. split; [|by etransitivity].
    unfold lookup_turn, SharedQueue.interleave, qbind. rewrite Hob1, (observed_delivered q Hs Hd), Hscan, Hob2.
    rewrite (observed_delivered _ (ad_sound _ _ A1) Hd1). destruct (cache_only_moment cfg q q1 Hc1) as (_ & _ & ->).
    by rewrite Z.eqb_refl. }
  induction 1 as [|[f1 f2] gaps [Hf1 Hf2] _ IH]; intros q Hp Hs Hv Hd; [by apply Hid|]. rewrite lookup_turns.
  destruct (delivered_turn f1 f2 (SharedQueue.resolve_await_store cfg gaps wanted (Some cursor)) q Hf1 Hf2 Hp Hs Hv Hd)
    as (posted_at & q1 & q4 & A & ->).
  destruct (_ =? _); [by exists posted_at, q4|]. pose proof (ad_version _ _ A) as Hv4.
  destruct (IH q4 (ad_keeps _ _ A) (ad_sound _ _ A) ltac:(lia) (ad_delivered _ _ A Hd)) as (at' & q' & Hrun & Hq').
  exists at', q'. split; [exact Hrun|by etransitivity].
Qed.

(** ** Sleeps *)

Lemma sleep_followed timer polls : Forall (fun p => p_shutdown p = false /\ keeps (p_others p)) polls ->
  forall state at_ q, P q -> sound q -> 0 <= state_version q < 2 ^ 64 ->
  exists e state' t q', await_select timer state at_ polls q = (Done (e, (state', t)), q')
    /\ advanced q q' /\ e <> Stop
    /\ (e = Again -> StateSubscription.seen state' = state_version q')
    /\ (e = Unfinished -> q' = q \/ StateSubscription.seen state = state_version q').
Proof.
  induction 1 as [|p polls [Hsh Hp] _ IH]; intros state at_ q HP Hs Hv; cbn [await_select].
  { exists Unfinished, state, at_, q. split_and!; [done|by apply advanced_refl; [..|lia]|done|done|by left]. }
  pose proof (keeps_advanced _ q Hp HP Hs ltac:(lia)) as A1. set (q1 := p_others p q) in *.
  pose proof (ad_version _ _ A1) as Hv1. set (now := later at_ (p_elapsed p)).
  unfold qbind, SharedQueue.interleave. fold q1. rewrite Hsh. unfold StateSubscription.changed.
  destruct (Z.eqb_spec (state_version q1) (StateSubscription.seen state)) as [Heq|_].
  2:{ by eexists Again, _, now, q1. }
  destruct (timer now); [by exists Again, state, now, q1|].
  destruct (IH state now q1 (ad_keeps _ _ A1) (ad_sound _ _ A1) ltac:(lia)) as (e & state' & t & q' & Hrun & A2 & Hst & Hag & Hun).
  exists e, state', t, q'. split_and!; [done|by etransitivity|done|done|].
  intros He. right. destruct (Hun He) as [->|?]; [|done]. done.
Qed.

(** ** Frames *)

Context `{WireJson} `{!WireJsonOk} `{Timer}.

(** A progress frame with the wait that [list] shows for the comment in a state of the
    run. *)
Definition waiting_frame (frame : bytes) : Prop :=
  exists q e eta w, P q /\ sound q /\ StoredEntry.id e = wanted /\ StoredEntry.incarnation e = inc
    /\ (e, eta) ∈ shown_schedule cfg q /\ event_to_vec (AwaitEvent.Waiting eta) = Some w
    /\ frame = w ++ [NEWLINE].

Lemma frame_sent event b sent :
  event_to_vec event = Some b -> zlen b < MAX_AWAIT_FRAME_BYTES ->
  send_frame event (Stream sent []) = (true, Stream (sent ++ [b ++ [NEWLINE]]) []).
Proof. intros Hb Hlen. unfold send_frame. rewrite Hb. by rewrite (proj2 (Z.ltb_lt _ _) Hlen). Qed.

Lemma respond_pending eta c token w sent :
  event_to_vec (AwaitEvent.Waiting eta) = Some w -> zlen w < MAX_AWAIT_FRAME_BYTES ->
  respond (Ok (Pending eta c)) token (Stream sent []) = (inr (Some c), Stream (sent ++ [w ++ [NEWLINE]]) []).
Proof. intros Hw Hlen. unfold respond. by rewrite (frame_sent _ w sent Hw Hlen). Qed.

Lemma respond_posted posted_at token b sent :
  event_to_vec (AwaitEvent.Posted url) = Some b -> zlen b < MAX_AWAIT_FRAME_BYTES ->
  respond (Ok (Posted (Some url) posted_at)) token (Stream sent [])
  = (inl "posted", Stream (sent ++ [b ++ [NEWLINE]]) []).
Proof.
  intros Hb Hlen. unfold respond, send_posted. rewrite Hb, (proj2 (Z.ltb_lt _ _) Hlen). cbn [negb].
  by rewrite (frame_sent _ b sent Hb Hlen).
Qed.

(** ** Turns of a wait *)

Hypothesis cooldown_nonneg : 0 <= Config.cooldown_period_seconds cfg.
Context (b : bytes).
Hypothesis b_posted : event_to_vec (AwaitEvent.Posted url) = Some b.
Hypothesis b_fits : zlen b < MAX_AWAIT_FRAME_BYTES.

(** A turn that starts its lookup while the comment is queued sends a progress frame and
    sleeps; a sleep that goes on is one in which the comment is still queued. *)
Lemma alive_turn heartbeat t turns state token sent at_ q :
  turn_keeps t -> P q -> sound q -> 0 <= state_version q < 2 ^ 64 -> StateSubscription.seen state = state_version q ->
  alive (at_before t q) -> token_ok token (at_before t q) ->
  exists frame ended state' now q', waiting_frame frame /\ advanced q q' /\ ended <> Stop
    /\ (ended = Again -> StateSubscription.seen state' = state_version q') /\ (ended = Unfinished -> alive q')
    /\ await_loop cfg heartbeat (t :: turns) wanted state token (Stream sent []) at_ q
       = match ended with
         | Again => await_loop cfg heartbeat turns wanted state' (Some cursor) (Stream (sent ++ [frame]) []) now q'
         | _ => (Done (None, Stream (sent ++ [frame]) []), q')
         end.
Proof.
  intros [Hsh Hb Hl Hp] HP Hs Hv Hseen Hal Htok. cbn [await_loop]. rewrite Hsh.
  pose proof (keeps_advanced _ q Hb HP Hs ltac:(lia)) as A1. set (q1 := at_before t q) in *.
  pose proof (ad_version _ _ A1) as Hv1. pose proof (ad_sound _ _ A1) as Hs1. pose proof (ad_keeps _ _ A1) as HP1.
  destruct (lookup_alive (at_lookup t) token q1 Hs1 Hal Htok) as (e & eta & q2 & _ & Hid & Hinc & Heta & Hc & Hlook).
  assert (Hu : is_u64 eta)
    by (pose proof (shown_typed cfg cooldown_nonneg q1 Hs1) as Hall; rewrite Forall_forall in Hall; by apply (Hall _ Heta)).
  destruct (event_to_vec_total (AwaitEvent.Waiting eta) Hu) as [w Hw]. pose proof (event_waiting_size eta w Hu Hw) as Hwsz.
  pose proof (cache_advanced q1 q2 HP1 Hs1 ltac:(lia) Hc) as A2. pose proof (ad_version _ _ A2) as Hv2.
  set (set_at := later at_ (at_elapsed t)).
  destruct (sleep_followed (ready set_at (heartbeat * NANOS)) (at_polls t) Hp state set_at q2 (ad_keeps _ _ A2)
    (ad_sound _ _ A2) ltac:(lia)) as (ended & state' & now & q3 & Hsel & A3 & Hstop & Hag & Hun).
  exists (w ++ [NEWLINE]), ended, state', now, q3. split_and!; try done.
  - by exists q1, e, eta, w.
  - etransitivity; [exact A1|]. by etransitivity.
  - intros He. destruct (cache_only_moment cfg q1 q2 Hc) as (Hw2 & _ & Hv2').
    apply (alive_same q1); [|exact Hal]. destruct (Hun He) as [->|Heq]; [by rewrite Hw2|].
    assert (A : advanced q1 q3) by by etransitivity. pose proof (ad_version _ _ A). apply (ad_same _ _ A). lia.
  - unfold qbind at 1, SharedQueue.interleave. fold q1. unfold qbind at 1. rewrite Hlook.
    rewrite (respond_pending eta _ _ w) by (done || (unfold MAX_AWAIT_FRAME_BYTES; lia)). cbn zeta. fold set_at.
    unfold qbind. rewrite Hsel. by destruct ended.
Qed.

(** What a wait has sent after [n] turns: progress frames, then the URL if it is over;
    one that goes on has used its turns, or the comment is still queued. *)
Definition wait_told (n : nat) (sent : list bytes) (ended : option string) (frames : list bytes) (s : stream)
    (q : queue) : Prop :=
  Forall waiting_frame frames
  /\ s = Stream (sent ++ frames ++ match ended with Some _ => [b ++ [NEWLINE]] | None => [] end) []
  /\ match ended with
     | Some outcome => outcome = "posted" /\ delivered q
     | None => length frames = n \/ alive q
     end.

Lemma wait_told_more n sent ended frame frames s q :
  waiting_frame frame -> wait_told n (sent ++ [frame]) ended frames s q ->
  wait_told (S n) sent ended (frame :: frames) s q.
Proof.
  intros Hf (Hall & -> & Hend). split_and!; [by constructor|by rewrite <- app_assoc|].
  destruct ended; [done|]. destruct Hend; [left; cbn; by f_equal|by right].
Qed.

Lemma loop_told heartbeat turns : Forall turn_keeps turns -> forall state sent at_ q,
  P q -> sound q -> 0 <= state_version q < 2 ^ 64 -> StateSubscription.seen state = state_version q ->
  exists ended frames s q', await_loop cfg heartbeat turns wanted state (Some cursor) (Stream sent []) at_ q
      = (Done (ended, s), q') /\ wait_told (length turns) sent ended frames s q'.
Proof.
  induction 1 as [|t turns Ht _ IH]; intros state sent at_ q HP Hs Hv Hseen.
  { exists None, [], (Stream sent []), q. split; [done|]. split_and!; [done|by rewrite app_nil_r|by left]. }
  pose proof (keeps_advanced _ q (tk_before t Ht) HP Hs ltac:(lia)) as A1. pose proof (ad_version _ _ A1) as Hv1.
  destruct (P_followed _ (ad_keeps _ _ A1) (ad_sound _ _ A1)) as [Hal|Hd].
  - destruct (alive_turn heartbeat t turns state (Some cursor) sent at_ q Ht HP Hs Hv Hseen Hal (or_introl eq_refl))
      as (frame & ended & state' & now & q' & Hf & A & Hstop & Hag & Hun & ->).
    pose proof (ad_version _ _ A). destruct ended; [done| |].
    + destruct (IH state' (sent ++ [frame]) now q' (ad_keeps _ _ A) (ad_sound _ _ A) ltac:(lia) (Hag eq_refl))
        as (ended & frames & s & q2 & Hrun & Htold).
      exists ended, (frame :: frames), s, q2. split; [exact Hrun|by apply wait_told_more].
    + exists None, [frame], (Stream (sent ++ [frame]) []), q'. split; [done|]. split_and!; [by apply Forall_singleton|done|].
      right. by apply Hun.
  - destruct (lookup_delivered (at_lookup t) (tk_lookup t Ht) _ (ad_keeps _ _ A1) (ad_sound _ _ A1) ltac:(lia) Hd)
      as (posted_at & q2 & Hlook & A2).
    exists (Some "posted"), [], (Stream (sent ++ [b ++ [NEWLINE]]) []), q2. split.
    + cbn [await_loop]. rewrite (tk_shutdown t Ht). unfold qbind at 1, SharedQueue.interleave.
      unfold SharedQueue.resolve_await, qbind, qattempt. rewrite Hlook. cbn [qret].
      by rewrite (respond_posted posted_at (Some cursor) b sent b_posted b_fits).
    + split_and!; [done..|]. by apply (ad_delivered _ _ A2).
Qed.
End followed.

(** A completion delivers the comment: the entry goes, and its record is the newest. *)
Lemma complete_delivers `{Platform} `{!PlatformOk} `{SerdeJson} `{!SerdeJsonOk} cfg x y e h url q q' :
  sound cfg q -> e ∈ entries_of (d_entries (w_disk (q_world q))) ->
  completable (w_disk (q_world q)) e h (q_now q) (Some url) ->
  content (w_disk (q_world q)) HISTORY_FILE = x ++ y -> line_start y -> boundary_free y ->
  SharedQueue.complete e h url q = (Done tt, q') ->
  delivered (StoredEntry.id e) (StoredEntry.incarnation e) url x q'.
Proof.
  intros Hs He Hcl Hlog Hy Hbf Hrun. set (d := w_disk (q_world q)) in *.
  destruct (complete_published cfg q e h url Hs Hcl) as (q1 & k & Hrun1 & _ & _ & _ & Hcd). fold d in Hcd.
  rewrite Hrun in Hrun1. injection Hrun1 as <-.
  destruct (completed_log d e _ h (q_now q) (Some url) k _ Hcd) as (g & Hp & _ & Hg & Hbg).
  set (r := posted_record e h (q_now q) (Some url) k) in *. split.
  - left. unfold dget. cbn. rewrite (cd_entry _ _ _ _ _ _ Hcd), (held_queued d e He). unfold same_claim.
    pose proof (cl_claim _ _ _ _ _ Hcl) as Hc.
    destruct (StoredEntry.claim_token e) as [c|]; [|done]. rewrite bool_decide_eq_true_2 by done.
    apply lookup_delete_eq.
  - exists (y ++ g), r. rewrite Hlog, <- app_assoc in Hp. split_and!; [done| | |done].
    + unfold boundary_free in *. rewrite lines_app by done. by apply Forall_app.
    + unfold log_records in *. rewrite lines_app, omap_app, Hg, filter_app by done.
      rewrite filter_cons_True by (apply posted_completes; by intros c [= <-]). by rewrite filter_nil, last_snoc.
Qed.

(** * Results *)

(** C14: no change is slept through by a waiter.  A waiter subscribes in the state [q0]
    before it looks up its comment; whatever other tasks do during the lookup and
    the sleep (fewer than [2^64] calls), a sleep that ends, or is still going on,
    without a shutdown signal while the queue differs from [q0] has ended for another
    lookup; so has one that has lasted the heartbeat and the resolution of the timer;
    and afterwards the waiter has seen the version of the state it is in. *)
Theorem waiters_are_woken `{Platform} `{!PlatformOk} `{SerdeJson} `{!SerdeJsonOk} `{Timer} `{!TimerOk}
    cfg q0 n q heartbeat set_at polls counts e state t q' :
  sound cfg q0 -> 0 <= state_version q0 < 2 ^ 64 -> ran cfg n q0 q -> bounded_by cfg polls counts ->
  Z.of_nat (sum_list counts + n) < 2 ^ 64 -> undisturbed polls -> polls <> [] ->
  await_select (ready set_at (heartbeat * NANOS)) (StateSubscription.mk (state_version q0)) set_at polls q
  = (Done (e, (state, t)), q') ->
  StateSubscription.seen state = state_version q'
  /\ (d_entries (w_disk (q_world q')) <> d_entries (w_disk (q_world q0)) -> e = Again)
  /\ (set_at + heartbeat * NANOS + 10 ^ 6 <= last_poll set_at polls -> e = Again).
Proof.
  intros Hs Hv Hr Hb Hn Hu Hne Hrun. pose proof (ran_sound cfg n q0 q Hr Hs) as Hsq.
  destruct (await_select_ran cfg _ polls counts Hb _ _ _ _ _ _ _ Hsq Hrun) as (m & Hm & Hle).
  destruct (await_select_seen _ polls _ _ _ _ _ _ _ Hu Hne Hrun) as [Hseen Hcase].
  split; [done|]. destruct Hcase as [->|(-> & -> & -> & Ht)]; [done|]. cbn [StateSubscription.seen] in Hseen. split.
  - intros Hd. destruct Hd. eapply (seen_unchanged cfg (m + n)); [done|done|by eapply ran_trans|lia|done].
  - intros Hlate. by rewrite ready_soon in Ht.
Qed.

(** C13: a post is announced.  A client waits for a queued comment, claimed or not, while
    other tasks make any calls before and during its lookups and while it sleeps, such
    that in every state the comment is still queued in this lifetime or its completion is
    recorded after the history [x] of the first lookup, and stays recorded (its name may
    be taken by a new comment).  Without a shutdown, and as long as the client takes its frames, it is sent
    progress frames, at least one, each with the wait that [list] shows for the comment in
    a state of the run, and then, when the post is completed, exactly the frame with the
    URL, which ends the wait with the outcome [posted]; nothing else is sent.  A wait that
    is not over has used all the turns given, or sleeps while the comment is still queued:
    no completed post is slept through.  And [SharedQueue::complete] of the claimed entry
    brings about just such a state. *)
Theorem posts_are_announced `{Platform} `{!PlatformOk} `{SerdeJson} `{!SerdeJsonOk} `{WireJson} `{!WireJsonOk}
    `{Timer} cfg (P : queue -> Prop) wanted inc url x b awaiters t turns at_ q :
  0 <= Config.cooldown_period_seconds cfg -> awaiters < MAX_AWAITERS -> sound cfg q -> is_u64 (state_version q) ->
  is_valid_id wanted = true ->
  event_to_vec (AwaitEvent.Posted url) = Some b -> zlen b < MAX_AWAIT_FRAME_BYTES ->
  P q -> (forall q q', P q -> cache_only cfg q q' -> P q') ->
  (forall q, P q -> sound cfg q -> alive wanted inc q \/ delivered wanted inc url x q) ->
  Forall (turn_keeps cfg wanted inc url x P) (t :: turns) ->
  alive wanted inc (at_before t q) -> content (w_disk (q_world (at_before t q))) HISTORY_FILE = x ->
  (exists frames ended q',
     handle_await cfg awaiters (t :: turns) wanted (Stream [] []) at_ q
     = (Done (ended, Stream (frames ++ match ended with Some _ => [b ++ [NEWLINE]] | None => [] end) []), q')
     /\ frames <> [] /\ Forall (waiting_frame cfg wanted inc P) frames
     /\ match ended with
        | Some outcome => outcome = "posted" /\ delivered wanted inc url x q'
        | None => length frames = length (t :: turns) \/ alive wanted inc q'
        end)
  /\ (forall qn e h y qd, sound cfg qn -> e ∈ entries_of (d_entries (w_disk (q_world qn))) ->
      StoredEntry.id e = wanted -> StoredEntry.incarnation e = inc ->
      completable (w_disk (q_world qn)) e h (q_now qn) (Some url) ->
      content (w_disk (q_world qn)) HISTORY_FILE = x ++ y -> line_start y -> boundary_free y ->
      SharedQueue.complete e h url qn = (Done tt, qd) -> delivered wanted inc url x qd).
Proof.
  intros Hcool Haw Hs Hver Hid Hb Hlen HP Hcache Hfol Hturns Hal Hx. split.
  2:{ intros qn e h y qd Hsn He <- <- Hcl Hlog Hy Hbf Hrun. by eapply complete_delivers. }
  apply Forall_cons_1 in Hturns as [Ht Hturns].
  assert (Hv : 0 <= state_version q < 2 ^ 64) by (unfold is_u64, U64_MAX in Hver; lia).
  unfold handle_await. rewrite (proj2 (Z.leb_gt _ _) Haw). unfold await_entry, qbind.
  cbn [StateSubscription.subscribe_state StateSubscription.mark_seen].
  destruct (alive_turn cfg wanted inc url x P Hcache Hid Hcool AWAIT_HEARTBEAT_SECS t turns
    (StateSubscription.mk (state_version q)) None [] at_ q Ht HP Hs Hv eq_refl Hal (or_intror (conj eq_refl Hx)))
    as (frame & ended & state' & now & q' & Hf & A & Hstop & Hag & Hun & ->).
  pose proof (ad_version _ _ _ _ _ _ _ _ A). destruct ended; [done| |].
  - destruct (loop_told cfg wanted inc url x P Hcache Hfol Hid Hcool b Hb Hlen AWAIT_HEARTBEAT_SECS turns Hturns state'
      [frame] now q' (ad_keeps _ _ _ _ _ _ _ _ A) (ad_sound _ _ _ _ _ _ _ _ A) ltac:(lia) (Hag eq_refl))
      as (ended & frames & s & q2 & Hrun & Hall & -> & Hend).
    exists (frame :: frames), ended, q2. split_and!; [exact Hrun|done|by constructor|].
    destruct ended; [done|]. destruct Hend; [left; cbn; by f_equal|by right].
  - exists [frame], None, q'. split_and!; [done|done|by apply Forall_singleton|]. right. by apply Hun.
Qed.
