(* ===== verification/Drain.v ===== *)
(** The worker empties the queue ([worker.rs], [run_worker]): while GitHub accepts, each
    turn posts the head, with the next token, and leaves its record; the store work of
    a turn is composed from claim, request and completion. *)

From S2P Require Import Prelude Text Tokens Protocol Disk Entry Order Bounds Scan Capacity Writes.
From S2P Require Import Schedule History Store Readers DiskState Claims Edits Sound Enqueue Lines Reverse.
From S2P Require Import Log Pages Append Recovery Completion Frame Faults Resume Life Trace Spec Recorder.
From S2P Require Import Queue Waits Shared Worker.

Section drain.
Context `{Platform} `{!PlatformOk} `{SerdeJson} `{!SerdeJsonOk} `{Timer} `{!TimerOk} (cfg : Config.t).

Abbreviation cooldown := (Config.cooldown_period_seconds cfg).
Abbreviation timeout := (Config.github_api_timeout_secs cfg).
Abbreviation disk_of q := (w_disk (q_world q)).
Abbreviation queue_of q := (entries_of (d_entries (disk_of q))).
Abbreviation log_of q := (content (disk_of q) HISTORY_FILE).
Abbreviation sound := (sound cfg).

(** A queue between two posts: no claim, no open completion, and a log whose lines both
    scans read alike. *)
Record rested (q : queue) : Prop := {
  rs_sound : sound q;
  rs_intact : intact true (disk_of q);
  rs_claims : claims (disk_of q) = [];
  rs_closed : dget (disk_of q) COMPLETION_FILE = None;
  rs_lines : boundary_free (log_of q);
  rs_tail : tail_ok (log_of q);
}.

(** * The steps of a turn *)

Lemma last_drop_tail {A} (l : list A) : last (skipn (length l - Z.to_nat 1) l) = last l.
Proof.
  change (Z.to_nat 1) with 1%nat. destruct l as [|x l _] using rev_ind; [done|]. rewrite length_app. cbn [length].
  replace (length l + 1 - 1)%nat with (length l) by lia. by rewrite drop_app_length, !last_snoc.
Qed.

(** The token of the last record. *)
Lemma last_token q :
  sound q -> boundary_free (log_of q) ->
  SharedQueue.last_token_hash q = (Done (HistoryRecord.token_hash <$> last (log_records (log_of q))), q).
Proof.
  intros Hs Hbf. destruct (last_token_still cfg q Hs) as [out Hout]. rewrite Hout. f_equal.
  unfold SharedQueue.last_token_hash, with_store, with_state, on_store in Hout. cbn [fst snd] in Hout.
  set (u := w_uuids (q_world q)). pose proof (world_of cfg q Hs) as Hw. fold u in Hw. rewrite Hw in Hout.
  unfold content in *. destruct (dget (disk_of q) HISTORY_FILE) as [[c|]|] eqn:Hp.
  - destruct (recent_page_is_the_tail HISTORY_FILE (disk_of q) u c 1 1 Hp Hbf) as (page & Hrun & Hrec); [lia|].
    erewrite bind_done in Hout by exact Hrun. injection Hout as <- _. f_equal.
    transitivity (HistoryRecord.token_hash <$> last (HistoryRecordAt.record <$> HistoryPage.records page)).
    { rewrite fmap_last. by destruct (last (HistoryPage.records page)). }
    rewrite Hrec, last_drop_tail. done.
  - by apply (wf_root _ (sound_wf cfg q Hs)) in Hp.
  - assert (Hpage : read_page HISTORY_FILE None (Some 1) 1 (World (disk_of q) [] u)
      = (Done HistoryPage.empty, World (disk_of q) [] u)).
    { unfold read_page. cbn [Z.eqb]. erewrite (bind_done _ _ _ None); [done|]. unfold open_history_snapshot.
      by erewrite bind_done by (apply attempt_failed; unfold open_file; by rewrite query_quiet, Hp). }
    erewrite bind_done in Hout by exact Hpage. by injection Hout as <- _.
Qed.

(** The due head is claimed. *)
Lemma claim_head q e rest :
  rested q -> queue_of q = e :: rest -> post_at cooldown (q_now q) (activity (disk_of q)) e = q_now q ->
  exists token q', SharedQueue.claim_next_due cfg q
      = (Done (Some (StoredEntry.with_claim (Some token) e, 0)), q')
    /\ sound q' /\ intact true (disk_of q') /\ q_now q' = q_now q
    /\ d_root (disk_of q') = d_root (disk_of q)
    /\ queue_of q' = StoredEntry.with_claim (Some token) e :: rest.
Proof.
  intros [Hs Hi Hcl _ _ _] Hq Hdue. set (u := w_uuids (q_world q)).
  destruct (claim_next_due_quiet (disk_of q) u cooldown (q_now q) (sound_wf cfg q Hs)) as (r & w & Hrun & Hout).
  destruct r as [[x wait]|]; [|destruct Hout as [_ [Hnil|Hne]]; [by rewrite Hq in Hnil|done]].
  destruct Hout as (_ & e0 & rest0 & Hq0 & Hout). rewrite Hq in Hq0. injection Hq0 as <- <-.
  rewrite Hdue in Hout. destruct Hout as [(Hlt & _)|(_ & -> & -> & _ & _ & _ & Hq' & Hr & _)]; [lia|].
  exists (new_v4 u). pose proof (world_of cfg q Hs) as Hw. fold u in Hw.
  destruct (with_store "claim_next_due" (claim_next_due cooldown (q_now q)) q) as [o q1] eqn:Hws.
  pose proof (store_after cfg "claim_next_due" (claim_next_due cooldown (q_now q)) (Claim cooldown) q
    Hs (same_effect_drop _) (conj (so_now cfg q Hs) I) eq_refl o q1 Hws) as (Hs1 & _ & Hn & _).
  assert (o = Done (Some (StoredEntry.with_claim (Some (new_v4 u)) e, 0)) /\ q_world q1 = w) as [-> <-].
  { unfold with_store, with_state, on_store in Hws. cbn [fst snd] in Hws. rewrite Hw, Hrun in Hws.
    by injection Hws as <- <-. }
  exists q1. split_and!; try done.
  - unfold SharedQueue.claim_next_due. unfold qbind at 1. cbn [unix_now]. unfold qbind at 1. rewrite Hws.
    cbn [Z.eqb]. unfold qbind. by rewrite (gauges_quiet cfg q1 Hs1).
  - destruct (runs_of _ _ _ _ _ _ _ _ (claim_runs true (disk_of q) cooldown (q_now q) Hi) (Forall_nil_2 _) Hrun)
      as (_ & Haf & _). apply Haf.
Qed.

Definition unclaimed (es : list StoredEntry.t) : Prop := Forall (fun x => StoredEntry.claim_token x = None) es.

Lemma unclaimed_claims d : unclaimed (entries_of (d_entries d)) <-> claims d = [].
Proof.
  rewrite unclaimed_of. cbn [abs sp_items]. by rewrite Forall_fmap.
Qed.

Lemma unclaimed_by_head e rest :
  StoredEntry.claim_token e <> None -> unclaimed rest -> unclaimed_by e (e :: rest) = rest.
Proof.
  intros He Hr. unfold unclaimed_by. rewrite filter_cons_False by tauto. apply filter_keeps.
  intros x Hx [_ Heq]. apply (proj1 (Forall_forall _ _) Hr) in Hx. congruence.
Qed.

(** The claimed head is completed: it leaves the queue and its record ends the log. *)
Lemma complete_head q e rest h url :
  sound q -> intact true (disk_of q) -> dget (disk_of q) COMPLETION_FILE = None -> boundary_free (log_of q) ->
  queue_of q = e :: rest -> unclaimed rest -> completable (disk_of q) e h (q_now q) (Some url) ->
  exists k q', SharedQueue.complete e h url q = (Done tt, q') /\ rested q' /\ q_now q' = q_now q
    /\ queue_of q' = rest /\ activity (disk_of q') = Some (q_now q)
    /\ log_records (log_of q') = log_records (log_of q) ++ [posted_record e h (q_now q) (Some url) k]
    /\ zlen (log_of q') <= zlen (log_of q) + MAX_HISTORY_LINE_BYTES + 1.
Proof.
  intros Hs Hi Hf Hbf Hq Hr Hcl. set (u := w_uuids (q_world q)). exists u.
  pose proof (world_of cfg q Hs) as Hw. fold u in Hw.
  destruct (complete_claim_content (disk_of q) e h (q_now q) (Some url) u Hcl)
    as (b & d' & u' & Hb & Hlen & Hrun & Hcd & Hlog).
  set (m := complete_claim_with_token e h (q_now q) (Some url)) in *.
  destruct (with_store "complete" m q) as [o q1] eqn:Hws.
  destruct (store_after cfg "complete" m (Complete e h (Some url)) q Hs (same_effect_unit _)
    (conj (so_now cfg q Hs) Hcl) eq_refl o q1 Hws) as (Hs1 & _ & Hn & _).
  assert (o = Done tt /\ disk_of q1 = d') as [-> Hd].
  { unfold with_store, with_state, on_store in Hws. cbn [fst snd] in Hws. rewrite Hw, Hrun in Hws.
    by injection Hws as <- <-. }
  pose proof (runs_of _ _ _ _ _ _ _ _ (complete_runs true _ e h (q_now q) (Some url) Hcl Hi Hf
    (safe_clock _ _ (so_safe cfg q Hs))) (Forall_nil_2 _) Hrun) as [_ [[? _]|Hst]]; [done|].
  destruct (removed_queue (disk_of q) e h (q_now q) (Some url) Hcl d' (cd_entry _ _ _ _ _ _ Hcd)) as (_ & _ & Hq').
  rewrite Hq, (unclaimed_by_head e rest (cl_claim _ _ _ _ _ Hcl) Hr) in Hq'.
  destruct (appended_lines (log_of q) b Hbf (cl_tail _ _ _ _ _ Hcl) (record_to_vec_line _ _ Hb) Hlen) as (Hbf' & Ht' & Hz).
  rewrite <- Hlog in Hbf', Ht', Hz. rewrite <- Hd in *.
  exists q1. split_and!; try done.
  - unfold SharedQueue.complete, SharedQueue.then_gauges. unfold qbind at 1. cbn [unix_now]. fold m.
    unfold qbind. by rewrite Hws, (gauges_quiet cfg q1 Hs1).
  - constructor; try done; [apply (st_after _ _ _ _ _ _ Hst)| |apply Hcd].
    apply unclaimed_claims. by rewrite Hq'.
  - destruct (st_file _ _ _ _ _ _ Hst) as [[_ ?]|[? _]]; done.
  - destruct (cd_log _ _ _ _ _ _ Hcd) as (g & _ & _ & Hrec & _). exact Hrec.
Qed.

(** ** The request *)

(** Other tasks read while the clock goes on, no further than [z]. *)
Definition idles (z : Z) (f : queue -> queue) : Prop :=
  forall q, sound q -> q_now q <= z -> sound (f q) /\ q_world (f q) = q_world q /\ q_now (f q) <= z.

(** The same, until [z]. *)
Definition passes (z : Z) (f : queue -> queue) : Prop :=
  forall q, sound q -> q_now q <= z -> sound (f q) /\ q_world (f q) = q_world q /\ q_now (f q) = z.

(** The time of some polls of the request. *)
Definition waited (answers : list answer) : Z := zsum ((fun a => Z.of_N (a_elapsed a)) <$> answers).

Lemma waited_nonneg answers : 0 <= waited answers.
Proof. unfold waited. apply zsum_nonneg. apply Forall_fmap, Forall_true. intros a. cbn. lia. Qed.

Lemma waited_app l k : waited (l ++ k) = waited l + waited k.
Proof. unfold waited. by rewrite fmap_app, zsum_app. Qed.
Lemma waited_cons a l : waited (a :: l) = Z.of_N (a_elapsed a) + waited l.
Proof. done. Qed.

(** A reply that arrives before the deadline is the result of the request. *)
Lemma post_accepted z started waiting a rest url :
  started + timeout * NANOS < INSTANT_LIMIT -> a_reply a = Some (Ok url) -> passes z (a_others a) ->
  Forall (fun w => a_reply w = None /\ idles z (a_others w)) waiting ->
  forall at_ q, sound q -> q_now q <= z -> at_ + waited waiting < started + timeout * NANOS ->
  exists q', post_comment timeout started at_ (waiting ++ a :: rest) q
      = (Done (Some (Ok url), at_ + waited (waiting ++ [a])), q')
    /\ sound q' /\ q_world q' = q_world q /\ q_now q' = z.
Proof.
  intros Hlim Ha Hpass Hw. induction Hw as [|w waiting [Hnone Hidle] Hw IH]; intros at_ q Hs Hn Ht.
  - destruct (Hpass q Hs Hn) as (Hs' & Hq' & Hn'). exists (a_others a q). cbn [app post_comment].
    unfold qbind, SharedQueue.interleave. rewrite Ha. split; [|done]. unfold qret. do 3 f_equal.
    unfold waited, later. cbn. lia.
  - destruct (Hidle q Hs Hn) as (Hs1 & Hq1 & Hn1). pose proof (waited_nonneg waiting) as Hpos.
    cbn [app post_comment]. rewrite waited_cons in Ht. rewrite waited_cons.
    destruct (IH (later at_ (a_elapsed w)) (a_others w q) Hs1 Hn1) as (q' & Hrun & Hs' & Hq' & Hn');
      [unfold later; lia|].
    exists q'. unfold qbind, SharedQueue.interleave. rewrite Hnone.
    destruct (ready started (timeout * NANOS) (later at_ (a_elapsed w))) eqn:Hr.
    { apply ready_late in Hr; [|done]. unfold later in Hr. lia. }
    rewrite Hrun. split; [|split_and!; [done|congruence|done]]. do 3 f_equal. unfold later. lia.
Qed.

(** * A turn in which GitHub accepts *)

(** When the entry is claimed, when the post is finished, and its URL. *)
Record delivery := Delivery { dl_claimed : Z; dl_finished : Z; dl_url : string }.

(** The environment of such a turn: other tasks read, and the reply is in time. *)
Record delivers (t : turn) (x : delivery) : Prop := {
  dv_before : passes (dl_claimed x) (t_before t);
  dv_reply : exists waiting a rest, t_answers t = waiting ++ a :: rest
    /\ a_reply a = Some (Ok (dl_url x)) /\ passes (dl_finished x) (a_others a)
    /\ Forall (fun w => a_reply w = None /\ idles (dl_finished x) (a_others w)) waiting
    /\ waited waiting < timeout * NANOS;
}.

(** At most the time of the turn, on the monotonic clock. *)
Definition turn_time (t : turn) : Z :=
  Z.of_N (t_idle t) + Z.of_N (t_choosing t) + waited (t_answers t) + Z.of_N (t_recording t).

Context (clients : list TokenClient.t) (Hpool : clients <> [])
  (Hutf : Forall (fun client => utf8 (TokenClient.hash client)) clients).
Abbreviation hashes := (TokenClient.hash <$> clients).

(** The token after the one the log ends with. *)
Definition next_hash (q : queue) : option string :=
  get hashes (next_token_index hashes (HistoryRecord.token_hash <$> last (log_records (log_of q)))).

(** A delivery that can be recorded, whatever token posts it. *)
Definition recordable (e : StoredEntry.t) (x : delivery) : Prop :=
  utf8 (dl_url x)
  /\ forall client k b, client ∈ clients ->
       record_to_vec (posted_record e (TokenClient.hash client) (dl_finished x) (Some (dl_url x)) k) = Some b ->
       zlen b < MAX_HISTORY_LINE_BYTES.

(** The posting of an entry by a delivery. *)
Definition posting_of (e : StoredEntry.t) (x : delivery) (p : posting) : Prop :=
  (exists token, p_entry p = StoredEntry.with_claim (Some token) e)
  /\ p_claimed_at p = dl_claimed x /\ p_finished_at p = dl_finished x /\ p_result p = Ok (dl_url x).

(** The history record of a posting. *)
Definition record_of (p : posting) (r : HistoryRecord.t) : Prop :=
  exists k url, p_result p = Ok url /\ r = posted_record (p_entry p) (p_hash p) (p_finished_at p) (Some url) k.

(** What the turn leaves. *)
Record turn_posted (q : queue) (e : StoredEntry.t) (rest : list StoredEntry.t) (x : delivery) (until : Z)
    (rep : report) (q' : queue) : Prop := {
  tp_end : rp_end rep = Continue;
  tp_at : rp_at rep <= until;
  tp_rested : rested q';
  tp_now : q_now q' = dl_finished x;
  tp_queue : queue_of q' = rest;
  tp_activity : activity (disk_of q') = Some (dl_finished x);
  tp_size : zlen (log_of q') <= zlen (log_of q) + MAX_HISTORY_LINE_BYTES + 1;
  tp_made : exists p r, rp_made rep = Some p /\ posting_of e x p /\ next_hash q = Some (p_hash p)
    /\ record_of p r /\ log_records (log_of q') = log_records (log_of q) ++ [r];
}.

Lemma next_client last :
  exists client, get clients (next_token_index hashes last) = Some client /\ client ∈ clients
    /\ get hashes (next_token_index hashes last) = Some (TokenClient.hash client).
Proof.
  pose proof (next_token_index_range hashes last) as Hr.
  destruct (get_range clients (next_token_index hashes last)) as [client Hc].
  { unfold zlen in *. rewrite length_fmap in Hr. apply Hr. by destruct clients. }
  exists client. split; [done|]. unfold get in *. destruct (_ <? 0); [done|].
  split; [by eapply list_elem_of_lookup_2|]. by rewrite list_lookup_fmap, Hc.
Qed.

(** After the claim: the request is accepted and the entry completed. *)
Lemma entry_posted t x at_ q e rest token :
  delivers t x -> recordable e x -> sound q -> intact true (disk_of q) ->
  dget (disk_of q) COMPLETION_FILE = None -> boundary_free (log_of q) -> tail_ok (log_of q) ->
  zlen (log_of q) <= U64_MAX -> queue_of q = StoredEntry.with_claim (Some token) e :: rest -> unclaimed rest ->
  q_now q = dl_claimed x -> dl_claimed x <= dl_finished x ->
  at_ + Z.of_N (t_choosing t) + timeout * NANOS < INSTANT_LIMIT ->
  exists rep q', post_entry cfg clients t (StoredEntry.with_claim (Some token) e) at_ q = (Done rep, q')
    /\ turn_posted q e rest x
         (at_ + Z.of_N (t_choosing t) + waited (t_answers t) + Z.of_N (t_recording t)) rep q'.
Proof.
  intros [_ (waiting & a & after_ & Hans & Ha & Hpass & Hwait & Htime)] [Hurl Hfit] Hs Hi Hf Hbf Ht Hz Hq Hr Hn Hle Hlim.
  set (held := StoredEntry.with_claim (Some token) e) in *.
  destruct (next_client (HistoryRecord.token_hash <$> last (log_records (log_of q)))) as (client & Hg & Hin & Hh).
  set (started := later at_ (t_choosing t)). assert (Hst : started = at_ + Z.of_N (t_choosing t)) by done.
  destruct (post_accepted (dl_finished x) started waiting a after_ (dl_url x) ltac:(lia) Ha Hpass Hwait started q Hs
    ltac:(lia) ltac:(lia)) as (q2 & Hpost & Hs2 & Hw2 & Hn2). rewrite <- Hans in Hpost.
  assert (Hcl : completable (disk_of q2) held (TokenClient.hash client) (q_now q2) (Some (dl_url x))).
  { rewrite Hw2. constructor; try done; [apply Hi| |apply (so_now cfg q2 Hs2)| | |].
    - apply (wf_entry_ok (disk_of q)); [apply (sound_wf cfg q Hs)|rewrite Hq; left].
    - by apply (proj1 (Forall_forall _ _) Hutf).
    - split; [apply zlen_nonneg|done].
    - intros k b. rewrite Hn2. by apply Hfit. }
  destruct (complete_head q2 held rest (TokenClient.hash client) (dl_url x)) as (k & q3 & Hrun & Hrest & Hn3 & Hq3 & Hact & Hlog & Hsize);
    [done|by rewrite Hw2..|done|done|].
  rewrite Hw2 in Hlog, Hsize. rewrite Hn2 in Hn3, Hact, Hlog.
  eexists _, q3. split.
  { unfold post_entry. unfold qbind at 1. cbn [unix_now]. unfold qbind at 1, qattempt.
    rewrite (last_token q Hs Hbf), Hg. fold started. unfold qbind at 1, post_comment_with_metrics. unfold qbind at 1.
    rewrite Hpost. cbn [fmap option_fmap option_map qret]. unfold qbind at 1. cbn [unix_now]. unfold qbind.
    rewrite Hrun. reflexivity. }
  constructor; cbn [rp_end rp_at rp_made]; try done.
  { rewrite Hans. unfold later at 1. rewrite Hst, !waited_app, !waited_cons.
    pose proof (waited_nonneg after_). change (waited []) with 0. lia. }
  eexists _, _. split_and!; [reflexivity| |exact Hh| |exact Hlog].
  - split; [by exists token|]. by rewrite Hn, Hn2.
  - exists k, (dl_url x). cbn. by rewrite Hn2.
Qed.

(** A turn posts the head when it is due. *)
Lemma turn_posts t x at_ q e rest :
  delivers t x -> recordable e x -> rested q -> queue_of q = e :: rest -> zlen (log_of q) <= U64_MAX ->
  q_now q <= dl_claimed x -> dl_claimed x <= dl_finished x ->
  post_at cooldown (dl_claimed x) (activity (disk_of q)) e = dl_claimed x ->
  at_ + turn_time t + timeout * NANOS < INSTANT_LIMIT ->
  exists rep q', worker_turn cfg clients t at_ q = (Done rep, q')
    /\ turn_posted q e rest x (at_ + turn_time t) rep q'.
Proof.
  intros Hdv Hrec Hrs Hq Hz Hn Hle Hdue Hlim. pose proof Hrs as [Hs Hi Hc Hf Hbf Ht].
  destruct (dv_before t x Hdv q Hs Hn) as (Hs1 & Hw1 & Hn1). set (q1 := t_before t q) in *.
  assert (Hrs1 : rested q1) by (constructor; [done|by rewrite Hw1..]).
  destruct (claim_head q1 e rest Hrs1) as (token & q2 & Hrun & Hs2 & Hi2 & Hn2 & Hr2 & Hq2);
    [by rewrite Hw1|by rewrite Hw1, Hn1|].
  assert (Hfile : forall p, p.1 = Root -> dget (disk_of q2) p = dget (disk_of q) p)
    by (intros p Hp; unfold dget; rewrite Hp; cbn; by rewrite Hr2, Hw1).
  assert (Hlog : log_of q2 = log_of q) by (unfold content; by rewrite Hfile).
  assert (Hun : unclaimed rest) by (apply unclaimed_claims in Hc; rewrite Hq in Hc; by apply Forall_cons_1 in Hc as [_ ?]).
  destruct (entry_posted t x (later at_ (t_idle t)) q2 e rest token) as (rep & q3 & Hpost & Htp); try done.
  - by rewrite Hfile.
  - by rewrite Hlog.
  - by rewrite Hlog.
  - by rewrite Hlog.
  - congruence.
  - pose proof (waited_nonneg (t_answers t)). unfold turn_time in Hlim. unfold later. lia.
  - exists rep, q3. split.
    + unfold worker_turn. unfold qbind at 1, SharedQueue.interleave. fold q1. unfold qbind at 1. rewrite Hrun. exact Hpost.
    + destruct Htp as [? Hat ? ? ? ? Hsz Hmade]. unfold next_hash in Hmade. rewrite Hlog in Hsz, Hmade.
      constructor; try done. unfold turn_time. unfold later in Hat. lia.
Qed.

(** * Runs *)

(** The deliveries are on time: each entry of the queue in turn is due when it is
    claimed, given when the one before it was finished. *)
Fixpoint on_schedule (previous : option Z) (now : Z) (es : list StoredEntry.t) (xs : list delivery) : Prop :=
  match xs, es with
  | [], _ => True
  | _ :: _, [] => False
  | x :: xs, e :: es =>
      now <= dl_claimed x /\ dl_claimed x <= dl_finished x
      /\ post_at cooldown (dl_claimed x) previous e = dl_claimed x /\ recordable e x
      /\ on_schedule (Some (dl_finished x)) (dl_finished x) es xs
  end.

Definition last_hash (q : queue) : option string := HistoryRecord.token_hash <$> last (log_records (log_of q)).

(** What a run leaves. *)
Record run_posted (q : queue) (xs : list delivery) (made : list posting) (q' : queue) : Prop := {
  rp_rested : rested q';
  rp_queue : queue_of q' = skipn (length xs) (queue_of q);
  rp_postings : Forall3 posting_of (take (length xs) (queue_of q)) xs made;
  rp_hashes : p_hash <$> made = picks (length xs) hashes (last_hash q);
  rp_records : exists records, Forall2 record_of made records
    /\ log_records (log_of q') = log_records (log_of q) ++ records;
}.

Lemma run_posts turns xs : Forall2 delivers turns xs -> forall at_ q,
  rested q -> on_schedule (activity (disk_of q)) (q_now q) (queue_of q) xs ->
  zlen (log_of q) + zlen xs * (MAX_HISTORY_LINE_BYTES + 1) <= U64_MAX ->
  at_ + zsum (turn_time <$> turns) + timeout * NANOS < INSTANT_LIMIT ->
  exists made samples q', worker_loop cfg clients turns at_ q = (Done (made, samples), q')
    /\ run_posted q xs made q'.
Proof.
  induction 1 as [|t x turns xs Hdv _ IH]; intros at_ q Hrs Hon Hz Hlim.
  { exists [], [], q. split; [done|]. constructor; try done; [constructor|].
    exists []. by rewrite app_nil_r. }
  destruct (queue_of q) as [|e es] eqn:Hq; [done|]. destruct Hon as (Hn & Hle & Hdue & Hrec & Hon).
  rewrite zlen_cons in Hz. pose proof (zlen_nonneg xs). rewrite fmap_cons in Hlim. cbn [zsum foldr] in Hlim.
  fold (zsum (turn_time <$> turns)) in Hlim.
  assert (Hpos : 0 <= zsum (turn_time <$> turns)).
  { apply zsum_nonneg, Forall_fmap, Forall_true. intros y. cbn. unfold turn_time.
    pose proof (waited_nonneg (t_answers y)). lia. }
  assert (HM : 0 < MAX_HISTORY_LINE_BYTES) by done.
  destruct (turn_posts t x at_ q e es Hdv Hrec Hrs Hq) as (rep & q1 & Hturn & Htp); [nia|done|done|done|lia|].
  destruct Htp as [Hend Hat Hrs1 Hn1 Hq1 Hact1 Hsz (p & r & Hmade & Hp & Hh & Hr & Hlog)].
  destruct (IH (rp_at rep) q1 Hrs1) as (made & samples & q2 & Hrun & [Hrs2 Hq2 Hp2 Hh2 (records & Hr2 & Hlog2)]);
    [by rewrite Hact1, Hn1, Hq1|lia|lia|].
  exists (p :: made), (rp_samples rep ++ samples), q2. split.
  { cbn [worker_loop]. unfold qbind at 1. rewrite Hturn, Hend. unfold qbind. by rewrite Hrun, Hmade. }
  rewrite Hq1 in Hq2, Hp2. constructor; rewrite ?Hq; cbn [length skipn take]; try done.
  - by constructor.
  - rewrite fmap_cons, Hh2. cbn [picks]. unfold next_hash in Hh. fold (last_hash q) in Hh. rewrite Hh.
    unfold last_hash. rewrite Hlog, last_snoc. by destruct Hr as (k & url & _ & ->).
  - exists (r :: records). split; [by constructor|]. by rewrite Hlog2, Hlog, <- app_assoc.
Qed.
End drain.

(** * Result *)

(** C12: the worker empties the queue.  While GitHub accepts every request before the API
    deadline, other tasks only read, and each turn starts when the head is due, the
    run returns; its turns post the queue from the head on, each entry once and in
    order, with the tokens of the pool in rotation from the one the history ends with;
    the entries that were posted have left the queue and the others have not, the
    history has gained exactly one record for each posting, and no claim and no open
    completion is left. *)
Theorem worker_empties_the_queue `{Platform} `{!PlatformOk} `{SerdeJson} `{!SerdeJsonOk} `{Timer} `{!TimerOk}
    cfg clients turns xs at_ q :
  clients <> [] -> Forall (fun client => utf8 (TokenClient.hash client)) clients ->
  rested cfg q -> Forall2 (delivers cfg) turns xs ->
  on_schedule cfg clients (activity (w_disk (q_world q))) (q_now q)
    (entries_of (d_entries (w_disk (q_world q)))) xs ->
  zlen (content (w_disk (q_world q)) HISTORY_FILE) + zlen xs * (MAX_HISTORY_LINE_BYTES + 1) <= U64_MAX ->
  at_ + zsum (turn_time <$> turns) + Config.github_api_timeout_secs cfg * NANOS < INSTANT_LIMIT ->
  exists made samples q', worker_loop cfg clients turns at_ q = (Done (made, samples), q')
    /\ rested cfg q'
    /\ entries_of (d_entries (w_disk (q_world q')))
       = skipn (length xs) (entries_of (d_entries (w_disk (q_world q))))
    /\ Forall3 posting_of (take (length xs) (entries_of (d_entries (w_disk (q_world q))))) xs made
    /\ p_hash <$> made = picks (length xs) (TokenClient.hash <$> clients) (last_hash q)
    /\ exists records, Forall2 record_of made records
         /\ log_records (content (w_disk (q_world q')) HISTORY_FILE)
            = log_records (content (w_disk (q_world q)) HISTORY_FILE) ++ records.
Proof.
  intros Hpool Hutf Hrs Hdv Hon Hz Hlim.
  destruct (run_posts cfg clients Hpool Hutf turns xs Hdv at_ q Hrs Hon Hz Hlim) as (made & samples & q' & Hrun & []).
  by exists made, samples, q'.
Qed.
