(* ===== verification/Drive.v ===== *)
(** The commands that change the queue, end to end: [comenq put], [bump], [bust] and
    [del] against the daemon's listener make one step of the abstract queue, or leave
    the disk alone and report the daemon's error. *)

From S2P Require Import Prelude Text Protocol Disk Entry Wire Order Bounds Scan Capacity Writes.
From S2P Require Import Schedule History Store Readers DiskState Claims Edits Enqueue Lines Reverse.
From S2P Require Import Log Pages Append Recovery Completion Trace Spec Returns Queue Waits Shared Wakes.
From S2P Require Import Listener Replies Output Args Client Session.

Section drive.
Context `{Platform} `{!PlatformOk} `{SerdeJson} `{!SerdeJsonOk} `{WireJson} `{!WireJsonOk}.
Context (cfg : Config.t) (salts : nat) (sampled : Z).

Abbreviation disk_of q := (w_disk (q_world q)).
Abbreviation sound := (sound cfg).

(** The operation of the store a command asks for. *)
Definition op_of (command : Command.t) : option op :=
  match to_request command with
  | Request.Put request immediate =>
      Some (Put salts request
        (PutOptions.mk (Config.cooldown_period_seconds cfg)
           (Z.min sampled (Config.cooldown_flutter_seconds cfg)) immediate))
  | Request.Bump wanted => Some (Bump wanted)
  | Request.Bust wanted => Some (Bust wanted)
  | Request.Del wanted => Some (Del wanted)
  | _ => None
  end.

(** What the command prints for an answer of the queue. *)
Definition confirmation (command : Command.t) (answer : reply) : text :=
  match command, answer with
  | Command.Put slug pr_number _ _, Queued id eta =>
      chars "Queued " ++ terminal_safe (chars id) ++ chars " for "
      ++ render_target (to_string (RepoSlug.owner slug)) (to_string (RepoSlug.repo slug)) pr_number
      ++ chars " — posts in ~" ++ format_eta eta
  | Command.Bump id, _ => chars "Moved " ++ chars id ++ chars " to the head of the queue."
  | Command.Bust id, _ => chars "Moved " ++ chars id ++ chars " to the tail of the queue."
  | Command.Del id, _ => chars "Removed " ++ chars id ++ chars " from the queue."
  | _, _ => []
  end.

(** ** Work that returns *)

Definition change {A} (name : string) (m : M A) : QM A :=
  qbind (with_store name m) (fun a => qbind SharedQueue.mutation_finished (fun _ => qret a)).

Lemma change_cases {A} name (m : M A) o q :
  sound q -> same_effect m (perform o (q_now q)) -> allowed (disk_of q) (q_now q) o ->
  is_state_mutation name = true -> returns m (q_world q) ->
  exists r q', qattempt (change name m) q = (Done r, q') /\ sound q'
    /\ match r with
       | Ok a => exists w', m (q_world q) = (Done a, w') /\ disk_of q' = w_disk w' /\ q_permit q' = true
       | Err e => (exists w', m (q_world q) = (Failed e, w')) /\ disk_of q' = disk_of q
       end.
Proof.
  intros Hs Heff Hal Hn Hret. unfold change, qattempt. unfold qbind at 1.
  destruct (with_store name m q) as [o1 q1] eqn:Hw.
  destruct (store_after cfg name m o q Hs Heff Hal Hn o1 q1 Hw) as [Hs1 _].
  assert (Hstep : q_world q1 = (m (q_world q)).2 /\ o1 = (m (q_world q)).1).
  { unfold with_store, with_state, on_store in Hw. cbn [fst snd] in Hw.
    destruct (m (q_world q)) as [[?|?| |] w]; [rewrite Hn in Hw|..]; by injection Hw as <- <-. }
  destruct Hstep as [Hw1 ->]. destruct Hret as [(a & w' & Hm)|(e & w' & Hm)]; rewrite Hm in Hw1 |- *; cbn [fst snd] in *.
  - unfold SharedQueue.mutation_finished, qbind. rewrite (gauges_quiet cfg q1) by done.
    eexists _, _. split; [done|]. split; [by destruct Hs1; constructor|]. exists w'. by rewrite <- Hw1.
  - eexists _, q1. split; [done|]. split; [done|]. split; [by exists w'|]. rewrite Hw1.
    pose proof (Heff (q_world q)) as He. rewrite Hm in He. rewrite (world_of cfg q Hs) in He at 1.
    by eapply perform_unfinished; [by apply (sound_wf cfg)|exact Hal| |exact He].
Qed.

(** ** Each request is one step of the abstract queue *)

(** The state in which commands run: a log that can be appended to, and ordering
    keys that have not run out. *)
Definition usable_queue (q : queue) : Prop :=
  sound q /\ tail_ok (content (disk_of q) HISTORY_FILE)
  /\ exists k, spread k (disk_of q) /\ 0 <= k < I64_MAX.

(** A change that is answered is a step of the abstract queue. *)
Lemma change_steps {A} (m : M A) o q a w' r :
  usable_queue q -> allowed (disk_of q) (q_now q) o -> (forall e h x, o <> Fail e h x) ->
  m (q_world q) = (Done a, w') -> Spec.answer o (q_now q) (q_world q) = (Done r, w') ->
  spec_step (q_now q) (abs (disk_of q)) o r (abs (w_disk w')).
Proof.
  intros (Hs & Ht & k & Hk & Hlim) Hal Hno Hm Hans. rewrite (world_of cfg q Hs) in Hans.
  refine (proj1 (step_simulates k (q_now q) (disk_of q) _ o (Done r) w' r (sound_wf cfg q Hs) _ Ht Hk Hlim Hans eq_refl)).
  split; [done|]. by destruct o as [| | | | | | |e h x|]; [..|destruct (Hno e h x)|].
Qed.

(** What the daemon does for a request, and what it answers. *)
Definition answered (o : op) (q q' : queue) (response : Response.t) : Prop :=
  sound q'
  /\ ((exists r, spec_step (q_now q) (abs (disk_of q)) o r (abs (disk_of q')) /\ q_permit q' = true
        /\ match r with
           | Queued id eta => exists e, response = Response.entry (pending_entry e eta) /\ StoredEntry.id e = id
                /\ exists salts options, o = Put salts (StoredEntry.request e) options
           | Accepted => response = Response.ok
           | _ => False
           end)
      \/ exists message, response = Response.error message /\ disk_of q' = disk_of q).

Lemma edit_answered name o q :
  usable_queue q -> allowed (disk_of q) (q_now q) o -> is_state_mutation name = true ->
  match o with Bump _ | Bust _ | Del _ => True | _ => False end ->
  exists response kind q',
    (let> r := qattempt (change name (perform o (q_now q))) in qret (map_store_response r)) q
    = (Done (response, kind), q') /\ answered o q q' response.
Proof.
  intros Hu Hal Hn Ho. pose proof Hu as (Hs & _).
  destruct (change_cases name (perform o (q_now q)) o q Hs (same_effect_unit _) Hal Hn) as (r & q' & Hrun & Hs' & Hcase).
  { rewrite (world_of cfg q Hs). apply edit_returns; [by apply (sound_wf cfg)|done]. }
  unfold qbind. rewrite Hrun. destruct r as [e|[]]; cbn [map_store_response].
  - destruct Hcase as [_ Hd]. eexists _, _, q'. split; [done|]. split; [done|]. right. by eexists.
  - destruct Hcase as (w' & Hm & Hd & Hp). eexists _, _, q'. split; [done|]. split; [done|]. left.
    exists Accepted. rewrite Hd. split; [|done].
    eapply change_steps; [done|done|by destruct o|exact Hm|].
    destruct o; try done; cbn [Spec.answer]; by rewrite (bind_done _ _ _ _ _ Hm).
Qed.

Lemma request_answered command o q :
  usable_queue q -> op_of command = Some o -> allowed (disk_of q) (q_now q) o -> nameable (disk_of q) (q_now q) o ->
  exists response kind q',
    dispatch_request_with_error_kind cfg salts sampled (to_request command) q = (Done (response, kind), q')
    /\ answered o q q' response.
Proof.
  intros Hu Hop Hal Hname. pose proof Hu as (Hs & _). unfold op_of in Hop.
  destruct (to_request command) as [request immediate| |wanted|wanted|wanted|wanted|limit cursor]; try done;
    injection Hop as <-; cbn [dispatch_request_with_error_kind].
  2: by apply (edit_answered "bump" (Bump wanted) q).
  2: by apply (edit_answered "bust" (Bust wanted) q).
  2: by apply (edit_answered "del" (Del wanted) q).
  unfold SharedQueue.put. destruct (validate_request request) as [err|[]].
  { eexists _, _, q. unfold qbind, qattempt. split; [done|]. split; [done|]. right. by eexists. }
  set (options := PutOptions.mk _ _ _) in *. destruct Hname as (n & x & Hfu & Hn). destruct Hal as (Hnow & Hr & Ho & Hf).
  destruct (put_returns (disk_of q) (w_uuids (q_world q)) salts request options (q_now q) n x)
    as [Hret Hreq]; [by apply (sound_wf cfg)|done..|]. rewrite <- (world_of cfg q Hs) in Hret, Hreq.
  destruct (change_cases "put" (put_with_eta salts request options (q_now q)) (Put salts request options) q Hs
    (same_effect_drop _)) as (r & q' & Hrun & Hs' & Hcase); [by split_and!|done|done|].
  assert (Hsame : qattempt (let> _ := qlift (Ok tt) in let> now := unix_now in
    let> r := with_store "put" (put_with_eta salts request options now) in
    let> _ := SharedQueue.mutation_finished in qret r) q = (Done r, q')) by exact Hrun.
  unfold qbind at 1. cbn beta zeta. rewrite Hsame. unfold qret. destruct r as [e|[e eta]].
  - destruct Hcase as [_ Hd]. eexists _, _, q'. split; [done|]. split; [done|]. right. by eexists.
  - destruct Hcase as (w' & Hm & Hd & Hp). eexists _, _, q'. split; [done|]. split; [done|]. left.
    exists (Queued (StoredEntry.id e) eta). rewrite Hd. split; [|split; [done|]].
    + eapply change_steps; [done|by split_and!|done|exact Hm|]. cbn [Spec.answer]. by rewrite (bind_done _ _ _ _ _ Hm).
    + exists e. split; [done|]. split; [done|]. exists salts, options. by rewrite (Hreq e eta w' Hm).
Qed.

(** ** What the client prints *)

(** An answer of the queue is confirmed; an error is reported. *)
Lemma answer_rendered command o q q' response now lines :
  op_of command = Some o -> answered o q q' response ->
  (exists answer, spec_step (q_now q) (abs (disk_of q)) o answer (abs (disk_of q')) /\ q_permit q' = true
     /\ render_reply command response now (Out lines []) = (Ok tt, Out (lines ++ [confirmation command answer]) []))
  \/ (exists message, render_reply command response now (Out lines []) = (Err (Daemon message), Out lines [])
      /\ disk_of q' = disk_of q).
Proof.
  intros Hop (_ & [(r & Hstep & Hp & Hr)|(message & -> & Hd)]); [left|right; by exists message].
  exists r. split; [done|]. split; [done|]. unfold op_of in Hop.
  destruct command as [slug pr body immediate| |id|id|id|id|limit]; cbn [to_request] in Hop; try done;
    injection Hop as <-; inversion Hstep; subst; try done; try by rewrite Hr.
  all: destruct Hr as (e & -> & Hid & s & options & [= _ Hreq _]).
  all: cbn [render_reply Response.entry render_response write_line o_faults o_lines discard]; do 4 f_equal.
  all: unfold render_put, confirmation; cbn [pending_entry PendingEntry.id PendingEntry.owner
    PendingEntry.repo PendingEntry.pr_number PendingEntry.eta_seconds].
  all: by rewrite Hid, <- Hreq.
Qed.
End drive.

(** * Result *)

(** C5: the commands do what they say.  The process [comenq put], [bump], [bust] or [del]
    against the daemon's listener over a usable queue either exits with 0 after printing
    one confirmation, and then the queue on disk has made exactly that step of the
    abstract queue, the identifier and the wait that [put] prints are those of the
    abstract step, and the worker is notified; or exits with 1 after printing the daemon's
    message on stderr and nothing on stdout, and then nothing on disk has changed. *)
Theorem commands_drive_the_queue `{Platform} `{!PlatformOk} `{SerdeJson} `{!SerdeJsonOk} `{WireJson} `{!WireJsonOk}
    cfg salts sampled waiting pages command o q payload now lines errors :
  usable_queue cfg q -> op_of cfg salts sampled command = Some o ->
  allowed (w_disk (q_world q)) (q_now q) o -> nameable (w_disk (q_world q)) (q_now q) o ->
  request_wf (to_request command) -> request_to_vec (to_request command) = Some payload ->
  zlen payload <= MAX_REQUEST_BYTES ->
  (forall response kind q',
     dispatch_request_with_error_kind cfg salts sampled (to_request command) q = (Done (response, kind), q') ->
     response_wf response /\ forall b, response_to_vec response = Some b -> zlen b <= MAX_RESPONSE_BYTES) ->
  exists status text said q',
    main (exchange cfg salts sampled) waiting pages command now q (Out lines []) (Out errors [])
    = (Some status, q', Out (lines ++ text) [], Out (errors ++ said) [])
    /\ sound cfg q'
    /\ ((exists answer, status = 0 /\ text = [confirmation command answer] /\ said = [] /\ q_permit q' = true
          /\ spec_step (q_now q) (abs (w_disk (q_world q))) o answer (abs (w_disk (q_world q'))))
        \/ exists message, status = 1 /\ text = []
             /\ said = [chars (client_error_text (Daemon message))] /\ w_disk (q_world q') = w_disk (q_world q)).
Proof.
  intros Hu Hop Hal Hname Hwf Hp Hreq Hfit.
  destruct (request_answered cfg salts sampled command o q Hu Hop Hal Hname) as (response & kind & q' & Hd & Hans).
  destruct (Hfit response kind q' Hd) as [Hrwf Hlen]. destruct (response_to_vec_total response Hrwf) as [b Hb].
  pose proof (exchange_dispatch cfg salts sampled _ payload q response kind q' b Hwf Hp Hreq Hd Hrwf Hb (Hlen b Hb)) as Hex.
  assert (Hrun : run (exchange cfg salts sampled) waiting pages command now q (Out lines []) (Out errors [])
    = let '(r, stdout) := render_reply command response now (Out lines []) in (Some r, q', stdout, Out errors [])).
  { unfold op_of in Hop. destruct command; try done; cbn [run]; by rewrite Hex. }
  unfold main. rewrite Hrun. destruct (answer_rendered cfg salts sampled command o q q' response now lines Hop Hans)
    as [(answer & Hstep & Hperm & ->)|(message & -> & Hsame)].
  - exists 0, [confirmation command answer], [], q'. rewrite app_nil_r. split; [done|]. split; [apply Hans|]. left. by exists answer.
  - exists 1, [], [chars (client_error_text (Daemon message))], q'. rewrite app_nil_r. split; [done|].
    split; [apply Hans|]. right. by exists message.
Qed.
