(* ===== verification/Codec.v ===== *)
(** Decoders for a fixed JSON layout.

    The laws the store relies on ([SerdeJsonOk]) are about a codec that is not
    part of the repository.  This file and [Json] build a concrete one, so that
    the theorems stated over the laws can be applied to concrete inputs.  A
    decoder consumes a prefix of the text; a [good] one gives the same answer
    when text follows, and a newline at the end is never part of a value. *)

From S2P Require Import Prelude Text.

Definition dec (A : Type) : Type := bytes -> option (A * bytes).

Definition dret {A} (a : A) : dec A := fun b => Some (a, b).
Definition dbind {A B} (d : dec A) (k : A -> dec B) : dec B := fun b =>
  match d b with Some (a, r) => k a r | None => None end.

(** A literal. *)
Fixpoint dlit (l : bytes) (b : bytes) : option (unit * bytes) :=
  match l, b with
  | [], _ => Some (tt, b)
  | c :: l, c' :: b => if decide (c = c') then dlit l b else None
  | _, [] => None
  end.

(** Continue by which of two literals comes next. *)
Definition dcase {A} (l1 : bytes) (d1 : dec A) (l2 : bytes) (d2 : dec A) : dec A := fun b =>
  match dlit l1 b with
  | Some (_, r) => d1 r
  | None => match dlit l2 b with Some (_, r) => d2 r | None => None end
  end.

(** Decimal digits up to a terminator, which is consumed. *)
Fixpoint ddigits (stop : ascii) (b : bytes) : option (bytes * bytes) :=
  match b with
  | [] => None
  | c :: r =>
      if decide (c = stop) then Some ([], r)
      else if is_ascii_digit c
           then match ddigits stop r with Some (ds, r) => Some (c :: ds, r) | None => None end
           else None
  end.
Definition dnum (stop : ascii) : dec Z := fun b =>
  match ddigits stop b with
  | Some (ds, r) => match parse_u64 (code <$> ds) with Ok n => Some (n, r) | Err _ => None end
  | None => None
  end.

(** ** Strings *)

Definition QUOTE : ascii := byte_of 34.
Definition BACKSLASH : ascii := byte_of 92.

Definition escape_char (c : ascii) : bytes :=
  if decide (c = QUOTE) then bytes_of "\" ++ [QUOTE]
  else if decide (c = BACKSLASH) then bytes_of "\\"
  else if decide (code c = 8) then bytes_of "\b"
  else if decide (code c = 9) then bytes_of "\t"
  else if decide (code c = 10) then bytes_of "\n"
  else if decide (code c = 12) then bytes_of "\f"
  else if decide (code c = 13) then bytes_of "\r"
  else if decide (code c < 32) then bytes_of "\u00" ++ hex_digits 2 (code c)
  else [c].
Definition escape (b : bytes) : bytes := concat (escape_char <$> b).
Definition quoted (s : string) : bytes := QUOTE :: escape (bytes_of s) ++ [QUOTE].

Definition hex_value (c : ascii) : Z := if is_ascii_digit c then code c - 48 else code c - 87.

Definition simple_escape (c : ascii) : option ascii :=
  if decide (c = QUOTE) then Some QUOTE
  else if decide (c = BACKSLASH) then Some BACKSLASH
  else if decide (c = byte_of 98) then Some (byte_of 8)
  else if decide (c = byte_of 116) then Some (byte_of 9)
  else if decide (c = byte_of 110) then Some (byte_of 10)
  else if decide (c = byte_of 102) then Some (byte_of 12)
  else if decide (c = byte_of 114) then Some (byte_of 13)
  else None.

Definition push (c : ascii) (r : option (bytes * bytes)) : option (bytes * bytes) :=
  match r with Some (s, r) => Some (c :: s, r) | None => None end.

(** The rest of a string after its opening quote; raw control characters are
    refused. *)
Fixpoint dchars (b : bytes) : option (bytes * bytes) :=
  match b with
  | [] => None
  | c :: r =>
      if decide (c = QUOTE) then Some ([], r)
      else if decide (c = BACKSLASH) then
        match r with
        | [] => None
        | x :: r =>
            match simple_escape x with
            | Some c => push c (dchars r)
            | None =>
                match r with
                | _ :: _ :: h :: l :: r => push (byte_of (hex_value h * 16 + hex_value l)) (dchars r)
                | _ => None
                end
            end
        end
      else if decide (code c < 32) then None
      else push c (dchars r)
  end.
Definition dstr : dec string := fun b =>
  match dlit [QUOTE] b with
  | Some (_, r) => match dchars r with Some (s, r) => Some (string_of s, r) | None => None end
  | None => None
  end.

(** * Correctness on printed text *)

Lemma dlit_ok l b : dlit l (l ++ b) = Some (tt, b).
Proof. induction l as [|c l IH]; simpl; [done|]. by rewrite decide_True. Qed.

Lemma dchars_escape c b : dchars (escape_char c ++ b) = push c (dchars b).
Proof. destruct c as [[] [] [] [] [] [] [] []]; reflexivity. Qed.

Lemma dchars_ok s b : dchars (escape s ++ QUOTE :: b) = Some (s, b).
Proof.
  unfold escape. induction s as [|c s IH]; [done|].
  rewrite fmap_cons. cbn [concat]. by rewrite <- app_assoc, dchars_escape, IH.
Qed.

Lemma dstr_ok s b : dstr (quoted s ++ b) = Some (s, b).
Proof.
  unfold dstr, quoted. cbn [app dlit]. rewrite decide_True by done.
  rewrite <- app_assoc. cbn [app]. rewrite dchars_ok. by rewrite string_of_bytes_of.
Qed.

Lemma ddigits_ok stop ds b :
  is_ascii_digit stop = false -> Forall (fun c => is_ascii_digit c = true) ds ->
  ddigits stop (ds ++ stop :: b) = Some (ds, b).
Proof.
  intros Hstop. induction 1 as [|c ds Hc _ IH]; simpl; [by rewrite decide_True|].
  rewrite decide_False by congruence. by rewrite Hc, IH.
Qed.

Lemma u64_digits n : is_u64 n -> Forall (fun c => is_ascii_digit c = true) (u64_to_bytes n).
Proof. intros [Hn _]. by apply dec_digits_digits. Qed.

Lemma dnum_ok stop n b :
  is_ascii_digit stop = false -> is_u64 n -> dnum stop (u64_to_bytes n ++ stop :: b) = Some (n, b).
Proof.
  intros Hs Hn. unfold dnum. rewrite ddigits_ok by (done || by apply u64_digits).
  by rewrite parse_u64_to_bytes.
Qed.

(** * Good decoders *)

Record good {A} (d : dec A) : Prop := {
  good_stable : forall b a r x, d b = Some (a, r) -> d (b ++ x) = Some (a, r ++ x);
  good_local : forall b a r, d (b ++ [NEWLINE]) = Some (a, r) ->
    exists r', r = r' ++ [NEWLINE] /\ d b = Some (a, r');
}.

Lemma good_ret {A} (a : A) : good (dret a).
Proof. split; [by intros b ? ? ? [= <- <-]|]. intros b a' r [= <- <-]. by exists b. Qed.

Lemma good_bind {A B} (d : dec A) (k : A -> dec B) :
  good d -> (forall a, good (k a)) -> good (dbind d k).
Proof.
  intros Hd Hk. unfold dbind. split.
  - intros b v r x. destruct (d b) as [[a r0]|] eqn:E; [|done]. intros Hk'.
    rewrite (good_stable d Hd _ _ _ x E). by apply (good_stable _ (Hk a)).
  - intros b v r. destruct (d (b ++ [NEWLINE])) as [[a r0]|] eqn:E; [|done]. intros Hk'.
    destruct (good_local d Hd _ _ _ E) as (r' & -> & ->). by apply (good_local _ (Hk a)).
Qed.

Lemma good_lit l : NEWLINE ∉ l -> good (dlit l).
Proof.
  intros Hl. split.
  - clear Hl. induction l as [|c l IH]; intros b a r x; simpl; [by intros [= <- <-]|].
    destruct b as [|c' b]; simpl; [done|]. destruct (decide (c = c')); [apply IH|done].
  - induction l as [|c l IH]; intros b a r; simpl.
    { intros [= <- <-]. by exists b. }
    apply not_elem_of_cons in Hl as [Hc Hl]. destruct b as [|c' b]; simpl.
    + by rewrite decide_False.
    + destruct (decide (c = c')); [by apply IH|done].
Qed.

(** Two literals that differ somewhere exclude each other. *)
Fixpoint differ (l1 l2 : bytes) : bool :=
  match l1, l2 with
  | c1 :: l1, c2 :: l2 => if decide (c1 = c2) then differ l1 l2 else true
  | _, _ => false
  end.

Lemma dlit_differ l1 : forall l2 b x r,
  differ l1 l2 = true -> dlit l2 b = Some r -> dlit l1 (b ++ x) = None.
Proof.
  induction l1 as [|c1 l1 IH]; intros l2 b x r Hd H2; [done|].
  destruct l2 as [|c2 l2]; [done|]. destruct b as [|c b]; [done|]. simpl in *.
  destruct (decide (c2 = c)) as [->|]; [|done].
  destruct (decide (c1 = c)) as [->|]; [by eapply IH|done].
Qed.

Lemma good_case {A} l1 (d1 : dec A) l2 (d2 : dec A) :
  differ l1 l2 = true -> NEWLINE ∉ l1 -> NEWLINE ∉ l2 -> good d1 -> good d2 ->
  good (dcase l1 d1 l2 d2).
Proof.
  intros Hdiff Hn1 Hn2 Hg1 Hg2. pose proof (good_lit l1 Hn1) as Hl1.
  pose proof (good_lit l2 Hn2) as Hl2. unfold dcase. split.
  - intros b a r x. destruct (dlit l1 b) as [[[] r1]|] eqn:E1.
    + rewrite (good_stable _ Hl1 _ _ _ x E1). apply (good_stable _ Hg1).
    + destruct (dlit l2 b) as [[[] r2]|] eqn:E2; [|done].
      rewrite (dlit_differ l1 l2 b x _ Hdiff E2), (good_stable _ Hl2 _ _ _ x E2).
      apply (good_stable _ Hg2).
  - intros b a r. destruct (dlit l1 (b ++ [NEWLINE])) as [[[] r1]|] eqn:E1.
    + destruct (good_local _ Hl1 _ _ _ E1) as (r' & -> & ->). apply (good_local _ Hg1).
    + destruct (dlit l2 (b ++ [NEWLINE])) as [[[] r2]|] eqn:E2; [|done].
      destruct (good_local _ Hl2 _ _ _ E2) as (r' & -> & ->).
      destruct (dlit l1 b) as [[[] r1]|] eqn:E3.
      { by rewrite (good_stable _ Hl1 _ _ _ [NEWLINE] E3) in E1. }
      apply (good_local _ Hg2).
Qed.

Lemma good_num stop : stop <> NEWLINE -> good (dnum stop).
Proof.
  intros Hstop.
  assert (Hst : forall b ds r x, ddigits stop b = Some (ds, r) -> ddigits stop (b ++ x) = Some (ds, r ++ x)).
  { induction b as [|c b IH]; intros ds r x; simpl; [done|].
    destruct (decide (c = stop)); [by intros [= <- <-]|].
    destruct (is_ascii_digit c); [|done].
    destruct (ddigits stop b) as [[ds' r']|] eqn:E; [|done]. intros [= <- <-].
    by rewrite (IH ds' r' x). }
  assert (Hlo : forall b ds r, ddigits stop (b ++ [NEWLINE]) = Some (ds, r) ->
            exists r', r = r' ++ [NEWLINE] /\ ddigits stop b = Some (ds, r')).
  { induction b as [|c b IH]; intros ds r; simpl; [by rewrite decide_False|].
    destruct (decide (c = stop)).
    { intros [= <- <-]. by exists b. }
    destruct (is_ascii_digit c); [|done].
    destruct (ddigits stop (b ++ [NEWLINE])) as [[ds' r0]|] eqn:E; [|done]. intros [= <- <-].
    destruct (IH ds' r0 eq_refl) as (r' & -> & ->). by exists r'. }
  unfold dnum. split.
  - intros b a r x. destruct (ddigits stop b) as [[ds r0]|] eqn:E; [|done].
    rewrite (Hst b ds r0 x E). by destruct (parse_u64 _); intros [= <- <-].
  - intros b a r. destruct (ddigits stop (b ++ [NEWLINE])) as [[ds r0]|] eqn:E; [|done].
    destruct (Hlo b ds r0 E) as (r' & -> & ->).
    destruct (parse_u64 _); intros [= <- <-]. by exists r'.
Qed.

Lemma dchars_stable b : forall s r x,
  dchars b = Some (s, r) -> dchars (b ++ x) = Some (s, r ++ x).
Proof.
  induction b as [b IH] using (induction_ltof1 _ (@length ascii)). unfold ltof in IH.
  assert (Hpush : forall b' c s r x, (length b' < length b)%nat ->
    push c (dchars b') = Some (s, r) -> push c (dchars (b' ++ x)) = Some (s, r ++ x)).
  { intros b' c s r x Hlt. unfold push. destruct (dchars b') as [[s' r']|] eqn:E; [|done].
    intros [= <- <-]. by rewrite (IH b' Hlt s' r' x E). }
  intros s r x. destruct b as [|c b]; [done|]. cbn [dchars app].
  destruct (decide (c = QUOTE)); [by intros [= <- <-]|].
  destruct (decide (c = BACKSLASH)).
  - destruct b as [|y b]; [done|]. cbn [app].
    destruct (simple_escape y); [apply Hpush; simpl; lia|].
    destruct b as [|b1 [|b2 [|b3 [|b4 b]]]]; try done. cbn [app]. apply Hpush. simpl. lia.
  - destruct (decide (code c < 32)); [done|]. apply Hpush. simpl. lia.
Qed.

Lemma dchars_local b : forall s r,
  dchars (b ++ [NEWLINE]) = Some (s, r) ->
  exists r', r = r' ++ [NEWLINE] /\ dchars b = Some (s, r').
Proof.
  induction b as [b IH] using (induction_ltof1 _ (@length ascii)). unfold ltof in IH.
  assert (Hpush : forall b' c s r, (length b' < length b)%nat ->
    push c (dchars (b' ++ [NEWLINE])) = Some (s, r) ->
    exists r', r = r' ++ [NEWLINE] /\ push c (dchars b') = Some (s, r')).
  { intros b' c s r Hlt. unfold push.
    destruct (dchars (b' ++ [NEWLINE])) as [[s' r0]|] eqn:E; [|done].
    intros [= <- <-]. destruct (IH b' Hlt s' r0 E) as (r' & -> & ->). by exists r'. }
  intros s r. destruct b as [|c b]; [done|]. cbn [dchars app].
  destruct (decide (c = QUOTE)).
  { intros [= <- <-]. by exists b. }
  destruct (decide (c = BACKSLASH)).
  - destruct b as [|y b]; [done|]. cbn [app].
    destruct (simple_escape y); [apply Hpush; simpl; lia|].
    destruct b as [|b1 [|b2 [|b3 [|b4 b]]]]; try done. cbn [app]. apply Hpush. simpl. lia.
  - destruct (decide (code c < 32)); [done|]. apply Hpush. simpl. lia.
Qed.

Lemma good_str : good dstr.
Proof.
  assert (Hq : good (dlit [QUOTE])) by (apply good_lit; by apply (bool_decide_unpack _)).
  unfold dstr. split.
  - intros b a r x. destruct (dlit [QUOTE] b) as [[[] r0]|] eqn:E; [|done].
    rewrite (good_stable _ Hq _ _ _ x E).
    destruct (dchars r0) as [[s r1]|] eqn:E1; [|done]. intros [= <- <-].
    by rewrite (dchars_stable r0 s r1 x E1).
  - intros b a r. destruct (dlit [QUOTE] (b ++ [NEWLINE])) as [[[] r0]|] eqn:E; [|done].
    destruct (good_local _ Hq _ _ _ E) as (r1 & -> & ->).
    destruct (dchars (r1 ++ [NEWLINE])) as [[s r2]|] eqn:E1; [|done]. intros [= <- <-].
    destruct (dchars_local r1 s r2 E1) as (r' & -> & ->). by exists r'.
Qed.

Create HintDb codec.
#[export] Hint Resolve good_ret good_bind good_str : codec.
