(* ===== verification/Json.v ===== *)
(** A concrete JSON codec with the layout of [serde_json] (two-space pretty
    printing for entries, compact form for the other records) and a concrete
    platform.  They satisfy [SerdeJsonOk] and [PlatformOk]; the theorems stated
    over the laws are applied to concrete stores through them. *)

From S2P Require Import Prelude Text Protocol Disk Entry Codec.

(** * Printing *)

(** The fixed parts of the layout: keys with what precedes them, and closers. *)
Definition COMMA : ascii := byte_of 44.
Definition CLOSE : ascii := byte_of 125.
Definition key (k : string) : bytes := QUOTE :: bytes_of k ++ [QUOTE; byte_of 58].
Definition open_key (k : string) : bytes := byte_of 123 :: key k.
Definition next_key (k : string) : bytes := COMMA :: key k.
Definition comma : bytes := [COMMA].
Definition close : bytes := [CLOSE].
Definition true_ : bytes := bytes_of "true".
Definition false_ : bytes := bytes_of "false".
Definition null : bytes := bytes_of "null".

Definition print_request (r : CommentRequest.t) : bytes :=
  open_key "owner" ++ quoted (CommentRequest.owner r)
  ++ next_key "repo" ++ quoted (CommentRequest.repo r)
  ++ next_key "pr_number" ++ u64_to_bytes (CommentRequest.pr_number r)
  ++ COMMA :: key "body" ++ quoted (CommentRequest.body r) ++ close.

Definition print_optional (k : string) (o : option string) (next : string) : bytes :=
  match o with Some s => key k ++ quoted s ++ next_key next | None => key next end.
Definition print_bool (b : bool) : bytes := if b then true_ else false_.

Definition print_record (r : HistoryRecord.t) : bytes :=
  open_key "attempt_id" ++ quoted (HistoryRecord.attempt_id r)
  ++ next_key "id" ++ quoted (HistoryRecord.id r)
  ++ next_key "posted_at" ++ u64_to_bytes (HistoryRecord.posted_at r)
  ++ COMMA :: key "success" ++ print_bool (HistoryRecord.success r)
  ++ comma ++ print_optional "error" (HistoryRecord.error r) "token_hash"
  ++ quoted (HistoryRecord.token_hash r)
  ++ comma ++ print_optional "comment_url" (HistoryRecord.comment_url r) "incarnation"
  ++ quoted (HistoryRecord.incarnation r)
  ++ next_key "request" ++ print_request (HistoryRecord.request r) ++ close.

Definition print_nullable {A} (f : A -> bytes) (o : option A) : bytes :=
  match o with Some a => f a | None => null end.

Definition print_completion (c : CompletionRecord.t) : bytes :=
  open_key "id" ++ quoted (CompletionRecord.id c)
  ++ next_key "posted_at" ++ u64_to_bytes (CompletionRecord.posted_at c)
  ++ COMMA :: key "claim_token" ++ print_nullable quoted (CompletionRecord.claim_token c)
  ++ next_key "history" ++ print_nullable print_record (CompletionRecord.history c)
  ++ next_key "history_offset"
  ++ print_nullable u64_to_bytes (CompletionRecord.history_offset c) ++ CLOSE :: [].

Definition print_deletion (m : AwaitDeletionRecord.t) : bytes :=
  open_key "incarnation" ++ quoted (AwaitDeletionRecord.incarnation m) ++ close.

(** A line of the pretty form: indentation, key, a space before the value. *)
Definition pretty_key (indent : nat) (k : string) : bytes :=
  NEWLINE :: repeat (byte_of 32) indent ++ key k ++ [byte_of 32].
Definition pretty_open (indent : nat) (k : string) : bytes := byte_of 123 :: pretty_key indent k.
Definition pretty_next (indent : nat) (k : string) : bytes := COMMA :: pretty_key indent k.
Definition pretty_close : bytes := NEWLINE :: bytes_of "  }" ++ NEWLINE :: bytes_of "}".

Definition print_incarnation (i : string) : bytes :=
  if decide (i = "") then pretty_key 2 "order"
  else pretty_key 2 "incarnation" ++ quoted i ++ pretty_next 2 "order".

Definition print_entry (e : StoredEntry.t) : bytes :=
  pretty_open 2 "id" ++ quoted (StoredEntry.id e)
  ++ comma ++ print_incarnation (StoredEntry.incarnation e)
  ++ i64_to_bytes (StoredEntry.order e)
  ++ COMMA :: pretty_key 2 "flutter_seconds" ++ u64_to_bytes (StoredEntry.flutter_seconds e)
  ++ COMMA :: pretty_key 2 "enqueued_at" ++ u64_to_bytes (StoredEntry.enqueued_at e)
  ++ COMMA :: pretty_key 2 "not_before" ++ u64_to_bytes (StoredEntry.not_before e)
  ++ COMMA :: pretty_key 2 "claim_token" ++ print_nullable quoted (StoredEntry.claim_token e)
  ++ pretty_next 2 "request" ++ pretty_open 4 "owner"
  ++ quoted (CommentRequest.owner (StoredEntry.request e))
  ++ pretty_next 4 "repo" ++ quoted (CommentRequest.repo (StoredEntry.request e))
  ++ pretty_next 4 "pr_number"
  ++ u64_to_bytes (CommentRequest.pr_number (StoredEntry.request e))
  ++ COMMA :: pretty_key 4 "body" ++ quoted (CommentRequest.body (StoredEntry.request e))
  ++ pretty_close.

(** * Parsing *)

Notation "'let?' x := d 'in' k" := (dbind d (fun x => k))
  (at level 10, x name, d at level 100, k at level 200) : store_scope.

Definition parse_request : dec CommentRequest.t :=
  let? _ := dlit (open_key "owner") in
  let? owner := dstr in
  let? _ := dlit (next_key "repo") in
  let? repo := dstr in
  let? _ := dlit (next_key "pr_number") in
  let? pr := dnum COMMA in
  let? _ := dlit (key "body") in
  let? body := dstr in
  let? _ := dlit close in
  dret (CommentRequest.mk owner repo pr body).

(** An optional field, told apart from the one that follows it. *)
Definition parse_optional (k next : string) : dec (option string) :=
  dcase (key k)
    (let? v := dstr in
     let? _ := dlit (next_key next) in
     dret (Some v))
    (key next) (dret None).

Definition parse_record : dec HistoryRecord.t :=
  let? _ := dlit (open_key "attempt_id") in
  let? attempt_id := dstr in
  let? _ := dlit (next_key "id") in
  let? id := dstr in
  let? _ := dlit (next_key "posted_at") in
  let? posted_at := dnum COMMA in
  let? _ := dlit (key "success") in
  let? success := dcase true_ (dret true) false_ (dret false) in
  let? _ := dlit comma in
  let? error := parse_optional "error" "token_hash" in
  let? token_hash := dstr in
  let? _ := dlit comma in
  let? comment_url := parse_optional "comment_url" "incarnation" in
  let? incarnation := dstr in
  let? _ := dlit (next_key "request") in
  let? request := parse_request in
  let? _ := dlit close in
  dret (HistoryRecord.mk attempt_id id posted_at success error token_hash comment_url
          incarnation request).

(** A value, or [null]. *)
Definition parse_nullable {A} (d : dec A) : dec (option A) := fun b =>
  match dlit null b with
  | Some (_, r) => Some (None, r)
  | None => match d b with Some (a, r) => Some (Some a, r) | None => None end
  end.

Definition parse_completion : dec CompletionRecord.t :=
  let? _ := dlit (open_key "id") in
  let? id := dstr in
  let? _ := dlit (next_key "posted_at") in
  let? posted_at := dnum COMMA in
  let? _ := dlit (key "claim_token") in
  let? token := parse_nullable dstr in
  let? _ := dlit (next_key "history") in
  let? history := parse_nullable parse_record in
  let? _ := dlit (next_key "history_offset") in
  let? offset := dcase (null ++ close) (dret None) [] (let? n := dnum CLOSE in dret (Some n)) in
  dret (CompletionRecord.mk id posted_at token history offset).

Definition parse_deletion : dec AwaitDeletionRecord.t :=
  let? _ := dlit (open_key "incarnation") in
  let? i := dstr in
  let? _ := dlit close in
  dret (AwaitDeletionRecord.mk i).

Definition parse_signed : dec Z :=
  dcase [byte_of 45] (let? n := dnum COMMA in dret (- n)) [] (dnum COMMA).

Definition parse_incarnation : dec string :=
  dcase (pretty_key 2 "incarnation")
    (let? i := dstr in let? _ := dlit (pretty_next 2 "order") in dret i)
    (pretty_key 2 "order") (dret "").

Definition parse_entry : dec StoredEntry.t :=
  let? _ := dlit (pretty_open 2 "id") in
  let? id := dstr in
  let? _ := dlit comma in
  let? incarnation := parse_incarnation in
  let? order := parse_signed in
  let? _ := dlit (pretty_key 2 "flutter_seconds") in
  let? flutter := dnum COMMA in
  let? _ := dlit (pretty_key 2 "enqueued_at") in
  let? enqueued := dnum COMMA in
  let? _ := dlit (pretty_key 2 "not_before") in
  let? not_before := dnum COMMA in
  let? _ := dlit (pretty_key 2 "claim_token") in
  let? token := parse_nullable dstr in
  let? _ := dlit (pretty_next 2 "request") in
  let? _ := dlit (pretty_open 4 "owner") in
  let? owner := dstr in
  let? _ := dlit (pretty_next 4 "repo") in
  let? repo := dstr in
  let? _ := dlit (pretty_next 4 "pr_number") in
  let? pr := dnum COMMA in
  let? _ := dlit (pretty_key 4 "body") in
  let? body := dstr in
  let? _ := dlit pretty_close in
  dret (StoredEntry.mk id incarnation order flutter enqueued not_before token
          (CommentRequest.mk owner repo pr body)).

(** A whole document: a value and whitespace. *)
Definition is_json_space (c : ascii) : bool :=
  bool_decide (c = byte_of 32) || bool_decide (c = byte_of 9)
  || bool_decide (c = NEWLINE) || bool_decide (c = byte_of 13).
Definition document {A} (d : dec A) (b : bytes) : result string A :=
  match d b with
  | Some (a, r) => if forallb is_json_space r then Ok a else Err "trailing characters"
  | None => Err "expected value"
  end.

#[export] Instance json : SerdeJson := {
  entry_to_vec_pretty e := Some (print_entry e);
  entry_from_slice := document parse_entry;
  string_to_vec s := Some (quoted s);
  record_to_vec r := Some (print_record r);
  record_from_slice := document parse_record;
  completion_to_vec c := Some (print_completion c);
  completion_from_str := document parse_completion;
  deletion_to_vec m := Some (print_deletion m);
  deletion_from_slice := document parse_deletion;
}.

(** Identifiers numbered in the order they are drawn. *)
Definition uuid_bytes (n : nat) : bytes :=
  bytes_of "00000000-0000-4000-8000-" ++ hex_digits 12 (Z.of_nat n).
Definition uuid (n : nat) : string := string_of (uuid_bytes n).

#[export] Instance platform : Platform := { dir_order l := l; new_v4 := uuid }.
#[export] Instance platform_ok : PlatformOk.
Proof.
  constructor; [done|..]; intros n; change (new_v4 n) with (string_of (uuid_bytes n)).
  - rewrite <- bytes_of_length, bytes_of_string_of. unfold uuid_bytes.
    by rewrite length_app, hex_digits_length.
  - rewrite bytes_of_string_of. apply Forall_app. split.
    + repeat (constructor; [first [by left|by right]|]). constructor.
    + eapply Forall_impl; [apply hex_digits_hex|]. intros c. by left.
Qed.

(** * Round trips *)

(** One field: a literal and the value it introduces. *)
Lemma step_lit {B} l (k : unit -> dec B) b : dbind (dlit l) k (l ++ b) = k tt b.
Proof. unfold dbind. by rewrite dlit_ok. Qed.
Lemma step_str {B} s (k : string -> dec B) b : dbind dstr k (quoted s ++ b) = k s b.
Proof. unfold dbind. by rewrite dstr_ok. Qed.
Lemma step_num {B} stop n (k : Z -> dec B) b :
  is_ascii_digit stop = false -> is_u64 n ->
  dbind (dnum stop) k (u64_to_bytes n ++ stop :: b) = k n b.
Proof. intros. unfold dbind. by rewrite dnum_ok. Qed.
Lemma step_value {A B} (d : dec A) x a (k : A -> dec B) b :
  d (x ++ b) = Some (a, b) -> dbind d k (x ++ b) = k a b.
Proof. intros Hd. unfold dbind. by rewrite Hd. Qed.

Ltac flatten := repeat (rewrite <- app_assoc || rewrite <- app_comm_cons).
Ltac steps :=
  flatten; repeat (first [rewrite step_lit | rewrite step_str | rewrite step_num by done];
                   cbn beta).

Lemma parse_request_ok r b :
  is_u64 (CommentRequest.pr_number r) -> parse_request (print_request r ++ b) = Some (r, b).
Proof. intros Hn. unfold parse_request, print_request. steps. by destruct r. Qed.

Lemma parse_optional_ok k o next b :
  differ (key k) (key next) = true ->
  parse_optional k next (print_optional k o next ++ b) = Some (o, b).
Proof.
  intros Hd. unfold parse_optional, print_optional, dcase. destruct o as [s|].
  - flatten. rewrite dlit_ok. by steps.
  - rewrite (dlit_differ _ (key next) (key next) b (tt, [])) by
      (done || (rewrite <- (app_nil_r (key next)) at 2; apply dlit_ok)).
    by rewrite dlit_ok.
Qed.

Lemma parse_bool_ok v b :
  dcase true_ (dret true) false_ (dret false) (print_bool v ++ b) = Some (v, b).
Proof. by destruct v. Qed.

Lemma parse_record_ok r b :
  record_typed r -> parse_record (print_record r ++ b) = Some (r, b).
Proof.
  intros (_ & _ & Hp & _ & _ & _ & _ & (_ & _ & Hn & _)).
  unfold parse_record, print_record. steps.
  rewrite (step_value _ _ _ _ _ (parse_bool_ok _ _)). steps.
  rewrite (step_value _ _ _ _ _ (parse_optional_ok "error" _ "token_hash" _ eq_refl)). steps.
  rewrite (step_value _ _ _ _ _ (parse_optional_ok "comment_url" _ "incarnation" _ eq_refl)). steps.
  rewrite (step_value _ _ _ _ _ (parse_request_ok _ _ Hn)). steps. by destruct r.
Qed.

Lemma dlit_null_other c b : c <> byte_of 110 -> dlit null (c :: b) = None.
Proof.
  intros Hc. change null with (byte_of 110 :: bytes_of "ull"). cbn [dlit].
  by rewrite decide_False by congruence.
Qed.

Lemma parse_nullable_ok {A} (d : dec A) (f : A -> bytes) (o : option A) b :
  (forall a, o = Some a -> d (f a ++ b) = Some (a, b) /\ dlit null (f a ++ b) = None) ->
  parse_nullable d (print_nullable f o ++ b) = Some (o, b).
Proof.
  intros Ho. unfold parse_nullable, print_nullable. destruct o as [a|].
  - destruct (Ho a eq_refl) as [-> ->]. done.
  - by rewrite dlit_ok.
Qed.

Lemma parse_nullable_str o b :
  parse_nullable dstr (print_nullable quoted o ++ b) = Some (o, b).
Proof. apply parse_nullable_ok. intros a _. split; [apply dstr_ok|by apply dlit_null_other]. Qed.

Lemma u64_first n :
  is_u64 n -> exists c l, u64_to_bytes n = c :: l /\ is_ascii_digit c = true.
Proof.
  intros Hn. pose proof (u64_digits n Hn) as Hd.
  destruct (u64_to_bytes n) as [|c l] eqn:E.
  { by apply (dec_digits_nonempty 20 n []) in E; [|lia]. }
  apply Forall_cons_1 in Hd as [Hc _]. eauto.
Qed.

Lemma dlit_digit x l n b :
  is_u64 n -> is_ascii_digit x = false -> dlit (x :: l) (u64_to_bytes n ++ b) = None.
Proof.
  intros Hn Hx. destruct (u64_first n Hn) as (c & l' & -> & Hc). cbn [app dlit].
  rewrite decide_False; [done|]. congruence.
Qed.

Lemma parse_offset_ok o b :
  match o with Some n => is_u64 n | None => True end ->
  dcase (null ++ close) (dret None) [] (let? n := dnum CLOSE in dret (Some n))
    (print_nullable u64_to_bytes o ++ CLOSE :: b) = Some (o, b).
Proof.
  intros Ho. unfold dcase, print_nullable. destruct o as [n|]; [|done].
  change (null ++ close) with (byte_of 110 :: bytes_of "ull" ++ close).
  rewrite dlit_digit by done. cbn [dlit]. by rewrite step_num.
Qed.

Lemma parse_completion_ok c :
  completion_typed c -> parse_completion (print_completion c) = Some (c, []).
Proof.
  intros (_ & Hp & _ & Hh & Ho). unfold parse_completion, print_completion. steps.
  rewrite (step_value _ _ _ _ _ (parse_nullable_str _ _)). steps.
  rewrite (step_value _ _ (CompletionRecord.history c)).
  2:{ apply parse_nullable_ok. intros r Hr. rewrite Hr in Hh. split; [by apply parse_record_ok|].
      by apply dlit_null_other. }
  steps. unfold dbind at 1. rewrite parse_offset_ok by done. by destruct c.
Qed.

Lemma parse_deletion_ok m : parse_deletion (print_deletion m) = Some (m, []).
Proof.
  unfold parse_deletion, print_deletion. steps.
  rewrite <- (app_nil_r close). steps. by destruct m.
Qed.

Lemma parse_signed_ok {B} z (k : Z -> dec B) b :
  is_i64 z -> dbind parse_signed k (i64_to_bytes z ++ COMMA :: b) = k z b.
Proof.
  intros Hz. unfold dbind, parse_signed, i64_to_bytes, dcase.
  destruct (Z.ltb_spec z 0) as [Hneg|Hpos].
  - assert (Hu : is_u64 (- z)) by machine. cbn [app dlit]. rewrite decide_True by done.
    rewrite step_num by done. unfold dret. by rewrite Z.opp_involutive.
  - assert (Hu : is_u64 z) by machine.
    rewrite dlit_digit by done. cbn [dlit]. by rewrite dnum_ok.
Qed.

Lemma parse_incarnation_ok i b : parse_incarnation (print_incarnation i ++ b) = Some (i, b).
Proof.
  unfold parse_incarnation, print_incarnation, dcase.
  destruct (decide (i = "")) as [->|Hi]; [done|]. flatten. rewrite dlit_ok. by steps.
Qed.

Lemma parse_entry_ok e :
  entry_typed e -> parse_entry (print_entry e) = Some (e, []).
Proof.
  intros (_ & _ & Ho & Hf & He & Hn & _ & (_ & _ & Hp & _)).
  unfold parse_entry, print_entry. rewrite <- (app_nil_r pretty_close). steps.
  rewrite (step_value _ _ _ _ _ (parse_incarnation_ok _ _)).
  rewrite parse_signed_ok by done. steps.
  rewrite (step_value _ _ _ _ _ (parse_nullable_str _ _)). steps.
  by destruct e as [? ? ? ? ? ? ? []].
Qed.

(** * The record layout is self-delimiting *)

Ltac no_newline := by apply (bool_decide_unpack _).

(** Values first: a decoder for a value could also be read as a sequence. *)
Ltac good :=
  first [apply good_str | apply good_ret | apply good_lit; no_newline | by apply good_num
        | apply good_bind; [good|intros ?; good] | idtac].

Lemma good_request : good parse_request.
Proof. unfold parse_request. good. Qed.

Lemma good_optional k next :
  differ (key k) (key next) = true -> NEWLINE ∉ key k -> NEWLINE ∉ next_key next ->
  good (parse_optional k next).
Proof.
  intros Hd Hk Hn. pose proof Hn as [_ Hkn]%not_elem_of_cons.
  apply good_case; [done|done|done| |apply good_ret].
  apply good_bind; [apply good_str|intros v]. apply good_bind; [by apply good_lit|intros _].
  apply good_ret.
Qed.

Lemma good_record : good parse_record.
Proof.
  unfold parse_record. do 7 (apply good_bind; [good|intros ?]).
  apply good_bind; [apply good_case; [done|no_newline|no_newline|apply good_ret|apply good_ret]
                   |intros ?].
  apply good_bind; [good|intros ?].
  apply good_bind; [apply good_optional; [done|no_newline|no_newline]|intros ?].
  do 2 (apply good_bind; [good|intros ?]).
  apply good_bind; [apply good_optional; [done|no_newline|no_newline]|intros ?].
  do 2 (apply good_bind; [good|intros ?]).
  apply good_bind; [apply good_request|intros ?]. good.
Qed.

Lemma document_newline {A} (d : dec A) b a :
  good d -> document d (b ++ [NEWLINE]) = Ok a <-> document d b = Ok a.
Proof.
  intros Hd. unfold document. split.
  - destruct (d (b ++ [NEWLINE])) as [[v r]|] eqn:E; [|done].
    destruct (good_local d Hd b v r E) as (r' & -> & ->). rewrite forallb_app.
    cbn [forallb]. change (is_json_space NEWLINE) with true. by rewrite !andb_true_r.
  - destruct (d b) as [[v r]|] eqn:E; [|done]. rewrite (good_stable d Hd _ _ _ [NEWLINE] E).
    rewrite forallb_app. cbn [forallb]. change (is_json_space NEWLINE) with true.
    by rewrite !andb_true_r.
Qed.

Lemma document_prefix {A} (d : dec A) b a k :
  good d -> d b = Some (a, []) -> (k < length b)%nat ->
  exists message, document d (take k b) = Err message.
Proof.
  intros Hd Hb Hk. unfold document. destruct (d (take k b)) as [[v r]|] eqn:E; [|eauto].
  exfalso. pose proof (good_stable d Hd _ _ _ (drop k b) E) as Hfull.
  rewrite take_drop, Hb in Hfull. injection Hfull as _ Hnil. symmetry in Hnil.
  apply app_eq_nil in Hnil as [_ Hnil]. apply (f_equal length) in Hnil.
  rewrite length_drop in Hnil. simpl in Hnil. lia.
Qed.

(** * Printed text is UTF-8 and a record is one line *)

Definition utf8_bytes (b : bytes) : Prop := is_Some (utf8_decode b).

(** A character, a whole one, in front of a text. *)
Lemma utf8_ascii c b : code c < 128 -> utf8_bytes (c :: b) <-> utf8_bytes b.
Proof.
  intros Hc. unfold utf8_bytes. cbn [utf8_decode]. destruct (Z.ltb_spec (code c) 128); [|lia].
  rewrite fmap_is_Some. done.
Qed.

(** The byte groups of valid text: an ASCII byte, or a sequence of bytes above
    the ASCII range that can be followed by anything. *)
Lemma utf8_cases b :
  utf8_bytes b ->
  b = [] \/ (exists c r, b = c :: r /\ code c < 128 /\ utf8_bytes r)
  \/ exists g r, b = g ++ r /\ g <> [] /\ Forall (fun c => 128 <= code c) g /\ utf8_bytes r
       /\ forall r', utf8_bytes r' -> utf8_bytes (g ++ r').
Proof.
  intros Hb. destruct b as [|b0 r0]; [by left|right].
  destruct (Z.ltb_spec (code b0) 128) as [Hlt|Hge].
  { left. exists b0, r0. split; [done|]. split; [done|]. by apply (utf8_ascii b0). }
  right. unfold utf8_bytes in Hb. cbn [utf8_decode] in Hb.
  destruct (Z.ltb_spec (code b0) 128); [lia|].
  destruct ((194 <=? code b0) && (code b0 <=? 223)) eqn:E2.
  { destruct r0 as [|b1 r1]; [by apply is_Some_None in Hb|].
    destruct (cont b1) eqn:C1; [|by apply is_Some_None in Hb].
    exists [b0; b1], r1. rewrite fmap_is_Some in Hb. split_and!; try done.
    - repeat constructor; [lia|]. unfold cont in C1. lia.
    - intros r' Hr'. unfold utf8_bytes. cbn [app utf8_decode].
      destruct (Z.ltb_spec (code b0) 128); [lia|]. rewrite E2, C1. by rewrite fmap_is_Some. }
  destruct ((224 <=? code b0) && (code b0 <=? 239)) eqn:E3.
  { destruct r0 as [|b1 [|b2 r2]]; try by apply is_Some_None in Hb.
    destruct (between _ _ b1 && cont b2) eqn:C1; [|by apply is_Some_None in Hb].
    exists [b0; b1; b2], r2. rewrite fmap_is_Some in Hb. split_and!; try done.
    - unfold between, cont in C1. repeat constructor; [lia|destruct (_ =? _); lia|lia].
    - intros r' Hr'. unfold utf8_bytes. cbn [app utf8_decode].
      destruct (Z.ltb_spec (code b0) 128); [lia|]. rewrite E2, E3, C1. by rewrite fmap_is_Some. }
  destruct ((240 <=? code b0) && (code b0 <=? 244)) eqn:E4; [|by apply is_Some_None in Hb].
  destruct r0 as [|b1 [|b2 [|b3 r3]]]; try by apply is_Some_None in Hb.
  destruct (between _ _ b1 && cont b2 && cont b3) eqn:C1; [|by apply is_Some_None in Hb].
  exists [b0; b1; b2; b3], r3. rewrite fmap_is_Some in Hb. split_and!; try done.
  - unfold between, cont in C1. repeat constructor; [lia|destruct (_ =? _); lia|lia|lia].
  - intros r' Hr'. unfold utf8_bytes. cbn [app utf8_decode].
    destruct (Z.ltb_spec (code b0) 128); [lia|]. rewrite E2, E3, E4, C1. by rewrite fmap_is_Some.
Qed.

Lemma utf8_app a b : utf8_bytes a -> utf8_bytes b -> utf8_bytes (a ++ b).
Proof.
  induction a as [a IH] using (induction_ltof1 _ (@length ascii)). unfold ltof in IH.
  intros Ha Hb. destruct (utf8_cases a Ha) as [->|[(c & r & -> & Hc & Hr)|(g & r & -> & Hg & _ & Hr & Hall)]].
  - done.
  - apply (utf8_ascii c); [done|]. apply IH; [simpl; lia|done|done].
  - rewrite <- app_assoc. apply Hall, IH; [|done|done]. rewrite length_app.
    destruct g; simpl; [done|lia].
Qed.

Lemma utf8_all_ascii b : Forall (fun c => code c < 128) b -> utf8_bytes b.
Proof. intros Hb. unfold utf8_bytes. rewrite utf8_decode_ascii by done. eauto. Qed.

Lemma escape_high g : Forall (fun c => 128 <= code c) g -> escape g = g.
Proof.
  unfold escape. induction 1 as [|c g Hc _ IH]; [done|]. rewrite fmap_cons. cbn [concat].
  rewrite IH. clear IH. revert Hc.
  destruct c as [[] [] [] [] [] [] [] []]; (reflexivity || (intros Hc; by vm_compute in Hc)).
Qed.

Lemma escape_low c : code c < 128 -> Forall (fun x => code x < 128) (escape_char c).
Proof.
  intros Hc. destruct c as [[] [] [] [] [] [] [] []];
    (by repeat (constructor; [reflexivity|]); constructor) || (exfalso; by vm_compute in Hc).
Qed.

Lemma utf8_escape b : utf8_bytes b -> utf8_bytes (escape b).
Proof.
  induction b as [b IH] using (induction_ltof1 _ (@length ascii)). unfold ltof in IH.
  intros Hb. destruct (utf8_cases b Hb) as [->|[(c & r & -> & Hc & Hr)|(g & r & -> & Hg & Hh & Hr & Hall)]].
  - done.
  - unfold escape. rewrite fmap_cons. cbn [concat]. apply utf8_app.
    + by apply utf8_all_ascii, escape_low.
    + apply IH; [simpl; lia|done].
  - unfold escape. rewrite fmap_app, concat_app. fold (escape g) (escape r).
    rewrite escape_high by done. apply Hall, IH; [|done]. rewrite length_app.
    destruct g; simpl; [done|lia].
Qed.

Lemma utf8_quoted s : utf8 s -> utf8_bytes (quoted s).
Proof.
  intros Hs. apply utf8_ascii; [done|]. apply utf8_app; [by apply utf8_escape|].
  by apply utf8_all_ascii; repeat constructor.
Qed.

Lemma utf8_digits n : is_u64 n -> utf8_bytes (u64_to_bytes n).
Proof.
  intros Hn. apply utf8_all_ascii. eapply Forall_impl; [by apply u64_digits|].
  intros c Hc. by destruct (ascii_digit_char c Hc).
Qed.

Ltac utf8_literal :=
  apply utf8_all_ascii; apply (bool_decide_unpack _); vm_compute; exact I.

Lemma utf8_literals :
  (forall k, utf8 k -> utf8_bytes (key k) /\ utf8_bytes (open_key k) /\ utf8_bytes (next_key k))
  /\ utf8_bytes comma /\ utf8_bytes close /\ utf8_bytes null
  /\ utf8_bytes true_ /\ utf8_bytes false_.
Proof.
  assert (Hk : forall k, utf8 k -> utf8_bytes (key k)).
  { intros k Hk. apply utf8_ascii; [done|]. apply utf8_app; [done|]. utf8_literal. }
  split.
  - intros k Hk'. split; [by apply Hk|]. split; apply utf8_ascii; try done; by apply Hk.
  - split_and!; utf8_literal.
Qed.

Lemma utf8_open k : utf8 k -> utf8_bytes (open_key k).
Proof. intros Hk. by apply utf8_literals. Qed.
Lemma utf8_next k : utf8 k -> utf8_bytes (next_key k).
Proof. intros Hk. by apply utf8_literals. Qed.
Lemma utf8_key k : utf8 k -> utf8_bytes (key k).
Proof. intros Hk. by apply utf8_literals. Qed.

Ltac ascii_key := eexists; reflexivity.
Ltac printed :=
  lazymatch goal with
  | |- utf8_bytes (_ ++ _) => apply utf8_app; printed
  | |- utf8_bytes (_ :: _) => apply utf8_ascii; [reflexivity|printed]
  | |- utf8_bytes (open_key _) => apply utf8_open; ascii_key
  | |- utf8_bytes (next_key _) => apply utf8_next; assumption || ascii_key
  | |- utf8_bytes (key _) => apply utf8_key; assumption || ascii_key
  | |- utf8_bytes (quoted _) => apply utf8_quoted; assumption
  | |- utf8_bytes (u64_to_bytes _) => apply utf8_digits; assumption
  | |- _ => assumption || utf8_literal
  end.

Lemma utf8_request r : request_typed r -> utf8_bytes (print_request r).
Proof. intros (? & ? & ? & ?). unfold print_request. printed. Qed.

Lemma utf8_optional k o next :
  utf8 k -> utf8_opt o -> utf8 next -> utf8_bytes (print_optional k o next).
Proof. intros Hk Ho Hn. unfold print_optional. destruct o; printed. Qed.

Lemma utf8_record r : record_typed r -> utf8_bytes (print_record r).
Proof.
  intros (? & ? & ? & ? & ? & ? & ? & Hreq%utf8_request).
  assert (utf8_bytes (print_optional "error" (HistoryRecord.error r) "token_hash"))
    by (apply utf8_optional; [ascii_key|done|ascii_key]).
  assert (utf8_bytes (print_optional "comment_url" (HistoryRecord.comment_url r) "incarnation"))
    by (apply utf8_optional; [ascii_key|done|ascii_key]).
  assert (utf8_bytes (print_bool (HistoryRecord.success r)))
    by (destruct (HistoryRecord.success r); apply utf8_literals).
  unfold print_record. printed.
Qed.

Lemma utf8_completion c : completion_typed c -> utf8_bytes (print_completion c).
Proof.
  intros (Hid & Hp & Ht & Hh & Ho).
  assert (utf8_bytes (print_nullable quoted (CompletionRecord.claim_token c)))
    by (destruct (CompletionRecord.claim_token c); [by apply utf8_quoted|apply utf8_literals]).
  assert (utf8_bytes (print_nullable print_record (CompletionRecord.history c)))
    by (destruct (CompletionRecord.history c); [by apply utf8_record|apply utf8_literals]).
  assert (utf8_bytes (print_nullable u64_to_bytes (CompletionRecord.history_offset c)))
    by (destruct (CompletionRecord.history_offset c); [by apply utf8_digits|apply utf8_literals]).
  assert (utf8_bytes [CLOSE]) by utf8_literal.
  unfold print_completion. printed.
Qed.

(** No raw newline. *)
Lemma escape_line b : NEWLINE ∉ escape b.
Proof.
  unfold escape. induction b as [|c b IH]; [by apply not_elem_of_nil|].
  rewrite fmap_cons. cbn [concat]. apply not_elem_of_app. split; [|done].
  clear IH. destruct c as [[] [] [] [] [] [] [] []]; no_newline.
Qed.
Lemma quoted_line s : NEWLINE ∉ quoted s.
Proof.
  unfold quoted. apply not_elem_of_cons. split; [done|]. apply not_elem_of_app.
  split; [apply escape_line|no_newline].
Qed.
Lemma digits_line n : NEWLINE ∉ u64_to_bytes n.
Proof.
  assert (Hd : forall fuel n acc, NEWLINE ∉ acc -> NEWLINE ∉ dec_digits fuel n acc).
  { clear n. induction fuel as [|fuel IH]; intros n acc Hacc; simpl; [done|].
    assert (Hc : NEWLINE ∉ digit (n mod 10) :: acc).
    { apply not_elem_of_cons. split; [|done]. intros Heq%(f_equal code).
      rewrite digit_code in Heq by (apply Z.mod_pos_bound; lia).
      change (code NEWLINE) with 10 in Heq. pose proof (Z.mod_pos_bound n 10). lia. }
    destruct (n <? 10); [done|]. by apply IH. }
  apply Hd, not_elem_of_nil.
Qed.

Ltac one_line :=
  repeat first
    [ apply not_elem_of_app; split | apply quoted_line | apply digits_line | no_newline
    | apply not_elem_of_cons; split; [done|] ].

Lemma record_line r : NEWLINE ∉ print_record r.
Proof.
  unfold print_record, print_request. one_line.
  - destruct (HistoryRecord.success r); no_newline.
  - unfold print_optional. destruct (HistoryRecord.error r); one_line.
  - unfold print_optional. destruct (HistoryRecord.comment_url r); one_line.
Qed.

(** * The laws *)

(** The size of a printed entry is the size of its unchanging part and the
    widths of the three fields that are updated. *)
Definition fixed_length (i : string) (f q n : Z) (r : CommentRequest.t) : Z :=
  zlen (pretty_open 2 "id" ++ quoted i ++ comma ++ pretty_key 2 "order"
    ++ COMMA :: pretty_key 2 "flutter_seconds" ++ u64_to_bytes f
    ++ COMMA :: pretty_key 2 "enqueued_at" ++ u64_to_bytes q
    ++ COMMA :: pretty_key 2 "not_before" ++ u64_to_bytes n
    ++ COMMA :: pretty_key 2 "claim_token"
    ++ pretty_next 2 "request" ++ pretty_open 4 "owner" ++ quoted (CommentRequest.owner r)
    ++ pretty_next 4 "repo" ++ quoted (CommentRequest.repo r)
    ++ pretty_next 4 "pr_number" ++ u64_to_bytes (CommentRequest.pr_number r)
    ++ COMMA :: pretty_key 4 "body" ++ quoted (CommentRequest.body r) ++ pretty_close).

Lemma zlen_claim e :
  zlen (print_nullable quoted (StoredEntry.claim_token e)) = claim_width e.
Proof. unfold claim_width, quoted_length. by destruct (StoredEntry.claim_token e). Qed.

Lemma zlen_incarnation e :
  zlen (print_incarnation (StoredEntry.incarnation e))
  = zlen (pretty_key 2 "order") + incarnation_width e.
Proof.
  unfold print_incarnation, incarnation_width, quoted_length. case_decide; [lia|].
  rewrite !zlen_app. cbn [string_to_vec json]. change (zlen (pretty_key 2 "incarnation")) with 18.
  change (zlen (pretty_next 2 "order")) with (1 + zlen (pretty_key 2 "order")). lia.
Qed.

Lemma print_entry_length e :
  zlen (print_entry e)
  = fixed_length (StoredEntry.id e) (StoredEntry.flutter_seconds e) (StoredEntry.enqueued_at e)
      (StoredEntry.not_before e) (StoredEntry.request e)
    + order_width e + claim_width e + incarnation_width e.
Proof.
  unfold print_entry, fixed_length, order_width. rewrite !zlen_app, !zlen_cons, !zlen_app.
  rewrite !zlen_cons, !zlen_app, !zlen_cons, !zlen_app, !zlen_cons, !zlen_app, !zlen_cons,
    !zlen_app, zlen_claim, zlen_incarnation. lia.
Qed.

Lemma document_ok {A} (d : dec A) b a : d b = Some (a, []) -> document d b = Ok a.
Proof. intros Hd. unfold document. by rewrite Hd. Qed.

Lemma quoted_plain s :
  Forall (fun c => is_ascii_hexdigit c = true \/ c = byte_of 45) (bytes_of s) ->
  quoted s = QUOTE :: bytes_of s ++ [QUOTE].
Proof.
  intros Hs. unfold quoted, escape. do 2 f_equal.
  induction Hs as [|c l Hc _ IH]; [done|]. rewrite fmap_cons. cbn [concat]. rewrite IH.
  clear IH. revert Hc.
  destruct c as [[] [] [] [] [] [] [] []]; intros [Hc|Hc]; (reflexivity || by vm_compute in Hc).
Qed.

#[export] Instance json_ok : SerdeJsonOk.
Proof.
  constructor.
  - intros e _. by eexists.
  - intros r _. by eexists.
  - intros c _. by eexists.
  - intros m _. by eexists.
  - intros e b He [= <-]. by apply document_ok, parse_entry_ok.
  - intros r b Hr [= <-]. apply document_ok. rewrite <- (app_nil_r (print_record r)).
    by apply parse_record_ok.
  - intros c b Hc [= <-]. by apply document_ok, parse_completion_ok.
  - intros m b _ [= <-]. apply document_ok, parse_deletion_ok.
  - intros c b Hc [= <-]. by apply utf8_completion.
  - by intros r b [= <-].
  - intros r b k Hr [= <-] Hk. apply (document_prefix _ _ r); [apply good_record| |done].
    rewrite <- (app_nil_r (print_record r)). by apply parse_record_ok.
  - intros r b [= <-]. apply record_line.
  - intros b r. apply document_newline, good_record.
  - intros s Hs. simpl. by rewrite quoted_plain.
  - intros e e' b b' _ _ (Hi & Hf & Hq & Hn & Hr) [= <-] [= <-].
    rewrite !print_entry_length, Hi, Hf, Hq, Hn, Hr. lia.
Qed.
