(* ===== verification/WireCodec.v ===== *)
(** A concrete JSON codec for the messages, with the layout [serde_json] gives the
    derived implementations of [src/protocol.rs].  It satisfies [WireJsonOk]; the
    theorems stated over those laws are applied to concrete messages through it. *)

From S2P Require Import Prelude Text Protocol Disk Entry Wire Codec Json.

(** * Arrays and optional fields *)

Definition OPEN_ARRAY : bytes := [byte_of 91].
Definition CLOSE_ARRAY : ascii := byte_of 93.

Fixpoint print_items {A} (f : A -> bytes) (l : list A) : bytes :=
  match l with
  | [] => []
  | [a] => f a
  | a :: l => f a ++ COMMA :: print_items f l
  end.
Definition print_array {A} (f : A -> bytes) (l : list A) : bytes :=
  OPEN_ARRAY ++ print_items f l ++ [CLOSE_ARRAY].

Fixpoint parse_items {A} (d : dec A) (fuel : nat) (b : bytes) : option (list A * bytes) :=
  match d b with
  | None => None
  | Some (a, r) =>
      match r with
      | [] => None
      | c :: r =>
          if decide (c = CLOSE_ARRAY) then Some ([a], r)
          else if decide (c = COMMA) then
            match fuel with
            | O => None
            | S fuel =>
                match parse_items d fuel r with Some (l, r) => Some (a :: l, r) | None => None end
            end
          else None
      end
  end.
Definition parse_array {A} (d : dec A) : dec (list A) := fun b =>
  match dlit (OPEN_ARRAY ++ [CLOSE_ARRAY]) b with
  | Some (_, r) => Some ([], r)
  | None => match dlit OPEN_ARRAY b with Some (_, r) => parse_items d (length b) r | None => None end
  end.

(** A field that is left out when it is [None]. *)
Definition print_field {A} (k : string) (f : A -> bytes) (o : option A) : bytes :=
  match o with Some a => next_key k ++ f a | None => [] end.
Definition parse_field {A} (k : string) (d : dec A) : dec (option A) := fun b =>
  match dlit (next_key k) b with
  | Some (_, r) => match d r with Some (a, r) => Some (Some a, r) | None => None end
  | None => Some (None, b)
  end.

(** * Printing *)

Definition tagged (tag value : string) : bytes := open_key tag ++ quoted value.

Definition print_cursor (c : HistoryCursor.t) : bytes :=
  open_key "offset" ++ u64_to_bytes (HistoryCursor.offset c)
  ++ COMMA :: key "end_offset" ++ u64_to_bytes (HistoryCursor.end_offset c) ++ CLOSE :: [].

Definition print_pending (e : PendingEntry.t) : bytes :=
  open_key "id" ++ quoted (PendingEntry.id e)
  ++ next_key "eta_seconds" ++ u64_to_bytes (PendingEntry.eta_seconds e)
  ++ COMMA :: key "owner" ++ quoted (PendingEntry.owner e)
  ++ next_key "repo" ++ quoted (PendingEntry.repo e)
  ++ next_key "pr_number" ++ u64_to_bytes (PendingEntry.pr_number e)
  ++ COMMA :: key "body" ++ quoted (PendingEntry.body e) ++ close.

Definition print_history_entry (e : HistoryEntry.t) : bytes :=
  open_key "id" ++ quoted (HistoryEntry.id e)
  ++ next_key "posted_at" ++ u64_to_bytes (HistoryEntry.posted_at e)
  ++ COMMA :: key "success" ++ print_bool (HistoryEntry.success e)
  ++ comma ++ print_optional "error" (HistoryEntry.error e) "token_hash"
  ++ quoted (HistoryEntry.token_hash e)
  ++ next_key "owner" ++ quoted (HistoryEntry.owner e)
  ++ next_key "repo" ++ quoted (HistoryEntry.repo e)
  ++ next_key "pr_number" ++ u64_to_bytes (HistoryEntry.pr_number e)
  ++ COMMA :: key "body" ++ quoted (HistoryEntry.body e) ++ close.

Definition print_event (e : AwaitEvent.t) : bytes :=
  match e with
  | AwaitEvent.Waiting eta =>
      tagged "status" "waiting" ++ next_key "eta_seconds" ++ u64_to_bytes eta ++ CLOSE :: []
  | AwaitEvent.Posted url =>
      tagged "status" "posted" ++ next_key "comment_url" ++ quoted url ++ close
  | AwaitEvent.Error m => tagged "status" "error" ++ next_key "message" ++ quoted m ++ close
  end.

Definition print_id_request (op i : string) : bytes :=
  tagged "op" op ++ next_key "id" ++ quoted i ++ close.

Definition print_message (r : Request.t) : bytes :=
  match r with
  | Request.Put c immediate =>
      tagged "op" "put" ++ next_key "request" ++ print_request c
      ++ next_key "immediate" ++ print_bool immediate ++ close
  | Request.List => tagged "op" "list" ++ close
  | Request.Bump i => print_id_request "bump" i
  | Request.Bust i => print_id_request "bust" i
  | Request.Del i => print_id_request "del" i
  | Request.Await i => print_id_request "await" i
  | Request.Hist limit cursor =>
      tagged "op" "hist" ++ next_key "limit" ++ print_nullable u64_to_bytes limit
      ++ print_field "cursor" print_cursor cursor ++ close
  end.

Definition print_response (r : Response.t) : bytes :=
  match r with
  | Response.Ok entry entries history cursor =>
      tagged "outcome" "ok"
      ++ print_field "entry" print_pending entry
      ++ print_field "entries" (print_array print_pending) entries
      ++ print_field "history" (print_array print_history_entry) history
      ++ print_field "next_cursor" print_cursor cursor ++ close
  | Response.Error m => tagged "outcome" "error" ++ next_key "message" ++ quoted m ++ close
  end.

(** * Parsing *)

Definition parse_cursor : dec HistoryCursor.t :=
  let? _ := dlit (open_key "offset") in
  let? offset := dnum COMMA in
  let? _ := dlit (key "end_offset") in
  let? end_offset := dnum CLOSE in
  dret (HistoryCursor.mk offset end_offset).

Definition parse_pending : dec PendingEntry.t :=
  let? _ := dlit (open_key "id") in
  let? id := dstr in
  let? _ := dlit (next_key "eta_seconds") in
  let? eta := dnum COMMA in
  let? _ := dlit (key "owner") in
  let? owner := dstr in
  let? _ := dlit (next_key "repo") in
  let? repo := dstr in
  let? _ := dlit (next_key "pr_number") in
  let? pr := dnum COMMA in
  let? _ := dlit (key "body") in
  let? body := dstr in
  let? _ := dlit close in
  dret (PendingEntry.mk id eta owner repo pr body).

Definition parse_history_entry : dec HistoryEntry.t :=
  let? _ := dlit (open_key "id") in
  let? id := dstr in
  let? _ := dlit (next_key "posted_at") in
  let? posted_at := dnum COMMA in
  let? _ := dlit (key "success") in
  let? success := dcase true_ (dret true) false_ (dret false) in
  let? _ := dlit comma in
  let? error := parse_optional "error" "token_hash" in
  let? token_hash := dstr in
  let? _ := dlit (next_key "owner") in
  let? owner := dstr in
  let? _ := dlit (next_key "repo") in
  let? repo := dstr in
  let? _ := dlit (next_key "pr_number") in
  let? pr := dnum COMMA in
  let? _ := dlit (key "body") in
  let? body := dstr in
  let? _ := dlit close in
  dret (HistoryEntry.mk id posted_at success error token_hash owner repo pr body).

(** A tagged value: the tag is a string, the alternatives follow. *)
Definition parse_tagged {A} (tag : string) (alternatives : string -> dec A) : dec A :=
  let? _ := dlit (open_key tag) in
  let? value := dstr in
  alternatives value.

(** The last string field of an object. *)
Definition parse_last (k : string) : dec string :=
  let? _ := dlit (next_key k) in
  let? s := dstr in
  let? _ := dlit close in
  dret s.

Definition dfail {A} : dec A := fun _ => None.

Definition parse_event : dec AwaitEvent.t :=
  parse_tagged "status" (fun value =>
    if decide (value = "waiting") then
      let? _ := dlit (next_key "eta_seconds") in
      let? eta := dnum CLOSE in
      dret (AwaitEvent.Waiting eta)
    else if decide (value = "posted") then
      let? url := parse_last "comment_url" in dret (AwaitEvent.Posted url)
    else if decide (value = "error") then
      let? m := parse_last "message" in dret (AwaitEvent.Error m)
    else dfail).

(** A number that the next character ends without being part of it. *)
Definition dnum_before : dec Z := fun b =>
  match dnum CLOSE b with
  | Some (n, r) => Some (n, CLOSE :: r)
  | None => match dnum COMMA b with Some (n, r) => Some (n, COMMA :: r) | None => None end
  end.

Definition parse_hist : dec Request.t :=
  let? _ := dlit (next_key "limit") in
  let? limit := parse_nullable dnum_before in
  let? cursor := parse_field "cursor" parse_cursor in
  let? _ := dlit close in
  dret (Request.Hist limit cursor).

Definition parse_put : dec Request.t :=
  let? _ := dlit (next_key "request") in
  let? c := parse_request in
  let? _ := dlit (next_key "immediate") in
  let? immediate := dcase true_ (dret true) false_ (dret false) in
  let? _ := dlit close in
  dret (Request.Put c immediate).

Definition parse_message : dec Request.t :=
  parse_tagged "op" (fun value =>
    if decide (value = "put") then parse_put
    else if decide (value = "list") then let? _ := dlit close in dret Request.List
    else if decide (value = "bump") then let? i := parse_last "id" in dret (Request.Bump i)
    else if decide (value = "bust") then let? i := parse_last "id" in dret (Request.Bust i)
    else if decide (value = "del") then let? i := parse_last "id" in dret (Request.Del i)
    else if decide (value = "await") then let? i := parse_last "id" in dret (Request.Await i)
    else if decide (value = "hist") then parse_hist
    else dfail).

Definition parse_response : dec Response.t :=
  parse_tagged "outcome" (fun value =>
    if decide (value = "ok") then
      let? entry := parse_field "entry" parse_pending in
      let? entries := parse_field "entries" (parse_array parse_pending) in
      let? history := parse_field "history" (parse_array parse_history_entry) in
      let? cursor := parse_field "next_cursor" parse_cursor in
      let? _ := dlit close in
      dret (Response.Ok entry entries history cursor)
    else if decide (value = "error") then
      let? m := parse_last "message" in dret (Response.Error m)
    else dfail).

#[export] Instance wire : WireJson := {
  request_to_vec r := Some (print_message r);
  request_from_slice := document parse_message;
  response_to_vec r := Some (print_response r);
  response_from_slice := document parse_response;
  pending_to_vec e := Some (print_pending e);
  history_entry_to_vec e := Some (print_history_entry e);
  event_to_vec e := Some (print_event e);
  event_from_slice := document parse_event;
}.

(** * Round trips *)

Lemma parse_cursor_ok c b : cursor_typed c -> parse_cursor (print_cursor c ++ b) = Some (c, b).
Proof. intros [? ?]. unfold parse_cursor, print_cursor. steps. by destruct c. Qed.

Lemma parse_pending_ok e b : pending_typed e -> parse_pending (print_pending e ++ b) = Some (e, b).
Proof.
  intros (_ & ? & _ & _ & ? & _). unfold parse_pending, print_pending. steps. by destruct e.
Qed.

Lemma parse_history_entry_ok e b :
  history_entry_typed e -> parse_history_entry (print_history_entry e ++ b) = Some (e, b).
Proof.
  intros (_ & ? & _ & _ & _ & _ & ? & _). unfold parse_history_entry, print_history_entry. steps.
  rewrite (step_value _ _ _ _ _ (parse_bool_ok _ _)). steps.
  rewrite (step_value _ _ _ _ _ (parse_optional_ok "error" _ "token_hash" _ eq_refl)). steps.
  by destruct e.
Qed.

Lemma parse_tagged_ok {A} tag value (alternatives : string -> dec A) b :
  parse_tagged tag alternatives (tagged tag value ++ b) = alternatives value b.
Proof. unfold parse_tagged, tagged. by steps. Qed.

Lemma parse_last_ok k s b : parse_last k (next_key k ++ quoted s ++ close ++ b) = Some (s, b).
Proof. unfold parse_last. by steps. Qed.

Lemma print_items_length {A} (f : A -> bytes) l : (length l <= S (length (print_items f l)))%nat.
Proof.
  induction l as [|a [|a' l] IH]; [simpl; lia|simpl; lia|].
  change (print_items f (a :: a' :: l)) with (f a ++ COMMA :: print_items f (a' :: l)).
  rewrite length_app. cbn [length] in *. lia.
Qed.

Lemma parse_items_ok {A} (d : dec A) (f : A -> bytes) l : forall fuel b,
  l <> [] -> (length l <= S fuel)%nat ->
  Forall (fun a => forall b, d (f a ++ b) = Some (a, b)) l ->
  parse_items d fuel (print_items f l ++ CLOSE_ARRAY :: b) = Some (l, b).
Proof.
  induction l as [|a [|a' l] IH]; intros fuel b Hne Hfuel Hall; [done| |];
    apply Forall_cons_1 in Hall as [Ha Hall].
  { destruct fuel; cbn [parse_items print_items]; by rewrite Ha. }
  destruct fuel as [|fuel]; [simpl in Hfuel; lia|].
  change (print_items f (a :: a' :: l)) with (f a ++ COMMA :: print_items f (a' :: l)).
  rewrite <- app_assoc, <- app_comm_cons. cbn [parse_items]. rewrite Ha. cbv beta iota.
  rewrite decide_False by done. rewrite decide_True by done.
  rewrite IH; [done|done|simpl in *; lia|done].
Qed.

(** The elements are objects. *)
Lemma parse_array_ok {A} (d : dec A) (f : A -> bytes) l b :
  (forall a, exists r, f a = byte_of 123 :: r) ->
  Forall (fun a => forall b, d (f a ++ b) = Some (a, b)) l ->
  parse_array d (print_array f l ++ b) = Some (l, b).
Proof.
  intros Hobj Hall. unfold parse_array, print_array. rewrite <- !app_assoc. destruct l as [|a l]; [done|].
  assert (Hnil : dlit (OPEN_ARRAY ++ [CLOSE_ARRAY])
                   (OPEN_ARRAY ++ print_items f (a :: l) ++ [CLOSE_ARRAY] ++ b) = None).
  { destruct (Hobj a) as [r Hr]. destruct l; cbn [print_items]; by rewrite Hr. }
  rewrite Hnil, dlit_ok. apply parse_items_ok; [done| |done].
  pose proof (print_items_length f (a :: l)). rewrite !length_app in *. simpl in *. lia.
Qed.

Lemma parse_field_ok {A} k (d : dec A) (f : A -> bytes) o b :
  (forall a, o = Some a -> d (f a ++ b) = Some (a, b)) ->
  (o = None -> dlit (next_key k) b = None) ->
  parse_field k d (print_field k f o ++ b) = Some (o, b).
Proof.
  intros Hs Hn. unfold parse_field, print_field. destruct o as [a|].
  - rewrite <- app_assoc, dlit_ok, Hs by done. done.
  - cbn [app]. by rewrite Hn.
Qed.

Lemma parse_pendings_ok es b :
  Forall pending_typed es ->
  parse_array parse_pending (print_array print_pending es ++ b) = Some (es, b).
Proof.
  intros Hes. apply parse_array_ok; [intros a; by eexists|].
  eapply Forall_impl; [exact Hes|]. intros a Ha b'. by apply parse_pending_ok.
Qed.
Lemma parse_histories_ok hs b :
  Forall history_entry_typed hs ->
  parse_array parse_history_entry (print_array print_history_entry hs ++ b) = Some (hs, b).
Proof.
  intros Hhs. apply parse_array_ok; [intros a; by eexists|].
  eapply Forall_impl; [exact Hhs|]. intros a Ha b'. by apply parse_history_entry_ok.
Qed.

Lemma parse_response_ok r b :
  response_wf r -> parse_response (print_response r ++ b) = Some (r, b).
Proof.
  destruct r as [entry entries history cursor|m]; unfold parse_response, print_response; flatten;
    rewrite parse_tagged_ok.
  - intros (He & Hes & Hhs & Hc). rewrite decide_True by done.
    rewrite (step_value _ _ entry).
    2:{ apply parse_field_ok; [intros a ->; by apply parse_pending_ok|].
        intros _. destruct entries, history, cursor; reflexivity. }
    rewrite (step_value _ _ entries).
    2:{ apply parse_field_ok; [intros a ->; by apply parse_pendings_ok|].
        intros _. destruct history, cursor; reflexivity. }
    rewrite (step_value _ _ history).
    2:{ apply parse_field_ok; [intros a ->; by apply parse_histories_ok|].
        intros _. destruct cursor; reflexivity. }
    rewrite (step_value _ _ cursor).
    2:{ apply parse_field_ok; [intros a ->; by apply parse_cursor_ok|done]. }
    by steps.
  - intros _. rewrite decide_False by done. rewrite decide_True by done. unfold dbind at 1.
    by rewrite parse_last_ok.
Qed.

Lemma dnum_before_ok n c b :
  is_u64 n -> c = CLOSE \/ c = COMMA ->
  dnum_before (u64_to_bytes n ++ c :: b) = Some (n, c :: b).
Proof.
  intros Hn [-> | ->]; unfold dnum_before; [by rewrite dnum_ok|].
  assert (Hno : dnum CLOSE (u64_to_bytes n ++ COMMA :: b) = None); [|by rewrite Hno, dnum_ok].
  unfold dnum. pose proof (u64_digits n Hn) as Hd.
  assert (Hdd : ddigits CLOSE (u64_to_bytes n ++ COMMA :: b) = None); [|by rewrite Hdd].
  induction Hd as [|x l Hx _ IH]; [done|]. cbn [app ddigits]. rewrite decide_False by (intros ->; done).
  by rewrite Hx, IH.
Qed.

Lemma parse_message_ok r b :
  request_wf r -> parse_message (print_message r ++ b) = Some (r, b).
Proof.
  destruct r as [c immediate| |i|i|i|i|limit cursor]; unfold parse_message, print_message,
    print_id_request; flatten; rewrite parse_tagged_ok;
    repeat (rewrite decide_False by done); rewrite decide_True by done; cbn [request_wf].
  - intros (_ & _ & Hn & _). unfold parse_put. steps.
    rewrite (step_value _ _ _ _ _ (parse_request_ok _ _ Hn)). steps.
    rewrite (step_value _ _ _ _ _ (parse_bool_ok _ _)). by steps.
  - intros _. by steps.
  - intros _. unfold dbind at 1. by rewrite parse_last_ok.
  - intros _. unfold dbind at 1. by rewrite parse_last_ok.
  - intros _. unfold dbind at 1. by rewrite parse_last_ok.
  - intros _. unfold dbind at 1. by rewrite parse_last_ok.
  - intros [Hl Hc]. unfold parse_hist. steps. rewrite (step_value _ _ limit).
    2:{ apply parse_nullable_ok. intros n ->. split; [|by apply dlit_digit].
        destruct cursor as [c|]; apply dnum_before_ok; auto. }
    rewrite (step_value _ _ cursor).
    2:{ apply parse_field_ok; [intros a ->; by apply parse_cursor_ok|done]. }
    by steps.
Qed.

Lemma parse_event_ok e b : event_wf e -> parse_event (print_event e ++ b) = Some (e, b).
Proof.
  destruct e as [eta|url|m]; unfold parse_event, print_event; flatten; rewrite parse_tagged_ok;
    repeat (rewrite decide_False by done); rewrite decide_True by done; cbn [event_wf].
  - intros Heta. by steps.
  - intros _. unfold dbind at 1. by rewrite parse_last_ok.
  - intros _. unfold dbind at 1. by rewrite parse_last_ok.
Qed.

(** * Sizes *)

Lemma print_array_size {A} (f : A -> bytes) l :
  zlen (print_array f l) = 2 + zsum (zlen <$> (f <$> l)) + separators l.
Proof.
  assert (Hi : zlen (print_items f l) = zsum (zlen <$> (f <$> l)) + separators l).
  { induction l as [|a [|a' l] IH]; [done| |].
    - cbn [print_items fmap list_fmap zsum foldr]. unfold separators, zlen. simpl. lia.
    - change (print_items f (a :: a' :: l)) with (f a ++ COMMA :: print_items f (a' :: l)).
      rewrite zlen_app, zlen_cons, IH. rewrite (fmap_cons _ a).
      change (zsum (zlen <$> f a :: (f <$> a' :: l)))
        with (zlen (f a) + zsum (zlen <$> (f <$> a' :: l))).
      assert (Hs : separators (a :: a' :: l) = 1 + separators (a' :: l))
        by (unfold separators, zlen; cbn [length]; lia).
      rewrite Hs. lia. }
  unfold print_array. rewrite !zlen_app, Hi. change (zlen OPEN_ARRAY) with 1.
  change (zlen [CLOSE_ARRAY]) with 1. lia.
Qed.

Lemma encoded_sizes {A} (f : A -> bytes) l bs :
  Forall2 (fun e x => Some (f e) = Some x) l bs -> bs = f <$> l.
Proof. induction 1 as [|e x l bs [= <-] _ IH]; [done|]. by rewrite fmap_cons, <- IH. Qed.

Lemma u64_width n : is_u64 n -> zlen (u64_to_bytes n) <= 20.
Proof. intros Hn. unfold u64_to_bytes, zlen. pose proof (dec_digits_length 20 n []). simpl in *. lia. Qed.

Lemma cursor_width c : cursor_typed c -> zlen (print_cursor c) <= 65.
Proof.
  intros [Ho%u64_width He%u64_width]. unfold print_cursor. rewrite !zlen_app, !zlen_cons, !zlen_app.
  change (zlen (open_key "offset")) with 10. change (zlen (key "end_offset")) with 13.
  change (zlen [CLOSE]) with 1. lia.
Qed.

Lemma escape_plain b :
  forallb (fun c => (32 <=? code c) && (code c <=? 126) && negb (code c =? 34) && negb (code c =? 92)) b
  = true -> escape b = b.
Proof.
  unfold escape. induction b as [|c b IH]; [done|]. cbn [forallb]. intros [Hc Hb]%andb_true_iff.
  rewrite fmap_cons. cbn [concat]. rewrite IH by done. clear IH Hb. revert Hc.
  destruct c as [[] [] [] [] [] [] [] []]; intros Hc; (reflexivity || by vm_compute in Hc).
Qed.

Lemma quoted_plain_size m : plain m = true -> zlen (quoted m) = 2 + zstrlen m.
Proof.
  intros Hm. unfold quoted. rewrite zlen_cons, zlen_app, escape_plain by done.
  change (zlen [QUOTE]) with 1. unfold zlen, zstrlen. rewrite bytes_of_length. lia.
Qed.

Lemma document_suffix {A} (d : dec A) b a r :
  d b = Some (a, r) -> forallb is_json_space r = true -> document d b = Ok a.
Proof. intros Hd Hr. unfold document. by rewrite Hd, Hr. Qed.

Lemma event_line e : NEWLINE ∉ print_event e.
Proof. destruct e; unfold print_event, tagged; one_line. Qed.

Lemma print_entries_reply es :
  print_response (Response.entries es)
  = tagged "outcome" "ok" ++ (next_key "entries" ++ print_array print_pending es) ++ close.
Proof. reflexivity. Qed.
Lemma print_history_reply hs cursor :
  print_response (Response.history hs cursor)
  = tagged "outcome" "ok" ++ (next_key "history" ++ print_array print_history_entry hs)
    ++ print_field "next_cursor" print_cursor cursor ++ close.
Proof. reflexivity. Qed.
Lemma print_error_reply m :
  print_response (Response.error m)
  = tagged "outcome" "error" ++ next_key "message" ++ quoted m ++ close.
Proof. reflexivity. Qed.

#[export] Instance wire_ok : WireJsonOk.
Proof.
  constructor; try by (intros ? ?; eexists).
  - intros r b Hr <-%(inj Some). apply (document_suffix _ _ r []); [|done].
    rewrite <- (app_nil_r (print_message r)). by apply parse_message_ok.
  - intros r b Hr <-%(inj Some). apply (document_suffix _ _ r []); [|done].
    rewrite <- (app_nil_r (print_response r)). by apply parse_response_ok.
  - intros e b He <-%(inj Some). eapply document_suffix; [by apply parse_event_ok|done].
  - intros e b <-%(inj Some). apply event_line.
  - intros es bs b0 b _ ->%encoded_sizes <-%(inj Some) <-%(inj Some). rewrite !print_entries_reply, !zlen_app, print_array_size. change (zlen (print_array print_pending [])) with 2. lia.
  - intros hs cursor bs b0 b _ _ ->%encoded_sizes <-%(inj Some) <-%(inj Some). rewrite !print_history_reply, !zlen_app, print_array_size. change (zlen (print_array print_history_entry [])) with 2. lia.
  - intros b <-%(inj Some). by vm_compute.
  - intros cursor b Hc <-%(inj Some). rewrite print_history_reply, !zlen_app.
    change (zlen (tagged "outcome" "ok")) with 15. change (zlen close) with 1.
    change (zlen (next_key "history")) with 11.
    change (zlen (print_array print_history_entry [])) with 2. unfold print_field. destruct cursor as [c|]; [|rewrite zlen_nil; lia].
    rewrite zlen_app. pose proof (cursor_width c Hc). change (zlen (next_key "next_cursor")) with 15. lia.
  - intros m b Hm <-%(inj Some). rewrite print_error_reply, !zlen_app, quoted_plain_size by done.
    change (zlen (tagged "outcome" "error")) with 18. change (zlen (next_key "message")) with 11.
    change (zlen close) with 1. lia.
  - intros limit cursor b [Hl Hc] <-%(inj Some). cbn [print_message]. rewrite !zlen_app.
    change (zlen (tagged "op" "hist")) with 12. change (zlen (next_key "limit")) with 9.
    change (zlen close) with 1.
    assert (zlen (print_nullable u64_to_bytes limit) <= 20)
      by (destruct limit as [n|]; [by apply u64_width|by vm_compute]).
    assert (zlen (print_field "cursor" print_cursor cursor) <= 80); [|lia].
    unfold print_field. destruct cursor as [c|]; [|by vm_compute]. rewrite zlen_app.
    pose proof (cursor_width c Hc). change (zlen (next_key "cursor")) with 10. lia.
  - intros m b Hm <-%(inj Some). cbn [print_event]. rewrite !zlen_app, quoted_plain_size by done.
    change (zlen (tagged "status" "error")) with 17. change (zlen (next_key "message")) with 11.
    change (zlen close) with 1. lia.
  - intros n b Hn%u64_width <-%(inj Some). cbn [print_event]. rewrite !zlen_app, !zlen_cons.
    change (zlen (tagged "status" "waiting")) with 19. change (zlen (next_key "eta_seconds")) with 15.
    rewrite zlen_nil. lia.
Qed.
