(* ===== verification/Samples.v ===== *)
(** A concrete queue directory: one or two small entries, a claim, markers and a
    history log, with the invariants the theorems ask for.  The witnesses apply
    the theorems to it. *)

From S2P Require Import Prelude Text Protocol Disk Entry Order Bounds Scan Capacity Writes Schedule.
From S2P Require Import History Store Readers DiskState Sound Lines Log Pages Append Recovery.
From S2P Require Import Completion Trace Queue Shared Codec Json Wire WireCodec.

Import StoredEntry.

(** * Entries *)

Definition comment : CommentRequest.t := CommentRequest.mk "octo" "demo" 7 "Looks good".
Definition other_comment : CommentRequest.t := CommentRequest.mk "octo" "demo" 8 "Ship it".

(** Queued at time 100 with the claim [c]. *)
Definition entry_a (c : option string) : t :=
  StoredEntry.mk "0a1b2c3d" (uuid 1) 0 5 100 100 c comment.
Definition entry_b : t := StoredEntry.mk "deadbeef" (uuid 2) 1 0 110 110 None other_comment.
Definition token : string := uuid 3.

Ltac typed := repeat split; first [by vm_compute | by eexists; vm_compute].

Lemma entry_stored e :
  entry_typed e -> is_valid_id (id e) = true -> claim_token e = None \/ claim_token e = Some token ->
  zlen (print_entry e) + maximum_mutation_growth e <= MAX_ENTRY_BYTES ->
  stored (id e +:+ ".json", print_entry e) e.
Proof.
  intros Hty Hid Hc Hsz. split; [done|]. split; [done|]. split; [|done]. split; [done|]. split; [done|].
  destruct Hc as [-> | ->]; [done|]. eexists. split; [done|]. by vm_compute.
Qed.

Lemma stored_a c : c = None \/ c = Some token -> stored ("0a1b2c3d.json", print_entry (entry_a c)) (entry_a c).
Proof. intros [-> | ->]; apply (entry_stored (entry_a _)); (typed || auto || by vm_compute). Qed.
Lemma stored_b : stored ("deadbeef.json", print_entry entry_b) entry_b.
Proof. apply (entry_stored entry_b); (typed || auto || by vm_compute). Qed.

(** * Directories *)

Definition entries_a (c : option string) : gmap string node :=
  <["0a1b2c3d.json" := Regular (print_entry (entry_a c))]> ∅.
Definition entries_ab (c : option string) : gmap string node :=
  <["deadbeef.json" := Regular (print_entry entry_b)]> (entries_a c).

Lemma empty_wf : store_wf ∅.
Proof.
  assert (Hnil : json_files ∅ = []) by reflexivity.
  constructor; [by vm_compute|by vm_compute| |intros k; by rewrite lookup_empty].
  intros f e. rewrite Hnil. by intros ?%not_elem_of_nil.
Qed.

Lemma entries_a_wf c :
  c = None \/ c = Some token -> store_wf (entries_a c) /\ entries_of (entries_a c) = [entry_a c].
Proof.
  intros Hc. destruct (added_directory ∅ (entry_a c) (print_entry (entry_a c)) empty_wf) as [Hwf He];
    [done|by apply stored_a|by vm_compute|destruct Hc as [-> | ->]; by vm_compute|].
  split; [exact Hwf|exact He].
Qed.

Lemma entries_ab_wf c :
  c = None \/ c = Some token ->
  store_wf (entries_ab c) /\ entries_of (entries_ab c) = [entry_a c; entry_b].
Proof.
  intros Hc. destruct (entries_a_wf c Hc) as [Hwf He].
  destruct (added_directory (entries_a c) entry_b (print_entry entry_b) Hwf) as [Hwf' He'];
    [done|by apply stored_b|destruct Hc as [-> | ->]; by vm_compute..|].
  split; [exact Hwf'|]. destruct Hc as [-> | ->]; by vm_compute.
Qed.

Lemma empty_readable : readable ∅.
Proof. intros wanted c _. by rewrite lookup_empty. Qed.
Lemma entries_a_sound c : c = None \/ c = Some token -> store_sound (entries_a c).
Proof.
  intros Hc. apply store_wf_sound; [by apply entries_a_wf|].
  apply (readable_insert ∅ (entry_a c)); [apply empty_readable|by apply stored_a].
Qed.
Lemma entries_ab_sound c : c = None \/ c = Some token -> store_sound (entries_ab c).
Proof.
  intros Hc. apply store_wf_sound; [by apply entries_ab_wf|].
  apply (readable_insert (entries_a c) entry_b); [by apply entries_a_sound|by apply stored_b].
Qed.

(** An earlier post, and the log that holds it. *)
Definition past : HistoryRecord.t :=
  HistoryRecord.mk (uuid 9) "01234567" 50 true None "hash" (Some "https://github.com/c/1") (uuid 8)
    other_comment.
Definition log : bytes := print_record past ++ [NEWLINE].

Definition root : gmap string node :=
  <["last_post" := Regular (u64_to_bytes 50)]> (<["history.jsonl" := Regular log]> ∅).

Definition disk_a (c : option string) : disk := Disk root (entries_a c) ∅.
Definition disk_ab (c : option string) : disk := Disk root (entries_ab c) ∅.
Definition empty_disk : disk := Disk ∅ ∅ ∅.

Lemma root_regular k : root !! k <> Some Directory.
Proof.
  unfold root. destruct (decide (k = "last_post")) as [->|H1]; [by rewrite lookup_insert_eq|].
  rewrite lookup_insert_ne by done.
  destruct (decide (k = "history.jsonl")) as [->|H2]; [by rewrite lookup_insert_eq|].
  rewrite lookup_insert_ne by done. by rewrite lookup_empty.
Qed.

Lemma disk_wf_root es : store_wf es -> disk_wf (Disk root es ∅).
Proof.
  intros Hes. constructor; [done| | |apply root_regular|intros k; cbn [d_deletions]; by rewrite lookup_empty].
  - right. exists 50. by vm_compute.
  - left. reflexivity.
Qed.

Lemma disk_sound_root es : store_sound es -> disk_sound (Disk root es ∅).
Proof.
  intros Hes. constructor; [done| | |apply root_regular|..].
  - right. exists 50. by vm_compute.
  - left. reflexivity.
  - intros k. cbn [d_deletions]. by rewrite lookup_empty.
  - intros wanted x _. cbn [d_deletions]. by rewrite lookup_empty.
Qed.

Lemma disk_a_wf c : c = None \/ c = Some token -> disk_wf (disk_a c).
Proof. intros Hc. by apply disk_wf_root, entries_a_wf. Qed.
Lemma disk_ab_wf c : c = None \/ c = Some token -> disk_wf (disk_ab c).
Proof. intros Hc. by apply disk_wf_root, entries_ab_wf. Qed.
Lemma empty_disk_wf : disk_wf empty_disk.
Proof. constructor; [apply empty_wf|by left|by left|..]; intros k; cbn [empty_disk d_root d_deletions];
  by rewrite lookup_empty. Qed.

Lemma in_a c : c = None \/ c = Some token -> entry_a c ∈ entries_of (d_entries (disk_a c)).
Proof. intros Hc. cbn [disk_a d_entries]. rewrite (proj2 (entries_a_wf c Hc)). apply list_elem_of_here. Qed.
Lemma in_ab c : c = None \/ c = Some token ->
  entry_a c ∈ entries_of (d_entries (disk_ab c)) /\ entry_b ∈ entries_of (d_entries (disk_ab c)).
Proof.
  intros Hc. cbn [disk_ab d_entries]. rewrite (proj2 (entries_ab_wf c Hc)).
  split; [apply list_elem_of_here|apply list_elem_of_further, list_elem_of_here].
Qed.

Lemma activity_root es : activity (Disk root es ∅) = Some 50.
Proof. reflexivity. Qed.

Lemma safe_root es clock :
  store_wf es -> (length (claims (Disk root es ∅)) <= 1)%nat -> 50 <= clock -> safe (Disk root es ∅) clock.
Proof.
  intros Hwf Hc Hle. constructor; [by apply disk_wf_root|done|].
  intros p. rewrite activity_root. by intros [= <-].
Qed.

Lemma safe_a c : c = None \/ c = Some token -> safe (disk_a c) 200.
Proof.
  intros Hc. apply safe_root; [by apply entries_a_wf| |lia].
  unfold claims. cbn [d_entries]. rewrite (proj2 (entries_a_wf c Hc)).
  destruct Hc as [-> | ->]; vm_compute; lia.
Qed.
Lemma safe_ab c : c = None \/ c = Some token -> safe (disk_ab c) 200.
Proof.
  intros Hc. apply safe_root; [by apply entries_ab_wf| |lia].
  unfold claims. cbn [d_entries]. rewrite (proj2 (entries_ab_wf c Hc)).
  destruct Hc as [-> | ->]; vm_compute; lia.
Qed.

(** * The claimed entry can be completed *)

Lemma uuid_width k : zlen (quoted (uuid k)) = 38.
Proof.
  rewrite quoted_plain by exact (@new_v4_chars platform platform_ok k).
  pose proof (@new_v4_length platform platform_ok k) as Hl.
  change (new_v4 k) with (uuid k) in Hl. rewrite <- bytes_of_length in Hl.
  rewrite zlen_cons, zlen_app. unfold zlen. rewrite Hl. reflexivity.
Qed.

(** The attempt identifier and the time of a record are values of their own. *)
Lemma record_width r :
  zlen (print_record r)
  = zlen (quoted (HistoryRecord.attempt_id r)) + zlen (u64_to_bytes (HistoryRecord.posted_at r))
    + zlen (print_record (HistoryRecord.mk "" (HistoryRecord.id r) 0
              (HistoryRecord.success r) (HistoryRecord.error r) (HistoryRecord.token_hash r)
              (HistoryRecord.comment_url r) (HistoryRecord.incarnation r) (HistoryRecord.request r))) - 3.
Proof.
  unfold print_record. cbn [HistoryRecord.attempt_id HistoryRecord.id HistoryRecord.posted_at
    HistoryRecord.success HistoryRecord.error HistoryRecord.token_hash HistoryRecord.comment_url
    HistoryRecord.incarnation HistoryRecord.request].
  rewrite !(zlen_app (open_key "attempt_id")), !(zlen_app (quoted _)), !(zlen_app (next_key _)).
  rewrite !(zlen_app (quoted _)), !(zlen_app (next_key _)), !(zlen_app (u64_to_bytes _)).
  change (zlen (quoted "")) with 2. change (zlen (u64_to_bytes 0)) with 1. lia.
Qed.

Definition url : string := "https://github.com/octo/demo/pull/7#issuecomment-1".

Lemma completable_a es now :
  store_sound es -> entry_a (Some token) ∈ entries_of es -> is_u64 now ->
  completable (Disk root es ∅) (entry_a (Some token)) "hash" now (Some url).
Proof.
  intros Hes He Hnow. constructor.
  - by apply disk_sound_root.
  - by apply (sound_entry_ok es).
  - done.
  - done.
  - by eexists; vm_compute.
  - by eexists; vm_compute.
  - by vm_compute.
  - apply tail_ok_closed. right. by vm_compute.
  - intros u b <-%(inj Some). rewrite record_width.
    change (HistoryRecord.attempt_id (posted_record _ _ _ _ u)) with (uuid u). rewrite uuid_width.
    match goal with |- 38 + zlen (u64_to_bytes ?x) + ?z - 3 < _ =>
      assert (Hz : z <= 1000) by (by vm_compute); pose proof (u64_to_bytes_length x) end.
    unfold MAX_HISTORY_LINE_BYTES. lia.
Qed.

(** * Queues *)

Definition config : Config.t := Config.mk 60 10 30.
Definition world_of_disk (d : disk) : world := World d [] 20.
Definition queue_at (d : disk) (now : Z) : queue := Queue (world_of_disk d) None 0 now false.

Lemma sound_at d : safe d 200 -> sound config (queue_at d 200).
Proof. intros Hs. by constructor. Qed.
Lemma sound_a c : c = None \/ c = Some token -> sound config (queue_at (disk_a c) 200).
Proof. intros Hc. by apply sound_at, safe_a. Qed.
Lemma sound_ab c : c = None \/ c = Some token -> sound config (queue_at (disk_ab c) 200).
Proof. intros Hc. by apply sound_at, safe_ab. Qed.

(** * A queue that holds a request under its first identifier *)

Definition entry_q : t := StoredEntry.mk (entry_id_with_salt comment 200 None) (uuid 1) 0 5 200 200 None comment.
Definition entries_q : gmap string node :=
  <[id entry_q +:+ ".json" := Regular (print_entry entry_q)]> ∅.
Definition disk_q : disk := Disk root entries_q ∅.

Lemma entries_q_wf : store_wf entries_q /\ entries_of entries_q = [entry_q].
Proof.
  destruct (added_directory ∅ entry_q (print_entry entry_q) empty_wf) as [Hwf He];
    [done|apply (entry_stored entry_q); (typed || auto || by vm_compute)|by vm_compute|by vm_compute|].
  split; [exact Hwf|exact He].
Qed.

(** * A request whose body is too large for an entry *)

Definition comment_of (body : string) : CommentRequest.t := CommentRequest.mk "octo" "demo" 9 body.
Definition big_body : string := string_of (repeat (byte_of 97) (Z.to_nat 2097152)).

Lemma big_body_size : 2097152 <= zlen (bytes_of big_body) /\ utf8 big_body.
Proof.
  assert (Hb : forall n, bytes_of (string_of (repeat (byte_of 97) n)) = repeat (byte_of 97) n)
    by (intros n; apply bytes_of_string_of).
  unfold big_body, utf8. generalize (Z2Nat.id 2097152 ltac:(lia)). generalize (Z.to_nat 2097152).
  intros n Hn. rewrite Hb. split.
  - unfold zlen. rewrite repeat_length. lia.
  - apply utf8_all_ascii, Forall_forall. intros x Hx.
    apply list_elem_of_In, repeat_spec in Hx as ->. by vm_compute.
Qed.

Lemma comment_of_typed body : utf8 body -> request_typed (comment_of body).
Proof.
  intros Hb. split; [by eexists; vm_compute|]. split; [by eexists; vm_compute|].
  split; [by vm_compute|done].
Qed.

Lemma escape_longer b : zlen b <= zlen (escape b).
Proof.
  unfold escape. induction b as [|c b IH]; [done|]. rewrite fmap_cons. cbn [concat].
  rewrite zlen_app, zlen_cons. assert (1 <= zlen (escape_char c)); [|lia].
  destruct c as [[] [] [] [] [] [] [] []]; by vm_compute.
Qed.

Lemma print_entry_longer e : zlen (bytes_of (CommentRequest.body (request e))) <= zlen (print_entry e).
Proof.
  unfold print_entry.
  repeat first [rewrite zlen_app | rewrite zlen_cons].
  assert (Hb : zlen (bytes_of (CommentRequest.body (request e))) <= zlen (quoted (CommentRequest.body (request e)))).
  { unfold quoted. rewrite zlen_cons, zlen_app.
    pose proof (escape_longer (bytes_of (CommentRequest.body (request e)))).
    pose proof (zlen_nonneg [QUOTE]). lia. }
  repeat match goal with |- context [zlen ?x] =>
    lazymatch x with bytes_of _ => fail | quoted (CommentRequest.body _) => fail | _ =>
      pose proof (zlen_nonneg x); generalize dependent (zlen x); intros end end.
  lia.
Qed.

(** * A head with the smallest ordering key *)

Definition entry_m : t := with_order I64_MIN (entry_a None).
Definition entries_m : gmap string node := <["0a1b2c3d.json" := Regular (print_entry entry_m)]> ∅.
Definition disk_m : disk :=
  Disk root (<["deadbeef.json" := Regular (print_entry entry_b)]> entries_m) ∅.

Lemma disk_m_wf : disk_wf disk_m /\ entries_of (d_entries disk_m) = [entry_m; entry_b].
Proof.
  destruct (added_directory ∅ entry_m (print_entry entry_m) empty_wf) as [Hwf He];
    [done|apply (entry_stored entry_m); (typed || auto || by vm_compute)|by vm_compute|by vm_compute|].
  destruct (added_directory entries_m entry_b (print_entry entry_b) Hwf) as [Hwf' He'];
    [done|by apply stored_b|by vm_compute..|].
  split; [by apply disk_wf_root|by vm_compute].
Qed.

(** * A record whose line has exactly the size limit *)

Definition record_of (body : string) : HistoryRecord.t :=
  HistoryRecord.mk (uuid 9) "01234567" 50 true None "hash" None (uuid 8) (comment_of body).
(** The size of its JSON text without the body. *)
Definition record_frame : Z := zlen (print_record (record_of "")).

Lemma record_of_size body : plain body = true -> zlen (print_record (record_of body)) = record_frame + zstrlen body.
Proof.
  intros Hb. unfold record_frame, print_record, print_request. cbn [record_of comment_of HistoryRecord.attempt_id
    HistoryRecord.id HistoryRecord.posted_at HistoryRecord.success HistoryRecord.error
    HistoryRecord.token_hash HistoryRecord.comment_url HistoryRecord.incarnation HistoryRecord.request
    CommentRequest.owner CommentRequest.repo CommentRequest.pr_number CommentRequest.body].
  repeat first [rewrite zlen_app | rewrite zlen_cons].
  rewrite (quoted_plain_size body Hb), (quoted_plain_size "" eq_refl).
  change (zstrlen "") with 0. lia.
Qed.

Definition limit_body : string :=
  string_of (repeat (byte_of 97) (Z.to_nat (MAX_HISTORY_LINE_BYTES - record_frame))).

Lemma limit_body_spec :
  plain limit_body = true /\ utf8 limit_body /\ zstrlen limit_body = MAX_HISTORY_LINE_BYTES - record_frame.
Proof.
  assert (Hpos : 0 <= MAX_HISTORY_LINE_BYTES - record_frame) by by vm_compute.
  unfold limit_body, plain, utf8, zstrlen. revert Hpos.
  generalize (MAX_HISTORY_LINE_BYTES - record_frame). intros k Hk.
  generalize (Z2Nat.id k Hk). generalize (Z.to_nat k). intros n Hn.
  rewrite bytes_of_string_of. split_and!.
  - apply forallb_forall. intros x Hx. apply repeat_spec in Hx as ->. by vm_compute.
  - apply utf8_all_ascii, Forall_forall. intros x Hx.
    apply list_elem_of_In, repeat_spec in Hx as ->. by vm_compute.
  - rewrite <- bytes_of_length, bytes_of_string_of, repeat_length. lia.
Qed.

Lemma record_of_typed body : utf8 body -> record_typed (record_of body).
Proof.
  intros Hb. split_and!; try (by eexists; vm_compute); try by vm_compute. by apply comment_of_typed.
Qed.
