(* ===== verification/LifeSamples.v ===== *)
(** Concrete lives of a queue directory: a claim, a completion that dies, a
    restart, and the theorems of [Life.v] applied to them. *)

From S2P Require Import Prelude Text Protocol Disk Entry Order Bounds Scan Capacity Writes Schedule.
From S2P Require Import History Excerpt Store DiskState Claims Edits Sound Enqueue Lines Reverse Log.
From S2P Require Import Pages Append Recovery Completion Faults Resume Life Codec Json Wire WireCodec.
From S2P Require Import Samples.

Import StoredEntry.

(** * A directory with two entries *)

Definition beginning : life := Life (disk_ab None) 200 true Idle [].

Lemma budget_ab c : c = None \/ c = Some token -> budget (entries_ab c).
Proof. intros Hc. apply (proj1 (entries_ab_wf c Hc)). Qed.

Lemma sane_beginning calm : sane calm beginning.
Proof.
  constructor; cbn [beginning l_disk l_clock l_worker l_ids].
  - split; [|intros _; by apply budget_ab; left]. apply disk_sound_root, entries_ab_sound. by left.
  - intros _ x y. cbn [disk_ab d_entries]. rewrite (proj2 (entries_ab_wf None (or_introl eq_refl))).
    intros Hx _ Hc. apply elem_of_cons in Hx as [->|Hx]; [done|].
    by apply list_elem_of_singleton in Hx as ->.
  - intros p. unfold disk_ab. rewrite activity_root. intros [= <-]. lia.
  - apply tail_ok_closed. right. by vm_compute.
  - left. reflexivity.
  - intros _. reflexivity.
  - discriminate.
Qed.

Lemma committed_beginning : committed 50 (l_disk beginning).
Proof. left. exists 50. split; [reflexivity|lia]. Qed.

(** * It is claimed, and the process dies while the post is completed *)

Definition claiming : outcome (option (t * Z)) * world := claim_next_due 60 200 (World (disk_ab None) [] 20).
Definition held : t := entry_a (Some (uuid 20)).
Definition holding : life := Life (w_disk claiming.2) 200 true (Holding held) [].

Lemma holding_next : step true beginning holding.
Proof.
  assert (Hc : claiming.1 = Done (Some (held, 0))) by by vm_compute.
  pose proof (step_claim true beginning 60 200 [] 20 claiming.1 claiming.2) as Hs.
  rewrite Hc in Hs. apply Hs; [done|cbn; lia|constructor|].
  rewrite <- Hc. apply surjective_pairing.
Qed.

Lemma step_calm s s' : step true s s' -> step false s s'.
Proof.
  intros Hs.
  destruct Hs; match goal with Hf : Forall _ _ |- _ => apply tolerated_genuine in Hf end;
    [eapply step_serve|eapply step_recover|eapply step_claim|eapply step_complete|
     eapply step_fail|eapply step_release|eapply step_open]; eassumption.
Qed.

Definition crashing : list (option fault) := repeat None 13 ++ [Some (Crash 0)].
Definition dying : outcome unit * world :=
  complete_claim_with_token held "hash" 200 (Some url) (World (w_disk claiming.2) crashing 30).
Definition dead : life := Life (w_disk dying.2) 200 false Down ["0a1b2c3d"].

Lemma held_sized k b :
  record_to_vec (posted_record held "hash" 200 (Some url) k) = Some b -> zlen b < MAX_HISTORY_LINE_BYTES.
Proof.
  intros <-%(inj Some). rewrite record_width.
  change (HistoryRecord.attempt_id (posted_record _ _ _ _ k)) with (uuid k). rewrite uuid_width. by vm_compute.
Qed.

Lemma small_history : is_u64 (zlen (content (w_disk claiming.2) HISTORY_FILE)).
Proof. by vm_compute. Qed.

Lemma crashing_calm : crashes crashing.
Proof. repeat constructor. Qed.

Lemma dying_crashed : dying.1 = Crashed.
Proof. by vm_compute. Qed.

Lemma dead_next : step true holding dead.
Proof.
  pose proof (step_complete true holding held "hash" (Some url) 200 crashing 30 dying.1 dying.2) as Hs.
  rewrite dying_crashed in Hs. apply Hs;
    [reflexivity|cbn; lia|by vm_compute|by eexists; vm_compute|by eexists; vm_compute| |exact held_sized|
     exact crashing_calm|].
  - exact small_history.
  - rewrite <- dying_crashed. apply surjective_pairing.
Qed.

Lemma lives_calm s s' : lives true s s' -> lives false s s'.
Proof. induction 1; [apply lives_refl|by eapply lives_step, step_calm]. Qed.

Lemma lives_dead : lives true beginning dead.
Proof. eapply lives_step, dead_next. eapply lives_step, holding_next. apply lives_refl. Qed.

Lemma crashes_are_recoverable_witness :
  exists d u, open_store (World (l_disk dead) [] 40) = (Done tt, World d [] u) /\ claims d = []
    /\ exists q, activity d = Some q /\ 50 <= q.
Proof.
  destruct (crashes_are_recoverable beginning dead 40 (sane_beginning true) lives_dead)
    as (_ & _ & d & u & Hrun & _ & Hcl & _ & Hact & _).
  exists d, u. split; [exact Hrun|]. split; [exact Hcl|]. apply Hact. exact committed_beginning.
Defined.

(** * The next post after the restart *)

Definition reopening : outcome unit * world := open_store (World (l_disk dead) [] 40).
Definition reopened : life := Life (w_disk reopening.2) 250 true Down ["0a1b2c3d"].
Definition recovering : outcome unit * world := recover_worker_state (World (w_disk reopening.2) [] 50).
Definition ready : life := Life (w_disk recovering.2) 300 true Idle ["0a1b2c3d"].

Lemma lives_ready : lives false dead ready.
Proof.
  assert (Ho : reopening.1 = Done tt) by by vm_compute.
  assert (Hr : recovering.1 = Done tt) by by vm_compute.
  pose proof (step_open false dead 250 [] 40 reopening.1 reopening.2) as Hopen.
  pose proof (step_recover false reopened 300 [] 50 recovering.1 recovering.2) as Hrec.
  rewrite Ho in Hopen. rewrite Hr in Hrec. eapply lives_step; [eapply lives_step; [apply lives_refl|]|].
  - apply Hopen; [done|cbn; lia|constructor|]. rewrite <- Ho. apply surjective_pairing.
  - apply Hrec; [done|done|cbn; lia|constructor|]. rewrite <- Hr. apply surjective_pairing.
Qed.

Lemma sane_held : sane false holding.
Proof.
  refine (proj1 (lives_sane false beginning holding _ (sane_beginning false))).
  apply lives_calm. eapply lives_step, holding_next. apply lives_refl.
Qed.
Lemma sane_dead : sane false dead.
Proof. exact (proj1 (lives_sane false beginning dead (lives_calm _ _ lives_dead) (sane_beginning false))). Qed.

Lemma completable_held : completable (l_disk holding) held "hash" 200 (Some url).
Proof.
  apply (holding_completable false); [exact sane_held|reflexivity|by vm_compute|by eexists; vm_compute|
    by eexists; vm_compute|exact small_history|exact held_sized].
Qed.

Lemma dying_recorded : dget (w_disk dying.2) COMPLETION_FILE <> None.
Proof. by vm_compute. Qed.
Lemma not_unchanged : unchanged (l_disk holding) (w_disk dying.2) -> False.
Proof. intros (_ & _ & _ & _ & _ & Hc). apply dying_recorded. rewrite Hc. by vm_compute. Qed.

Lemma committed_dead : committed 200 (l_disk dead).
Proof.
  destruct (complete_step false holding held "hash" (Some url) 200 crashing 30 dying.1 dying.2) as (_ & _ & Hst).
  - exact sane_held.
  - reflexivity.
  - cbn; lia.
  - exact completable_held.
  - exact (tolerated_genuine true _ crashing_calm).
  - apply surjective_pairing.
  - destruct Hst as [[_ Hun]|Hc]; [destruct (not_unchanged Hun)|exact Hc].
Qed.

Definition next_claim : outcome (option (t * Z)) * world := claim_next_due 60 300 (World (l_disk ready) [] 60).

Lemma postings_are_spaced_witness :
  next_claim.1 = Done (Some (with_claim (Some (uuid 60)) entry_b, 0)) /\ sat_add (sat_add 200 60) 0 <= 300.
Proof.
  assert (Hc : next_claim.1 = Done (Some (with_claim (Some (uuid 60)) entry_b, 0))) by by vm_compute.
  split; [exact Hc|].
  refine (postings_are_spaced dead ready 200 60 300 [] 60 (with_claim (Some (uuid 60)) entry_b) next_claim.2
    sane_dead committed_dead lives_ready eq_refl (Forall_nil_2 _) _).
  rewrite <- Hc. exact (surjective_pairing next_claim).
Defined.

Lemma attempts_are_committed_witness : committed 200 (w_disk dying.2).
Proof.
  destruct (proj1 (attempts_are_committed holding held "hash" "" (Some url) 200 crashing 30 dying.1 dying.2
    sane_held eq_refl (Z.le_refl 200) (tolerated_genuine true _ crashing_calm)) completable_held
    (surjective_pairing dying)) as [[_ Hun]|Hc]; [destruct (not_unchanged Hun)|exact Hc].
Defined.

Lemma nothing_is_lost_witness :
  exists e, e ∈ entries_of (d_entries (l_disk ready)) /\ evolved entry_b e.
Proof.
  destruct (nothing_is_lost dead ready sane_dead lives_ready) as (Hkept & _).
  destruct (Hkept entry_b) as [Hin|Hin]; [..|exact Hin].
  - apply (bool_decide_unpack _). by vm_compute.
  - exfalso. revert Hin. apply (bool_decide_unpack _). by vm_compute.
Defined.

(** * An error text of two megabytes *)

Lemma stored_errors_are_bounded_witness :
  utf8 (bounded_error big_body) /\ zstrlen (bounded_error big_body) <= MAX_HISTORY_ERROR_BYTES
  /\ exists n, bytes_of (bounded_error big_body) = take n (bytes_of big_body) ++ bytes_of "...".
Proof.
  generalize big_body_size. generalize big_body. intros body [Hb Hbody].
  destruct (stored_errors_are_bounded body Hbody) as (Hu & Hl & _ & Hcut).
  split; [exact Hu|]. split; [exact Hl|]. destruct Hcut as (n & Hn & _); [|exists n; exact Hn].
  unfold zlen in Hb. rewrite bytes_of_length in Hb.
  unfold zstrlen, MAX_HISTORY_ERROR_BYTES. lia.
Defined.

(** * A refused read hides a claim *)

Definition refused_read : list (option fault) := repeat None 11 ++ [Some (Fail (IoError PermissionDenied "EACCES") 0)].
Definition second_claim : outcome (option (t * Z)) * world :=
  claim_next_due 60 200 (World (disk_ab (Some token)) refused_read 20).

(** The rule of [next_due] is that nothing is claimed while another entry is.  A
    scan skips an entry whose read fails, so one refused read of the claimed entry
    is enough for a second claim. *)
Theorem refused_reads_hide_claims :
  StoredEntry.id <$> claims (disk_ab (Some token)) = ["0a1b2c3d"]
  /\ second_claim.1 = Done (Some (with_claim (Some (uuid 20)) entry_b, 0))
  /\ StoredEntry.id <$> claims (w_disk second_claim.2) = ["0a1b2c3d"; "deadbeef"].
Proof. split_and!; by vm_compute. Qed.
