(* ===== verification/DriveSamples.v ===== *)
(** [comenq put] on a queue of two comments, end to end. *)

From S2P Require Import Prelude Text Protocol Disk Entry Wire Order Bounds Scan Capacity Writes.
From S2P Require Import Schedule History Store Readers DiskState Claims Edits Enqueue Lines Reverse.
From S2P Require Import Log Pages Append Recovery Completion Trace Spec Returns Queue Waits Shared Wakes.
From S2P Require Import Listener Replies Output Args Client Session Drive Codec Json WireCodec Samples.

Definition putting : Command.t :=
  Command.Put (RepoSlug.mk (chars "octo") (chars "demo")) 9 "Third" false.
Definition new_comment : CommentRequest.t := CommentRequest.mk "octo" "demo" 9 "Third".
Definition put_third : op := Put 0 new_comment (PutOptions.mk 60 5 false).
Definition queue_ab : queue := queue_at (disk_ab None) 200.

Lemma queue_ab_usable : usable_queue config queue_ab.
Proof.
  split; [by apply sound_ab; left|]. split; [apply tail_ok_closed; right; by vm_compute|].
  exists 10. split; [|by vm_compute]. intros e. cbn [queue_ab queue_at q_world world_of_disk w_disk disk_ab d_entries].
  rewrite (proj2 (entries_ab_wf None (or_introl eq_refl))).
  intros [Hx|Hx%list_elem_of_singleton]%elem_of_cons; subst e; by vm_compute.
Qed.

Definition put_answer : outcome (Response.t * option string) * queue :=
  dispatch_request_with_error_kind config 0 5 (to_request putting) queue_ab.
Definition put_response : Response.t :=
  Response.entry (PendingEntry.mk (candidate new_comment 200 0) 125 "octo" "demo" 9 "Third").

Lemma put_answer_done : exists kind q', put_answer = (Done (put_response, kind), q').
Proof. do 2 eexists. by vm_compute. Qed.

Lemma put_answer_is response kind q' : put_answer = (Done (response, kind), q') -> response = put_response.
Proof. destruct put_answer_done as (k & q2 & ->). generalize put_response. intros r [= <- _ _]. reflexivity. Qed.

Lemma put_response_fits : response_wf put_response /\ zlen (print_response put_response) <= MAX_RESPONSE_BYTES.
Proof. split; [typed|by vm_compute]. Qed.

Abbreviation run_put :=
  (main (exchange config 0 5) (fun _ q o e => (Ok tt, q, o, e)) 0 putting 200 queue_ab (Out [] []) (Out [] [])).

Lemma run_put_ok : exists q' o e, run_put = (Some 0, q', o, e).
Proof. do 3 eexists. by vm_compute. Qed.

Lemma put_allowed : allowed (disk_ab None) 200 put_third.
Proof. split; [by vm_compute|]. split_and!; [typed|by vm_compute|by vm_compute]. Qed.

Lemma put_nameable : nameable (disk_ab None) 200 put_third.
Proof. exists 0%nat, None. split; [|done]. split_and!; [by vm_compute|lia|]. apply vacant. by vm_compute. Qed.

Lemma commands_drive_the_queue_witness :
  exists answer q',
    run_put = (Some 0, q', Out [confirmation putting answer] [], Out [] [])
    /\ q_permit q' = true
    /\ spec_step 200 (abs (disk_ab None)) put_third answer (abs (w_disk (q_world q'))).
Proof.
  destruct (commands_drive_the_queue config 0 5 (fun _ q o e => (Ok tt, q, o, e)) 0 putting put_third queue_ab
    (print_message (to_request putting)) 200 [] [] queue_ab_usable eq_refl put_allowed put_nameable)
    as (status & text & said & q' & Hrun & _ & Hcase).
  - exact (proj1 (proj2 put_allowed)).
  - reflexivity.
  - by vm_compute.
  - intros response kind q' Hd. rewrite (put_answer_is response kind q' Hd). destruct put_response_fits as [Hwf Hlen].
    split; [exact Hwf|]. revert Hlen. generalize put_response. intros x Hlen b [= <-]. exact Hlen.
  - destruct run_put_ok as (q1 & o1 & e1 & Hok). rewrite Hrun in Hok. injection Hok as Hr _ _ _.
    destruct Hcase as [(answer & _ & Htext & Hsaid & Hperm & Hstep)|(message & Hbad & _)]; [|by rewrite Hbad in Hr].
    exists answer, q'. rewrite Hrun, Htext, Hsaid, Hr. split; [reflexivity|]. split; [exact Hperm|exact Hstep].
Defined.
