(* ===== verification/ToldSamples.v ===== *)
(** A wait for a queued comment that is claimed and posted while the waiter sleeps. *)

From S2P Require Import Prelude Text Protocol Disk Entry Wire Order Bounds Scan Capacity Writes.
From S2P Require Import Schedule History Store Readers DiskState Claims Edits Sound Enqueue Lines.
From S2P Require Import Reverse Log Pages Append Recovery Completion Trace Queue Shared Output Args.
From S2P Require Import Client Session Commands Listener Replies Waits Told Codec Json WireCodec Samples.

(** A timer that is ready on time. *)
#[export] Instance punctual : Timer := { ready started duration now := started + duration <=? now }.
#[export] Instance punctual_ok : TimerOk.
Proof.
  split; cbn; [intros started duration now _ Hle%Z.leb_le; exact Hle|..].
  - intros started duration now Hle. apply Z.leb_le. lia.
  - intros started duration Hd. apply Z.leb_gt. lia.
Qed.

Definition posting_queue : queue := queue_at (disk_ab (Some token)) 200.
Definition held : StoredEntry.t := entry_a (Some token).
Definition posted_frame : bytes := print_event (AwaitEvent.Posted url).

(** The comment is queued, then claimed, then posted; the version counts the changes. *)
Definition queued_world : world := World (disk_ab None) [] 3.
Definition claimed_world : world := World (disk_ab (Some token)) [] 4.
Definition at_version (w : world) (v : Z) : queue := Queue w None v 200 false.
Definition posted_world : world :=
  q_world (SharedQueue.complete held "hash" url (at_version claimed_world 1)).2.

Definition claiming (q : queue) : queue :=
  if state_version q =? 0 then (serve config QClaim q).2 else q.
Definition completing (q : queue) : queue :=
  if state_version q =? 1 then (SharedQueue.complete held "hash" url q).2 else q.

Definition on_course (q : queue) : Prop :=
  q_now q = 200
  /\ (q_world q = queued_world /\ state_version q = 0 \/ q_world q = claimed_world /\ state_version q = 1
      \/ q_world q = posted_world /\ state_version q = 2).
Abbreviation comment_alive := (alive "0a1b2c3d" (uuid 1)).
Abbreviation old_log := (content (disk_ab None) HISTORY_FILE).
Abbreviation comment_posted := (delivered "0a1b2c3d" (uuid 1) url old_log).

Lemma queued_alive q : q_world q = queued_world -> comment_alive q.
Proof. intros Hw. exists (entry_a None). unfold alive. rewrite Hw. split; [by apply in_ab; left|done]. Qed.
Lemma claimed_alive q : q_world q = claimed_world -> comment_alive q.
Proof. intros Hw. exists held. unfold alive. rewrite Hw. split; [by apply in_ab; right|done]. Qed.

Lemma claimed_completable : completable (disk_ab (Some token)) held "hash" 200 (Some url).
Proof. apply completable_a; [by apply entries_ab_sound; right|by apply in_ab; right|by vm_compute]. Qed.

Lemma claim_performed : perform (Claim (Config.cooldown_period_seconds config)) 200 queued_world = (Done tt, claimed_world).
Proof. by vm_compute. Qed.
Lemma complete_performed :
  perform (Complete held "hash" (Some url)) 200 claimed_world = (Done tt, posted_world).
Proof. by vm_compute. Qed.

(** A call in a state of the course leads to the next one. *)
Lemma course_step c o w w' q :
  sound config q -> q_now q = 200 -> q_world q = w -> refused c = None -> store_op config c = Some o ->
  call_allowed config q c -> perform o 200 w = (Done tt, w') -> publishes c = true ->
  exists q', serve config c q = (Done tt, q') /\ ran config 1 q q' /\ q_now q' = 200 /\ q_world q' = w'
    /\ state_version q' = wrapping_succ (state_version q).
Proof.
  intros Hs Hn <- Href Hop Hal Hperf Hpub. destruct (serve config c q) as [out q'] eqn:Hrun.
  destruct (serve_served config q c out q' Hs Hal Hrun) as (_ & _ & Hnow & _).
  destruct (serve_effect config q c out q' Hs Hal Hrun) as (Hstep & Hver & _).
  unfold own_step in Hstep. rewrite Href, Hop, Hn, Hperf in Hstep. injection Hstep as <- Hw.
  exists q'. split; [done|]. split; [by eapply (ran_call config 0 q q c); [constructor|..]|].
  rewrite Hver, Hpub. split; [congruence|]. by split.
Qed.

Lemma claim_course q : sound config q -> q_now q = 200 -> q_world q = queued_world ->
  exists q', serve config QClaim q = (Done tt, q') /\ ran config 1 q q' /\ q_now q' = 200
    /\ q_world q' = claimed_world /\ state_version q' = wrapping_succ (state_version q).
Proof.
  intros Hs Hn Hw. apply (course_step QClaim (Claim (Config.cooldown_period_seconds config)) queued_world);
    [done..|split; [apply Hs|done]|exact claim_performed|done].
Qed.

Lemma complete_course q : sound config q -> q_now q = 200 -> q_world q = claimed_world ->
  exists q', SharedQueue.complete held "hash" url q = (Done tt, q') /\ ran config 1 q q' /\ q_now q' = 200
    /\ q_world q' = posted_world /\ state_version q' = wrapping_succ (state_version q).
Proof.
  intros Hs Hn Hw. apply (course_step (QComplete held "hash" url) (Complete held "hash" (Some url)) claimed_world);
    [done..|split; [apply Hs|]; rewrite Hn, Hw; exact claimed_completable|exact complete_performed|done].
Qed.

Lemma claimed_sound : sound config (at_version claimed_world 1).
Proof. constructor; [done|by vm_compute|by apply safe_ab; right|done]. Qed.

Lemma posted_delivered q : q_world q = posted_world -> comment_posted q.
Proof.
  intros Hw. destruct (complete_course (at_version claimed_world 1) claimed_sound eq_refl eq_refl)
    as (q' & Hrun & _ & _ & Hw' & _).
  apply (same_world_delivered "0a1b2c3d" (uuid 1) url old_log q'); [congruence|].
  apply (complete_delivers config old_log [] held "hash" url (at_version claimed_world 1) q');
    [exact claimed_sound|by apply in_ab; right|exact claimed_completable|reflexivity|by left|constructor|exact Hrun].
Qed.

Lemma course_followed q : on_course q -> sound config q -> comment_alive q \/ comment_posted q.
Proof.
  intros [_ [[Hw _]|[[Hw _]|[Hw _]]]] _; [left; by apply queued_alive|left; by apply claimed_alive|].
  right. by apply posted_delivered.
Qed.

Lemma course_cache q q' : on_course q -> cache_only config q q' -> on_course q'.
Proof.
  intros [Hn Hc] Hq. destruct (cache_only_moment config q q' Hq) as (Hw & Hn' & Hv).
  unfold on_course. by rewrite Hw, Hn', Hv.
Qed.

Abbreviation course_keeps := (keeps config "0a1b2c3d" (uuid 1) url old_log on_course).

Lemma idle_keeps : course_keeps (fun q => q).
Proof.
  intros q HP Hs. split; [done|]. split; [|done]. exists 0%nat. split; [constructor|].
  destruct HP as [_ [[_ ->]|[[_ ->]|[_ ->]]]]; lia.
Qed.

(** A call from one version of the course, which the comment is queued in. *)
Lemma step_keeps f q q' : f q = q' -> sound config q -> comment_alive q -> state_version q < 5 ->
  on_course q' -> ran config 1 q q' ->
  on_course (f q) /\ (exists n, ran config n q (f q) /\ state_version q + Z.of_nat n < 2 ^ 64)
  /\ (comment_posted q -> comment_posted (f q)).
Proof.
  intros -> Hs Hal Hv Hc Hr. split; [done|]. split; [exists 1%nat; split; [done|lia]|].
  intros Hd. by destruct (alive_not_delivered config "0a1b2c3d" (uuid 1) url old_log eq_refl q Hs Hal Hd).
Qed.

Lemma claiming_keeps : course_keeps claiming.
Proof.
  intros q HP Hs. pose proof HP as [Hn Hcase]. unfold claiming at 1 2 3.
  destruct (Z.eqb_spec (state_version q) 0) as [Hv|Hv]; [|by apply idle_keeps].
  assert (Hw : q_world q = queued_world) by (destruct Hcase as [[? _]|[[_ ?]|[_ ?]]]; [done|lia..]).
  destruct (claim_course q Hs Hn Hw) as (q' & Hrun & Hr & Hn' & Hw' & Hv').
  apply (step_keeps (fun q => (serve config QClaim q).2) q q'); [by rewrite Hrun|done|by apply queued_alive|lia| |done].
  split; [done|]. right. left. split; [done|]. by rewrite Hv', Hv.
Qed.

Lemma completing_keeps : course_keeps completing.
Proof.
  intros q HP Hs. pose proof HP as [Hn Hcase]. unfold completing at 1 2 3.
  destruct (Z.eqb_spec (state_version q) 1) as [Hv|Hv]; [|by apply idle_keeps].
  assert (Hw : q_world q = claimed_world) by (destruct Hcase as [[_ ?]|[[? _]|[_ ?]]]; [lia|done|lia]).
  destruct (complete_course q Hs Hn Hw) as (q' & Hrun & Hr & Hn' & Hw' & Hv').
  apply (step_keeps (fun q => (SharedQueue.complete held "hash" url q).2) q q');
    [by rewrite Hrun|done|by apply claimed_alive|lia| |done].
  split; [done|]. right. right. split; [done|]. by rewrite Hv', Hv.
Qed.

(** The worker claims the comment while the waiter sleeps, the heartbeat comes, and the
    worker completes the post. *)
Definition first_turn : await_turn :=
  AwaitTurn false (fun q => q) [] 0 [Poll 1000 (fun q => q) false; Poll 5 claiming false].
Definition more_turns : list await_turn :=
  [AwaitTurn false (fun q => q) [] 0 [Poll (16 * 10 ^ 9) (fun q => q) false];
   AwaitTurn false (fun q => q) [] 0 [Poll 5 completing false];
   AwaitTurn false (fun q => q) [((fun q => q), (fun q => q))] 0 []].

Lemma turns_keep : Forall (turn_keeps config "0a1b2c3d" (uuid 1) url old_log on_course) (first_turn :: more_turns).
Proof.
  pose proof idle_keeps. pose proof claiming_keeps. pose proof completing_keeps.
  assert (Hpoll : forall ms f, course_keeps f -> p_shutdown (Poll ms f false) = false /\ course_keeps f) by done.
  unfold first_turn, more_turns. rewrite !Forall_cons. split_and!; [..|constructor].
  all: constructor; cbn [at_shutdown at_before at_lookup at_polls]; rewrite ?Forall_cons; auto.
Qed.

Definition announced : outcome (option string * stream) * queue :=
  handle_await config 0 (first_turn :: more_turns) "0a1b2c3d" (Stream [] []) 0 (at_version queued_world 0).

Lemma announced_ends : exists s, announced.1 = Done (Some "posted", s) /\ length (st_sent s) = 4%nat.
Proof. eexists. split; by vm_compute. Qed.

Lemma queued_sound : sound config (at_version queued_world 0).
Proof. constructor; [done|by vm_compute|by apply safe_ab; left|done]. Qed.

Lemma posts_are_announced_witness :
  exists frames, announced.1 = Done (Some "posted", Stream (frames ++ [posted_frame ++ [NEWLINE]]) [])
    /\ length frames = 3%nat /\ Forall (waiting_frame config "0a1b2c3d" (uuid 1) on_course) frames.
Proof.
  destruct (posts_are_announced config on_course "0a1b2c3d" (uuid 1) url old_log posted_frame 0 first_turn
    more_turns 0 (at_version queued_world 0)) as [(frames & ended & q' & Hrun & _ & Hall & _) _].
  - by vm_compute.
  - by vm_compute.
  - exact queued_sound.
  - by vm_compute.
  - by vm_compute.
  - reflexivity.
  - by vm_compute.
  - split; [reflexivity|left; split; reflexivity].
  - exact course_cache.
  - exact course_followed.
  - exact turns_keep.
  - apply queued_alive. reflexivity.
  - reflexivity.
  - destruct announced_ends as (s & Hs & Hlen). unfold announced in *. rewrite Hrun in *. cbn [fst] in *.
    injection Hs as -> <-. exists frames. split; [reflexivity|]. split; [|exact Hall].
    cbn [st_sent] in Hlen. rewrite length_app in Hlen. cbn [length] in Hlen. lia.
Defined.

(** The entry is deleted while the waiter sleeps. *)
Definition removing (q : queue) : queue := (serve config (QDel "0a1b2c3d") q).2.
Definition sleep_polls : list poll := [Poll 1000 (fun q => q) false; Poll 1000 removing false].
Definition sleep_timer : Z -> bool := ready 0 (AWAIT_HEARTBEAT_SECS * NANOS).

Lemma removing_ran q : sound config q -> ran config 1 q (removing q).
Proof.
  intros Hs. eapply (ran_call config 0 q q (QDel "0a1b2c3d") _ (removing q)); [constructor| |apply surjective_pairing].
  split; [apply (so_now config q Hs)|exact I].
Qed.

Lemma slept : exists state q',
  await_select sleep_timer (StateSubscription.mk 0) 0 sleep_polls posting_queue = (Done (Again, (state, 2000)), q').
Proof. do 2 eexists. by vm_compute. Qed.

Lemma waiters_are_woken_witness :
  exists state q',
    await_select sleep_timer (StateSubscription.mk 0) 0 sleep_polls posting_queue = (Done (Again, (state, 2000)), q')
    /\ StateSubscription.seen state = state_version q'.
Proof.
  destruct slept as (state & q' & Hrun). exists state, q'. split; [exact Hrun|].
  refine (proj1 (waiters_are_woken config posting_queue 0 posting_queue AWAIT_HEARTBEAT_SECS 0
    sleep_polls [0%nat; 1%nat] Again state 2000 q' _ _ _ _ _ _ _ Hrun)).
  - by apply sound_ab; right.
  - clear. by vm_compute.
  - constructor.
  - constructor; [intros q _; constructor|]. constructor; [exact removing_ran|constructor].
  - clear. by vm_compute.
  - clear. by repeat constructor.
  - discriminate.
Defined.
