(* ===== verification/ConcurrentSamples.v ===== *)
(** Two clients at the same time: one moves a comment to the head with a time that is
    behind, while the other deletes it. *)

From S2P Require Import Prelude Text Protocol Disk Entry Order Bounds Scan Capacity Writes Schedule.
From S2P Require Import History Store Readers DiskState Claims Edits Enqueue Lines Reverse Log.
From S2P Require Import Pages Append Recovery Completion Faults Resume Trace Spec Returns Queue Waits Shared Wakes.
From S2P Require Import Concurrent Codec Json Samples.

Definition bumper : call := QBump "deadbeef".
Definition deleter : call := QDel "deadbeef".
Definition tick (now : Z) (q : queue) : queue :=
  Queue (q_world q) (await_schedule q) (state_version q) now (q_permit q).

Definition shared_start : queue := queue_at (disk_ab None) 200.
Definition shared_later : queue := tick 300 shared_start.
Definition bumped : outcome reply * queue := locked "bump" (Bump "deadbeef") 200 shared_later.
Definition deleted : outcome reply * queue := locked "del" (Del "deadbeef") 300 bumped.2.
Definition left : outcome unit * queue := leave deleter Accepted deleted.2.

Definition shared_events : list (op * Z * reply) :=
  [(Bump "deadbeef", 200, Accepted); (Del "deadbeef", 300, Accepted)].
Definition shared_end : system :=
  System left.2 [Applied bumper 200 Accepted; Returned deleter (Some (300, Accepted))].

(** The bump reads the clock, time passes, the deletion reads the clock; the bump takes
    the lock first and the deletion returns first. *)
Lemma shared_run : sys_run config (System shared_start []) shared_events shared_end.
Proof.
  assert (Ht : is_u64 300 /\ is_u64 200) by (split; by vm_compute). destruct Ht as [H300 H200].
  assert (Hb : reply_of bumped.1 = Some Accepted) by by vm_compute.
  assert (Hd : reply_of deleted.1 = Some Accepted) by by vm_compute.
  assert (Hl : left.1 = Done tt) by by vm_compute.
  pose proof (surjective_pairing bumped) as Eb. pose proof (surjective_pairing deleted) as Ed.
  pose proof (surjective_pairing left) as El. rewrite Hl in El. unfold shared_events, shared_end.
  unfold bumped at 1 in Eb. unfold deleted at 1 in Ed. unfold left at 1 in El. unfold shared_later in Eb.
  assert (Hnow : q_now shared_start = 200) by reflexivity.
  revert Hb Hd Eb Ed El Hnow. generalize bumped, deleted, left, shared_start.
  intros [o1 q1] [o2 q2] [o3 q3] q0 Hb Hd Eb Ed El Hnow. cbn [fst snd] in *.
  eapply (sys_run_cons _ _ []); [apply (sys_call config q0 [] bumper)|].
  eapply (sys_run_cons _ _ []); [apply (sys_clock config q0 _ 0%nat bumper); reflexivity|]. rewrite Hnow.
  eapply (sys_run_cons _ _ []); [apply (sys_tick config q0 _ 300); [lia|exact H300]|].
  eapply (sys_run_cons _ _ []); [apply (sys_call config _ _ deleter)|].
  eapply (sys_run_cons _ _ []); [apply (sys_clock config _ _ 1%nat deleter); reflexivity|].
  eapply (sys_run_cons _ _ [_]).
  { eapply (sys_lock config _ _ 0%nat bumper 200); [reflexivity|reflexivity|reflexivity| |exact Eb|exact Hb].
    split; [split; [exact H200|exact I]|exact I]. }
  eapply (sys_run_cons _ _ [_]).
  { eapply (sys_lock config _ _ 1%nat deleter 300); [reflexivity|reflexivity|reflexivity| |exact Ed|exact Hd].
    split; [split; [exact H300|exact I]|exact I]. }
  eapply (sys_run_cons _ _ []); [eapply (sys_leave config _ _ 1%nat deleter 300 Accepted); [reflexivity|exact El]|].
  apply sys_run_nil.
Qed.

Lemma concurrent_calls_see_one_queue_witness :
  spec_run (abs (disk_ab None)) shared_events (abs (w_disk (q_world (y_queue shared_end))))
  /\ omap (event_of config) (y_tasks shared_end) ≡ₚ shared_events
  /\ moves config shared_end 0 (Applied bumper 200 Accepted).
Proof.
  destruct (concurrent_calls_see_one_queue config (System shared_start []) shared_events shared_end)
    as (Hrun & Hev & Hmoves); [|reflexivity| |exact shared_run|].
  - constructor.
    + by apply sound_ab; left.
    + apply tail_ok_closed. right. by vm_compute.
    + intros e. cbn [y_queue shared_start queue_at q_world world_of_disk w_disk disk_ab d_entries].
      rewrite (proj2 (entries_ab_wf None (or_introl eq_refl))).
      intros [Hx|Hx%list_elem_of_singleton]%elem_of_cons; subst e; by vm_compute.
    + intros c now Hin. by apply elem_of_nil in Hin.
  - by vm_compute.
  - split; [exact Hrun|]. split; [exact Hev|]. apply (Hmoves 0%nat); [reflexivity|exact I].
Defined.
