(* ===== verification/Witnesses.v ===== *)
(** The theorems with hypotheses, applied to concrete stores, logs and messages:
    each hypothesis holds of something the program builds. *)

From S2P Require Import Prelude Text Tokens Protocol Output Args Disk Entry Wire Order Bounds Scan.
From S2P Require Import Capacity Writes Schedule History Store Readers DiskState Claims Edits.
From S2P Require Import Enqueue Lines Reverse Log Pages Append Recovery Completion Trace Spec Queue.
From S2P Require Import Recorder Waits Shared Wakes Worker Listener Replies Metrics Client Supervisor.
From S2P Require Import Socket.
From S2P Require Import Credentials Startup Session Commands.
From S2P Require Import Codec Json WireCodec Samples.

Import StoredEntry.

(** * The store *)

(** The process dies while the completion is being written to disk. *)
Definition interrupted_completion : outcome unit * world :=
  complete_claim_with_token (entry_a (Some token)) "hash" 200 (Some url)
    (World (disk_ab (Some token)) [None; None; None; None; None; None; Some (Crash 0)] 20).

Lemma completion_exactly_once_witness :
  (interrupted_completion.1 <> Done tt
   /\ unchanged (disk_ab (Some token)) (w_disk interrupted_completion.2))
  \/ exists k, forall d2 v, interrupted (w_disk interrupted_completion.2) d2 ->
       exists d3 v', reconcile_completion (World d2 [] v) = (Done tt, World d3 [] v')
         /\ entries_of (d_entries d3) = [entry_b]
         /\ log_records (content d3 HISTORY_FILE)
            = log_records log ++ [posted_record (entry_a (Some token)) "hash" 200 (Some url) k]
         /\ marker d3 LAST_POST_FILE = Some 200
         /\ dget d3 COMPLETION_FILE = None.
Proof.
  refine (completion_exactly_once (disk_ab (Some token)) (entry_a (Some token)) "hash" 200 (Some url)
    [None; None; None; None; None; None; Some (Crash 0)] 20 _ _ _ _ (surjective_pairing _)).
  - apply completable_a; [by apply entries_ab_sound; right|by apply in_ab; right|by vm_compute].
  - repeat constructor.
Defined.

Lemma claims_are_spaced_witness :
  sat_add (sat_add 50 60) 5 <= 200.
Proof.
  refine (claims_are_spaced (Moment (disk_a None) 20 200) (Moment (disk_a None) 20 200) 60 200 20
    (entry_a (Some (uuid 20))) _ 50 (safe_a None _) (reachable_refl _) eq_refl _).
  - by left.
  - by vm_compute.
Defined.

(** One claim step from a safe state. *)
Definition after_claim : world :=
  (perform (Claim 60) 200 (World (disk_ab None) [] 20)).2.

Lemma claim_step :
  reachable (Moment (disk_ab None) 20 200) (Moment (w_disk after_claim) (w_uuids after_claim) 200).
Proof.
  eapply reachable_step; [constructor|].
  refine (step_perform (Moment (disk_ab None) 20 200) (Claim 60) 200 _ after_claim _ _
            (surjective_pairing _)); [by vm_compute|by vm_compute].
Qed.

Lemma execution_invariant_witness :
  disk_wf (w_disk after_claim) /\ (length (claims (w_disk after_claim)) <= 1)%nat.
Proof.
  refine (execution_invariant (Moment (disk_ab None) 20 200)
    (Moment (w_disk after_claim) (w_uuids after_claim) 200) _ claim_step).
  by apply safe_ab; left.
Defined.

Definition after_release : world :=
  (perform (Release "0a1b2c3d" token) 200 (World (disk_ab (Some token)) [] 20)).2.

Lemma attempts_anchor_the_cooldown_witness :
  exists p, activity (w_disk after_release) = Some p /\ 200 <= p.
Proof.
  refine (attempts_anchor_the_cooldown (disk_ab (Some token)) 20 (Release "0a1b2c3d" token) 200 200
    after_release _ _ _ _ _).
  - by apply safe_ab; right.
  - lia.
  - by vm_compute.
  - exists (entry_a (Some token)). split; [by apply in_ab; right|done].
  - by vm_compute.
Defined.

(** Two operations from the sample directory: the second entry moves to the head and
    is claimed. *)
Definition bumping : outcome reply * world := Spec.answer (Bump "deadbeef") 200 (World (disk_ab None) [] 20).
Definition claiming : outcome reply * world := Spec.answer (Claim 60) 300 (World (w_disk bumping.2) [] 20).
Definition trace_ab : list (op * Z * reply) :=
  [(Bump "deadbeef", 200, Accepted); (Claim 60, 300, Next (Some ("deadbeef", 0)))].
Definition end_ab : moment := Moment (w_disk claiming.2) (w_uuids claiming.2) 300.

Lemma bumping_answer : Spec.answer (Bump "deadbeef") 200 (World (disk_ab None) [] 20) = (bumping.1, bumping.2).
Proof. apply surjective_pairing. Qed.
Lemma claiming_answer : Spec.answer (Claim 60) 300 (World (w_disk bumping.2) [] 20) = (claiming.1, claiming.2).
Proof. apply surjective_pairing. Qed.

Lemma execution_ab : execution (Moment (disk_ab None) 20 200) trace_ab end_ab.
Proof.
  assert (Htimes : is_u64 200 /\ is_u64 300) by (split; by vm_compute). destruct Htimes as [H200 H300].
  assert (Hu : w_uuids bumping.2 = 20%nat) by by vm_compute.
  assert (Hbump : reply_of bumping.1 = Some Accepted) by by vm_compute.
  assert (Hclaim : reply_of claiming.1 = Some (Next (Some ("deadbeef", 0)))) by by vm_compute.
  pose proof bumping_answer as Hb. pose proof claiming_answer as Hc. rewrite <- Hu in Hc.
  unfold trace_ab, end_ab. revert Hbump Hclaim Hb Hc. generalize (disk_ab None).
  generalize bumping, claiming. intros [o1 w1] [o2 w2] d Hbump Hclaim Hb Hc.
  eapply execution_cons; [cbn; lia| |exact Hb|exact Hbump|].
  { split; [split; [exact H200|exact I]|exact I]. }
  eapply execution_cons; [cbn; lia| |exact Hc|exact Hclaim|apply execution_nil].
  split; [split; [exact H300|exact I]|exact I].
Qed.

Lemma store_refines_the_abstract_queue_witness :
  spec_run (abs (disk_ab None)) trace_ab (abs (m_disk end_ab)).
Proof.
  refine (store_refines_the_abstract_queue (Moment (disk_ab None) 20 200) trace_ab end_ab _ _ _ _ execution_ab).
  - by apply safe_ab; left.
  - apply tail_ok_closed. right. by vm_compute.
  - intros e. cbn [m_disk disk_ab d_entries]. rewrite (proj2 (entries_ab_wf None (or_introl eq_refl))).
    intros [Hx|Hx%list_elem_of_singleton]%elem_of_cons; subst e; by vm_compute.
  - by vm_compute.
Defined.

(** ** Enqueueing *)

Definition options : PutOptions.t := PutOptions.mk 60 5 false.
Definition new_comment : CommentRequest.t := CommentRequest.mk "octo" "demo" 9 "Third".

Lemma new_comment_typed : request_typed new_comment.
Proof. typed. Qed.
Lemma options_ok : options_typed options.
Proof. by vm_compute. Qed.

Lemma now_u64 : is_u64 200.
Proof. by vm_compute. Qed.

Definition after_put : outcome (t * Z) * world := put_with_eta 0 new_comment options 200 (World (disk_ab None) [] 20).

Lemma first_usable_new : first_usable (disk_ab None) new_comment 200 0 None.
Proof. split_and!; [by vm_compute|lia|]. apply vacant. by vm_compute. Qed.

Lemma after_put_done : exists e eta, after_put = (Done (e, eta), after_put.2).
Proof. do 2 eexists. by vm_compute. Qed.

Lemma tail_has_room tl :
  last (entries_of (d_entries (disk_ab None))) = Some tl -> order tl < I64_MAX.
Proof.
  cbn [disk_ab d_entries]. rewrite (proj2 (entries_ab_wf None (or_introl eq_refl))).
  intros <-%(inj Some). by vm_compute.
Qed.

Lemma put_appends_witness :
  exists e eta, after_put.1 = Done (e, eta) /\ disk_wf (w_disk after_put.2)
    /\ entries_of (d_entries (w_disk after_put.2)) = [entry_a None; entry_b] ++ [e].
Proof.
  destruct after_put_done as (e & eta & Hrun).
  destruct (put_appends (disk_ab None) 20 0 new_comment options 200 0 e eta after_put.2) as (Hwf & Hq & _).
  - by apply disk_ab_wf; left.
  - exact first_usable_new.
  - exact (le_n 0).
  - exact new_comment_typed.
  - exact options_ok.
  - exact now_u64.
  - exact tail_has_room.
  - exact Hrun.
  - exists e, eta. rewrite Hrun. split; [done|]. split; [exact Hwf|].
    cbn [disk_ab d_entries] in Hq. rewrite (proj2 (entries_ab_wf None (or_introl eq_refl))) in Hq. exact Hq.
Defined.

Lemma comment_of_vacant body : first_usable empty_disk (comment_of body) 200 0 None.
Proof. split_and!; [by vm_compute|lia|]. apply vacant. apply lookup_empty. Qed.

Lemma big_comment_refused body :
  utf8 body -> 2097152 <= zlen (bytes_of body) ->
  exists err w', put_with_eta 0 (comment_of body) options 200 (World empty_disk [] 20) = (Failed err, w').
Proof.
  intros Hb Hlen.
  destruct (put_new empty_disk 20 0 (comment_of body) options 200 0) as (c & <-%(inj Some) & ->);
    [apply empty_disk_wf|apply comment_of_vacant|lia|by apply comment_of_typed|apply options_ok
    |apply now_u64|].
  destruct (_ <=? _); [by do 2 eexists|]. unfold admit_checks. destruct (_ <? _); [by do 2 eexists|].
  set (e := put_entry _ _ _ _ _ _). pose proof (print_entry_longer e) as Hlong.
  change (CommentRequest.body (request e)) with body in Hlong. unfold ensure_entry_size.
  change (sat_sub MAX_ENTRY_BYTES ENTRY_MUTATION_HEADROOM_BYTES) with 2097072.
  destruct (Z.ltb_spec 2097072 (zlen (print_entry e))); [by do 2 eexists|lia].
Qed.

Lemma put_refusal_changes_nothing_witness :
  exists err w', put_with_eta 0 (comment_of big_body) options 200 (World empty_disk [] 20) = (Failed err, w')
    /\ w_disk w' = empty_disk.
Proof.
  destruct big_body_size as [Hlen Hb].
  destruct (big_comment_refused big_body Hb Hlen) as (err & w' & Hrun). exists err, w'. split; [exact Hrun|].
  refine (proj1 (put_refusal_changes_nothing empty_disk 20 0 (comment_of big_body) options 200 0 err w'
    empty_disk_wf (comment_of_vacant _) (le_n 0) (comment_of_typed _ Hb) options_ok now_u64 Hrun)).
Defined.

Lemma put_is_idempotent_witness :
  put_with_eta 0 comment options 200 (World disk_q [] 20) = (Done (entry_q, 0), World disk_q [] 20).
Proof.
  refine (put_is_idempotent disk_q 20 0 comment options 200 0 entry_q _ _ _).
  - apply disk_wf_root, entries_q_wf.
  - split_and!; [by vm_compute|lia|]. apply queued; [|done|done].
    cbn [disk_q d_entries]. rewrite (proj2 entries_q_wf). apply list_elem_of_here.
  - lia.
Defined.

(** ** Single files and entries *)

Lemma updates_always_fit_witness :
  exists d', write_entry (with_order 7 (entry_a None)) (World (disk_a None) [] 20) = (Done tt, World d' [] 20)
    /\ entries_of (d_entries d') = [with_order 7 (entry_a None)].
Proof.
  destruct (updates_always_fit (disk_a None) 20 (entry_a None) (with_order 7 (entry_a None)))
    as (d' & Hrun & _ & He & _).
  - exact (proj1 (entries_a_wf None (or_introl eq_refl))).
  - exact (proj1 (entries_of_elem _ _) (in_a None (or_introl eq_refl))).
  - split; [done|]. split; [|by left]. typed.
  - exists d'. split; [exact Hrun|]. rewrite He.
    cbn [disk_a d_entries]. rewrite (proj2 (entries_a_wf None (or_introl eq_refl))). reflexivity.
Defined.

(** The write of the temporary file fails half-way. *)
Definition failed_replacement : outcome unit * world :=
  write_atomic LAST_POST_FILE (u64_to_bytes 60)
    (World (disk_a None) [None; Some (Disk.Fail (os_error PermissionDenied) 1)] 20).

Lemma replacement_is_atomic_witness :
  dget (w_disk failed_replacement.2) LAST_POST_FILE = dget (disk_a None) LAST_POST_FILE
  \/ dget (w_disk failed_replacement.2) LAST_POST_FILE = Some (Regular (u64_to_bytes 60)).
Proof.
  refine (proj1 (replacement_is_atomic LAST_POST_FILE (u64_to_bytes 60) (disk_a None)
    [None; Some (Disk.Fail (os_error PermissionDenied) 1)] 20 _ _ _ _ (surjective_pairing _))).
  - by vm_compute.
  - by repeat constructor.
Defined.

Lemma claim_takes_the_due_head_witness :
  exists r w', claim_next_due 60 200 (World (disk_ab None) [] 20) = (Done r, w')
    /\ claim_outcome 60 200 (disk_ab None) 20 r w'.
Proof. refine (claim_takes_the_due_head (disk_ab None) 20 60 200 _). by apply disk_ab_wf; left. Defined.

Lemma release_returns_the_claim_witness :
  exists d', release_claim "0a1b2c3d" token 200 (World (disk_ab (Some token)) [] 20)
             = (Done tt, World d' [] 20)
    /\ marker d' LAST_ATTEMPT_FILE = Some 200.
Proof.
  destruct (release_returns_the_claim (disk_ab (Some token)) 20 "0a1b2c3d" token 200) as [_ Hrel];
    [by apply disk_ab_wf; right|reflexivity|exact now_u64|].
  destruct (Hrel (entry_a (Some token))) as (d' & Hrun & _ & Hok); [by apply in_ab; right|reflexivity|].
  exists d'. split; [exact Hrun|]. apply (Hok eq_refl).
Defined.

Lemma bump_moves_to_the_head_witness :
  exists d' o, bump "deadbeef" (World (disk_ab None) [] 20) = (Done tt, World d' [] 20)
    /\ entries_of (d_entries d') = [with_order o entry_b; entry_a None].
Proof.
  destruct (bump_moves_to_the_head (disk_ab None) 20 entry_b) as (d' & o & Hrun & _ & He & _).
  - by apply disk_ab_wf; left.
  - by apply in_ab; left.
  - cbn [disk_ab d_entries]. rewrite (proj2 (entries_ab_wf None (or_introl eq_refl))).
    intros h <-%(inj Some). by vm_compute.
  - exists d', o. split; [exact Hrun|]. rewrite He. cbn [disk_ab d_entries].
    rewrite (proj2 (entries_ab_wf None (or_introl eq_refl))). reflexivity.
Defined.

Lemma bust_moves_to_the_tail_witness :
  exists d' o, bust "0a1b2c3d" (World (disk_ab None) [] 20) = (Done tt, World d' [] 20)
    /\ entries_of (d_entries d') = [entry_b; with_order o (entry_a None)].
Proof.
  destruct (bust_moves_to_the_tail (disk_ab None) 20 (entry_a None)) as (d' & o & Hrun & _ & He & _).
  - by apply disk_ab_wf; left.
  - by apply in_ab; left.
  - exact tail_has_room.
  - exists d', o. split; [exact Hrun|]. rewrite He. cbn [disk_ab d_entries].
    rewrite (proj2 (entries_ab_wf None (or_introl eq_refl))). reflexivity.
Defined.

Lemma del_removes_one_entry_witness :
  exists d', del "0a1b2c3d" (World (disk_ab None) [] 20) = (Done tt, World d' [] 20)
    /\ entries_of (d_entries d') = [entry_b]
    /\ resolve_await_completion "0a1b2c3d" None (World d' [] 20) = (Done Unknown, World d' [] 20).
Proof.
  destruct (del_removes_one_entry (disk_ab None) 20 (entry_a None)) as (b & d' & Hrun & _ & He & _ & _ & _ & Hun).
  - by apply disk_ab_wf; left.
  - by apply in_ab; left.
  - exists d'. split; [exact Hrun|]. split; [|exact Hun]. rewrite He. cbn [disk_ab d_entries].
    rewrite (proj2 (entries_ab_wf None (or_introl eq_refl))). reflexivity.
Defined.

Lemma bump_saturates_witness :
  exists d', bump "deadbeef" (World disk_m [] 20) = (Done tt, World d' [] 20)
    /\ head (entries_of (d_entries d')) = Some entry_m.
Proof.
  refine (bump_saturates disk_m 20 entry_b entry_m [entry_b] (proj1 disk_m_wf) (proj2 disk_m_wf) _ _ _).
  - apply list_elem_of_here.
  - reflexivity.
  - by vm_compute.
Defined.

(** * The history log *)

Definition next_record : HistoryRecord.t := posted_record (entry_a None) "hash" 200 (Some url) 30.

Lemma next_record_typed : record_typed next_record.
Proof. typed. Qed.

Lemma log_lookup es : dget (Disk root es ∅) HISTORY_FILE = Some (Regular log).
Proof. reflexivity. Qed.

Lemma small_log (c : bytes) :
  forallb (fun l => negb (zlen l =? MAX_HISTORY_LINE_BYTES + 1)) (lines c) = true -> boundary_free c.
Proof.
  intros Hc. apply Forall_forall. intros l Hl. rewrite forallb_forall in Hc.
  apply list_elem_of_In, Hc in Hl. destruct (Z.eqb_spec (zlen l) (MAX_HISTORY_LINE_BYTES + 1)); done.
Qed.

Lemma pages_return_every_record_witness :
  drain HISTORY_FILE (length log) None 1 [] (World (disk_a None) [] 20)
  = (Done (log_records log), World (disk_a None) [] 20) /\ log_records log = [past].
Proof.
  split; [|by vm_compute].
  refine (pages_return_every_record HISTORY_FILE (disk_a None) 20 log 1 (log_lookup _) _). lia.
Defined.

(** The log after another record was appended. *)
Definition longer_log : disk :=
  Disk (<["history.jsonl" := Regular (log ++ print_record next_record ++ [NEWLINE])]> ∅) ∅ ∅.

Lemma pages_ignore_later_appends_witness :
  exists page,
    read_page HISTORY_FILE (Some (position_of [] log)) None 4 (World (disk_a None) [] 20)
    = (Done page, World (disk_a None) [] 20)
    /\ read_page HISTORY_FILE (Some (position_of [] log)) None 4 (World longer_log [] 20)
       = (Done page, World longer_log [] 20)
    /\ zlen (HistoryPage.records page) <= 4.
Proof.
  refine (pages_ignore_later_appends HISTORY_FILE (disk_a None) longer_log 20 [] log
    (print_record next_record ++ [NEWLINE]) None 4 (log_lookup _) eq_refl _ _).
  - by left.
  - lia.
Defined.

Lemma recent_page_is_the_tail_witness :
  exists page, read_page HISTORY_FILE None (Some 1) 64 (World longer_log [] 20) = (Done page, World longer_log [] 20)
    /\ HistoryRecordAt.record <$> HistoryPage.records page = [next_record].
Proof.
  refine (recent_page_is_the_tail HISTORY_FILE longer_log 20
    (log ++ print_record next_record ++ [NEWLINE]) 1 64 eq_refl _ _).
  - apply small_log. by vm_compute.
  - lia.
Defined.

(** A first attempt to append failed after three bytes. *)
Definition torn_log : disk := Disk (<["history.jsonl" := Regular (log ++ take 3 (print_record next_record))]> ∅) ∅ ∅.
Definition retried_append : outcome unit * world :=
  append_once HISTORY_FILE next_record (zlen log) (World torn_log [] 20).

Lemma torn_log_pending : pending next_record log (content torn_log HISTORY_FILE).
Proof.
  exists (take 3 (print_record next_record)). split; [reflexivity|].
  split; [split; [by vm_compute|apply Forall_singleton; by vm_compute]|]. split; [by vm_compute|]. split; [by vm_compute|].
  split; intros _ ls l Hl.
  - assert (Hlen : lines (content torn_log HISTORY_FILE) = [log; take 3 (print_record next_record)]) by reflexivity.
    rewrite Hlen in Hl. apply (app_inj_tail [log]) in Hl as [_ <-]. by vm_compute.
  - assert (Hlen : lines (take 3 (print_record next_record)) = [take 3 (print_record next_record)]) by reflexivity.
    rewrite Hlen in Hl. apply (app_inj_tail []) in Hl as [_ <-]. by vm_compute.
Qed.

Lemma append_once_adds_one_record_witness :
  retried_append.1 = Done tt
  /\ log_records (content (w_disk retried_append.2) HISTORY_FILE) = [past; next_record].
Proof.
  assert (Hdone : retried_append.1 = Done tt) by reflexivity. split; [exact Hdone|].
  refine (proj1 (append_once_adds_one_record HISTORY_FILE next_record (print_record next_record) log torn_log []
    20 _ _ next_record_typed eq_refl _ _ (or_introl torn_log_pending) _ (surjective_pairing _)) Hdone).
  - by vm_compute.
  - by vm_compute.
  - constructor.
Defined.

Lemma lookup_finds_the_newest_completion_witness :
  latest_completion HISTORY_FILE "0a1b2c3d" None (World longer_log [] 20)
  = (Done (Some next_record), World longer_log [] 20).
Proof.
  refine (lookup_finds_the_newest_completion HISTORY_FILE longer_log 20 []
    (log ++ print_record next_record ++ [NEWLINE]) "0a1b2c3d" None eq_refl eq_refl _).
  apply small_log. by vm_compute.
Defined.

(** A log with one record of exactly the line limit. *)
Definition limit_log (r : HistoryRecord.t) : disk :=
  Disk (<["history.jsonl" := Regular (print_record r ++ [NEWLINE])]> ∅) ∅ ∅.

Lemma limit_log_lookup r : dget (limit_log r) HISTORY_FILE = Some (Regular (print_record r ++ [NEWLINE])).
Proof. reflexivity. Qed.

Lemma scans_disagree_at_the_limit_witness :
  latest_completion HISTORY_FILE (HistoryRecord.id (record_of limit_body)) None
    (World (limit_log (record_of limit_body)) [] 20)
  = (Done (Some (record_of limit_body)), World (limit_log (record_of limit_body)) [] 20)
  /\ forall page_size, 0 < page_size ->
       exists page, read_page HISTORY_FILE None None page_size (World (limit_log (record_of limit_body)) [] 20)
           = (Done page, World (limit_log (record_of limit_body)) [] 20)
         /\ HistoryPage.records page = [].
Proof.
  destruct limit_body_spec as (Hp & Hu & Hl).
  assert (Hlen : zlen (print_record (record_of limit_body)) = MAX_HISTORY_LINE_BYTES)
    by (rewrite (record_of_size limit_body Hp), Hl; apply Zplus_minus).
  exact (scans_disagree_at_the_limit HISTORY_FILE (limit_log (record_of limit_body)) 20
    (record_of limit_body) (print_record (record_of limit_body)) (record_of_typed limit_body Hu)
    eq_refl eq_refl Hlen (limit_log_lookup _)).
Defined.

(** * Completion and waiting *)

Definition completed_post : outcome unit * world :=
  complete_claim_with_token (entry_a (Some token)) "hash" 200 (Some url) (World (disk_ab (Some token)) [] 20).

Lemma completable_ab : completable (disk_ab (Some token)) (entry_a (Some token)) "hash" 200 (Some url).
Proof. apply completable_a; [by apply entries_ab_sound; right|by apply in_ab; right|by vm_compute]. Qed.

Lemma waiters_see_the_post_witness :
  resolve_await_completion "0a1b2c3d" None (World (w_disk completed_post.2) [] 40)
  = (Done (Posted (Some url) 200), World (w_disk completed_post.2) [] 40).
Proof.
  refine (proj1 (waiters_see_the_post (disk_ab (Some token)) (entry_a (Some token)) "hash" 200 (Some url) 20
    _ _ 40 completable_ab (surjective_pairing _) _)); apply small_log; by vm_compute.
Defined.

Lemma recovery_releases_claims_witness :
  exists d' u', recover_worker_state (World (disk_ab (Some token)) [] 20) = (Done tt, World d' [] u')
    /\ claims d' = [].
Proof.
  destruct (recovery_releases_claims (disk_ab (Some token)) 20) as (d' & u' & Hrun & _ & Hc & _).
  - by apply disk_ab_wf; right.
  - reflexivity.
  - exists d', u'. split; [exact Hrun|exact Hc].
Defined.

(** A deletion that was interrupted before its entry was removed. *)
Definition stale_marker : disk :=
  Disk root (entries_ab None)
    (<["0a1b2c3d" := Regular (print_deletion (AwaitDeletionRecord.mk (uuid 1)))]> ∅).

Lemma stale_marker_wf : disk_wf stale_marker.
Proof.
  constructor; [exact (proj1 (entries_ab_wf None (or_introl eq_refl)))| | |apply root_regular|].
  - right. exists 50. by vm_compute.
  - left. reflexivity.
  - intros k. cbn [stale_marker d_deletions].
    destruct (decide (k = "0a1b2c3d")) as [->|]; [by rewrite lookup_insert_eq|].
    rewrite lookup_insert_ne by done. by rewrite lookup_empty.
Qed.

Lemma open_clears_stale_markers_witness :
  exists d' u', open_store (World stale_marker [] 20) = (Done tt, World d' [] u')
    /\ d_deletions d' !! "0a1b2c3d" = None.
Proof.
  destruct (open_clears_stale_markers stale_marker 20 stale_marker_wf eq_refl)
    as (d' & u' & Hrun & _ & _ & _ & Hk).
  exists d', u'. split; [exact Hrun|]. rewrite (Hk "0a1b2c3d"). cbn [stale_marker d_entries].
  rewrite (proj2 (entries_ab_wf None (or_introl eq_refl))). reflexivity.
Defined.

(** * The shared queue *)

Abbreviation shared_queue := (queue_at (disk_ab None) 200).

Lemma shared_queue_refines_store_witness :
  sound config (serve config QClaim shared_queue).2
  /\ own_step config shared_queue QClaim (Done tt) (q_world (serve config QClaim shared_queue).2)
  /\ state_version (serve config QClaim shared_queue).2 = 1 /\ q_permit (serve config QClaim shared_queue).2 = false.
Proof.
  destruct (shared_queue_refines_store config shared_queue QClaim (Done tt) (serve config QClaim shared_queue).2)
    as (Hs & Hstep & _ & _ & Hv & Hp & _).
  - by apply sound_ab; left.
  - by vm_compute.
  - by vm_compute.
  - by vm_compute.
  - split; [exact Hs|]. split; [exact Hstep|]. split; [rewrite Hv|rewrite Hp]; by vm_compute.
Defined.

(** Another client lists the queue while the lookup is between two locks. *)
Definition listing (q : queue) : queue := (serve config QList q).2.

Lemma listing_interferes : interference config listing.
Proof.
  intros q Hs. exists 1%nat. split; [|lia].
  eapply (ran_call config 0 q q QList); [constructor|done|]. apply surjective_pairing.
Qed.

(** Another client moves an entry to the tail. *)
Definition busting (q : queue) : queue := (serve config (QBust "0a1b2c3d") q).2.

Lemma busting_interferes : interference config busting.
Proof.
  intros q Hs. exists 1%nat. split; [|lia].
  eapply (ran_call config 0 q q (QBust "0a1b2c3d")); [constructor|split; [apply Hs|done]|]. apply surjective_pairing.
Qed.

(** A lookup of an unknown identifier has to start again because the queue changes. *)
Definition busy_turns : list ((queue -> queue) * (queue -> queue)) := [(listing, busting); (listing, listing)].

Lemma await_lookup_is_atomic_witness :
  (SharedQueue.resolve_await_store config busy_turns "cafebabe" None shared_queue).1 = Done Unknown
  /\ (1 < length (visited config busy_turns "cafebabe" None shared_queue))%nat
  /\ exists n q0, q0 ∈ visited config busy_turns "cafebabe" None shared_queue /\ ran config n shared_queue q0
       /\ await_answer config q0 "cafebabe" None = Done Unknown.
Proof.
  split; [by vm_compute|]. split; [vm_compute; lia|].
  refine (proj2 (await_lookup_is_atomic config busy_turns shared_queue "cafebabe" None (Done Unknown)
    (SharedQueue.resolve_await_store config busy_turns "cafebabe" None shared_queue).2 _ _ _ _ _)).
  - by apply sound_ab; left.
  - by vm_compute.
  - done.
  - repeat constructor; first [apply listing_interferes|apply busting_interferes].
  - by vm_compute.
Defined.

Lemma await_agrees_with_list_witness :
  exists s eta offset, (SharedQueue.list config shared_queue).1 = Done s /\ (entry_b, eta) ∈ s
    /\ (SharedQueue.resolve_await config [] "deadbeef" None shared_queue).1
       = Done (Ok (Pending eta (AwaitCursor.mk offset (uuid 2)))).
Proof.
  refine (await_agrees_with_list config shared_queue entry_b _ _).
  - by apply sound_ab; left.
  - exact (proj2 (in_ab None (or_introl eq_refl))).
Defined.

(** * Tokens, output and arguments *)

Lemma rotation_uses_every_token_witness :
  picks 3 ["aa"; "bb"; "cc"] (Some "bb") ≡ₚ ["aa"; "bb"; "cc"].
Proof.
  refine (proj1 (rotation_uses_every_token ["aa"; "bb"; "cc"] (Some "bb") _ _)).
  - by apply (bool_decide_unpack _); vm_compute.
  - done.
Defined.

Lemma countdown_ends_due_witness : last (countdown (S (Z.to_nat 100)) 100) = Some 0.
Proof. refine (proj1 (countdown_ends_due 100 _)). lia. Defined.

Lemma repo_slug_round_trip_witness :
  from_str (display (RepoSlug.mk (chars "octo") (chars "demo"))) = Ok (RepoSlug.mk (chars "octo") (chars "demo")).
Proof.
  refine (proj1 (proj2 (repo_slug_round_trip (chars " octo/demo") _ _))). by vm_compute.
Defined.

(** * The worker *)

(** Turns whose posting GitHub refuses; the clock has reached [at_] at least. *)
Definition clock_to (at_ : Z) (q : queue) : queue :=
  Queue (q_world q) (await_schedule q) (state_version q) (Z.max (q_now q) at_) (q_permit q).
Definition refused_turn (between : queue -> queue) (at_ : Z) : turn :=
  Turn 0 (clock_to at_) 1000 [Answer (10 ^ 9) (fun q => q) (Some (Err "503"))] 2000 between
    [Poll (20 * 10 ^ 9) (fun q => q) false; Poll (45 * 10 ^ 9) (fun q => q) false].
Definition clients : list TokenClient.t := [TokenClient.mk "primary" "hash"].

(** A timer that is ready at once when its time has come. *)
#[export] Instance exact_timer : Timer := { ready started duration now := started + duration <=? now }.
#[export] Instance exact_timer_ok : TimerOk.
Proof.
  constructor; cbn.
  - intros started duration now _ Hr. by apply Z.leb_le.
  - intros started duration now Hle. apply Z.leb_le. lia.
  - intros started duration Hd. apply Z.leb_gt. lia.
Qed.

Lemma idle_interferes : interference config (fun q => q).
Proof. intros q Hs. exists 0%nat. split; [constructor|lia]. Qed.

(** A client deletes the entry that is being posted. *)
Definition deleting (q : queue) : queue := (serve config (QDel "0a1b2c3d") q).2.

Lemma deleting_interferes : interference config deleting.
Proof.
  intros q Hs. exists 1%nat. split; [|lia].
  eapply (ran_call config 0 q q (QDel "0a1b2c3d")); [constructor|split; [apply Hs|done]|]. apply surjective_pairing.
Qed.

Lemma refused_turn_ok between at_ q :
  interference config between -> sound config q -> is_u64 at_ ->
  turn_ok config clients (refused_turn between at_) q.
Proof.
  intros Hbetween Hs Hat. assert (Hran : ran config 0 q (clock_to at_ q)).
  { apply (ran_tick config 0 q q); [constructor|lia|]. pose proof (so_now config q Hs).
    clear Hbetween. unfold is_u64 in *. lia. }
  split; [by exists 0%nat|]. pose proof idle_interferes as Hidle.
  split; [apply Forall_singleton; exact Hidle|]. split; [exact Hbetween|].
  split; [constructor; [exact Hidle|]; apply Forall_singleton; exact Hidle|].
  by intros e wait q1 at1 r answered q2 Hc Hw [= <- <- <-].
Qed.

Definition refused_turns : list ((queue -> queue) * Z) -> list turn := fmap (fun x => refused_turn x.1 x.2).

Lemma refused_turns_ok l : forall start q,
  sound config q -> Forall (fun x => interference config x.1 /\ is_u64 x.2) l ->
  turns_ok config clients (refused_turns l) start q.
Proof.
  induction l as [|[between at_] l IH]; intros start q Hs Hall; [done|].
  apply Forall_cons_1 in Hall as [[Hb Hat] Hall].
  pose proof (refused_turn_ok between at_ q Hb Hs Hat) as Hok. cbn [refused_turns fmap list_fmap turns_ok fst snd]. split; [done|].
  destruct (worker_turn config clients (refused_turn between at_) start q) as [[rep|?| |] q'] eqn:Ht; try done.
  destruct (rp_end rep); try done. apply IH; [|done].
  exact (on_sound config _ _ (proj1 (worker_turn_spec config clients _ start q rep q' Hs Hok Ht))).
Qed.

(** The entry is deleted while its second post fails, and the next one is claimed. *)
Definition worker_turns : list turn :=
  refused_turns [((fun q => q), 200); (deleting, 400); ((fun q => q), 600)].
Definition worker_run : outcome (list posting * list sample) * queue :=
  worker_loop config clients worker_turns 0 shared_queue.

Lemma worker_run_done :
  exists made samples, worker_run = (Done (made, samples), worker_run.2)
    /\ p_claimed_at <$> made = [200; 400; 600] /\ p_kept <$> made = [true; false; true].
Proof. eexists _, _. split; [by vm_compute|]. by vm_compute. Qed.

Lemma worker_spaces_postings_witness :
  exists made samples, worker_run.1 = Done (made, samples) /\ StronglySorted (spaced config) made
    /\ p_claimed_at <$> made = [200; 400; 600] /\ p_kept <$> made = [true; false; true].
Proof.
  destruct worker_run_done as (made & samples & Hrun & Hat). exists made, samples. rewrite Hrun. split; [done|].
  split; [|exact Hat].
  refine (proj1 (proj2 (worker_spaces_postings config clients worker_turns 0 shared_queue made
    samples worker_run.2 _ _ Hrun))).
  - by apply sound_ab; left.
  - apply refused_turns_ok; [by apply sound_ab; left|]. repeat constructor; cbn [fst snd]; try (unfold U64_MAX; lia).
    + apply idle_interferes.
    + apply deleting_interferes.
    + apply idle_interferes.
Defined.

Lemma failed_posts_are_paced_witness :
  exists made samples, worker_run.1 = Done (made, samples) /\ StronglySorted (Worker.paced config) made
    /\ Forall (Worker.timely config) made.
Proof.
  destruct worker_run_done as (made & samples & Hrun & _). exists made, samples. rewrite Hrun. split; [done|].
  exact (failed_posts_are_paced config clients worker_turns 0 shared_queue made samples
    worker_run.2 Hrun).
Defined.

(** A client deletes the head of the queue while the worker waits for it. *)
Definition woken : outcome (wait_end * Z) * queue :=
  wait_for_scheduled_entry 30 0 [Poll 1000 (fun q => q) false; Poll 1000 deleting false] shared_queue.

Lemma idle_clients : clients_only config (fun q => q).
Proof. intros q Hs. constructor. Qed.
Lemma deleting_clients : clients_only config deleting.
Proof.
  intros q Hs. eapply (clients_more config q q (QDel "0a1b2c3d") _ (deleting q)); [constructor| |done|apply surjective_pairing].
  split; [apply (so_now config q Hs)|done].
Qed.

Lemma changes_wake_the_worker_witness : woken.1 = Done (Again, 2000).
Proof.
  assert (Hd : exists e, woken.1 = Done (e, 2000)) by by eexists; vm_compute.
  destruct Hd as [e He]. rewrite He. do 2 f_equal.
  refine (changes_wake_the_worker config (wait_for_scheduled_entry 30) 30 0
    [Poll 1000 (fun q => q) false; Poll 1000 deleting false] shared_queue e 2000 woken.2
    _ _ _ (or_intror eq_refl) _ _).
  - by apply sound_ab; left.
  - constructor; [exact idle_clients|]. apply Forall_singleton. exact deleting_clients.
  - by repeat constructor.
  - rewrite <- He. exact (surjective_pairing woken).
  - left. by vm_compute.
Defined.

(** * The listener *)

Definition shown : list (t * Z) := [(entry_a None, 5); (entry_b, 70)].

Lemma list_reply_example :
  response_for_schedule shown = Some (Response.entries (all_pending shown)).
Proof.
  refine (list_reply_spec shown (print_response (Response.entries (all_pending shown))) _ _ eq_refl).
  - constructor; [typed|]. constructor; [typed|constructor].
  - by vm_compute.
Defined.

Definition page : HistoryPage.t :=
  HistoryPage.mk [HistoryRecordAt.mk past (HistoryPosition.mk 300 600)] (Some (HistoryPosition.mk 300 600)).

Lemma page_typed : Forall item_typed (HistoryPage.records page) /\ next_typed (HistoryPage.next page).
Proof. split; [|by vm_compute]. apply Forall_singleton. split; [typed|by vm_compute]. Qed.

Lemma history_reply_loses_nothing_witness :
  exists cursor, response_for_history page = Some (Response.history [history_entry past] cursor).
Proof.
  destruct (history_reply_loses_nothing page (proj1 page_typed) (proj2 page_typed))
    as [(taken & left_ & Hp & Hne & Hr & _)|[_ Hr]].
  - destruct taken as [|i taken]; [by rewrite (Hne eq_refl) in Hp|].
    rewrite Hr. injection Hp as <- Hnil. symmetry in Hnil. apply app_eq_nil in Hnil as [-> ->].
    eexists. reflexivity.
  - exfalso. assert (Hc : response_for_history page <> Some record_too_large) by by vm_compute.
    exact (Hc Hr).
Defined.

(** A wait that is told its entry's time and then that the daemon shuts down. *)
Definition waited : outcome (option string * stream) * queue :=
  handle_await config 0 [AwaitTurn false (fun q => q) [] 0 [Poll 0 (fun q => q) true]] "0a1b2c3d" (Stream [] []) 0 shared_queue.

Lemma waited_done : exists s, waited = (Done (Some "shutdown", s), waited.2) /\ length (st_sent s) = 2%nat.
Proof. eexists. split; by vm_compute. Qed.

Lemma await_streams_are_well_formed_witness :
  exists s etas last_, waited.1 = Done (Some "shutdown", s) /\ length (st_sent s) = 2%nat
    /\ Forall2 frame_of ((AwaitEvent.Waiting <$> etas) ++ last_) (st_sent s).
Proof.
  destruct waited_done as (s & Hrun & Hlen).
  destruct (await_streams_are_well_formed config 0 [AwaitTurn false (fun q => q) [] 0 [Poll 0 (fun q => q) true]]
    "0a1b2c3d" [] 0 shared_queue (Some "shutdown") s waited.2 Hrun) as (etas & last_ & Hf & _).
  exists s, etas, last_. rewrite Hrun. split; [done|]. split; [exact Hlen|exact Hf].
Defined.

Definition list_connection : connection := Connection (Ok (print_message Request.List)) None None.
Definition answered : outcome (bytes * result conn_error (ClientOutcome.t * option string)) * queue :=
  handle_client_inner config 0 0 list_connection shared_queue.

Lemma answered_done : exists written r, answered = (Done (written, r), answered.2).
Proof. do 2 eexists. by vm_compute. Qed.

Lemma client_replies_are_bounded_witness :
  exists written r, answered.1 = Done (written, r) /\ zlen written <= MAX_RESPONSE_BYTES.
Proof.
  destruct answered_done as (written & r & Hrun). exists written, r. rewrite Hrun. split; [done|].
  exact (proj1 (client_replies_are_bounded config 0 0 list_connection shared_queue written r answered.2 Hrun)).
Defined.

(** * The client against the daemon *)

Lemma log_servable : servable log.
Proof.
  assert (Hr : log_records log = [past]) by by vm_compute.
  constructor; [by vm_compute|rewrite Hr; apply Forall_singleton; typed|].
  intros r cursor b Hin Hc Hb. rewrite Hr in Hin. apply list_elem_of_singleton in Hin as ->.
  assert (Hty : history_entry_typed (history_entry past)) by typed.
  destruct (response_to_vec_total (Response.history [] cursor)) as [b0 Hb0]; [done|].
  rewrite (history_size [history_entry past] cursor [print_history_entry (history_entry past)] b0 b);
    [|by apply Forall_singleton|done|by constructor|done|done].
  pose proof (empty_history_size cursor b0 Hc Hb0).
  assert (Hp : zsum (zlen <$> [print_history_entry (history_entry past)])
               + separators [history_entry past] <= 1024) by by vm_compute.
  assert (Hm : 2048 <= MAX_RESPONSE_BYTES) by by vm_compute. lia.
Qed.

Lemma hist_prints_the_log_witness :
  run_history_pages (exchange config 0 0) (length log) (Some 1) 200 (queue_at (disk_a None) 200) (Out [] [])
  = (Some (Ok tt), queue_at (disk_a None) 200, Out [render_history (history_entry past) 200] []).
Proof.
  assert (Hr : printed_history (skipn (length (log_records log) - Z.to_nat 1)%nat (log_records log)) 200
               = [render_history (history_entry past) 200]) by by vm_compute.
  rewrite <- Hr.
  refine (hist_prints_the_log config 0 0 (queue_at (disk_a None) 200) log (Some 1) 200 [] log_servable _ _).
  - split; reflexivity.
  - split; [lia|]. split; [by vm_compute|]. apply small_log. by vm_compute.
Defined.

Definition list_reply : bytes := print_response (Response.entries (all_pending (shown_schedule config shared_queue))).

Lemma list_reply_small : (zlen list_reply <=? MAX_RESPONSE_BYTES) = true
  /\ zlen (print_message Request.List) <= MAX_REQUEST_BYTES
  /\ length (printed_list (shown_schedule config shared_queue)) = 2%nat.
Proof. split_and!; by vm_compute. Qed.

Lemma list_prints_the_queue_witness :
  exists printed, length printed = 2%nat
  /\ run (exchange config 0 0) (fun _ q o e => (Ok tt, q, o, e)) 0 Command.List 200 shared_queue (Out [] []) (Out [] [])
     = (Some (Ok tt), shared_queue, Out printed [], Out [] []).
Proof.
  destruct list_reply_small as (Hb & Hp & Hl). exists (printed_list (shown_schedule config shared_queue)).
  split; [exact Hl|].
  pose proof (list_prints_the_queue config 0 0 (fun _ q o e => (Ok tt, q, o, e)) 0 shared_queue
    (print_message Request.List) list_reply 200 [] (Out [] [])) as Hrun.
  rewrite Hb in Hrun. apply Hrun; [by vm_compute|by apply sound_ab; left|reflexivity|exact Hp|reflexivity].
Defined.

Definition frame (e : AwaitEvent.t) : bytes := print_event e ++ [NEWLINE].

Lemma await_ends_with_the_answer_witness :
  exists rs, await_with_writers
    (fun _ => Ok (WaitPeer None None false
       (Incoming (frame (AwaitEvent.Waiting 90) ++ frame (AwaitEvent.Posted url)) None) [1; 40]))
    false ["socket"] "0a1b2c3d" (Out [] []) (Out [] [])
  = (Ok tt, Out [chars url] [], Out (render_remaining <$> 90 :: rs) []).
Proof.
  destruct (await_ends_with_the_answer "0a1b2c3d" (print_message (Request.Await "0a1b2c3d")) [90]
    (AwaitEvent.Posted url) [frame (AwaitEvent.Waiting 90); frame (AwaitEvent.Posted url)] [1; 40] [] [])
    as (rs & Hrun & _ & Hhead).
  - reflexivity.
  - by vm_compute.
  - constructor; [|constructor; [|constructor]]; (eexists; split; [reflexivity|split; [done|by vm_compute]]).
  - constructor; [by vm_compute|]. constructor; [by eexists; vm_compute|constructor].
  - done.
  - done.
  - cbn [timely]. unfold CLIENT_REPLY_TIMEOUT, AWAIT_IDLE_TIMEOUT_SECS. lia.
  - destruct rs as [|r rs]; [done|]. injection Hhead as ->. exists rs. exact Hrun.
Defined.

(** * Starting and supervising the daemon *)

(** Delays that double up to the cap. *)
#[export] Instance doubling : Backoff := {
  backoff_state := Z;
  backoff min := Z.min min BACKOFF_MAX_DELAY;
  next d := (Some d, Z.min (2 * d) BACKOFF_MAX_DELAY);
}.

Lemma doubling_at_least n : forall d, 0 <= d <= BACKOFF_MAX_DELAY ->
  d <= advance n d <= BACKOFF_MAX_DELAY.
Proof.
  unfold BACKOFF_MAX_DELAY. induction n as [|n IH]; intros d Hd; cbn [advance next doubling snd]; [lia|].
  specialize (IH (Z.min (2 * d) BACKOFF_MAX_DELAY)). unfold BACKOFF_MAX_DELAY in *. lia.
Qed.

#[export] Instance doubling_ok : BackoffOk.
Proof.
  constructor; [intros min n; by eexists|].
  intros min n d Hmin [= <-]. cbn [backoff doubling].
  apply doubling_at_least. unfold BACKOFF_MAX_DELAY. lia.
Qed.

(** Two short failures, a stable run that panics, and a clean end. *)
Definition runs : list task_run :=
  [TaskRun 10 InnerError false; TaskRun 20 InnerError false; TaskRun 70000 JoinError false;
   TaskRun 5 Finished false].

Lemma restarts_are_paced_witness :
  exists logs, supervised 100 runs = (logs, 4%nat, Supervisor.Completed)
    /\ selected_delay <$> logs = [100; 200; 100] /\ restart_attempt <$> logs = [1; 2; 3].
Proof.
  destruct (supervised 100 runs) as [[logs spawned] ended] eqn:Hrun.
  destruct (restarts_are_paced 100 runs logs spawned ended) as (_ & Hd & _ & Ha & Hs);
    [lia|by vm_compute|exact Hrun|].
  exists logs. rewrite Hd, Ha. injection Hrun as <- <- <-. split_and!; by vm_compute.
Defined.

Definition token_files (p : string) : result io_error bytes :=
  if decide (p = "/run/creds/first") then Ok (bytes_of "alpha" ++ [NEWLINE])
  else if decide (p = "/run/creds/second") then Ok (bytes_of "beta")
  else Err (IoError NotFound "no such file").
Definition environment (v : string) : option string :=
  if decide (v = "CREDENTIALS_DIRECTORY") then Some "/run/creds" else None.
Definition rotating : DaemonConfig.t :=
  DaemonConfig.mk (chars "inline") None ["${CREDENTIALS_DIRECTORY}/first"; "/run/creds/second"]
    "/run/comenq/comenq.sock" "/var/lib/comenq/queue" 960 0 100 30.
Definition no_overrides : CliArgs.t := CliArgs.mk "/etc/comenqd/config.toml" None None None None None None.
Definition pool_of_two : list NamedToken.t :=
  [NamedToken.mk "first" (chars "alpha"); NamedToken.mk "second" (chars "beta")].

Lemma resolved_pool_is_usable_witness :
  from_file_with_cli_and_tokens token_files environment (Ok rotating) no_overrides = Ok (rotating, pool_of_two)
  /\ usable pool_of_two.
Proof.
  assert (Hr : from_file_with_cli_and_tokens token_files environment (Ok rotating) no_overrides
               = Ok (rotating, pool_of_two)) by by vm_compute.
  split; [exact Hr|].
  exact (proj1 (resolved_pool_is_usable token_files environment rotating no_overrides rotating pool_of_two Hr)).
Defined.

(** A digest of the right length. *)
#[export] Instance zeros : Sha256 := { digest _ := repeat (byte_of 0) 32 }.

Definition started : outcome (result SupervisorError (list TokenClient.t * queue)) * world :=
  start (fun _ => Ok tt) None pool_of_two 200 (World (disk_ab (Some token)) [] 20).

Lemma pool_usable_two : usable pool_of_two.
Proof.
  split; [done|]. split; [constructor; [by vm_compute|constructor; [by vm_compute|constructor]]|].
  apply (bool_decide_unpack _). by vm_compute.
Qed.

Lemma daemon_starts_clean_witness :
  exists q, started
    = (Done (Ok ([TokenClient.new "first" "alpha"; TokenClient.new "second" "beta"], q)), q_world q)
    /\ claims (w_disk (q_world q)) = [].
Proof.
  destruct (daemon_starts_clean config (fun _ => Ok tt) None pool_of_two (disk_ab (Some token)) 20 200)
    as (Hok & _ & _).
  - by apply disk_ab_wf; right.
  - reflexivity.
  - exact now_u64.
  - intros p Hp. change (Some 50 = Some p) in Hp. injection Hp as <-. lia.
  - exact pool_usable_two.
  - destruct Hok as (q & Hrun & _ & Hcl & _); [by repeat constructor|]. exists q. split; [exact Hrun|exact Hcl].
Defined.

(** The process dies in the fourteenth call of a completion, and the daemon starts. *)
Definition dying : list (option fault) := repeat None 13 ++ [Some (Crash 0)].
Definition died : outcome unit * world :=
  complete_claim_with_token (entry_a (Some token)) "hash" 200 (Some url) (World (disk_ab (Some token)) dying 20).

Lemma dying_genuine : genuine dying.
Proof. repeat constructor. Qed.

Lemma died_durable : died.1 = Crashed /\ dget (w_disk died.2) COMPLETION_FILE <> None.
Proof. split; by vm_compute. Qed.

Lemma restart_finishes_the_post_witness :
  exists q, open_queue 300 (World (w_disk died.2) [] 40) = (Done q, q_world q)
    /\ StoredEntry.id <$> entries_of (d_entries (w_disk (q_world q))) = ["deadbeef"]
    /\ marker (w_disk (q_world q)) LAST_POST_FILE = Some 200.
Proof.
  destruct (restart_finishes_the_post config (disk_ab (Some token)) 200 (entry_a (Some token)) "hash" 200 (Some url)
    dying 20 died.1 died.2) as [(_ & _ & _ & _ & _ & Hc)|(k & Hk)].
  - by apply safe_ab; right.
  - lia.
  - exact completable_ab.
  - exact dying_genuine.
  - apply surjective_pairing.
  - exfalso. apply (proj2 died_durable). rewrite (proj2 Hc). reflexivity.
  - destruct (Hk (w_disk died.2) 40%nat 300 (interrupted_nil _)) as (q & Hopen & _ & _ & Hf & _ & Hm); [lia|by vm_compute|].
    exists q. split; [exact Hopen|]. split; [|exact Hm].
    rewrite (reclaimed_ids _ _ Hf). by vm_compute.
Defined.

(** * The socket *)

Definition run_tree : gmap (list string) fnode := <[["/"; "run"] := FDir 493]> (<[["/"] := FDir 493]> ∅).
Definition socket_path : list string := path_components "/run/comenq/comenq.sock".
Definition prepared_socket : option (result setup_error unit) * setup :=
  prepare_listener 18 socket_path (Setup run_tree [] 0).

Lemma socket_is_never_exposed_witness :
  prepared_socket.1 = Some (Ok tt)
  /\ s_tree prepared_socket.2 !! ["/"; "run"; "comenq"; "comenq.sock"] = Some (FSocket SOCKET_MODE)
  /\ s_tree prepared_socket.2 !! ["/"; "run"; "comenq"] = Some (FDir SOCKET_PARENT_MODE).
Proof.
  assert (Hok : prepared_socket.1 = Some (Ok tt)) by by vm_compute.
  destruct (socket_is_never_exposed 18 socket_path ["/"; "run"; "comenq"] "comenq.sock" run_tree [] 0
    prepared_socket.1 prepared_socket.2) as (k & _ & _ & Hdone & _);
    [by vm_compute|by vm_compute|done|apply surjective_pairing|].
  destruct (Hdone Hok) as (Hsock & _). split; [exact Hok|]. split; [exact Hsock|by vm_compute].
Defined.

(** * Metric labels *)

Definition recorded : outcome (option transaction) * queue :=
  handle_client_with_control config 0 0 0 [] [] 0 list_connection shared_queue.

Lemma recorded_done :
  exists x, recorded = (Done (Some x), recorded.2) /\ x_outcome x = "accepted" /\ x_error_kind x = None.
Proof. eexists. split_and!; by vm_compute. Qed.

