(* ===== verification/SuperviseSamples.v ===== *)
(** A worker that fails twice and is stopped; a daemon that is told to stop while its
    worker waits for a restart. *)

From S2P Require Import Prelude Text Tokens Protocol Disk Entry Order Bounds Scan Capacity Writes.
From S2P Require Import Schedule History Store Readers DiskState Claims Edits Enqueue Lines Reverse.
From S2P Require Import Log Pages Append Recovery Completion Trace Queue Waits Shared Output Args Supervisor.
From S2P Require Import Recorder Supervise Credentials Startup Process Codec Json Samples Witnesses.

(** Polls every [ms] milliseconds. *)
Definition quiet (ms : Z) : sup_poll := SupPoll (Z.to_N (ms * MILLIS)) None true.
Definition failing (ms : Z) : sup_poll := SupPoll (Z.to_N (ms * MILLIS)) (Some (TaskInner "store unavailable")) true.

Definition failing_polls : list (bool * sup_poll) :=
  [(false, quiet 0); (false, failing 5); (false, quiet 0); (false, quiet 100); (false, quiet 0);
   (false, failing 7); (false, quiet 0); (false, quiet 150); (true, quiet 10)].
Definition failing_run : list sup_event * supervisor :=
  poll_all 100 "worker" failing_polls (initial 100 0).

Lemma restarts_wait_their_delay_witness :
  selected_delay <$> restarts_of failing_run.1 = [100; 200] /\ spawns_of failing_run.1 = [105 * MILLIS]
  /\ restart_attempt <$> restarts_of failing_run.1 = [1; 2] /\ u_phase failing_run.2 = Over StoppedWaiting.
Proof.
  destruct (restarts_wait_their_delay 100 "worker" failing_polls 0 failing_run.1 failing_run.2)
    as (Ha & Hd & _ & _).
  - lia.
  - by vm_compute.
  - apply surjective_pairing.
  - rewrite Hd, Ha. split_and!; by vm_compute.
Defined.

(** * The daemon *)

(** A client deletes a comment before the signal arrives; after that the tasks stop. *)
Definition idly (p : daemon_poll) : run_poll := RunPoll (fun q => q) p.
Definition told_polls : list run_poll :=
  [RunPoll deleting (PollListener (quiet 0)); idly (PollWorker (failing 0));
   idly (PollSignals (SigPoll true true false false)); idly (PollWorker (quiet 0));
   idly (PollSignals (SigPoll true true false true))].
Definition closing_polls : list run_poll :=
  idly <$> [PollWorker (quiet 1); PollListener (quiet 1); PollListener (quiet 0); PollListener (quiet 0);
   PollListener (quiet 101); PollWorker (quiet 0); PollWorker (quiet 0); PollWorker (quiet 101)].
Definition usual_host : host := Host (Ok tt) (Err "address in use") None None.
Definition config_file (p : string) : result OrthoError (option DaemonConfig.t) :=
  if decide (p = "/etc/comenqd/config.toml") then Ok (Some rotating) else Ok None.

Lemma closing_enough :
  enough (listener_polls (task_poll <$> closing_polls)) /\ enough (worker_polls (task_poll <$> closing_polls)).
Proof.
  split; eexists [_; _; _], [_]; (split; [reflexivity|]); (split; [reflexivity|]); by vm_compute.
Qed.

Lemma told_by_signal : told (signal_polls (task_poll <$> told_polls)).
Proof. left. right. left. reflexivity. Qed.

Lemma polls_interfere : Forall (fun p => interference config (task_work p)) (told_polls ++ closing_polls).
Proof.
  pose proof deleting_interferes. pose proof idle_interferes. repeat (constructor; [done|]). constructor.
Qed.

Definition told_daemon : list main_log * (outcome (result main_error (daemon * queue)) * world) :=
  daemon_main (fun _ => Ok tt) (load_with_tokens token_files environment config_file (fun c => c) Ok) usual_host
    no_overrides 200 0 (told_polls ++ closing_polls) (World (disk_ab (Some token)) [] 20).

Lemma daemon_runs_until_told_witness :
  exit_status told_daemon.2.1 = Some 0
  /\ StoredEntry.id <$> entries_of (d_entries (w_disk told_daemon.2.2)) = ["deadbeef"]
  /\ (exists q n q', claims (w_disk (q_world q)) = [] /\ ran config n q q' /\ told_daemon.2.2 = q_world q')
  /\ exit_status (daemon_main (fun _ => Ok tt)
       (load_with_tokens token_files environment config_file (fun c => c) Ok)
       usual_host (CliArgs.mk "/missing.toml" None None None None None None) 200 0 told_polls
       (World (disk_ab (Some token)) [] 20)).2.1 = Some 1.
Proof.
  assert (Hload : load_with_tokens token_files environment config_file (fun c => c) Ok no_overrides
                  = Ok (rotating, pool_of_two)) by by vm_compute.
  assert (Hmissing : exists e, load_with_tokens token_files environment config_file (fun c => c) Ok
    (CliArgs.mk "/missing.toml" None None None None None None) = Err e) by (eexists; by vm_compute).
  destruct (daemon_runs_until_told config (fun _ => Ok tt) token_files environment config_file (fun c => c) Ok
    usual_host no_overrides 200 0 told_polls closing_polls (disk_ab (Some token)) 20) as (_ & _ & _ & Hrun).
  destruct (Hrun rotating pool_of_two eq_refl eq_refl Hload) as [_ Hok].
  destruct (Hok ltac:(by repeat constructor)) as [_ Hstart].
  destruct Hstart as (q & _ & _ & Hcl & _ & Hq & Hexit).
  - by apply disk_ab_wf; right.
  - reflexivity.
  - exact now_u64.
  - intros p Hp. change (Some 50 = Some p) in Hp. injection Hp as <-. lia.
  - destruct (Hq polls_interfere) as (n & q' & Hw & Hr & _).
    pose proof (Hexit eq_refl told_by_signal (proj1 closing_enough) (proj2 closing_enough)) as Hzero.
    split; [exact Hzero|].
    split; [by vm_compute|]. split; [exists q, n, q'; exact (conj Hcl (conj Hr Hw))|].
    destruct Hmissing as [e He]. unfold daemon_main. cbn [usual_host h_hook h_exporter h_loading]. by rewrite He.
Defined.
