(* ===== verification/DrainSamples.v ===== *)
(** A worker that posts a queue of two comments with a pool of two tokens. *)

From S2P Require Import Prelude Text Tokens Protocol Disk Entry Wire Order Bounds Scan Capacity Writes.
From S2P Require Import Schedule History Store Readers DiskState Claims Edits Sound Enqueue Lines Reverse.
From S2P Require Import Log Pages Append Recovery Completion Faults Resume Life Trace Queue Waits Shared.
From S2P Require Import Worker Drain Codec Json WireCodec Samples LifeSamples ToldSamples.

(** Time passes, and nothing else. *)
Definition ticking (z : Z) (q : queue) : queue :=
  Queue (q_world q) (await_schedule q) (state_version q) (Z.max (q_now q) z) (q_permit q).

Lemma ticking_sound z q : is_u64 z -> sound config q -> sound config (ticking z q).
Proof.
  intros Hz [Hf Hn [Hwf Hc Hclk] Hca]. constructor; try done; [cbn; by apply max_u64|].
  constructor; try done. cbn. intros p Hp. apply Hclk in Hp. lia.
Qed.
Lemma ticking_passes z : is_u64 z -> passes config z (ticking z).
Proof. intros Hz q Hs Hle. split; [by apply ticking_sound|]. split; [done|]. cbn. lia. Qed.
Lemma ticking_idles z z' : is_u64 z -> z <= z' -> idles config z' (ticking z).
Proof. intros Hz Hzz q Hs Hle. split; [by apply ticking_sound|]. split; [done|]. cbn. lia. Qed.

Definition pool : list TokenClient.t := [TokenClient.mk "first" "hash"; TokenClient.mk "second" "other"].
Definition deliveries : list delivery := [Delivery 200 205 url; Delivery 400 401 url].

(** The first reply comes after a poll without one. *)
Definition turns : list turn :=
  [Turn 5 (ticking 200) 5 [Answer 1000 (ticking 202) None; Answer 1000 (ticking 205) (Some (Ok url))] 5 (fun q => q) [];
   Turn 5 (ticking 400) 5 [Answer 1000 (ticking 401) (Some (Ok url))] 5 (fun q => q) []].

Definition two_queued : queue := queue_at (disk_ab None) 200.

Lemma turns_deliver : Forall2 (delivers config) turns deliveries.
Proof.
  constructor; [|constructor; [|constructor]]; (constructor; [by apply ticking_passes|]).
  - exists [Answer 1000 (ticking 202) None], (Answer 1000 (ticking 205) (Some (Ok url))), [].
    split_and!; [done|done|by apply ticking_passes| |by vm_compute]. apply Forall_singleton.
    split; [done|]. by apply ticking_idles.
  - exists [], (Answer 1000 (ticking 401) (Some (Ok url))), [].
    split_and!; [done|done|by apply ticking_passes|constructor|by vm_compute].
Qed.

Lemma pool_recordable e x :
  dl_url x = url -> e = entry_a None \/ e = entry_b -> recordable pool e x.
Proof.
  intros Hu He. split; [rewrite Hu; by eexists; vm_compute|]. rewrite Hu.
  intros client k b Hc <-%(inj Some). rewrite record_width.
  change (HistoryRecord.attempt_id (posted_record _ _ _ _ k)) with (uuid k). rewrite uuid_width.
  pose proof (u64_to_bytes_length (HistoryRecord.posted_at (posted_record e (TokenClient.hash client) (dl_finished x) (Some url) k))).
  apply elem_of_cons in Hc as [->|Hc]; [|apply list_elem_of_singleton in Hc as ->]; destruct He as [-> | ->];
  match goal with |- 38 + _ + ?z - 3 < _ =>
    assert (Hz : z <= 1000) by (by vm_compute) end; unfold MAX_HISTORY_LINE_BYTES; lia.
Qed.

Lemma two_queued_rested : rested config two_queued.
Proof.
  constructor.
  - by apply sound_ab; left.
  - apply (sn_intact true beginning), sane_beginning.
  - unfold claims. cbn [two_queued queue_at q_world world_of_disk w_disk disk_ab d_entries].
    rewrite (proj2 (entries_ab_wf None (or_introl eq_refl))). by vm_compute.
  - reflexivity.
  - apply short_boundary_free. repeat constructor. by vm_compute.
  - apply tail_ok_closed. right. by vm_compute.
Qed.

Lemma worker_empties_the_queue_witness :
  exists made samples q', worker_loop config pool turns 0 two_queued = (Done (made, samples), q')
    /\ entries_of (d_entries (w_disk (q_world q'))) = []
    /\ p_hash <$> made = ["other"; "hash"].
Proof.
  pose proof (proj2 (entries_ab_wf None (or_introl eq_refl))) as Hq.
  destruct (worker_empties_the_queue config pool turns deliveries 0 two_queued)
    as (made & samples & q' & Hrun & _ & Hq' & _ & Hh & _).
  - done.
  - repeat constructor; by eexists; vm_compute.
  - exact two_queued_rested.
  - exact turns_deliver.
  - cbn [two_queued queue_at q_world world_of_disk w_disk disk_ab d_entries]. rewrite Hq.
    cbn [on_schedule deliveries]. split_and!;
      [by vm_compute|by vm_compute|by vm_compute|apply pool_recordable; [reflexivity|by left]|
       by vm_compute|by vm_compute|by vm_compute|apply pool_recordable; [reflexivity|by right]|exact I].
  - by vm_compute.
  - by vm_compute.
  - exists made, samples, q'. split; [exact Hrun|]. split; [|rewrite Hh; by vm_compute].
    rewrite Hq'. cbn [two_queued queue_at q_world world_of_disk w_disk disk_ab d_entries]. by rewrite Hq.
Defined.
